(** * The Conventional Commits recogniser of [parser/machine.go]

    A shallow embedding of the Ragel-generated goto machine behind
    the [Parse] method of [machine], with the properties of its specification.

    The Go source is a single function made of labels ([stN], [stCaseN],
    [trN], [_testEofN], [_testEof], [_out]) connected by [goto].  The
    embedding keeps that shape: [stCase] is the byte dispatch found under
    each [stCaseN] label, [exec] is the action block found under each
    [trN] label, [st] is the prologue found under each [stN] label
    (to-state action, [p++], end-of-input test), [eofActions] is the
    [switch m.cs] under [_testEof], and [run] follows the [goto]s.

    Go's [int] is 64 bits wide; every cursor stays within
    [-1 .. len(input)+1], so cursors are plain [Z] and no wrap-around can
    occur.  A run-time panic (index or slice out of range) is modelled by
    [None]. *)

From Stdlib Require Import ZArith Lia Bool ZifyBool.
From Stdlib Require Import Strings.Byte Strings.Ascii Strings.String DecimalString.
From stdpp Require Import gmap strings list fin_maps.

Local Open Scope Z_scope.

(** ** Bytes and Go strings *)

(** The numeric value of a [uint8]. *)
Definition code (b : byte) : Z := Z.of_N (Byte.to_N b).

(** [string(bs)] for a byte slice [bs]: a Go string is its bytes. *)
Definition gostring (bs : list byte) : string := string_of_list_byte bs.

(** [string(b)] for a single [byte] [b]: Go converts an integer to the
    UTF-8 encoding of the code point with that value, hence two bytes from
    0x80 upwards. *)
Definition string_of_rune (b : byte) : string :=
  let n := Byte.to_N b in
  if (n <? 128)%N then String (ascii_of_byte b) EmptyString
  else String (ascii_of_N (192 + n / 64))
         (String (ascii_of_N (128 + n mod 64)) EmptyString).

(** [bytes.ToLower] on one byte of ASCII text. *)
Definition lower_byte (b : byte) : byte :=
  let n := Byte.to_N b in
  if ((65 <=? n) && (n <=? 90))%N
  then match Byte.of_N (n + 32) with Some b' => b' | None => b end
  else b.

(** [bytes.ToLower].  The model is Go's ASCII fast path; the machine only
    calls it on a trailer token, whose bytes are letters, digits, ['-'] and
    the space of [BREAKING CHANGE]. *)
Definition ToLower (bs : list byte) : list byte := map lower_byte bs.

(** ** [fmt.Errorf] for the verbs the diagnostics use *)

Module Fmt.

Inductive arg : Type :=
| Str (s : string)
| Int (z : Z).

(** Decimal digits of a natural number. *)
Definition digits (n : N) : string := NilZero.string_of_uint (N.to_uint n).

(** The verb [%02d]: decimal, padded with zeros to a width of two (the
    sign counts for the width). *)
Definition pad2 (z : Z) : string :=
  if z <? 0 then String "-" (digits (Z.to_N (- z)))
  else if z <? 10 then String "0" (digits (Z.to_N z))
  else digits (Z.to_N z).

(** [Sprintf] restricted to [%s] and [%02d].  Every call site of the
    machine passes exactly the operands its template names; a verb left
    without a matching operand is rendered as Go's [%!v(MISSING)]
    marker. *)
Fixpoint Sprintf (t : string) (args : list arg) : string :=
  match t with
  | EmptyString => EmptyString
  | String "%" (String "s" t') =>
      match args with
      | Str s :: rest => s +:+ Sprintf t' rest
      | _ => "%!s(MISSING)" +:+ Sprintf t' (tail args)
      end
  | String "%" (String "0" (String "2" (String "d" t'))) =>
      match args with
      | Int z :: rest => pad2 z +:+ Sprintf t' rest
      | _ => "%!d(MISSING)" +:+ Sprintf t' (tail args)
      end
  | String c t' => String c (Sprintf t' args)
  end.

End Fmt.

(** ColumnPositionTemplate is the template used to communicate the column
    where errors occur (a package variable; its initial value). *)
Definition ColumnPositionTemplate : string := ": col=%02d".

Definition ErrType : string := "illegal '%s' character in commit message type".
Definition ErrTypeIncomplete : string :=
  "incomplete commit message type after '%s' character".
Definition ErrColon : string := "expecting colon (':') character, got '%s' character".
Definition ErrScope : string := "illegal '%s' character in scope".
Definition ErrScopeIncomplete : string :=
  "expecting closing parentheses (')') character, got early exit after '%s' character".
Definition ErrEmpty : string := "empty input".
Definition ErrEarly : string := "early exit after '%s' character".
Definition ErrDescriptionInit : string :=
  "expecting at least one white-space (' ') character, got '%s' character".
Definition ErrDescription : string :=
  "expecting a description text (without newlines) after '%s' character".
Definition ErrNewline : string := "illegal newline".
Definition ErrMissingBlankLineAtBeginning : string := "missing a blank line".
Definition ErrTrailer : string := "illegal '%s' character in trailer".
Definition ErrTrailerIncomplete : string := "incomplete footer trailer after '%s' character".

Definition start : Z := 1.
Definition firstFinal : Z := 85.
Definition enTrailerBeg : Z := 87.
Definition enTrailerEnd : Z := 33.
Definition enBody : Z := 34.
Definition enMain : Z := 1.
Definition enConventionalTypesMain : Z := 35.
Definition enFreeFormTypesMain : Z := 76.

(** ** The machine and the record it fills *)

(** The three dialects ([conventionalcommits.TypeConfig]); [Parse] treats
    [TypesMinimal] and any other value alike. *)
Inductive TypeConfig : Type :=
| TypesMinimal
| TypesConventional
| TypesFreeForm.

(** The record under construction ([conventionalCommit]); [footers] is a
    Go [map[string][]string]. *)
Record conventionalCommit : Type := mkCommit {
  _type : string;
  scope : string;
  descr : string;
  exclamation : bool;
  body : string;
  footers : gmap string (list string)
}.

(** [&conventionalCommit{}] followed by [make(map[string][]string)]. *)
Definition emptyCommit : conventionalCommit :=
  mkCommit EmptyString EmptyString EmptyString false EmptyString ∅.

(** Modelled from the spec: [minimal()] belongs to the record builder, which
    is not part of the source at hand; it "returns true iff both type and
    description are non-empty". *)
Definition minimal (o : conventionalCommit) : bool :=
  negb (String.eqb (_type o) EmptyString) && negb (String.eqb (descr o) EmptyString).

(** Modelled from the spec: [export()] also belongs to the record builder;
    it hands the populated fields to the caller, here the record itself. *)
Definition export (o : conventionalCommit) : conventionalCommit := o.

(** The [machine] struct.  [logger] is [None] for a nil [*logrus.Logger];
    otherwise it holds the diagnostics handed to [Errorln], latest first.
    Info and debug records have no influence on the machine and are left
    out. *)
Record machine : Type := mkMachine {
  data : list byte;
  cs : Z;
  p : Z;
  pe : Z;
  eof : Z;
  pb : Z;
  err : option string;
  bestEffort : bool;
  typeConfig : TypeConfig;
  logger : option (list string);
  currentFooterKey : string;
  countNewlines : Z;
  lastNewline : Z
}.

(** The two objects the body of [Parse] works on: the receiver [m] and the
    local [output]. *)
Record conf : Type := mkConf {
  m : machine;
  output : conventionalCommit
}.

Definition set_cs (v : Z) (c : conf) : conf :=
  let x := m c in
  mkConf (mkMachine (data x) v (p x) (pe x) (eof x) (pb x) (err x) (bestEffort x)
            (typeConfig x) (logger x) (currentFooterKey x) (countNewlines x) (lastNewline x))
         (output c).

Definition set_p (v : Z) (c : conf) : conf :=
  let x := m c in
  mkConf (mkMachine (data x) (cs x) v (pe x) (eof x) (pb x) (err x) (bestEffort x)
            (typeConfig x) (logger x) (currentFooterKey x) (countNewlines x) (lastNewline x))
         (output c).

Definition set_pb (v : Z) (c : conf) : conf :=
  let x := m c in
  mkConf (mkMachine (data x) (cs x) (p x) (pe x) (eof x) v (err x) (bestEffort x)
            (typeConfig x) (logger x) (currentFooterKey x) (countNewlines x) (lastNewline x))
         (output c).

Definition set_err (v : option string) (c : conf) : conf :=
  let x := m c in
  mkConf (mkMachine (data x) (cs x) (p x) (pe x) (eof x) (pb x) v (bestEffort x)
            (typeConfig x) (logger x) (currentFooterKey x) (countNewlines x) (lastNewline x))
         (output c).

Definition set_logger (v : option (list string)) (c : conf) : conf :=
  let x := m c in
  mkConf (mkMachine (data x) (cs x) (p x) (pe x) (eof x) (pb x) (err x) (bestEffort x)
            (typeConfig x) v (currentFooterKey x) (countNewlines x) (lastNewline x))
         (output c).

Definition set_currentFooterKey (v : string) (c : conf) : conf :=
  let x := m c in
  mkConf (mkMachine (data x) (cs x) (p x) (pe x) (eof x) (pb x) (err x) (bestEffort x)
            (typeConfig x) (logger x) v (countNewlines x) (lastNewline x))
         (output c).

Definition set_countNewlines (v : Z) (c : conf) : conf :=
  let x := m c in
  mkConf (mkMachine (data x) (cs x) (p x) (pe x) (eof x) (pb x) (err x) (bestEffort x)
            (typeConfig x) (logger x) (currentFooterKey x) v (lastNewline x))
         (output c).

Definition set_lastNewline (v : Z) (c : conf) : conf :=
  let x := m c in
  mkConf (mkMachine (data x) (cs x) (p x) (pe x) (eof x) (pb x) (err x) (bestEffort x)
            (typeConfig x) (logger x) (currentFooterKey x) (countNewlines x) v)
         (output c).

Definition set_output (o : conventionalCommit) (c : conf) : conf := mkConf (m c) o.

(** [bs[i]]; out of range is a panic. *)
Definition at_index (bs : list byte) (i : Z) : option byte :=
  if 0 <=? i then bs !! Z.to_nat i else None.

(** [m.data[lo:hi]]; Go requires [0 <= lo <= hi <= cap(m.data)] and the
    model takes the capacity to be the length. *)
Definition slice (bs : list byte) (lo hi : Z) : option (list byte) :=
  if (0 <=? lo) && (lo <=? hi) && (hi <=? Z.of_nat (length bs))
  then Some (take (Z.to_nat (hi - lo)) (drop (Z.to_nat lo) bs))
  else None.

(** [m.text()]. *)
Definition text (c : conf) : option (list byte) :=
  slice (data (m c)) (pb (m c)) (p (m c)).

(** [m.emitError(s, args...)]: formats, hands the diagnostic to the logger
    when there is one, and returns it. *)
Definition emitError (s : string) (args : list Fmt.arg) (c : conf) : string * conf :=
  let e := Fmt.Sprintf (s +:+ ColumnPositionTemplate) args in
  (e, match logger (m c) with
      | Some sink => set_logger (Some (e :: sink)) c
      | None => c
      end).

Definition emitErrorWithoutCharacter (messageTemplate : string) (c : conf)
  : string * conf :=
  emitError messageTemplate [Fmt.Int (p (m c))] c.

Definition emitErrorOnCurrentCharacter (messageTemplate : string) (c : conf)
  : option (string * conf) :=
  b ← at_index (data (m c)) (p (m c));
  Some (emitError messageTemplate [Fmt.Str (string_of_rune b); Fmt.Int (p (m c))] c).

Definition emitErrorOnPreviousCharacter (messageTemplate : string) (c : conf)
  : option (string * conf) :=
  b ← at_index (data (m c)) (p (m c) - 1);
  Some (emitError messageTemplate [Fmt.Str (string_of_rune b); Fmt.Int (p (m c))] c).

(** [m.err = e] for a freshly emitted diagnostic. *)
Definition record_err (r : string * conf) : conf := set_err (Some r.1) r.2.

(** ** The Ragel actions

    Named as in [machine.go.rl]; [machine.go] holds them inlined under the
    [trN] labels and in the end-of-input switch. *)

Definition upd_output (f : conventionalCommit → conventionalCommit) (c : conf) : conf :=
  set_output (f (output c)) c.

Definition with_type (v : string) (o : conventionalCommit) : conventionalCommit :=
  mkCommit v (scope o) (descr o) (exclamation o) (body o) (footers o).
Definition with_scope (v : string) (o : conventionalCommit) : conventionalCommit :=
  mkCommit (_type o) v (descr o) (exclamation o) (body o) (footers o).
Definition with_descr (v : string) (o : conventionalCommit) : conventionalCommit :=
  mkCommit (_type o) (scope o) v (exclamation o) (body o) (footers o).
Definition with_exclamation (v : bool) (o : conventionalCommit) : conventionalCommit :=
  mkCommit (_type o) (scope o) (descr o) v (body o) (footers o).
Definition with_body (v : string) (o : conventionalCommit) : conventionalCommit :=
  mkCommit (_type o) (scope o) (descr o) (exclamation o) v (footers o).
Definition with_footers (v : gmap string (list string)) (o : conventionalCommit)
  : conventionalCommit :=
  mkCommit (_type o) (scope o) (descr o) (exclamation o) (body o) v.

Definition mark (c : conf) : conf := set_pb (p (m c)) c.

Definition err_empty (c : conf) : conf :=
  record_err (emitErrorWithoutCharacter ErrEmpty c).

Definition err_type (c : conf) : option conf :=
  if 0 <? pe (m c) then
    if negb (p (m c) =? pe (m c))
    then record_err <$> emitErrorOnCurrentCharacter ErrType c
    else record_err <$> emitErrorOnPreviousCharacter ErrTypeIncomplete c
  else Some c.

Definition err_malformed_scope (c : conf) : option conf :=
  if p (m c) <? pe (m c)
  then record_err <$> emitErrorOnCurrentCharacter ErrScope c
  else Some c.

Definition err_malformed_scope_closing (c : conf) : option conf :=
  record_err <$> emitErrorOnPreviousCharacter ErrScopeIncomplete c.

Definition err_colon (c : conf) : option conf :=
  match err (m c) with
  | None => record_err <$> emitErrorOnCurrentCharacter ErrColon c
  | Some _ => Some c
  end.

Definition err_description_init (c : conf) : option conf :=
  match err (m c) with
  | None => record_err <$> emitErrorOnCurrentCharacter ErrDescriptionInit c
  | Some _ => Some c
  end.

Definition err_description (c : conf) : option conf :=
  isnl ← (if p (m c) <? pe (m c)
          then b ← at_index (data (m c)) (p (m c)); Some (code b =? 10)
          else Some false);
  if isnl : bool
  then Some (record_err (emitError ErrNewline [Fmt.Int (p (m c) + 1)] c))
  else record_err <$> emitErrorOnPreviousCharacter ErrDescription c.

Definition check_early_exit (c : conf) : option conf :=
  if p (m c) + 1 =? pe (m c)
  then record_err <$> emitErrorOnCurrentCharacter ErrEarly c
  else Some c.

Definition err_begin_blank_line (c : conf) : conf :=
  record_err (emitErrorWithoutCharacter ErrMissingBlankLineAtBeginning c).

Definition set_type (c : conf) : option conf :=
  t ← text c; Some (upd_output (with_type (gostring t)) c).

Definition set_scope (c : conf) : option conf :=
  t ← text c; Some (upd_output (with_scope (gostring t)) c).

Definition set_description (c : conf) : option conf :=
  t ← text c; Some (upd_output (with_descr (gostring t)) c).

Definition set_exclamation (c : conf) : conf :=
  upd_output (with_exclamation true) c.

Definition set_current_footer_key (c : conf) : option conf :=
  t ← text c;
  let k := gostring (ToLower t) in
  Some (set_currentFooterKey
          (if String.eqb k "breaking change" then "breaking-change" else k) c).

(** [output.footers[k] = append(output.footers[k], v)]; a missing key reads
    as the nil slice. *)
Definition append_footer (k v : string) (f : gmap string (list string))
  : gmap string (list string) :=
  <[k := default [] (f !! k) ++ [v]]> f.

Definition set_footer (c : conf) : option conf :=
  t ← text c;
  Some (upd_output
          (λ o, with_footers (append_footer (currentFooterKey (m c)) (gostring t) (footers o)) o)
          c).

Definition count_nl (c : conf) : conf :=
  set_lastNewline (p (m c)) (set_countNewlines (countNewlines (m c) + 1) c).

(** [n] line feeds. *)
Fixpoint newlines (n : nat) : string :=
  match n with
  | O => EmptyString
  | S k => String "010" (newlines k)
  end.

(** The loop [for m.countNewlines > 0] runs [countNewlines] times when that
    is positive and leaves the counter at zero; it does not run
    otherwise. *)
Definition append_body (c : conf) : option conf :=
  let n := countNewlines (m c) in
  let c1 := upd_output (λ o, with_body (body o +:+ newlines (Z.to_nat n)) o)
              (set_countNewlines (Z.min n 0) c) in
  t ← text c1;
  Some (upd_output (λ o, with_body (body o +:+ gostring t) o) c1).

(** Ends on Ragel's [fhold], the [p--]. *)
Definition append_body_before_blank_line (c : conf) : option conf :=
  let c1 := set_p (p (m c) + 1) (set_pb (pb (m c) + 1) c) in
  t ← text c1;
  Some (set_p (p (m c1) - 1) (upd_output (λ o, with_body (body o +:+ gostring t) o) c1)).

(** The condition guarding the body bytes; [&&] evaluates left to right and
    stops at the first false operand. *)
Definition blank_line_ahead (c : conf) : option bool :=
  if p (m c) + 2 <? pe (m c) then
    b1 ← at_index (data (m c)) (p (m c) + 1);
    if code b1 =? 10 then b2 ← at_index (data (m c)) (p (m c) + 2); Some (code b2 =? 10)
    else Some false
  else Some false.

(** Where control goes after a block: [goto stN], or [_out]. *)
Inductive flow : Type :=
| Goto (n : Z)
| Out.

(** [goto st0]. *)
Definition st0 (c : conf) : conf * flow := (set_cs 0 c, Out).

(** The [rewind] action.  In a transition it is followed by [goto st0];
    in the end-of-input switch by [_out] with [m.cs] left as it is: [halt]
    is that continuation. *)
Definition rewind (halt : conf → conf * flow) (c : conf) : option (conf * flow) :=
  if (size (footers (output c)) =? 0)%nat then
    let c1 := if 0 <? countNewlines (m c)
              then set_pb (lastNewline (m c) + 1) c else c in
    Some (set_p (pb (m c1) - 1) c1, Goto enBody)
  else
    halt <$> (if negb (p (m c) =? pe (m c))
              then record_err <$> emitErrorOnCurrentCharacter ErrTrailer c
              else record_err <$> emitErrorOnPreviousCharacter ErrTrailerIncomplete c).

(** ** Transitions *)

(** The [trN] labels of [machine.go]. *)
Inductive trans : Type :=
| tr0 | tr1 | tr6 | tr7 | tr10 | tr12 | tr13 | tr14 | tr15 | tr16 | tr17 | tr18
| tr20 | tr21 | tr22 | tr25 | tr26 | tr27 | tr35 | tr42 | tr44 | tr45 | tr46
| tr47 | tr48 | tr49 | tr50 | tr51 | tr52 | tr53 | tr58 | tr62 | tr63 | tr64
| tr65 | tr67 | tr89 | tr91 | tr95 | tr96 | tr97 | tr98 | tr100 | tr102 | tr103
| tr104 | tr105 | tr106 | tr108 | tr109 | tr110 | tr112 | tr114.

(** What a [stCaseN] block ends on: [goto stK] or [goto trK]. *)
Inductive target : Type :=
| goto_st (n : Z)
| goto_tr (t : trans).

(** [switch b { case k: goto t ... }] followed by the code after it. *)
Fixpoint switch (b : Z) (cases : list (Z * target)) (otherwise : target) : target :=
  match cases with
  | [] => otherwise
  | (k, t) :: rest => if b =? k then t else switch b rest otherwise
  end.

(** [if lo <= b && b <= hi { goto yes }] followed by the code after it. *)
Definition within (lo hi b : Z) (yes otherwise : target) : target :=
  if (lo <=? b) && (b <=? hi) then yes else otherwise.

(** The letter-or-digit test Ragel emits for [alnum]:
    [switch { case b < lo: if 48 <= b && b <= 57 { goto yes }
              case b > 90: if 97 <= b && b <= 122 { goto yes }
              default: goto yes }],
    followed by the code after it.  [lo] is 65, or 66 where ['A'] already
    has its own case. *)
Definition alnum (lo b : Z) (yes otherwise : target) : target :=
  if b <? lo then within 48 57 b yes otherwise
  else if 90 <? b then within 97 122 b yes otherwise
  else yes.

(** The test Ragel emits for a scope byte (printable, neither parenthesis):
    [switch { case b > 39: if 42 <= b && b <= 126 { goto yes }
              case b >= 32: goto yes }],
    followed by the code after it. *)
Definition scope_byte (b : Z) (yes otherwise : target) : target :=
  if 39 <? b then within 42 126 b yes otherwise
  else if 32 <=? b then yes else otherwise.

(** The widened test of the [body] states: [_widec = 256 + b], 256 more
    when a blank line is ahead; the plain byte range goes to [plain]. *)
Definition widec (b : Z) (ahead : bool) (plain otherwise : target) : target :=
  let _widec := 256 + (b - 0) in
  let _widec := if ahead then _widec + 256 else _widec in
  if (256 <=? _widec) && (_widec <=? 511) then plain else otherwise.

(** One keyword letter, in either case. *)
Definition letter (b upper : Z) (yes : target) : target :=
  switch b [(upper, yes); (upper + 32, yes)] (goto_tr tr0).

(** The trailer-token states share the cases for [' '], ['-'] and [':']. *)
Definition token (b : Z) (sp : trans) (more : list (Z * target)) (lo : Z) : target :=
  switch b ([(32, goto_tr sp); (45, goto_st 16); (58, goto_tr tr25)] ++ more)
    (alnum lo b (goto_st 14) (goto_tr tr21)).

(** The byte dispatch under each [stCaseN] label; [ahead] is the value of
    [blank_line_ahead], which only states 34 and 92 consult. *)
Definition stCase (n : Z) (b : Z) (ahead : bool) : target :=
  match n with
  | 1 => switch b [(70, goto_tr tr1); (102, goto_tr tr1)] (goto_tr tr0)
  | 2 => switch b [(69, goto_st 3); (73, goto_st 13); (101, goto_st 3); (105, goto_st 13)]
           (goto_tr tr0)
  | 3 => letter b 65 (goto_st 4)
  | 4 => letter b 84 (goto_st 5)
  | 5 => switch b [(33, goto_tr tr7); (40, goto_st 10); (58, goto_st 7)] (goto_tr tr6)
  | 6 => switch b [(58, goto_st 7)] (goto_tr tr6)
  | 7 => switch b [(32, goto_st 8)] (goto_tr tr10)
  | 8 => switch b [(10, goto_tr tr13); (32, goto_st 8)] (goto_tr tr12)
  | 85 => switch b [(10, goto_tr tr102)] (goto_st 85)
  | 9 => switch b [(10, goto_tr tr15)] (goto_tr tr14)
  | 86 => goto_st 0
  | 10 => switch b [(41, goto_tr tr18)] (scope_byte b (goto_tr tr17) (goto_tr tr16))
  | 11 => switch b [(41, goto_tr tr20)] (scope_byte b (goto_st 11) (goto_tr tr16))
  | 12 => switch b [(33, goto_tr tr7); (58, goto_st 7)] (goto_tr tr6)
  | 13 => letter b 88 (goto_st 5)
  | 33 => within 32 126 b (goto_tr tr42) (goto_st 0)
  | 90 => switch b [(10, goto_tr tr106)] (within 32 126 b (goto_st 90) (goto_st 0))
  | 91 => switch b [(10, goto_tr tr108)] (goto_st 0)
  | 34 => widec b ahead (goto_tr tr45) (goto_tr tr44)
  | 92 => widec b ahead (goto_tr tr110) (goto_tr tr109)
  | 35 => switch b
            [(66, goto_tr tr46); (67, goto_tr tr47); (68, goto_tr tr48); (70, goto_tr tr49);
             (80, goto_tr tr50); (82, goto_tr tr51); (83, goto_tr tr52); (84, goto_tr tr53);
             (98, goto_tr tr46); (99, goto_tr tr47); (100, goto_tr tr48); (102, goto_tr tr49);
             (112, goto_tr tr50); (114, goto_tr tr51); (115, goto_tr tr52); (116, goto_tr tr53)]
            (goto_tr tr0)
  | 36 => letter b 85 (goto_st 37)
  | 37 => letter b 73 (goto_st 38)
  | 38 => letter b 76 (goto_st 39)
  | 39 => letter b 68 (goto_st 40)
  | 40 => switch b [(33, goto_tr tr58); (40, goto_st 45); (58, goto_st 42)] (goto_tr tr6)
  | 41 => switch b [(58, goto_st 42)] (goto_tr tr6)
  | 42 => switch b [(32, goto_st 43)] (goto_tr tr10)
  | 43 => switch b [(10, goto_tr tr13); (32, goto_st 43)] (goto_tr tr62)
  | 93 => switch b [(10, goto_tr tr112)] (goto_st 93)
  | 44 => switch b [(10, goto_tr tr63)] (goto_tr tr14)
  | 94 => goto_st 0
  | 45 => switch b [(41, goto_tr tr65)] (scope_byte b (goto_tr tr64) (goto_tr tr16))
  | 46 => switch b [(41, goto_tr tr67)] (scope_byte b (goto_st 46) (goto_tr tr16))
  | 47 => switch b [(33, goto_tr tr58); (58, goto_st 42)] (goto_tr tr6)
  | 48 => switch b [(72, goto_st 49); (73, goto_st 40); (104, goto_st 49); (105, goto_st 40)]
            (goto_tr tr0)
  | 49 => letter b 79 (goto_st 50)
  | 50 => letter b 82 (goto_st 51)
  | 51 => letter b 69 (goto_st 40)
  | 52 => letter b 79 (goto_st 53)
  | 53 => letter b 67 (goto_st 54)
  | 54 => letter b 83 (goto_st 40)
  | 55 => switch b [(69, goto_st 56); (73, goto_st 58); (101, goto_st 56); (105, goto_st 58)]
            (goto_tr tr0)
  | 56 => letter b 65 (goto_st 57)
  | 57 => letter b 84 (goto_st 40)
  | 58 => letter b 88 (goto_st 40)
  | 59 => letter b 69 (goto_st 60)
  | 60 => letter b 82 (goto_st 61)
  | 61 => letter b 70 (goto_st 40)
  | 62 => letter b 69 (goto_st 63)
  | 63 => switch b [(70, goto_st 64); (86, goto_st 69); (102, goto_st 64); (118, goto_st 69)]
            (goto_tr tr0)
  | 64 => letter b 65 (goto_st 65)
  | 65 => letter b 67 (goto_st 66)
  | 66 => letter b 84 (goto_st 67)
  | 67 => letter b 79 (goto_st 68)
  | 68 => letter b 82 (goto_st 40)
  | 69 => letter b 69 (goto_st 70)
  | 70 => letter b 82 (goto_st 57)
  | 71 => letter b 84 (goto_st 72)
  | 72 => letter b 89 (goto_st 73)
  | 73 => letter b 76 (goto_st 51)
  | 74 => letter b 69 (goto_st 75)
  | 75 => letter b 83 (goto_st 57)
  | 76 => within 32 126 b (goto_tr tr89) (goto_tr tr0)
  | 77 => switch b [(33, goto_tr tr91); (40, goto_st 82); (58, goto_st 79)]
            (within 32 126 b (goto_st 77) (goto_tr tr6))
  | 78 => switch b [(58, goto_st 79)] (goto_tr tr6)
  | 79 => switch b [(32, goto_st 80)] (goto_tr tr10)
  | 80 => switch b [(10, goto_tr tr13); (32, goto_st 80)] (goto_tr tr95)
  | 95 => switch b [(10, goto_tr tr114)] (goto_st 95)
  | 81 => switch b [(10, goto_tr tr96)] (goto_tr tr14)
  | 96 => goto_st 0
  | 82 => switch b [(41, goto_tr tr98)] (scope_byte b (goto_tr tr97) (goto_tr tr16))
  | 83 => switch b [(41, goto_tr tr100)] (scope_byte b (goto_st 83) (goto_tr tr16))
  | 84 => switch b [(33, goto_tr tr91); (58, goto_st 79)] (goto_tr tr6)
  | 87 => switch b [(10, goto_tr tr103); (66, goto_tr tr105)]
            (alnum 65 b (goto_tr tr104) (goto_tr tr21))
  | 14 => token b tr22 [] 65
  | 15 => switch b [(35, goto_tr tr26)] (goto_tr tr21)
  | 88 => goto_st 0
  | 16 => alnum 65 b (goto_st 14) (goto_tr tr21)
  | 17 => switch b [(32, goto_tr tr27)] (goto_tr tr21)
  | 89 => switch b [(32, goto_tr tr27)] (goto_st 0)
  | 18 => token b tr22 [(82, goto_st 19)] 65
  | 19 => token b tr22 [(69, goto_st 20)] 65
  | 20 => token b tr22 [(65, goto_st 21)] 66
  | 21 => token b tr22 [(75, goto_st 22)] 65
  | 22 => token b tr22 [(73, goto_st 23)] 65
  | 23 => token b tr22 [(78, goto_st 24)] 65
  | 24 => token b tr22 [(71, goto_st 25)] 65
  | 25 => token b tr35 [] 65
  | 26 => switch b [(35, goto_tr tr26); (67, goto_st 27)] (goto_tr tr21)
  | 27 => switch b [(72, goto_st 28)] (goto_tr tr21)
  | 28 => switch b [(65, goto_st 29)] (goto_tr tr21)
  | 29 => switch b [(78, goto_st 30)] (goto_tr tr21)
  | 30 => switch b [(71, goto_st 31)] (goto_tr tr21)
  | 31 => switch b [(69, goto_st 32)] (goto_tr tr21)
  | 32 => switch b [(58, goto_tr tr25)] (goto_tr tr21)
  | _ => goto_st 0
  end.

(** [goto stN] at the end of a block; [st0] is the one label that leaves
    the loop. *)
Definition continue (n : Z) (c : conf) : conf * flow :=
  if n =? 0 then st0 c else (c, Goto n).

(** The action block under each [trN] label and the [goto] closing it. *)
Definition exec (t : trans) (c : conf) : option (conf * flow) :=
  match t with
  | tr0 => st0 <$> err_type c
  | tr6 => st0 <$> err_colon c
  | tr10 => st0 <$> err_description_init c
  | tr13 => st0 <$> err_description c
  | tr14 => Some (st0 (err_begin_blank_line c))
  | tr16 => st0 <$> err_malformed_scope c
  | tr21 => rewind st0 c
  | tr44 => c1 ← append_body c; Some (c1, Goto enTrailerBeg)
  | tr109 =>
      c1 ← append_body c;
      c2 ← append_body_before_blank_line c1;
      Some (c2, Goto enTrailerBeg)
  | tr1 => Some (mark c, Goto 2)
  | tr7 => Some (set_exclamation c, Goto 6)
  | tr12 => Some (mark c, Goto 85)
  | tr102 => c1 ← set_description c; Some (c1, Goto 9)
  | tr15 => Some (c, Goto enTrailerBeg)
  | tr17 => Some (mark c, Goto 11)
  | tr18 => c1 ← set_scope (mark c); Some (c1, Goto 12)
  | tr20 => c1 ← set_scope c; Some (c1, Goto 12)
  | tr42 => Some (mark c, Goto 90)
  | tr106 => c1 ← set_footer c; Some (count_nl c1, Goto enTrailerBeg)
  | tr108 => Some (count_nl c, Goto enTrailerBeg)
  | tr45 => Some (mark c, Goto 92)
  | tr110 => c1 ← append_body c; Some (mark c1, Goto 92)
  | tr46 => Some (mark c, Goto 36)
  | tr58 => Some (set_exclamation c, Goto 41)
  | tr62 => Some (mark c, Goto 93)
  | tr112 => c1 ← set_description c; Some (c1, Goto 44)
  | tr63 => Some (c, Goto enTrailerBeg)
  | tr64 => Some (mark c, Goto 46)
  | tr65 => c1 ← set_scope (mark c); Some (c1, Goto 47)
  | tr67 => c1 ← set_scope c; Some (c1, Goto 47)
  | tr47 => Some (mark c, Goto 48)
  | tr48 => Some (mark c, Goto 52)
  | tr49 => Some (mark c, Goto 55)
  | tr50 => Some (mark c, Goto 59)
  | tr51 => Some (mark c, Goto 62)
  | tr52 => Some (mark c, Goto 71)
  | tr53 => Some (mark c, Goto 74)
  | tr89 => Some (mark c, Goto 77)
  | tr91 => Some (set_exclamation c, Goto 78)
  | tr95 => Some (mark c, Goto 95)
  | tr114 => c1 ← set_description c; Some (c1, Goto 81)
  | tr96 => Some (c, Goto enTrailerBeg)
  | tr97 => Some (mark c, Goto 83)
  | tr98 => c1 ← set_scope (mark c); Some (c1, Goto 84)
  | tr100 => c1 ← set_scope c; Some (c1, Goto 84)
  | tr103 => Some (count_nl c, Goto 87)
  | tr104 => Some (mark c, Goto 14)
  | tr22 => c1 ← set_current_footer_key c; Some (c1, Goto 15)
  | tr26 => Some (c, Goto enTrailerEnd)
  | tr25 => c1 ← set_current_footer_key c; Some (c1, Goto 17)
  | tr27 => Some (c, Goto enTrailerEnd)
  | tr105 => Some (mark c, Goto 18)
  | tr35 => c1 ← set_current_footer_key c; Some (c1, Goto 26)
  end.

(** ** The labels *)

Definition among (n : Z) (l : list Z) : bool := existsb (Z.eqb n) l.

(** States entered through [check_early_exit] (a to-state action, placed
    at the top of [stN]). *)
Definition early_exit_states : list Z := [5; 6; 7; 12; 40; 41; 42; 47; 77; 78; 79; 84].

(** States left through [set_type] (a from-state action, placed at the top
    of [stCaseN]). *)
Definition type_states : list Z := [5; 40; 77].

(** States whose [stCaseN] is a bare [goto st0]. *)
Definition dead_states : list Z := [0; 86; 88; 94; 96].

(** The code from the label [stCaseN] to the end of the block it jumps to. *)
Definition atCase (n : Z) (c : conf) : option (conf * flow) :=
  if among n dead_states then Some (st0 c) else
  c1 ← (if among n type_states then set_type c else Some c);
  b ← at_index (data (m c1)) (p (m c1));
  ahead ← (if among n [34; 92] then blank_line_ahead c1 else Some false);
  match stCase n (code b) ahead with
  | goto_st k => Some (continue k c1)
  | goto_tr t => exec t c1
  end.

(** The code under [_testEof]: the end-of-input actions, selected by
    [m.cs]. *)
Definition eofActions (c : conf) : option (conf * flow) :=
  let n := cs (m c) in
  if negb (p (m c) =? eof (m c)) then Some (c, Out)
  else if among n [2; 3; 4; 13; 36; 37; 38; 39; 48; 49; 50; 51; 52; 53; 54; 55; 56; 57;
                   58; 59; 60; 61; 62; 63; 64; 65; 66; 67; 68; 69; 70; 71; 72; 73; 74; 75]
  then c1 ← err_type c; Some (c1, Out)
  else if among n [5; 6; 12; 40; 41; 47; 77; 78; 84]
  then c1 ← err_colon c; Some (c1, Out)
  else if among n [7; 42; 79]
  then c1 ← err_description_init c; Some (c1, Out)
  else if among n [8; 43; 80]
  then c1 ← err_description c; Some (c1, Out)
  else if among n [9; 44; 81]
  then Some (err_begin_blank_line c, Out)
  else if among n [85; 93; 95]
  then c1 ← set_description c; Some (c1, Out)
  else if among n [90]
  then c1 ← set_footer c; Some (c1, Out)
  else if among n [92]
  then c1 ← append_body c; Some (c1, Out)
  else if among n [14; 15; 16; 17; 18; 19; 20; 21; 22; 23; 24; 25; 26; 27; 28; 29; 30; 31; 32]
  then rewind (λ c1, (c1, Out)) c
  else if among n [1; 35; 76]
  then c1 ← err_type (err_empty c); Some (c1, Out)
  else if among n [10; 11; 45; 46; 82; 83]
  then c1 ← err_malformed_scope c; c2 ← err_malformed_scope_closing c1; Some (c2, Out)
  else if among n [34]
  then c1 ← append_body c; Some (c1, Goto enTrailerBeg)
  else Some (c, Out).

(** [_testEofN: m.cs = N; goto _testEof]. *)
Definition testEof (n : Z) (c : conf) : option (conf * flow) :=
  eofActions (set_cs n c).

(** The code from the label [stN] on: to-state action, [p++], then either
    [_testEofN] or [stCaseN]. *)
Definition st (n : Z) (c : conf) : option (conf * flow) :=
  c1 ← (if among n early_exit_states then check_early_exit c else Some c);
  let c2 := set_p (p (m c1) + 1) c1 in
  if p (m c2) =? pe (m c2) then testEof n c2 else atCase n c2.

(** How a run of the goto loop ends. *)
Inductive outcome : Type :=
| Done (c : conf)
| Panic
| OutOfFuel.

(** Follows the [goto]s from the label [stN], at most [fuel] of them. *)
Fixpoint run (fuel : nat) (n : Z) (c : conf) : outcome :=
  match fuel with
  | O => OutOfFuel
  | S k =>
      match st n c with
      | None => Panic
      | Some (c', Out) => Done c'
      | Some (c', Goto n') => run k n' c'
      end
  end.

(** ** [NewMachine] and [Parse] *)

(** [NewMachine()] with no option: the zero value of the struct. *)
Definition NewMachine : machine :=
  mkMachine [] 0 0 0 0 0 None false TypesMinimal None EmptyString 0 0.

Definition WithBestEffort (x : machine) : machine :=
  mkMachine (data x) (cs x) (p x) (pe x) (eof x) (pb x) (err x) true
    (typeConfig x) (logger x) (currentFooterKey x) (countNewlines x) (lastNewline x).

Definition WithTypes (t : TypeConfig) (x : machine) : machine :=
  mkMachine (data x) (cs x) (p x) (pe x) (eof x) (pb x) (err x) (bestEffort x)
    t (logger x) (currentFooterKey x) (countNewlines x) (lastNewline x).

(** [WithLogger] with a logger that has not received anything yet. *)
Definition WithLogger (x : machine) : machine :=
  mkMachine (data x) (cs x) (p x) (pe x) (eof x) (pb x) (err x) (bestEffort x)
    (typeConfig x) (Some []) (currentFooterKey x) (countNewlines x) (lastNewline x).

(** The assignments at the top of [Parse], down to the choice of the entry
    state.  [lastNewline] is not among them. *)
Definition reset (x : machine) (input : list byte) : machine :=
  mkMachine input
    (match typeConfig x with
     | TypesFreeForm => enFreeFormTypesMain
     | TypesConventional => enConventionalTypesMain
     | TypesMinimal => start
     end)
    0 (Z.of_nat (length input)) (Z.of_nat (length input)) 0 None (bestEffort x)
    (typeConfig x) (logger x) EmptyString 0 (lastNewline x).

(** The first pass through the generated block: [if p == pe goto _testEof],
    else [switch m.cs] to the matching [stCaseN]; a value of [m.cs] outside
    the switch falls to [stOut], which is [_testEof2]. *)
Definition enter (c : conf) : option (conf * flow) :=
  if p (m c) =? pe (m c) then eofActions c
  else if (0 <=? cs (m c)) && (cs (m c) <=? 96) then atCase (cs (m c)) c
  else testEof 2 c.

(** A bound on the number of [goto stN] one call can follow. *)
Definition fuel (len : nat) : nat := (len + 3) * (2 * len + 6).

(** The generated block as a whole. *)
Definition execute (c : conf) : outcome :=
  match enter c with
  | None => Panic
  | Some (c', Out) => Done c'
  | Some (c', Goto n) => run (fuel (length (data (m c)))) n c'
  end.

(** What a call of [Parse] leaves behind: the receiver as mutated, and the
    two results; or a panic, or a run the bound [fuel] did not cover. *)
Inductive result : Type :=
| Returned (x : machine) (msg : option conventionalCommit) (e : option string)
| Panicked
| Unfinished.

(** The configuration [Parse] hands to the generated block. *)
Definition initial (x : machine) (input : list byte) : conf :=
  mkConf (reset x input) emptyCommit.

(** The code after the generated block: the choice of what to return. *)
Definition epilogue (c : conf) : result :=
  if cs (m c) <? firstFinal then
    if bestEffort (m c) && minimal (output c)
    then Returned (m c) (Some (export (output c))) (err (m c))
    else Returned (m c) None (err (m c))
  else Returned (m c) (Some (export (output c))) None.

Definition Parse (x : machine) (input : list byte) : result :=
  match execute (initial x input) with
  | Done c => epilogue c
  | Panic => Panicked
  | OutOfFuel => Unfinished
  end.

(** The two values [Parse] returns. *)
Definition returns (r : result) : option (option conventionalCommit * option string) :=
  match r with
  | Returned _ msg e => Some (msg, e)
  | _ => None
  end.

(** A byte slice written as a string literal. *)
Definition bytes (s : string) : list byte := list_byte_of_string s.

(** * Notions used by the properties *)

(** [d] ends on the column suffix for the number [n]. *)
Definition has_col (d : string) (n : Z) : Prop :=
  ∃ body : string, d = body +:+ ": col=" +:+ Fmt.pad2 n.

(** The three templates without a verb. *)
Definition plain_templates : list string :=
  [ErrEmpty; ErrNewline; ErrMissingBlankLineAtBeginning].

(** The ten templates with one [%s]. *)
Definition char_templates : list string :=
  [ErrType; ErrTypeIncomplete; ErrColon; ErrScope; ErrScopeIncomplete; ErrEarly;
   ErrDescriptionInit; ErrDescription; ErrTrailer; ErrTrailerIncomplete].

(** The text of a template before and after its [%s]. *)
Fixpoint before_verb (t : string) : string :=
  match t with
  | EmptyString => EmptyString
  | String "%" (String "s" _) => EmptyString
  | String a t' => String a (before_verb t')
  end.

Fixpoint after_verb (t : string) : string :=
  match t with
  | EmptyString => EmptyString
  | String "%" (String "s" t') => t'
  | String _ t' => after_verb t'
  end.

(** The templates filled with the byte under the cursor
    ([emitErrorOnCurrentCharacter]), and those filled with the byte before
    it ([emitErrorOnPreviousCharacter]). *)
Definition current_templates : list string :=
  [ErrType; ErrColon; ErrScope; ErrEarly; ErrDescriptionInit; ErrTrailer].
Definition previous_templates : list string :=
  [ErrTypeIncomplete; ErrScopeIncomplete; ErrDescription; ErrTrailerIncomplete].

(** What the column [n] of the diagnostic [d] points at, in a call on
    [input] that stops with the cursor at [q].  Offsets are zero-based.
    - [on_byte]: [d] quotes the byte at the offset [n];
    - [after_last]: the input ends too early, [n] is its length and [d]
      quotes its last byte;
    - [after_line_feed]: [d] is the newline diagnostic and [n] is one past
      the offset of the line feed;
    - [on_nothing]: the input is empty and [n] is 0;
    - [at_cursor]: [d] is the diagnostic of the missing blank line, which
      quotes nothing, and [n] is the cursor. *)
Inductive located (input : list byte) (q : Z) (d : string) (n : Z) : Prop :=
| on_byte (t : string) (b : byte) :
    t ∈ current_templates → at_index input n = Some b →
    d = Fmt.Sprintf (t +:+ ColumnPositionTemplate)
          [Fmt.Str (string_of_rune b); Fmt.Int n] →
    located input q d n
| after_last (t : string) (b : byte) :
    t ∈ previous_templates → n = Z.of_nat (length input) →
    at_index input (n - 1) = Some b →
    d = Fmt.Sprintf (t +:+ ColumnPositionTemplate)
          [Fmt.Str (string_of_rune b); Fmt.Int n] →
    located input q d n
| after_line_feed (b : byte) :
    at_index input (n - 1) = Some b → code b = 10 →
    d = Fmt.Sprintf (ErrNewline +:+ ColumnPositionTemplate) [Fmt.Int n] →
    located input q d n
| on_nothing :
    input = [] → n = 0 →
    d = Fmt.Sprintf (ErrEmpty +:+ ColumnPositionTemplate) [Fmt.Int n] →
    located input q d n
| at_cursor :
    n = q → 0 <= n <= Z.of_nat (length input) →
    d = Fmt.Sprintf (ErrMissingBlankLineAtBeginning +:+ ColumnPositionTemplate)
          [Fmt.Int n] →
    located input q d n.

(** The diagnostic recorded in [c], if any, is located in [input]. *)
Definition err_located (input : list byte) (c : conf) : Prop :=
  ∀ d, err (m c) = Some d → ∃ n, located input (p (m c)) d n.

(** A byte the scope may hold, [(print -- lpar) -- rpar] in the grammar:
    printable, neither parenthesis. *)
Definition scope_ok (b : byte) : bool :=
  (32 <=? code b) && (code b <=? 126) && negb (code b =? 40) && negb (code b =? 41).

Definition scope_chars (s : string) : Prop :=
  Forall (λ b, scope_ok b = true) (list_byte_of_string s).

(** The labels a [goto stN] can name. *)
Definition labels : list Z := seqZ 2 33 ++ seqZ 36 40 ++ seqZ 77 9 ++ [87; 90; 92; 93; 95].

(** Labels of the header part of the grammar, of the trailer tokens and
    separators, and of the body. *)
Definition header_labels : list Z := seqZ 2 12 ++ seqZ 36 40 ++ seqZ 77 9 ++ [93; 95].
Definition token_labels : list Z := seqZ 14 19.
Definition body_labels : list Z := [34; 92].

(** The byte at [i], when there is one, is a line feed. *)
Definition nl_at (bs : list byte) (i : Z) : Prop :=
  ∀ b, at_index bs i = Some b → code b = 10.

(** What holds at the label [stN] beyond the common part. *)
Definition Local (n : Z) (c : conf) : Prop :=
  let x := m c in
  if n =? 87 then
    (0 < countNewlines x → lastNewline x = p x) ∧
    (countNewlines x = 0 →
     pb x < p x ∨ (pb x = p x ∧ p x + 2 < pe x ∧ nl_at (data x) (p x + 1))) ∧
    1 <= pb x <= p x
  else if n =? 34 then
    pb x = p x + 1 ∧ p x + 1 < pe x ∧ size (footers (output c)) = 0%nat ∧ 1 <= pb x
  else if n =? 92 then
    pb x = p x ∧ size (footers (output c)) = 0%nat ∧ 1 <= pb x
  else if among n token_labels then
    (0 < countNewlines x → lastNewline x + 1 = pb x) ∧ 1 <= pb x <= p x
  else if among n [33; 90] then
    1 <= pb x <= p x
  else if among n [11; 46; 83] then
    pb x <= p x ∧ countNewlines x = 0 ∧
    ∃ t, slice (data x) (pb x) (p x + 1) = Some t ∧ Forall (λ b, scope_ok b = true) t
  else if among n [85; 93; 95; 9; 44; 81] then
    1 <= pb x <= p x ∧ countNewlines x = 0
  else
    pb x <= p x ∧ countNewlines x = 0.

(** The invariant at the label [stN]; [L] is the logger as [Parse] found
    it and [input] its argument.  The cursor is the position of the byte
    consumed last. *)
Definition Inv (L : option (list string)) (input : list byte) (n : Z) (c : conf) : Prop :=
  let x := m c in
  among n labels = true ∧
  data x = input ∧
  pe x = Z.of_nat (length input) ∧ eof x = pe x ∧
  0 <= p x < pe x ∧
  err x = None ∧ logger x = L ∧
  0 <= pb x <= p x + 1 ∧
  0 <= countNewlines x ∧
  (0 < countNewlines x → 0 <= lastNewline x <= p x) ∧
  scope_chars (scope (output c)) ∧
  Local n c.

(** What holds when the loop is left. *)
Definition Final (L : option (list string)) (input : list byte) (c : conf) : Prop :=
  let x := m c in
  scope_chars (scope (output c)) ∧
  data x = input ∧
  0 <= p x <= pe x ∧
  ((err x = None ∧ logger x = L) ∨
   (∃ d n, err x = Some d ∧ logger x = (cons d <$> L) ∧ cs x < firstFinal ∧
           has_col d n ∧ 0 <= n <= Z.of_nat (length input))).

(** The position below which no later rewind can restart the body. *)
Definition floor (n : Z) (c : conf) : Z :=
  let x := m c in
  if among n header_labels then 0
  else if negb (size (footers (output c)) =? 0)%nat then pe x + 1
  else if n =? 87 then
    if 0 <? countNewlines x then p x + 1
    else if pb x <? p x then pb x else p x + 2
  else if among n body_labels then p x + 1
  else pb x.

(** The measure that bounds the number of [goto]s still to follow. *)
Definition measure (n : Z) (c : conf) : Z :=
  let x := m c in
  (pe x + 1 - floor n c) * (2 * pe x + 4)
  + (if among n body_labels then 0 else pe x + 2)
  + (pe x - p x).

(** The outcome of the block at [stN], started under the invariant: no
    panic; a [goto] lands under the invariant with a smaller measure; the
    exit satisfies [Final]. *)
Definition step_ok (L : option (list string)) (input : list byte) (n : Z) (c : conf)
  : Prop :=
  match st n c with
  | None => False
  | Some (c', Goto n') => Inv L input n' c' ∧ 0 <= measure n' c' < measure n c
  | Some (c', Out) => Final L input c'
  end.

(** [halts n c c']: started at the label [stN] in [c], the loop is left in
    [c']. *)
Inductive halts : Z → conf → conf → Prop :=
| halts_out n c c' :
    st n c = Some (c', Out) → halts n c c'
| halts_goto n c n1 c1 c' :
    st n c = Some (c1, Goto n1) → halts n1 c1 c' → halts n c c'.

(** [steps n c n' c']: the [goto]s lead from [stN] in [c] to [stN'] in
    [c']. *)
Inductive steps : Z → conf → Z → conf → Prop :=
| steps_refl n c : steps n c n c
| steps_goto n c n1 c1 n2 c2 :
    st n c = Some (c1, Goto n1) → steps n1 c1 n2 c2 → steps n c n2 c2.

(** The configurations [Parse] goes through, label by label. *)
Inductive reaches (x : machine) (input : list byte) : Z → conf → Prop :=
| reaches_enter n c :
    enter (initial x input) = Some (c, Goto n) → reaches x input n c
| reaches_goto n c n' c' :
    reaches x input n c → st n c = Some (c', Goto n') → reaches x input n' c'.

(** [s] ends with [suf]. *)
Definition ends_with (s suf : string) : bool :=
  (String.length suf <=? String.length s)%nat &&
  String.eqb (substring (String.length s - String.length suf) (String.length suf) s) suf.

(** A line feed. *)
Definition LF : string := String "010" EmptyString.

(** An input whose body begins with a byte no trailer token begins with. *)
Definition stale_marker : list byte :=
  bytes ("fix: hello" +:+ LF +:+ LF +:+ "!rest").

(** The input on which a failed parse comes back without an error. *)
Definition silent_failure : list byte := bytes ("fix: x" +:+ LF +:+ LF +:+ "foo: ").

(** The third end-to-end scenario of the specification. *)
Definition two_paragraphs : list byte :=
  bytes ("fix: bug" +:+ LF +:+ LF +:+ "First paragraph." +:+ LF +:+ LF
         +:+ "Second paragraph." +:+ LF).

(** Two configurations that differ at most in the logger and in a
    [lastNewline] that no newline was counted for. *)
Definition same (c1 c2 : conf) : Prop :=
  data (m c1) = data (m c2) ∧ cs (m c1) = cs (m c2) ∧ p (m c1) = p (m c2) ∧
  pe (m c1) = pe (m c2) ∧ eof (m c1) = eof (m c2) ∧ pb (m c1) = pb (m c2) ∧
  err (m c1) = err (m c2) ∧ bestEffort (m c1) = bestEffort (m c2) ∧
  typeConfig (m c1) = typeConfig (m c2) ∧
  currentFooterKey (m c1) = currentFooterKey (m c2) ∧
  countNewlines (m c1) = countNewlines (m c2) ∧
  (0 < countNewlines (m c1) → lastNewline (m c1) = lastNewline (m c2)) ∧
  output c1 = output c2.

Definition same_result (r1 r2 : option (conf * flow)) : Prop :=
  match r1, r2 with
  | Some (c1, f1), Some (c2, f2) => same c1 c2 ∧ f1 = f2
  | None, None => True
  | _, _ => False
  end.

(** A machine that has been used once: [lastNewline] holds the position of
    the line feed that ended the footer. *)
Definition used_machine : machine :=
  match Parse NewMachine (bytes ("fix: x" +:+ LF +:+ LF +:+ "refs: 1" +:+ LF)) with
  | Returned x' _ _ => x'
  | _ => NewMachine
  end.

(** The labels at which a trailer token or its separator is being
    recognised. *)
Definition trailer_labels : list Z := 87 :: token_labels.

(** Transitions that carry the recognition of a trailer on. *)
Definition carries_on (t : target) : bool :=
  match t with
  | goto_st k => among k token_labels
  | goto_tr (tr22 | tr25 | tr26 | tr27 | tr35 | tr103 | tr104 | tr105) => true
  | goto_tr _ => false
  end.

(** A diagnostic on the byte [b] at column [n], written out. *)
Definition diagnostic (before : string) (b : byte) (after : string) (n : Z) : string :=
  (before +:+ string_of_rune b +:+ after) +:+ ": col=" +:+ Fmt.pad2 n.

(** The keywords of the minimal dialect, in lower case: the grammar has
    [minimal_types = ('fix'i | 'feat'i)]. *)
Definition minimal_types : list (list byte) := [bytes "fix"; bytes "feat"].

(** [pre] agrees with the beginning of [kw], letter case aside. *)
Fixpoint matches_ci (pre kw : list byte) : bool :=
  match pre, kw with
  | [], _ => true
  | b :: pre', k :: kw' => Byte.eqb (lower_byte b) k && matches_ci pre' kw'
  | _ :: _, [] => false
  end.

(** [pre] begins a keyword; begins one and stops short of its end; is one. *)
Definition viable (pre : list byte) : bool := existsb (matches_ci pre) minimal_types.
Definition partial (pre : list byte) : bool :=
  existsb (λ kw, matches_ci pre kw && (length pre <? length kw)%nat) minimal_types.
Definition complete (pre : list byte) : bool :=
  existsb (λ kw, matches_ci pre kw && (length pre =? length kw)%nat) minimal_types.

(** The bytes after the cursor are exactly [l], up to the end of the
    input. *)
Definition ahead (c : conf) (l : list byte) : Prop :=
  (∀ i : nat, at_index (data (m c)) (p (m c) + 1 + Z.of_nat i) = l !! i) ∧
  pe (m c) = p (m c) + 1 + Z.of_nat (length l) ∧
  eof (m c) = pe (m c) ∧
  pe (m c) = Z.of_nat (length (data (m c))).

(** A state with no entering action, no leaving action and no lookahead. *)
Definition plain (n : Z) : bool :=
  negb (among n early_exit_states) && negb (among n type_states) &&
  negb (among n dead_states) && negb (among n [34; 92]).

(** The state reached from [n] over the bytes [t] when every byte is
    dispatched to a bare [goto stK]. *)
Fixpoint plain_run (n : Z) (t : list byte) : option Z :=
  match t with
  | [] => Some n
  | b :: t' =>
      if plain n then
        match stCase n (code b) false with
        | goto_st k => if k =? 0 then None else plain_run k t'
        | goto_tr _ => None
        end
      else None
  end.

(** A letter or a digit, [alnum] in the grammar. *)
Definition alnum_byte (b : byte) : bool :=
  ((48 <=? code b) && (code b <=? 57)) || ((65 <=? code b) && (code b <=? 90)) ||
  ((97 <=? code b) && (code b <=? 122)).

(** A printable byte, [print] in the grammar. *)
Definition printable (b : byte) : bool := (32 <=? code b) && (code b <=? 126).

(** The grammar's [trailer_tok = alnum+ (dash alnum+)*]: words of letters
    and digits joined by single hyphens; [in_word] tells whether the byte
    before was a letter or a digit. *)
Fixpoint key_from (in_word : bool) (k : list byte) : bool :=
  match k with
  | [] => in_word
  | b :: k' =>
      if alnum_byte b then key_from true k'
      else (code b =? 45) && in_word && key_from false k'
  end.

Definition key_ok (k : list byte) : bool := key_from false k.

(** The states of the machine within a word of a trailer token. *)
Definition word_states : list Z := [14; 18; 19; 20; 21; 22; 23; 24; 25].

(** The key under which [set_current_footer_key] files the token [k]. *)
Definition footer_key (k : list byte) : string :=
  let s := gostring (ToLower k) in
  if String.eqb s "breaking change" then "breaking-change" else s.

(** The two separators the machine takes after a token: a colon and a
    space, or a space and a hash. *)
Definition separators : list (list byte) := [bytes ": "; bytes " #"].

(** A trailer as written: token, separator, value. *)
Record trailer : Type := mkTrailer {
  tkey : list byte;
  tsep : list byte;
  tvalue : list byte
}.

(** The line of a trailer, and the same without the line feed. *)
Definition unterminated (t : trailer) : list byte := tkey t ++ tsep t ++ tvalue t.
Definition render (t : trailer) : list byte := unterminated t ++ bytes LF.

(** What the grammar takes as a trailer: a token of words joined by
    hyphens and one of the two separators, or [BREAKING CHANGE] and a colon
    with a space; then a value of printable bytes, at least one
    ([trailer_val = print+]). *)
Definition trailer_ok (t : trailer) : Prop :=
  ((key_ok (tkey t) = true ∧ tsep t ∈ separators) ∨
   (tkey t = bytes "BREAKING CHANGE" ∧ tsep t = bytes ": ")) ∧
  tvalue t ≠ [] ∧ Forall (λ b, printable b = true) (tvalue t).

(** The footers after one more trailer, and after a list of them. *)
Definition add_footer (f : gmap string (list string)) (t : trailer)
  : gmap string (list string) :=
  append_footer (footer_key (tkey t)) (gostring (tvalue t)) f.

Definition footers_of (ts : list trailer) : gmap string (list string) :=
  foldl add_footer ∅ ts.

(** Modelled from the spec: the list held at [key] is made of the values
    of the trailers with that key, in the order of the input. *)
Definition values_of (key : string) (ts : list trailer) : list string :=
  (λ t, gostring (tvalue t)) <$> filter (λ t, footer_key (tkey t) = key) ts.

(** ** Notions of the header, the body and the record *)

(** The keywords of the conventional dialect, in lower case: the grammar
    has [conventional_types = ('build'i | 'ci'i | 'chore'i | 'docs'i |
    'feat'i | 'fix'i | 'perf'i | 'refactor'i | 'revert'i | 'style'i |
    'test'i)]. *)
Definition conventional_types : list (list byte) :=
  [bytes "build"; bytes "ci"; bytes "chore"; bytes "docs"; bytes "feat"; bytes "fix";
   bytes "perf"; bytes "refactor"; bytes "revert"; bytes "style"; bytes "test"].

(** [ty] is one of the keywords [kws], letter case aside. *)
Definition keyword (kws : list (list byte)) (ty : list byte) : bool :=
  existsb (λ kw, matches_ci ty kw && (length ty =? length kw)%nat) kws.

(** A byte a free-form type goes on with: printable, other than the three
    bytes that end the type (state 77). *)
Definition free_byte (b : byte) : bool :=
  printable b && negb (code b =? 33) && negb (code b =? 40) && negb (code b =? 58).

(** The types of each dialect: a keyword, or for the free-form dialect
    ([free_form_types = print+]) a printable byte followed by bytes that do
    not end the type. *)
Definition type_ok (tc : TypeConfig) (ty : list byte) : bool :=
  match tc with
  | TypesMinimal => keyword minimal_types ty
  | TypesConventional => keyword conventional_types ty
  | TypesFreeForm =>
      match ty with
      | [] => false
      | b :: t => printable b && forallb free_byte t
      end
  end.

(** The label of each dialect that plays the part of the label [k] of the
    minimal dialect in the header. *)
Definition lbl (tc : TypeConfig) (k : Z) : Z :=
  match tc with
  | TypesMinimal => k
  | TypesConventional => if k =? 85 then 93 else k + 35
  | TypesFreeForm => if k =? 85 then 95 else k + 72
  end.

(** The states of the keywords, where a byte is looked at letter case
    aside. *)
Definition keyword_states : list Z :=
  [1; 2; 3; 4; 13; 35] ++ seqZ 36 4 ++ seqZ 48 28.

(** The configuration at the label that follows the type, when the bytes
    [ty] have been read as the type and [rest] is still ahead. *)
Definition at_type_end (x : machine) (ty rest : list byte) (c : conf) : Prop :=
  ahead c rest ∧ p (m c) = Z.of_nat (length ty) - 1 ∧ pb (m c) = 0 ∧
  slice (data (m c)) 0 (Z.of_nat (length ty)) = Some ty ∧
  err (m c) = None ∧ bestEffort (m c) = bestEffort x ∧ logger (m c) = logger x ∧
  countNewlines (m c) = 0 ∧
  ∃ t0, output c = with_type t0 emptyCommit.

(** The machine of [x] is in the header, with the record [o] so far and
    the bytes [l] ahead. *)
Definition in_header (x : machine) (o : conventionalCommit) (l : list byte) (c : conf)
  : Prop :=
  ahead c l ∧ 0 <= p (m c) ∧ err (m c) = None ∧ bestEffort (m c) = bestEffort x ∧
  logger (m c) = logger x ∧ countNewlines (m c) = 0 ∧ output c = o.

(** The record once the type [ty] has been read. *)
Definition typed (ty : list byte) : conventionalCommit :=
  with_type (gostring ty) emptyCommit.

(** The machine of [x] is in the description: as [in_header], with the
    bytes [d] of the description read so far between the marker and the
    cursor. *)
Definition in_descr (x : machine) (o : conventionalCommit) (d l : list byte) (c : conf)
  : Prop :=
  in_header x o l c ∧ 0 <= pb (m c) ∧
  slice (data (m c)) (pb (m c)) (p (m c) + 1) = Some d.

(** A byte a description goes on with, and one it begins with. *)
Definition descr_byte (b : byte) : bool := negb (code b =? 10).
Definition descr_first (b : byte) : bool := negb (code b =? 10) && negb (code b =? 32).

(** A header as written: type, scope between parentheses if any,
    exclamation mark if any, colon, one space and [hspaces] more, and the
    description. *)
Record header : Type := mkHeader {
  htype : list byte;
  hscope : option (list byte);
  hbang : bool;
  hspaces : nat;
  hdescr : list byte
}.

(** The bytes of a header before its colon, and from the colon on. *)
Definition before_colon (h : header) : list byte :=
  htype h
  ++ match hscope h with Some s => bytes "(" ++ s ++ bytes ")" | None => [] end
  ++ (if hbang h then bytes "!" else []).

Definition from_colon (h : header) : list byte :=
  bytes ": " ++ replicate (hspaces h) " "%byte ++ hdescr h.

Definition render_header (h : header) : list byte := before_colon h ++ from_colon h.

(** What the grammar of the dialect [tc] takes as the parts of a header
    before the colon, and as a header. *)
Definition prefix_ok (tc : TypeConfig) (h : header) : bool :=
  type_ok tc (htype h)
  && match hscope h with Some s => forallb scope_ok s | None => true end.

Definition header_ok (tc : TypeConfig) (h : header) : bool :=
  prefix_ok tc h
  && match hdescr h with
     | b :: d => descr_first b && forallb descr_byte d
     | [] => false
     end.

(** The record of a header up to its colon, and of a header with the
    footers [f]. *)
Definition record_before_colon (h : header) : conventionalCommit :=
  mkCommit (gostring (htype h)) (gostring (default [] (hscope h))) "" (hbang h) "" ∅.

Definition record_of (h : header) (f : gmap string (list string)) : conventionalCommit :=
  mkCommit (gostring (htype h)) (gostring (default [] (hscope h)))
    (gostring (hdescr h)) (hbang h) "" f.

(** The label at which the colon is awaited after the parts of [h] that
    come before it, as a label of the minimal dialect. *)
Definition colon_label (h : header) : Z :=
  if hbang h then 6 else match hscope h with Some _ => 12 | None => 5 end.

(** The configuration at that label, with the bytes [l] ahead. *)
Definition at_colon (x : machine) (h : header) (l : list byte) (c : conf) : Prop :=
  match hscope h, hbang h with
  | None, false => at_type_end x (htype h) l c
  | _, _ => in_header x (record_before_colon h) l c
  end.

(** A byte that is none of those the machine takes at that label. *)
Definition colon_wanted (tc : TypeConfig) (h : header) (b : byte) : bool :=
  negb (code b =? 58)
  && (hbang h
      || negb (code b =? 33)
         && match hscope h with
            | Some _ => true
            | None =>
                negb (code b =? 40)
                && match tc with TypesFreeForm => negb (printable b) | _ => true end
            end).

(** The bytes [l] do not begin with a line feed. *)
Definition no_line_feed (l : list byte) : bool :=
  match l with
  | [] => true
  | b :: _ => negb (code b =? 10)
  end.

(** No line feed among the bytes of [s]. *)
Definition one_line (s : string) : Prop :=
  Forall (λ b, descr_byte b = true) (list_byte_of_string s).

(** A string in lower case; a key under which footers are filed: in lower
    case, and not the token [breaking change] as written, with its space;
    footers under such keys, each with one value at least. *)
Definition lower_case (s : string) : Prop :=
  Forall (λ b, lower_byte b = b) (list_byte_of_string s).

Definition filed_key (k : string) : Prop := lower_case k ∧ k ≠ "breaking change".

Definition footers_ok (f : gmap string (list string)) : Prop :=
  map_Forall (λ k vs, filed_key k ∧ vs ≠ []) f.

(** The labels up to the one at which the type is recorded, those of the
    description, and those that come after it. *)
Definition type_labels : list Z := [2; 3; 4; 5; 13] ++ seqZ 36 5 ++ seqZ 48 28 ++ [77].
Definition descr_labels : list Z := [85; 93; 95].
Definition after_descr : list Z := [9; 44; 81; 87; 33; 34; 90; 92] ++ token_labels.

(** What holds of the options and of the record at the label [stN], in a
    call on the machine [x0]: the options are those of [x0]; the marker
    stays at the beginning of the input until the type is recorded, which
    is then not empty; the bytes of the description read so far hold no
    line feed, and the description is not empty once recorded; the current
    key and the footers are as [Parse] files them. *)
Definition Rec (x0 : machine) (n : Z) (c : conf) : Prop :=
  let x := m c in
  bestEffort x = bestEffort x0 ∧ typeConfig x = typeConfig x0 ∧
  one_line (descr (output c)) ∧
  filed_key (currentFooterKey x) ∧ footers_ok (footers (output c)) ∧
  (if among n type_labels then pb x = 0 else _type (output c) ≠ "") ∧
  (if among n descr_labels then
     ∃ t, slice (data x) (pb x) (p x + 1) = Some t ∧ Forall (λ b, descr_byte b = true) t
   else if among n after_descr then descr (output c) ≠ "" else True).

(** What holds of them when the loop is left. *)
Definition Left (x0 : machine) (c : conf) : Prop :=
  let x := m c in
  bestEffort x = bestEffort x0 ∧ typeConfig x = typeConfig x0 ∧
  one_line (descr (output c)) ∧ footers_ok (footers (output c)) ∧
  (firstFinal <= cs x → _type (output c) ≠ "" ∧ descr (output c) ≠ "").

Definition keeps (x0 : machine) (r : option (conf * flow)) : Prop :=
  match r with
  | Some (c', Goto n') => Rec x0 n' c'
  | Some (c', Out) => Left x0 c'
  | None => True
  end.

(** A byte a line after the blank line may begin with when footers are
    read: the first of a token, or a line feed. *)
Definition line_start (b : byte) : bool := alnum_byte b || (code b =? 10).

(** Two line feeds at the beginning of [l]. *)
Definition blank_line (l : list byte) : bool :=
  match l with
  | b1 :: b2 :: _ => (code b1 =? 10) && (code b2 =? 10)
  | _ => false
  end.

(** No two line feeds in a row in [l]. *)
Fixpoint no_blank_line (l : list byte) : bool :=
  match l with
  | [] => true
  | _ :: t => negb (blank_line l) && no_blank_line t
  end.

(** What follows the first word [k] of a line keeps the machine from
    reading a trailer: the end of the input; a byte that neither goes on
    with the token nor begins a separator; a space at the end of the input
    or before a byte other than [#], and other than [C] after
    [BREAKING]. *)
Definition breaks_off (k after : list byte) : bool :=
  match after with
  | [] => true
  | b :: t =>
      if code b =? 32 then
        match t with
        | [] => true
        | b' :: _ =>
            negb (code b' =? 35)
            && negb (String.eqb (gostring k) "BREAKING" && (code b' =? 67))
        end
      else negb (alnum_byte b) && negb (code b =? 45) && negb (code b =? 58)
  end.

(** A paragraph of the body as written: its first word and what follows
    it. *)
Record paragraph : Type := mkParagraph {
  pword : list byte;
  prest : list byte
}.

Definition ptext (g : paragraph) : list byte := pword g ++ prest g.

(** A paragraph the machine reads as body and ends at the blank line after
    it: the first word does not read as a trailer, no blank line within, no
    line feed at the end, two bytes at least. *)
Definition paragraph_ok (g : paragraph) : bool :=
  key_ok (pword g) && breaks_off (pword g) (prest g)
  && no_blank_line (ptext g ++ bytes LF) && (2 <=? length (ptext g))%nat.

(** [n] line feeds. *)
Definition feeds (n : nat) : list byte := replicate n "010"%byte.

(** Paragraphs, each after the line feeds that come on top of the blank
    line before it, and each followed by a blank line. *)
Definition blocks (gs : list (nat * paragraph)) : list byte :=
  concat ((λ g, feeds g.1 ++ ptext g.2 ++ bytes LF ++ bytes LF) <$> gs).

(** Trailer lines, each followed by further line feeds. *)
Definition trailer_lines (ts : list (trailer * nat)) : list byte :=
  concat ((λ t, render t.1 ++ feeds t.2) <$> ts).

(** The keywords of a dialect; the free-form dialect has none. *)
Definition keywords (tc : TypeConfig) : list (list byte) :=
  match tc with
  | TypesMinimal => minimal_types
  | TypesConventional => conventional_types
  | TypesFreeForm => []
  end.

(** [pre] begins a keyword of [kws], letter case aside; begins one and
    stops short of its end. *)
Definition begins (kws : list (list byte)) (pre : list byte) : bool :=
  existsb (matches_ci pre) kws.

Definition stem (kws : list (list byte)) (pre : list byte) : bool :=
  existsb (λ kw, matches_ci pre kw && (length pre <? length kw)%nat) kws.

(** The beginnings of the keywords that stop short of their end. *)
Definition stems (kws : list (list byte)) : list (list byte) :=
  flat_map (λ kw, map (λ i, take i kw) (seq 0 (length kw))) kws.

(** The states in which the end of the input runs [err_type]. *)
Definition type_eof_states : list Z := [2; 3; 4; 13] ++ seqZ 36 4 ++ seqZ 48 28.

(** The value [v] of a trailer is cut short by what follows it: nothing
    at all after the separator, or a byte that is not printable, other than
    the line feed that ends a value. *)
Definition value_cut (v rest : list byte) : bool :=
  match rest with
  | [] => match v with [] => true | _ => false end
  | b :: _ =>
      negb (printable b) && match v with [] => true | _ => negb (code b =? 10) end
  end.

(** What the body holds of the description [d] when the machine goes back
    to the marker of the description: the description, unless it is a
    single byte. *)
Definition read_again (d : list byte) : list byte :=
  match d with
  | [_] => []
  | _ => d
  end.

(** * Properties *)

(** ** Indexing and slicing *)

Lemma at_index_Some (bs : list byte) (i : Z) :
  0 <= i < Z.of_nat (length bs) → ∃ b, at_index bs i = Some b.
Proof.
  intros Hi. unfold at_index.
  destruct (Z.leb_spec 0 i); [|lia].
  destruct (lookup_lt_is_Some_2 bs (Z.to_nat i)) as [b Hb]; [lia|].
  eauto.
Qed.

Lemma at_index_range (bs : list byte) (i : Z) (b : byte) :
  at_index bs i = Some b → 0 <= i < Z.of_nat (length bs).
Proof.
  unfold at_index. destruct (Z.leb_spec 0 i); [|discriminate].
  intros Hb. apply lookup_lt_Some in Hb. lia.
Qed.

Lemma slice_Some (bs : list byte) (lo hi : Z) :
  0 <= lo <= hi → hi <= Z.of_nat (length bs) → ∃ t, slice bs lo hi = Some t.
Proof.
  intros H1 H2. unfold slice.
  destruct (Z.leb_spec 0 lo); [|lia].
  destruct (Z.leb_spec lo hi); [|lia].
  destruct (Z.leb_spec hi (Z.of_nat (length bs))); [|lia].
  simpl. eauto.
Qed.

Lemma slice_range (bs t : list byte) (lo hi : Z) :
  slice bs lo hi = Some t → 0 <= lo <= hi ∧ hi <= Z.of_nat (length bs).
Proof.
  unfold slice.
  destruct (Z.leb_spec 0 lo); [|discriminate].
  destruct (Z.leb_spec lo hi); [|discriminate].
  destruct (Z.leb_spec hi (Z.of_nat (length bs))); [|discriminate].
  lia.
Qed.

Lemma slice_empty (bs : list byte) (lo : Z) :
  0 <= lo <= Z.of_nat (length bs) → slice bs lo lo = Some [].
Proof.
  intros H. unfold slice.
  destruct (Z.leb_spec 0 lo); [|lia].
  destruct (Z.leb_spec lo lo); [|lia].
  destruct (Z.leb_spec lo (Z.of_nat (length bs))); [|lia].
  simpl. by rewrite Z.sub_diag.
Qed.

(** A slice grows by the byte found at its upper end. *)
Lemma slice_snoc (bs t : list byte) (lo hi : Z) (b : byte) :
  slice bs lo hi = Some t →
  bs !! Z.to_nat hi = Some b →
  slice bs lo (hi + 1) = Some (t ++ [b]).
Proof.
  intros Ht Hb. pose proof (slice_range _ _ _ _ Ht) as [Hr1 Hr2].
  pose proof (lookup_lt_Some _ _ _ Hb) as Hlt.
  unfold slice in *.
  destruct (Z.leb_spec 0 lo); [|lia].
  destruct (Z.leb_spec lo hi); [|lia].
  destruct (Z.leb_spec hi (Z.of_nat (length bs))); [|lia].
  destruct (Z.leb_spec lo (hi + 1)); [|lia].
  destruct (Z.leb_spec (hi + 1) (Z.of_nat (length bs))); [|lia].
  simpl in *. injection Ht as <-. f_equal.
  replace (Z.to_nat (hi + 1 - lo)) with (S (Z.to_nat (hi - lo))) by lia.
  erewrite take_S_r; [done|].
  rewrite lookup_drop. replace (Z.to_nat lo + Z.to_nat (hi - lo))%nat with (Z.to_nat hi) by lia.
  done.
Qed.

Lemma slice_one (bs : list byte) (lo : Z) (b : byte) :
  0 <= lo → bs !! Z.to_nat lo = Some b → slice bs lo (lo + 1) = Some [b].
Proof.
  intros H0 Hb. apply (slice_snoc bs [] lo lo b); [|done].
  apply slice_empty. apply lookup_lt_Some in Hb. lia.
Qed.

(** ** Shape of the diagnostics *)

Lemma append_empty_r (s : string) : s +:+ "" = s.
Proof.
  induction s as [|a s IH]; [done|].
  change (String a s +:+ "") with (String a (s +:+ "")). by rewrite IH.
Qed.

Lemma append_assoc (s t u : string) : (s +:+ t) +:+ u = s +:+ (t +:+ u).
Proof.
  induction s as [|a s IH]; [done|].
  change (String a (((s +:+ t)) +:+ u) = String a (s +:+ (t +:+ u))). by rewrite IH.
Qed.

Lemma Sprintf_plain (t : string) (n : Z) :
  t ∈ plain_templates →
  Fmt.Sprintf (t +:+ ColumnPositionTemplate) [Fmt.Int n] = t +:+ ": col=" +:+ Fmt.pad2 n.
Proof.
  intros Ht. unfold plain_templates in Ht.
  repeat (apply elem_of_cons in Ht as [-> | Ht]); [..| by apply elem_of_nil in Ht];
    rewrite <- (append_empty_r (Fmt.pad2 n)); reflexivity.
Qed.

Lemma Sprintf_char (t s : string) (n : Z) :
  t ∈ char_templates →
  Fmt.Sprintf (t +:+ ColumnPositionTemplate) [Fmt.Str s; Fmt.Int n]
  = (before_verb t +:+ s +:+ after_verb t) +:+ ": col=" +:+ Fmt.pad2 n.
Proof.
  intros Ht. unfold char_templates in Ht.
  rewrite !append_assoc. rewrite <- (append_empty_r (Fmt.pad2 n)).
  repeat (apply elem_of_cons in Ht as [-> | Ht]); [..| by apply elem_of_nil in Ht];
    reflexivity.
Qed.

Lemma emitError_plain (t : string) (n : Z) (c : conf) :
  t ∈ plain_templates → has_col (emitError t [Fmt.Int n] c).1 n.
Proof. intros Ht. eexists. simpl. by apply Sprintf_plain. Qed.

Lemma emitError_char (t s : string) (n : Z) (c : conf) :
  t ∈ char_templates → has_col (emitError t [Fmt.Str s; Fmt.Int n] c).1 n.
Proof. intros Ht. eexists. simpl. by apply Sprintf_char. Qed.

(** ** The invariant of the goto loop *)

Lemma measure_decreases (pe0 f f' ph ph' q q' : Z) :
  0 <= q < pe0 → 0 <= q' < pe0 → 0 <= f → f <= f' → f' <= pe0 + 1 →
  (ph = 0 ∨ ph = pe0 + 2) → (ph' = 0 ∨ ph' = pe0 + 2) →
  (f < f' ∨ ph' < ph ∨ (ph' = ph ∧ q < q')) →
  0 <= (pe0 + 1 - f') * (2 * pe0 + 4) + ph' + (pe0 - q')
    < (pe0 + 1 - f) * (2 * pe0 + 4) + ph + (pe0 - q).
Proof. intros. nia. Qed.

(** ** One pass through a label preserves the invariant *)

Lemma code_range (b : byte) : 0 <= code b < 256.
Proof. unfold code. pose proof (Byte.to_N_bounded b). lia. Qed.

Lemma slice_snoc_at (bs t : list byte) (lo hi : Z) (b : byte) :
  slice bs lo hi = Some t → at_index bs hi = Some b → slice bs lo (hi + 1) = Some (t ++ [b]).
Proof.
  intros Ht Hb. apply slice_snoc; [done|].
  unfold at_index in Hb. by destruct (0 <=? hi).
Qed.

Lemma slice_one_at (bs : list byte) (lo : Z) (b : byte) :
  at_index bs lo = Some b → slice bs lo (lo + 1) = Some [b].
Proof.
  intros Hb. pose proof (at_index_range _ _ _ Hb).
  apply slice_one; [lia|]. unfold at_index in Hb. by destruct (0 <=? lo).
Qed.

Lemma size_append_footer (k v : string) (f : gmap string (list string)) :
  (size (append_footer k v f) =? 0)%nat = false.
Proof.
  apply Nat.eqb_neq. unfold append_footer.
  apply (map_size_ne_0_lookup_2 _ k). rewrite lookup_insert_eq. eauto.
Qed.

Lemma scope_chars_gostring (t : list byte) :
  Forall (λ b, scope_ok b = true) t → scope_chars (gostring t).
Proof.
  intros H. unfold scope_chars, gostring. by rewrite list_byte_of_string_of_list_byte.
Qed.

(** Symbolic execution of one block on a configuration given field by
    field: unfold the function applied to it, reduce the projections, split
    on the test that blocks. *)
Ltac fields :=
  cbn [m output data cs p pe eof pb err bestEffort typeConfig logger currentFooterKey
       countNewlines lastNewline _type scope descr exclamation body footers
       mbind option_bind fmap option_fmap option_map mret option_ret fst snd negb].

Ltac unf1 f :=
  match goal with
  | |- context [f (mkConf ?a ?b)] =>
      let t := constr:(f (mkConf a b)) in
      let t' := (eval cbv beta iota zeta delta [f] in t) in
      change t with t'
  end.

Ltac unf2 f :=
  match goal with
  | |- context [f ?x (mkConf ?a ?b)] =>
      let t := constr:(f x (mkConf a b)) in
      let t' := (eval cbv beta iota zeta delta [f] in t) in
      change t with t'
  end.

Ltac unf3 f :=
  match goal with
  | |- context [f ?x ?y (mkConf ?a ?b)] =>
      let t := constr:(f x y (mkConf a b)) in
      let t' := (eval cbv beta iota zeta delta [f] in t) in
      change t with t'
  end.

Ltac is_lit z :=
  lazymatch z with
  | Z0 => idtac
  | Zpos ?q => is_lit_pos q
  | Zneg ?q => is_lit_pos q
  end
with is_lit_pos q :=
  lazymatch q with
  | xH => idtac
  | xO ?r => is_lit_pos r
  | xI ?r => is_lit_pos r
  end.

Ltac eval_lit :=
  match goal with
  | |- context [among ?n ?l] =>
      is_lit n; let v := (eval vm_compute in (among n l)) in change (among n l) with v
  | |- context [Z.eqb ?a ?b] =>
      is_lit a; is_lit b; let v := (eval vm_compute in (Z.eqb a b)) in change (Z.eqb a b) with v
  | |- context [stCase ?n ?b ?a] =>
      is_lit n;
      let t := constr:(stCase n b a) in
      let t' := (eval cbv beta iota zeta delta
                   [stCase switch within alnum scope_byte widec letter token app] in t) in
      change t with t'
  end.

Ltac splittable x :=
  lazymatch x with
  | context [m _] => fail
  | context [output _] => fail
  | Z.eqb _ _ => idtac
  | Z.ltb _ _ => idtac
  | Z.leb _ _ => idtac
  | Nat.eqb _ _ => idtac
  | String.eqb _ _ => idtac
  | negb ?y => splittable y
  | andb ?y ?z => splittable y; splittable z
  | _ => is_var x
  end.

Ltac split_head :=
  match goal with
  | |- context [at_index ?c ?i] =>
      let b := fresh "b" in let Hb := fresh "Hb" in
      destruct (at_index_Some c i) as [b Hb]; [fields; lia | rewrite Hb];
      pose proof (code_range b);
      try match goal with
          | H : nl_at c i |- _ => pose proof (H _ Hb)
          end
  | H : slice ?d ?lo ?hi = Some _ |- context [slice ?d ?lo ?hi] => rewrite H
  | |- context [slice ?d ?lo ?lo] => rewrite (slice_empty d lo) by lia
  | |- context [slice ?d ?lo ?hi] =>
      let t := fresh "t" in let Ht := fresh "Ht" in
      destruct (slice_Some d lo hi) as [t Ht]; [lia | lia | rewrite Ht]
  | |- context [if ?b then _ else _] =>
      splittable b; destruct b eqn:?; try (exfalso; lia)
  | |- context [match ?x with _ => _ end] =>
      splittable x; destruct x eqn:?; try (exfalso; lia)
  | |- context [mbind _ ?x] => splittable x; destruct x eqn:?; try (exfalso; lia)
  | |- context [fmap _ ?x] => splittable x; destruct x eqn:?; try (exfalso; lia)
  end.

Ltac unfold_head :=
  first
    [ unf1 mark | unf1 err_empty | unf1 err_type | unf1 err_malformed_scope
    | unf1 err_malformed_scope_closing | unf1 err_colon | unf1 err_description_init
    | unf1 err_description | unf1 check_early_exit | unf1 err_begin_blank_line
    | unf1 set_type | unf1 set_scope | unf1 set_description | unf1 set_exclamation
    | unf1 set_current_footer_key | unf1 set_footer | unf1 count_nl | unf1 append_body
    | unf1 append_body_before_blank_line | unf1 blank_line_ahead | unf1 text
    | unf1 st0 | unf1 eofActions | unf1 enter
    | unf2 emitErrorWithoutCharacter | unf2 emitErrorOnCurrentCharacter
    | unf2 emitErrorOnPreviousCharacter | unf2 upd_output | unf2 exec | unf2 atCase
    | unf2 testEof | unf2 st | unf2 continue | unf2 rewind
    | unf2 set_cs | unf2 set_p | unf2 set_pb | unf2 set_err | unf2 set_logger
    | unf2 set_currentFooterKey | unf2 set_countNewlines | unf2 set_lastNewline
    | unf2 set_output | unf3 emitError
    | progress (unfold record_err, with_type, with_scope, with_descr, with_exclamation,
                with_body, with_footers, enTrailerBeg, enTrailerEnd, enBody) ].

Ltac sym := repeat (fields; first [eval_lit | split_head | unfold_head]); fields.

Ltac in_list := repeat first [apply list_elem_of_here | apply list_elem_of_further].

Ltac col :=
  first
    [ eexists; apply Sprintf_char; unfold char_templates; in_list
    | eexists; apply Sprintf_plain; unfold plain_templates; in_list ].

Ltac nl_goal :=
  let b' := fresh in let Hb' := fresh in
  intros b' Hb';
  match goal with
  | H : at_index ?d ?i = Some _ |- _ =>
      match type of Hb' with
      | at_index d ?j = Some _ =>
          replace j with i in Hb' by lia; rewrite H in Hb'; injection Hb' as <-; lia
      end
  end.

Ltac scope_goal :=
  first
    [ apply scope_chars_gostring; first [assumption | constructor]
    | eexists; split;
      [ apply slice_one_at; eassumption
      | repeat constructor; unfold scope_ok; lia ]
    | eexists; split;
      [ eapply slice_snoc_at; eassumption
      | apply Forall_app; split;
        [ assumption | repeat constructor; unfold scope_ok; lia ] ] ].

Ltac leaf :=
  first
    [ reflexivity | assumption | lia | scope_goal
    | intros _; right; split; [lia | split; [lia | nl_goal]]
    | idtac ].

Ltac fin_final :=
  unfold Final; fields;
  split; [first [assumption | scope_goal | idtac]
         | split; [reflexivity | split; [lia
                  | first [ left; split; reflexivity
                          | right; eexists _, _;
                            split; [reflexivity
                                   | split; [reflexivity
                                            | split; [unfold firstFinal; lia
                                                     | split; [col | lia]]]]]]]].

Ltac fin_measure :=
  unfold measure, floor; fields; repeat eval_lit; fields;
  rewrite ?size_append_footer; fields;
  repeat (match goal with
          | |- context [if ?b then _ else _] => splittable b; destruct b eqn:?
          end; fields);
  try (apply measure_decreases; lia).

Ltac fin_inv :=
  split;
  [ unfold Inv, Local; fields; repeat eval_lit; fields;
    repeat split; leaf
  | fin_measure ].

Ltac fin :=
  lazymatch goal with
  | |- Final _ _ _ => fin_final
  | |- Inv _ _ _ _ ∧ _ => fin_inv
  | |- False => idtac
  end.

Ltac prep :=
  repeat match goal with
    | H : _ ∧ _ |- _ => destruct H
    | H : ∃ _, _ |- _ => destruct H
    | H : ?a = 0 → _ ∨ _ |- _ =>
        destruct (Z.eq_dec a 0);
        [ let H' := fresh in assert (H' := H ltac:(assumption)); clear H; destruct H' | clear H ]
    end.

Ltac start :=
  intros [[dt s q e ef b er be tc lg key cnt last] [ty sc de ex bd ft]];
  unfold Inv, Local, step_ok; fields; repeat eval_lit; fields;
  intros (_ & -> & -> & -> & Hp & -> & -> & Hpb & Hc & Hlast & Hsc & Hloc); prep.

Ltac go := start; sym; fin.

Lemma among_In (n : Z) (l : list Z) : among n l = true → In n l.
Proof.
  unfold among. intros H. apply existsb_exists in H as (k & Hk & Heq).
  apply Z.eqb_eq in Heq. by subst.
Qed.

Lemma st_preserves (L : option (list string)) (input : list byte) (n : Z) (c : conf) :
  Inv L input n c → step_ok L input n c.
Proof.
  intros H. assert (Hn : In n labels) by (apply among_In, H).
  revert c H. vm_compute in Hn.
  repeat (destruct Hn as [<- | Hn]); [go .. | destruct Hn].
Qed.

(** ** The loop ends, and ends well *)

Lemma run_total (L : option (list string)) (input : list byte) (k : nat) :
  ∀ n c, Inv L input n c → 0 <= measure n c < Z.of_nat k →
         ∃ c', run k n c = Done c' ∧ Final L input c'.
Proof.
  induction k as [|k IH]; intros n c HI Hm; [lia|].
  pose proof (st_preserves L input n c HI) as Hs. unfold step_ok in Hs.
  simpl. destruct (st n c) as [[c' [n'|]]|]; [| eauto | done].
  destruct Hs as [HI' Hm']. apply IH; [done | lia].
Qed.

Lemma scope_chars_empty : scope_chars "".
Proof. constructor. Qed.

Lemma fuel_covers (len : Z) (k : nat) :
  0 <= len → Z.of_nat k = len →
  (len + 1 - 0) * (2 * len + 4) + (len + 2) + (len - 0) < Z.of_nat (fuel k).
Proof. intros H0 Hk. unfold fuel. nia. Qed.

Lemma enter_ok (x : machine) (input : list byte) :
  match enter (initial x input) with
  | None => False
  | Some (c', Goto n) =>
      Inv (logger x) input n c' ∧ 0 <= measure n c' < Z.of_nat (fuel (length input))
  | Some (c', Out) => Final (logger x) input c'
  end.
Proof.
  pose proof scope_chars_empty as Hsc.
  unfold initial, reset, emptyCommit, enFreeFormTypesMain, enConventionalTypesMain, start.
  destruct x as [dt0 s0 q0 e0 ef0 b0 er0 be0 tc0 lg0 key0 cnt0 last0]; fields.
  destruct tc0; sym.
  all: lazymatch goal with
       | |- Final _ _ _ => fin_final
       | |- Inv _ _ _ _ ∧ _ =>
           split;
           [ unfold Inv, Local; fields; repeat eval_lit; fields; repeat split; leaf
           | unfold measure, floor; fields; repeat eval_lit; fields;
             split; [nia | pose proof (fuel_covers (Z.of_nat (length input)) (length input)); nia] ]
       | |- False => idtac
       end.
Qed.

(** The generated block never panics and never exhausts [fuel]; it leaves
    the loop in a configuration satisfying [Final]. *)
Lemma execute_total (x : machine) (input : list byte) :
  ∃ c, execute (initial x input) = Done c ∧ Final (logger x) input c.
Proof.
  pose proof (enter_ok x input) as He. unfold execute.
  destruct (enter (initial x input)) as [[c' [n|]]|]; [| eauto | done].
  destruct He as [HI Hm]. by apply (run_total _ _ _ _ _ HI).
Qed.

(** [Parse] always returns. *)
Lemma Parse_epilogue (x : machine) (input : list byte) :
  ∃ c, execute (initial x input) = Done c ∧ Final (logger x) input c ∧
       Parse x input = epilogue c.
Proof.
  destruct (execute_total x input) as (c & He & Hf). exists c.
  split; [done|]. split; [done|]. unfold Parse. by rewrite He.
Qed.

(** ** Runs as derivations *)

Lemma steps_trans n1 c1 n2 c2 n3 c3 :
  steps n1 c1 n2 c2 → steps n2 c2 n3 c3 → steps n1 c1 n3 c3.
Proof. induction 1; [done|]. intros. eapply steps_goto; eauto. Qed.

Lemma steps_halts n c n' c' c'' :
  steps n c n' c' → halts n' c' c'' → halts n c c''.
Proof. induction 1; [done|]. intros. eapply halts_goto; eauto. Qed.

Lemma halts_run n c c' : halts n c c' → ∃ k, run k n c = Done c'.
Proof.
  induction 1 as [n c c' H | n c n1 c1 c' H _ [k IH]].
  - exists 1%nat. simpl. by rewrite H.
  - exists (S k). simpl. by rewrite H.
Qed.

Lemma run_agree (j : nat) :
  ∀ k n c c1 c2, run j n c = Done c1 → run k n c = Done c2 → c1 = c2.
Proof.
  induction j as [|j IH]; intros [|k] n c c1 c2; simpl; try done.
  destruct (st n c) as [[c' [n'|]]|]; [eauto | congruence | done].
Qed.

(** A derivation tells what the bounded run of [execute] returns. *)
Lemma execute_halts (x : machine) (input : list byte) (n : Z) (c1 c : conf) :
  enter (initial x input) = Some (c1, Goto n) → halts n c1 c →
  execute (initial x input) = Done c.
Proof.
  intros He Hh. destruct (execute_total x input) as (c0 & Hx & _).
  rewrite Hx. f_equal. unfold execute in Hx. rewrite He in Hx.
  destruct (halts_run _ _ _ Hh) as [k Hk]. eapply run_agree; eauto.
Qed.

Lemma execute_out (x : machine) (input : list byte) (c : conf) :
  enter (initial x input) = Some (c, Out) → execute (initial x input) = Done c.
Proof. intros He. unfold execute. by rewrite He. Qed.

Lemma reaches_Inv (x : machine) (input : list byte) (n : Z) (c : conf) :
  reaches x input n c → Inv (logger x) input n c.
Proof.
  induction 1 as [n c He | n c n' c' _ IH Hs].
  - pose proof (enter_ok x input) as H. rewrite He in H. apply H.
  - pose proof (st_preserves _ _ _ _ IH) as H. unfold step_ok in H.
    rewrite Hs in H. apply H.
Qed.

(** ** Safety, totality and the shape of what is returned *)

Lemma Parse_returns (x : machine) (input : list byte) :
  ∃ x' msg e, Parse x input = Returned x' msg e.
Proof.
  destruct (Parse_epilogue x input) as (c & _ & _ & ->). unfold epilogue.
  destruct (cs (m c) <? firstFinal); [|eauto].
  destruct (bestEffort (m c) && minimal (output c)); eauto.
Qed.

Lemma emitErrorOnCurrentCharacter_safe (t : string) (c : conf) :
  is_Some (emitErrorOnCurrentCharacter t c) ↔
  0 <= p (m c) < Z.of_nat (length (data (m c))).
Proof.
  unfold emitErrorOnCurrentCharacter. split.
  - intros [r Hr]. destruct (at_index _ _) as [b|] eqn:Hb; [|done].
    by apply at_index_range in Hb.
  - intros H. destruct (at_index_Some _ _ H) as [b ->]. simpl. eauto.
Qed.

Lemma emitErrorOnPreviousCharacter_safe (t : string) (c : conf) :
  is_Some (emitErrorOnPreviousCharacter t c) ↔
  1 <= p (m c) <= Z.of_nat (length (data (m c))).
Proof.
  unfold emitErrorOnPreviousCharacter. split.
  - intros [r Hr]. destruct (at_index _ _) as [b|] eqn:Hb; [|done].
    apply at_index_range in Hb. lia.
  - intros H. destruct (at_index_Some (data (m c)) (p (m c) - 1)) as [b ->]; [lia|].
    simpl. eauto.
Qed.

Lemma blank_line_ahead_safe (c : conf) :
  -1 <= p (m c) → pe (m c) <= Z.of_nat (length (data (m c))) →
  is_Some (blank_line_ahead c).
Proof.
  intros H1 H2. unfold blank_line_ahead.
  destruct (Z.ltb_spec (p (m c) + 2) (pe (m c))); [|eauto].
  destruct (at_index_Some (data (m c)) (p (m c) + 1)) as [b1 ->]; [lia|]. simpl.
  destruct (code b1 =? 10); [|eauto].
  destruct (at_index_Some (data (m c)) (p (m c) + 2)) as [b2 ->]; [lia|]. simpl. eauto.
Qed.

(** C10: for every input, dialect and option, [Parse] returns: no index
    or slice goes out of range and the bound on the number of jumps is never
    reached.  At every label the run goes through, the cursor is the index
    of a byte of the input, also right after a rewind, where it is one
    before the marker.  The emitters index the buffer in range exactly when
    the cursor is where the claim says, and the lookahead of the body is
    guarded. *)
Theorem C10_Parse_is_safe :
  (∀ x input, ∃ x' msg e, Parse x input = Returned x' msg e) ∧
  (∀ x input n c, reaches x input n c →
     data (m c) = input ∧ pe (m c) = Z.of_nat (length input) ∧
     0 <= p (m c) < pe (m c) ∧
     0 <= pb (m c) <= p (m c) + 1 ∧
     (n = enBody → p (m c) = pb (m c) - 1 ∧ pb (m c) < pe (m c)) ∧
     is_Some (st n c)) ∧
  (∀ t c, is_Some (emitErrorOnCurrentCharacter t c) ↔
          0 <= p (m c) < Z.of_nat (length (data (m c)))) ∧
  (∀ t c, is_Some (emitErrorOnPreviousCharacter t c) ↔
          1 <= p (m c) <= Z.of_nat (length (data (m c)))) ∧
  (∀ c, -1 <= p (m c) → pe (m c) <= Z.of_nat (length (data (m c))) →
        is_Some (blank_line_ahead c)).
Proof.
  split; [exact Parse_returns|].
  split; [|split; [exact emitErrorOnCurrentCharacter_safe|
                   split; [exact emitErrorOnPreviousCharacter_safe|
                           exact blank_line_ahead_safe]]].
  intros x input n c Hr. pose proof (reaches_Inv _ _ _ _ Hr) as HI.
  pose proof (st_preserves _ _ _ _ HI) as Hs.
  destruct HI as (_ & Hd & Hpe & _ & Hp & _ & _ & Hpb & _ & _ & _ & Hloc).
  split; [done|]. split; [done|]. split; [lia|]. split; [lia|]. split.
  - intros ->. unfold Local in Hloc. simpl in Hloc. lia.
  - unfold step_ok in Hs. destruct (st n c); [eauto | done].
Qed.

Lemma C10_Parse_is_safe_witness :
  ∃ c, reaches NewMachine (bytes "fix: x") 2 c ∧ 0 <= p (m c) < pe (m c)
       ∧ is_Some (st 2 c).
Proof.
  eexists. split; [apply reaches_enter; vm_compute; reflexivity|].
  match goal with
  | |- _ ∧ is_Some (st 2 ?c) =>
      destruct (proj1 (proj2 C10_Parse_is_safe) NewMachine (bytes "fix: x") 2 c)
        as (_ & _ & Hp & _ & _ & Hs); [apply reaches_enter; vm_compute; reflexivity|]
  end.
  split; [exact Hp | exact Hs].
Defined.

(** ** Diagnostics *)

Lemma length_append (s t : string) :
  String.length (s +:+ t) = (String.length s + String.length t)%nat.
Proof.
  induction s as [|a s IH]; [done|].
  change (String a s +:+ t) with (String a (s +:+ t)). simpl. by rewrite IH.
Qed.

Lemma substring_all (s : string) : substring 0 (String.length s) s = s.
Proof. induction s as [|a s IH]; [done|]. simpl. by rewrite IH. Qed.

Lemma substring_append (s t : string) :
  substring (String.length s) (String.length t) (s +:+ t) = t.
Proof.
  induction s as [|a s IH]; [apply substring_all|].
  change (String a s +:+ t) with (String a (s +:+ t)). simpl. exact IH.
Qed.

Lemma ends_with_append (s suf : string) : ends_with (s +:+ suf) suf = true.
Proof.
  unfold ends_with. rewrite length_append. apply andb_true_iff. split.
  - apply Nat.leb_le. lia.
  - replace (String.length s + String.length suf - String.length suf)%nat
      with (String.length s) by lia.
    rewrite substring_append. apply String.eqb_refl.
Qed.

Lemma has_col_ends_with (d : string) (n : Z) :
  has_col d n → ends_with d (": col=" +:+ Fmt.pad2 n) = true.
Proof. intros [body ->]. apply ends_with_append. Qed.

(** What [Parse] returns is decided by the configuration in which the
    generated block is left. *)
Lemma Parse_Final (x : machine) (input : list byte) (x' : machine)
    (msg : option conventionalCommit) (e : option string) :
  Parse x input = Returned x' msg e →
  ∃ c, Final (logger x) input c ∧ x' = m c ∧
       ((cs (m c) < firstFinal ∧ e = err (m c)) ∨
        (firstFinal <= cs (m c) ∧ e = None ∧ msg = Some (output c))) ∧
       (∀ r, msg = Some r → r = output c).
Proof.
  destruct (Parse_epilogue x input) as (c & _ & Hf & ->). unfold epilogue, export.
  intros H. exists c. split; [done|].
  destruct (Z.ltb_spec (cs (m c)) firstFinal).
  - destruct (bestEffort (m c) && minimal (output c)); injection H as <- <- <-;
      (split; [done|]); (split; [left; done|]); intros r Hr; congruence.
  - injection H as <- <- <-. split; [done|]. split; [right; done|].
    intros r Hr; congruence.
Qed.

(** C9: one call emits at most one diagnostic, and the error returned is
    that diagnostic: the logger holds what it held before, plus the
    returned diagnostic when there is one.  The colon and description-init
    actions leave an error that is already recorded alone, so the early-exit
    diagnostic raised on the last byte stays: [fix!] reports the early exit,
    not the missing colon. *)
Theorem C9_single_diagnostic :
  (∀ x input x' msg e,
     Parse x input = Returned x' msg e →
     (e = None ∧ logger x' = logger x) ∨
     (∃ d, e = Some d ∧ err x' = Some d ∧ logger x' = (cons d <$> logger x))) ∧
  (∀ c d, err (m c) = Some d → err_colon c = Some c ∧ err_description_init c = Some c) ∧
  (∃ x', Parse (WithLogger NewMachine) (bytes "fix!")
         = Returned x' None (Some "early exit after '!' character: col=03")
         ∧ logger x' = Some ["early exit after '!' character: col=03"]).
Proof.
  split; [|split].
  - intros x input x' msg e H.
    destruct (Parse_Final _ _ _ _ _ H) as (c & (_ & _ & _ & Hd) & -> & He & _).
    destruct Hd as [[Herr Hlog] | (d & n & Herr & Hlog & Hcs & _)].
    + left. split; [|done]. destruct He as [[_ ->] | (_ & -> & _)]; done.
    + right. exists d. destruct He as [[_ ->] | (Hcs' & _)]; [done | lia].
  - intros c d H. unfold err_colon, err_description_init. by rewrite H.
  - eexists. split; [vm_compute; reflexivity | reflexivity].
Qed.

Lemma C9_single_diagnostic_witness :
  ∃ x' msg e,
    Parse (WithLogger NewMachine) (bytes "feat") = Returned x' msg e ∧
    ((e = None ∧ logger x' = Some []) ∨
     (∃ d, e = Some d ∧ err x' = Some d ∧ logger x' = Some [d])).
Proof.
  eexists _, _, _. split; [vm_compute; reflexivity|].
  eapply (proj1 C9_single_diagnostic (WithLogger NewMachine) (bytes "feat")).
  vm_compute. reflexivity.
Defined.

(** C5, as the claim has it, fails on the one-byte input [x]: the only
    one-based position of that input is 1, and the diagnostic ends on
    [col=00]. *)
Lemma C5_column_is_not_one_based :
  returns (Parse NewMachine (bytes "x"))
  = Some (None, Some "illegal 'x' character in commit message type: col=00")
  ∧ ¬ (∃ k, 1 <= k <= Z.of_nat (length (bytes "x")) ∧
            ends_with "illegal 'x' character in commit message type: col=00"
              (": col=" +:+ Fmt.pad2 k) = true).
Proof.
  split; [vm_compute; reflexivity|].
  intros (k & Hk & He). assert (k = 1) as -> by (simpl in Hk; lia).
  vm_compute in He. discriminate.
Qed.

(** ** Where the column of a diagnostic points *)

Lemma current_char_template (t : string) :
  t ∈ current_templates → t ∈ char_templates.
Proof.
  intros Ht. unfold current_templates in Ht.
  repeat (apply elem_of_cons in Ht as [-> | Ht]); [..| by apply elem_of_nil in Ht];
    unfold char_templates; in_list.
Qed.

Lemma previous_char_template (t : string) :
  t ∈ previous_templates → t ∈ char_templates.
Proof.
  intros Ht. unfold previous_templates in Ht.
  repeat (apply elem_of_cons in Ht as [-> | Ht]); [..| by apply elem_of_nil in Ht];
    unfold char_templates; in_list.
Qed.

Lemma located_has_col (input : list byte) (q : Z) (d : string) (n : Z) :
  located input q d n → has_col d n.
Proof.
  intros [t b Ht _ -> | t b Ht _ _ -> | b _ _ -> | _ _ -> | _ _ ->]; eexists.
  - by apply Sprintf_char, current_char_template.
  - by apply Sprintf_char, previous_char_template.
  - apply Sprintf_plain. unfold plain_templates. in_list.
  - apply Sprintf_plain. unfold plain_templates. in_list.
  - apply Sprintf_plain. unfold plain_templates. in_list.
Qed.

Lemma located_range (input : list byte) (q : Z) (d : string) (n : Z) :
  located input q d n → 0 <= n <= Z.of_nat (length input).
Proof.
  intros [t b _ Hb _ | t b _ -> _ _ | b Hb _ _ | _ -> _ | _ Hn _]; try lia.
  - apply at_index_range in Hb. lia.
  - apply at_index_range in Hb. lia.
Qed.

Lemma current_character_located (input : list byte) (q : Z) (t : string) (c c' : conf) :
  t ∈ current_templates → data (m c) = input →
  record_err <$> emitErrorOnCurrentCharacter t c = Some c' →
  p (m c') = p (m c) ∧ ∃ d, err (m c') = Some d ∧ located input q d (p (m c)).
Proof.
  intros Ht Hd. unfold emitErrorOnCurrentCharacter.
  destruct (at_index (data (m c)) (p (m c))) as [b|] eqn:Hb; [|done].
  rewrite Hd in Hb. cbn [mbind option_bind fmap option_fmap option_map].
  intros [= <-]. unfold record_err, emitError. cbn [fst snd].
  destruct c as [[dt s0 q0 e ef pb0 er be tc lg key cnt last0] o]. cbn [m logger p] in *.
  destruct lg; (split; [reflexivity|]); eexists; (split; [reflexivity|]);
    by apply (on_byte _ _ _ _ t b).
Qed.

Lemma previous_character_located (input : list byte) (q : Z) (t : string) (c c' : conf) :
  t ∈ previous_templates → data (m c) = input →
  p (m c) = Z.of_nat (length input) →
  record_err <$> emitErrorOnPreviousCharacter t c = Some c' →
  p (m c') = p (m c) ∧ ∃ d, err (m c') = Some d ∧ located input q d (p (m c)).
Proof.
  intros Ht Hd Hp. unfold emitErrorOnPreviousCharacter.
  destruct (at_index (data (m c)) (p (m c) - 1)) as [b|] eqn:Hb; [|done].
  rewrite Hd in Hb. cbn [mbind option_bind fmap option_fmap option_map].
  intros [= <-]. unfold record_err, emitError. cbn [fst snd].
  destruct c as [[dt s0 q0 e ef pb0 er be tc lg key cnt last0] o]. cbn [m logger p] in *.
  destruct lg; (split; [reflexivity|]); eexists; (split; [reflexivity|]);
    by apply (after_last _ _ _ _ t b).
Qed.

(** What the actions need to place a diagnostic: the input as data, its
    length as the end, the cursor within, no diagnostic so far. *)
Lemma err_located_none (input : list byte) (c : conf) :
  err (m c) = None → err_located input c.
Proof. intros H d Hd. congruence. Qed.

Lemma err_located_set_cs (input : list byte) (v : Z) (c : conf) :
  err_located input c → err_located input (set_cs v c).
Proof. by destruct c as [[dt s0 q0 e ef pb0 er be tc lg key cnt last0] o]. Qed.

Lemma err_located_raised (input : list byte) (c : conf) (n : Z) :
  (p (m c) = n ∧ ∃ d, err (m c) = Some d ∧ located input n d n) →
  err_located input c.
Proof. intros (<- & d & Hd & Hl) d' Hd'. exists (p (m c)). congruence. Qed.

Lemma err_type_located (input : list byte) (c c' : conf) :
  data (m c) = input → pe (m c) = Z.of_nat (length input) → err (m c) = None →
  p (m c) <= pe (m c) → err_type c = Some c' → err_located input c'.
Proof.
  intros Hd Hpe Herr Hp. unfold err_type.
  destruct (0 <? pe (m c)); [|intros [= <-]; by apply err_located_none].
  destruct (Z.eqb_spec (p (m c)) (pe (m c))) as [Heq|Hne]; cbn [negb]; intros H.
  - apply (previous_character_located input (p (m c))) in H as [Hp' H];
      [| unfold previous_templates; in_list | done | lia].
    by apply (err_located_raised _ _ (p (m c))).
  - apply (current_character_located input (p (m c))) in H as [Hp' H];
      [| unfold current_templates; in_list | done].
    by apply (err_located_raised _ _ (p (m c))).
Qed.

Lemma err_colon_located (input : list byte) (c c' : conf) :
  data (m c) = input → err (m c) = None →
  err_colon c = Some c' → err_located input c'.
Proof.
  intros Hd Herr. unfold err_colon. rewrite Herr. intros H.
  apply (current_character_located input (p (m c))) in H as [Hp' H];
    [| unfold current_templates; in_list | done].
  by apply (err_located_raised _ _ (p (m c))).
Qed.

Lemma err_description_init_located (input : list byte) (c c' : conf) :
  data (m c) = input → err (m c) = None →
  err_description_init c = Some c' → err_located input c'.
Proof.
  intros Hd Herr. unfold err_description_init. rewrite Herr. intros H.
  apply (current_character_located input (p (m c))) in H as [Hp' H];
    [| unfold current_templates; in_list | done].
  by apply (err_located_raised _ _ (p (m c))).
Qed.

Lemma err_malformed_scope_located (input : list byte) (c c' : conf) :
  data (m c) = input → err (m c) = None →
  err_malformed_scope c = Some c' → err_located input c'.
Proof.
  intros Hd Herr. unfold err_malformed_scope.
  destruct (p (m c) <? pe (m c)); [|intros [= <-]; by apply err_located_none].
  intros H.
  apply (current_character_located input (p (m c))) in H as [Hp' H];
    [| unfold current_templates; in_list | done].
  by apply (err_located_raised _ _ (p (m c))).
Qed.

Lemma err_malformed_scope_closing_located (input : list byte) (c c' : conf) :
  data (m c) = input → p (m c) = Z.of_nat (length input) →
  err_malformed_scope_closing c = Some c' → err_located input c'.
Proof.
  intros Hd Hp. unfold err_malformed_scope_closing. intros H.
  apply (previous_character_located input (p (m c))) in H as [Hp' H];
    [| unfold previous_templates; in_list | done | done].
  by apply (err_located_raised _ _ (p (m c))).
Qed.

(** The description diagnostics: on a line feed under the cursor the
    column is one past it; at the end of the input it is the length. *)
Lemma err_description_located (input : list byte) (c c' : conf) :
  data (m c) = input → pe (m c) = Z.of_nat (length input) → p (m c) <= pe (m c) →
  (p (m c) < pe (m c) → nl_at input (p (m c))) →
  err_description c = Some c' → err_located input c'.
Proof.
  intros Hd Hpe Hp Hnl. unfold err_description.
  destruct (Z.ltb_spec (p (m c)) (pe (m c))) as [Hlt|Hge].
  - rewrite Hd. destruct (at_index input (p (m c))) as [b|] eqn:Hb; [|done].
    cbn [mbind option_bind]. rewrite (Hnl Hlt b Hb). cbn [Z.eqb Pos.eqb].
    intros [= <-]. unfold record_err, emitError. cbn [fst snd].
    destruct c as [[dt s0 q0 e ef pb0 er be tc lg key cnt last0] o]. cbn [m p] in *.
    intros d Hd'. exists (q0 + 1).
    apply (after_line_feed _ _ _ _ b);
      [by replace (q0 + 1 - 1) with q0 by lia | by apply Hnl |].
    destruct lg; cbn in Hd'; by injection Hd' as <-.
  - cbn [mbind option_bind]. intros H.
    apply (previous_character_located input (p (m c))) in H as [Hp' H];
      [| unfold previous_templates; in_list | done | lia].
    by apply (err_located_raised _ _ (p (m c))).
Qed.

Lemma err_begin_blank_line_located (input : list byte) (c : conf) :
  0 <= p (m c) <= Z.of_nat (length input) →
  err_located input (err_begin_blank_line c).
Proof.
  intros Hp. unfold err_begin_blank_line, emitErrorWithoutCharacter, record_err, emitError.
  cbn [fst snd].
  destruct c as [[dt s0 q0 e ef pb0 er be tc lg key cnt last0] o]. cbn [m p] in *.
  intros d Hd'. exists q0.
  destruct lg; cbn in Hd'; injection Hd' as <-; by apply at_cursor.
Qed.

(** [rewind], when it leaves the loop, has recorded a trailer
    diagnostic. *)
Lemma rewind_located (input : list byte) (halt : conf → conf * flow) (c c' : conf) :
  (∀ c1, (halt c1).2 = Out ∧ (err_located input c1 → err_located input (halt c1).1)) →
  data (m c) = input → pe (m c) = Z.of_nat (length input) →
  rewind halt c = Some (c', Out) → err_located input c'.
Proof.
  intros Hh Hd Hpe. unfold rewind.
  destruct (size (footers (output c)) =? 0)%nat; [discriminate|].
  destruct (Z.eqb_spec (p (m c)) (pe (m c))) as [Heq|Hne]; cbn [negb].
  - destruct (record_err <$> emitErrorOnPreviousCharacter ErrTrailerIncomplete c)
      as [c1|] eqn:H; [|done].
    cbn [fmap option_fmap option_map]. intros [= Hc].
    apply (previous_character_located input (p (m c))) in H as [Hp' H];
      [| unfold previous_templates; in_list | done | lia].
    destruct (Hh c1) as [_ Hk]. destruct (halt c1) as [c2 f2]. cbn [fst] in *.
    injection Hc as <- _. apply Hk. by apply (err_located_raised _ _ (p (m c))).
  - destruct (record_err <$> emitErrorOnCurrentCharacter ErrTrailer c)
      as [c1|] eqn:H; [|done].
    cbn [fmap option_fmap option_map]. intros [= Hc].
    apply (current_character_located input (p (m c))) in H as [Hp' H];
      [| unfold current_templates; in_list | done].
    destruct (Hh c1) as [_ Hk]. destruct (halt c1) as [c2 f2]. cbn [fst] in *.
    injection Hc as <- _. apply Hk. by apply (err_located_raised _ _ (p (m c))).
Qed.

(** The one transition that runs [err_description] is taken on a line
    feed only. *)
Lemma stCase_tr13 (n b : Z) (ahead : bool) :
  among n (labels ++ [1; 35; 76]) = true →
  stCase n b ahead = goto_tr tr13 → b = 10.
Proof.
  intros Hn. apply among_In in Hn. vm_compute in Hn.
  destruct (Z.eqb_spec b 10) as [->|Hne]; [done|]. intros H. exfalso. revert H.
  apply Z.eqb_neq in Hne.
  repeat (destruct Hn as [<- | Hn]); [..| destruct Hn];
    cbv [stCase switch within alnum scope_byte widec letter token app];
    rewrite ?Hne; repeat case_match; discriminate.
Qed.

Ltac open_st0 H :=
  cbn [fmap option_fmap option_map] in H; unfold st0 in H; injection H as <-.

(** A transition that leaves the loop leaves a located diagnostic. *)
Lemma exec_located (input : list byte) (t : trans) (c c' : conf) :
  data (m c) = input → pe (m c) = Z.of_nat (length input) → err (m c) = None →
  0 <= p (m c) <= pe (m c) →
  (t = tr13 → p (m c) < pe (m c) → nl_at input (p (m c))) →
  exec t c = Some (c', Out) → err_located input c'.
Proof.
  intros Hd Hpe Herr Hp Hnl.
  destruct t; cbn [exec]; intros H;
    try (repeat match type of H with
                | context [mbind _ ?x] => destruct x; cbn [mbind option_bind] in H
                end; discriminate H).
  - destruct (err_type c) as [c1|] eqn:E; [|done]. open_st0 H.
    apply err_located_set_cs. apply (err_type_located input c); try done; lia.
  - destruct (err_colon c) as [c1|] eqn:E; [|done]. open_st0 H.
    apply err_located_set_cs. by apply (err_colon_located input c).
  - destruct (err_description_init c) as [c1|] eqn:E; [|done]. open_st0 H.
    apply err_located_set_cs. by apply (err_description_init_located input c).
  - destruct (err_description c) as [c1|] eqn:E; [|done]. open_st0 H.
    apply err_located_set_cs.
    apply (err_description_located input c); [done | done | lia | by apply Hnl | done].
  - unfold st0 in H. injection H as <-.
    apply err_located_set_cs, err_begin_blank_line_located. lia.
  - destruct (err_malformed_scope c) as [c1|] eqn:E; [|done]. open_st0 H.
    apply err_located_set_cs. by apply (err_malformed_scope_located input c).
  - apply (rewind_located input st0 c); [|done|done|done].
    intros c1. split; [done|]. apply err_located_set_cs.
Qed.

Lemma set_type_machine (c c1 : conf) : set_type c = Some c1 → m c1 = m c.
Proof.
  unfold set_type. destruct (text c); [|done]. cbn [mbind option_bind].
  by intros [= <-].
Qed.

Lemma set_description_machine (c c1 : conf) : set_description c = Some c1 → m c1 = m c.
Proof.
  unfold set_description. destruct (text c); [|done]. cbn [mbind option_bind].
  by intros [= <-].
Qed.

Lemma set_footer_machine (c c1 : conf) : set_footer c = Some c1 → m c1 = m c.
Proof.
  unfold set_footer. destruct (text c); [|done]. cbn [mbind option_bind].
  by intros [= <-].
Qed.

Lemma append_body_err (c c1 : conf) : append_body c = Some c1 → err (m c1) = err (m c).
Proof.
  unfold append_body. cbv zeta.
  match goal with |- context [text ?x] => destruct (text x) end; [|done].
  cbn [mbind option_bind]. intros [= <-].
  by destruct c as [[dt s0 q0 e ef pb0 er be tc lg key cnt last0] o].
Qed.

(** The dispatch on the byte under the cursor, when it leaves the loop,
    leaves a located diagnostic. *)
Lemma atCase_located (input : list byte) (n : Z) (c c' : conf) :
  among n (labels ++ [1; 35; 76]) = true →
  data (m c) = input → pe (m c) = Z.of_nat (length input) → err (m c) = None →
  0 <= p (m c) < pe (m c) →
  atCase n c = Some (c', Out) → err_located input c'.
Proof.
  intros Hn Hd Hpe Herr Hp. unfold atCase.
  destruct (among n dead_states).
  { unfold st0. intros [= <-]. by apply err_located_set_cs, err_located_none. }
  destruct (if among n type_states then set_type c else Some c) as [c1|] eqn:E1; [|done].
  assert (m c1 = m c) as Hm.
  { destruct (among n type_states); [by apply set_type_machine | by injection E1 as <-]. }
  cbn [mbind option_bind]. rewrite Hm.
  destruct (at_index (data (m c)) (p (m c))) as [b|] eqn:Hb; [|done].
  cbn [mbind option_bind].
  destruct (if among n [34; 92] then blank_line_ahead c1 else Some false) as [ahead|];
    [|done].
  cbn [mbind option_bind].
  destruct (stCase n (code b) ahead) as [k|t] eqn:Hst.
  - unfold continue. destruct (k =? 0); [|discriminate]. unfold st0. intros [= <-].
    apply err_located_set_cs, err_located_none. by rewrite Hm.
  - apply exec_located; rewrite ?Hm; try done; [lia|].
    intros -> _ b' Hb'. apply (stCase_tr13 n _ _ Hn) in Hst.
    rewrite <- Hd in Hb'. congruence.
Qed.

Ltac next_case :=
  lazymatch goal with
  | |- (if ?b then _ else _) = _ → _ => destruct b eqn:?
  end.

Ltac bind_case E :=
  lazymatch goal with
  | |- mbind _ ?x = _ → _ => destruct x as [?c1|] eqn:E; [cbn [mbind option_bind]|done]
  end.

(** The end-of-input actions of a label leave a located diagnostic. *)
Lemma testEof_located (input : list byte) (n : Z) (c c' : conf) :
  among n labels = true →
  data (m c) = input → pe (m c) = Z.of_nat (length input) → eof (m c) = pe (m c) →
  err (m c) = None → p (m c) = pe (m c) →
  testEof n c = Some (c', Out) → err_located input c'.
Proof.
  intros Hn Hd Hpe Heof Herr Hp. unfold testEof, eofActions. cbv zeta.
  set (c0 := set_cs n c).
  assert (data (m c0) = input ∧ pe (m c0) = Z.of_nat (length input) ∧
          eof (m c0) = pe (m c0) ∧ err (m c0) = None ∧ p (m c0) = pe (m c0) ∧
          cs (m c0) = n) as (Hd0 & Hpe0 & Heof0 & Herr0 & Hp0 & ->).
  { subst c0. by destruct c as [[dt s0 q0 e ef pb0 er be tc lg key cnt last0] o]. }
  clearbody c0. clear dependent c.
  rewrite Heof0, Hp0, Z.eqb_refl. cbn [negb].
  next_case.
  { bind_case E. intros [= <-]. apply (err_type_located input c0); try done.
    clear - Hp0 Hpe0. lia. }
  next_case.
  { bind_case E. intros [= <-]. by apply (err_colon_located input c0). }
  next_case.
  { bind_case E. intros [= <-]. by apply (err_description_init_located input c0). }
  next_case.
  { bind_case E. intros [= <-].
    apply (err_description_located input c0); try done; clear - Hp0 Hpe0; lia. }
  next_case.
  { intros [= <-]. apply err_begin_blank_line_located. clear - Hp0 Hpe0. lia. }
  next_case.
  { bind_case E. intros [= <-]. apply err_located_none.
    by rewrite (set_description_machine _ _ E). }
  next_case.
  { bind_case E. intros [= <-]. apply err_located_none.
    by rewrite (set_footer_machine _ _ E). }
  next_case.
  { bind_case E. intros [= <-]. apply err_located_none.
    by rewrite (append_body_err _ _ E). }
  next_case.
  { apply rewind_located; try done. }
  next_case.
  { match goal with H : among n [1; 35; 76] = true |- _ =>
      apply among_In in H; cbn [In] in H;
      destruct H as [H | [H | [H | []]]]; rewrite <- H in Hn; vm_compute in Hn; discriminate Hn
    end. }
  next_case.
  { bind_case E. revert E. unfold err_malformed_scope. rewrite Hp0, Z.ltb_irrefl.
    intros [= <-]. bind_case E. intros [= <-].
    apply (err_malformed_scope_closing_located input c0); try done. clear - Hp0 Hpe0. lia. }
  next_case.
  { bind_case E. discriminate. }
  intros [= <-]. by apply err_located_none.
Qed.

(** The early exit: the diagnostic is raised on the last byte, and the
    end-of-input action that follows leaves it alone. *)
Lemma early_exit_located (input : list byte) (n : Z) (c c1 c' : conf) :
  among n early_exit_states = true →
  data (m c) = input → eof (m c) = pe (m c) → p (m c) + 1 = pe (m c) →
  record_err <$> emitErrorOnCurrentCharacter ErrEarly c = Some c1 →
  testEof n (set_p (p (m c1) + 1) c1) = Some (c', Out) → err_located input c'.
Proof.
  intros Hn Hd Heof Hp. unfold emitErrorOnCurrentCharacter.
  destruct (at_index (data (m c)) (p (m c))) as [b|] eqn:Hb; [|done].
  rewrite Hd in Hb. cbn [mbind option_bind fmap option_fmap option_map].
  intros [= <-]. unfold record_err, emitError. cbn [fst snd].
  destruct c as [[dt s0 q0 e ef pb0 er be tc lg key cnt last0] o].
  cbn [m data p pe eof] in *. subst ef e.
  assert (∀ q, located input q
                 (Fmt.Sprintf (ErrEarly +:+ ColumnPositionTemplate)
                    [Fmt.Str (string_of_rune b); Fmt.Int q0]) q0) as Hl.
  { intros q. apply (on_byte _ _ _ _ ErrEarly b); [|done|done].
    unfold current_templates. in_list. }
  apply among_In in Hn. vm_compute in Hn.
  unfold testEof, eofActions, err_colon, err_description_init.
  repeat (destruct Hn as [<- | Hn]); [..| destruct Hn];
    destruct lg; cbn [set_logger set_err set_p set_cs m cs p pe eof err logger among
                      existsb Z.eqb Pos.eqb orb negb mbind option_bind];
    rewrite Z.eqb_refl; cbn [negb]; intros [= <-]; intros d [= <-]; by exists q0.
Qed.

(** One pass through a label, when it leaves the loop, leaves a located
    diagnostic. *)
Lemma st_located (L : option (list string)) (input : list byte) (n : Z) (c c' : conf) :
  Inv L input n c → st n c = Some (c', Out) → err_located input c'.
Proof.
  intros (Hn & Hd & Hpe & Heof & Hp & Herr & _).
  assert (∀ c2, c2 = set_p (p (m c) + 1) c →
                (if p (m c2) =? pe (m c2) then testEof n c2 else atCase n c2)
                = Some (c', Out) → err_located input c') as Hgo.
  { intros c2 ->.
    assert (among n (labels ++ [1; 35; 76]) = true) as Hn'.
    { unfold among in *. rewrite existsb_app. by rewrite Hn. }
    destruct c as [[dt s0 q0 e ef pb0 er be tc lg key cnt last0] o].
    cbn [set_p m data p pe eof err] in *.
    destruct (Z.eqb_spec (q0 + 1) e) as [Hlast|Hnot].
    - apply testEof_located; try done; unfold set_p; cbn [m p pe]; lia.
    - apply atCase_located; try done; unfold set_p; cbn [m p pe]; lia. }
  unfold st. destruct (among n early_exit_states) eqn:He; [|by apply Hgo].
  unfold check_early_exit.
  destruct (Z.eqb_spec (p (m c) + 1) (pe (m c))) as [Hlast|Hnot]; [|by apply Hgo].
  destruct (record_err <$> emitErrorOnCurrentCharacter ErrEarly c) as [c1|] eqn:E; [|done].
  cbn [mbind option_bind]. cbv zeta.
  assert (p (m c1) = p (m c) ∧ pe (m c1) = pe (m c)) as [Hp1 Hpe1].
  { revert E. unfold emitErrorOnCurrentCharacter.
    destruct (at_index (data (m c)) (p (m c))); [|done].
    cbn [mbind option_bind fmap option_fmap option_map]. intros [= <-].
    destruct c as [[dt s0 q0 e ef pb0 er be tc lg key cnt last0] o].
    unfold record_err, emitError. cbn [fst snd m logger]. by destruct lg. }
  assert (p (m (set_p (p (m c1) + 1) c1)) = pe (m (set_p (p (m c1) + 1) c1))) as ->.
  { destruct c1 as [[dt s0 q0 e ef pb0 er be tc lg key cnt last0] o].
    cbn [set_p m p pe] in *. lia. }
  rewrite Z.eqb_refl. by apply (early_exit_located input n c c1).
Qed.

(** The first pass through the block, when it leaves the loop at once. *)
Lemma enter_located (x : machine) (input : list byte) (c' : conf) :
  enter (initial x input) = Some (c', Out) → err_located input c'.
Proof.
  unfold enter.
  assert (data (m (initial x input)) = input ∧
          pe (m (initial x input)) = Z.of_nat (length input) ∧
          eof (m (initial x input)) = pe (m (initial x input)) ∧
          err (m (initial x input)) = None ∧ p (m (initial x input)) = 0 ∧
          among (cs (m (initial x input))) [1; 35; 76] = true)
    as (Hd & Hpe & Heof & Herr & Hp & Hcs).
  { unfold initial, reset. cbn [m data pe eof err p cs]. by destruct (typeConfig x). }
  destruct (Z.eqb_spec (p (m (initial x input))) (pe (m (initial x input)))) as [He|Hne].
  - assert (input = []) as Hnil.
    { rewrite Hp, Hpe in He. destruct input; [done | cbn [length] in He; lia]. }
    subst input. clear.
    destruct x as [dt0 s0 q0 e0 ef0 b0 er0 be0 tc0 lg0 key0 cnt0 last0].
    destruct tc0, lg0; intros H; vm_compute in H; injection H as <-;
      intros d Hd'; injection Hd' as <-; exists 0; by apply on_nothing.
  - assert ((0 <=? cs (m (initial x input))) && (cs (m (initial x input)) <=? 96) = true)
      as ->.
    { apply among_In in Hcs. cbn [In] in Hcs.
      by destruct Hcs as [Hcs | [Hcs | [Hcs | []]]]; rewrite <- Hcs. }
    apply atCase_located; try done; [|lia].
    unfold among in *. rewrite existsb_app. rewrite Hcs. apply orb_true_r.
Qed.

Lemma run_located (L : option (list string)) (input : list byte) (k : nat) :
  ∀ n c c', Inv L input n c → run k n c = Done c' → err_located input c'.
Proof.
  induction k as [|k IH]; intros n c c' HI; [done|].
  pose proof (st_preserves L input n c HI) as Hs. unfold step_ok in Hs.
  pose proof (st_located L input n c) as Hl.
  cbn [run]. destruct (st n c) as [[c1 [n1|]]|]; [| | done].
  - destruct Hs as [HI' _]. by apply IH.
  - intros [= <-]. by apply Hl.
Qed.

(** The configuration in which the loop is left holds a located
    diagnostic, if any. *)
Lemma execute_located (x : machine) (input : list byte) (c : conf) :
  execute (initial x input) = Done c → err_located input c.
Proof.
  intros He. pose proof (enter_ok x input) as HI.
  pose proof (enter_located x input) as Hl. unfold execute in He.
  destruct (enter (initial x input)) as [[c1 [n|]]|]; [| | done].
  - destruct HI as [HI _]. revert He. unfold initial. cbn [m data reset].
    by apply (run_located (logger x)).
  - injection He as <-. by apply Hl.
Qed.

(** [located] tells a zero-based column from a one-based one: on the
    one-byte input [x], the type diagnostic with the column 1 is located
    nowhere. *)
Lemma one_based_not_located (q n : Z) :
  ¬ located (bytes "x") q "illegal 'x' character in commit message type: col=01" n.
Proof.
  intros Hl. pose proof (located_range _ _ _ _ Hl) as Hr.
  pose proof (located_has_col _ _ _ _ Hl) as Hc. apply has_col_ends_with in Hc.
  change (Z.of_nat (length (bytes "x"))) with 1 in Hr.
  assert (n = 0 ∨ n = 1) as [-> | ->] by lia.
  - vm_compute in Hc. discriminate.
  - clear Hc Hr.
    inversion Hl as [t b Ht Hb Hd | t b Ht Hn Hb Hd | b Hb Hcode Hd | Hi | Hq Hr Hd].
    + vm_compute in Hb. discriminate.
    + unfold previous_templates in Ht.
      repeat (apply elem_of_cons in Ht as [-> | Ht]); [..| by apply elem_of_nil in Ht];
        vm_compute in Hb; injection Hb as <-; vm_compute in Hd; discriminate.
    + vm_compute in Hb. injection Hb as <-. vm_compute in Hcode. discriminate.
    + discriminate.
    + vm_compute in Hd. discriminate.
Qed.

(** C5, amended: every diagnostic [Parse] returns ends with [": col="]
    followed by a number [n] in decimal, padded with a zero to two digits,
    and [n] is the zero-based offset the emitting action passes, as
    [located] spells out: the offset of the byte the diagnostic quotes
    (so a diagnostic on the first byte ends on [col=00]); the length of
    the input, one past the quoted last byte, when the input ends too
    early; one past the offset of the line feed for the newline
    diagnostic; 0 for the empty input; the cursor at which the machine
    stops for the diagnostic of the missing blank line. *)
Theorem C5_diagnostic_column_suffix :
  (∀ x input x' msg d,
     Parse x input = Returned x' msg (Some d) →
     ∃ n, 0 <= n <= Z.of_nat (length input) ∧
          ends_with d (": col=" +:+ Fmt.pad2 n) = true ∧
          located input (p x') d n) ∧
  (∀ n, 0 <= n < 10 → Fmt.pad2 n = "0" +:+ Fmt.digits (Z.to_N n)) ∧
  (∀ n, 10 <= n → Fmt.pad2 n = Fmt.digits (Z.to_N n)).
Proof.
  split; [|split].
  - intros x input x' msg d H.
    destruct (Parse_epilogue x input) as (c & He & _ & HP).
    assert (x' = m c ∧ err (m c) = Some d) as [-> Hd].
    { rewrite HP in H. unfold epilogue in H.
      destruct (cs (m c) <? firstFinal); [|discriminate H].
      by destruct (bestEffort (m c) && minimal (output c)); injection H as <- _ ->. }
    destruct (execute_located x input c He d Hd) as [n Hl]. exists n.
    split; [by apply (located_range _ _ _ _ Hl)|]. split; [|done].
    by apply has_col_ends_with, (located_has_col _ _ _ _ Hl).
  - intros n Hn. unfold Fmt.pad2.
    destruct (Z.ltb_spec n 0); [lia|]. destruct (Z.ltb_spec n 10); [done | lia].
  - intros n Hn. unfold Fmt.pad2.
    destruct (Z.ltb_spec n 0); [lia|]. destruct (Z.ltb_spec n 10); [lia | done].
Qed.

Lemma C5_diagnostic_column_suffix_witness :
  ∃ x' n,
    Parse NewMachine (bytes "fix")
    = Returned x' None (Some "early exit after 'x' character: col=02") ∧
    0 <= n <= Z.of_nat (length (bytes "fix")) ∧
    ends_with "early exit after 'x' character: col=02" (": col=" +:+ Fmt.pad2 n) = true ∧
    located (bytes "fix") (p x') "early exit after 'x' character: col=02" n.
Proof.
  assert (∃ x', Parse NewMachine (bytes "fix")
                = Returned x' None (Some "early exit after 'x' character: col=02"))
    as [x' H] by (eexists; vm_compute; reflexivity).
  destruct (proj1 C5_diagnostic_column_suffix NewMachine (bytes "fix") x' None _ H)
    as (n & Hn & He & Hl).
  by exists x', n.
Defined.

(** ** The return contract and the literal scenario *)

(** What [Parse] returns follows the three-way choice of its last lines:
    the record alone when the machine stops in a final state; otherwise the
    recorded error, with the record only in best-effort mode and when
    [minimal()] holds. *)
Lemma Parse_contract (x : machine) (input : list byte) :
  ∃ c, execute (initial x input) = Done c ∧
       returns (Parse x input) =
         Some (if cs (m c) <? firstFinal
               then (if bestEffort (m c) && minimal (output c)
                     then Some (output c) else None, err (m c))
               else (Some (output c), None)).
Proof.
  destruct (Parse_epilogue x input) as (c & He & _ & ->). exists c.
  split; [done|]. unfold epilogue, export.
  destruct (cs (m c) <? firstFinal); [|done].
  by destruct (bestEffort (m c) && minimal (output c)).
Qed.

(** C1: what [Parse] returns follows the three-way choice of its last
    lines, for every machine and input.  A stop below the final states is
    not always a stop with an error, though: on [silent_failure] the machine
    stops in state 33, which is not final and has no end-of-input action, so
    no error was ever recorded.  [Parse] then returns neither record nor
    error, and in best-effort mode the partial record with no error, which a
    caller cannot tell from success. *)
Theorem C1_failure_without_error :
  (∀ x input,
     ∃ c, execute (initial x input) = Done c ∧
          returns (Parse x input) =
            Some (if cs (m c) <? firstFinal
                  then (if bestEffort (m c) && minimal (output c)
                        then Some (output c) else None, err (m c))
                  else (Some (output c), None))) ∧
  (∃ x', Parse NewMachine silent_failure = Returned x' None None
         ∧ cs x' = enTrailerEnd ∧ cs x' < firstFinal) ∧
  returns (Parse (WithBestEffort NewMachine) silent_failure)
  = Some (Some (mkCommit "fix" "" "x" false "" ∅), None).
Proof.
  split; [exact Parse_contract|]. split.
  - eexists. split; [vm_compute; reflexivity|]. split; [reflexivity|].
    vm_compute. reflexivity.
  - vm_compute. reflexivity.
Qed.

(** C3, as the claim has it, fails: the body returned is not the one
    without the final line feed. *)
Lemma C3_body_keeps_final_newline :
  ¬ (∃ r, returns (Parse NewMachine two_paragraphs) = Some (Some r, None)
          ∧ body r = "First paragraph." +:+ LF +:+ LF +:+ "Second paragraph.").
Proof.
  intros (r & Hr & Hb). vm_compute in Hr. injection Hr as <-.
  vm_compute in Hb. discriminate.
Qed.

(** C3, amended: on the literal input, [Parse] under the default dialect
    succeeds with type [fix], description [bug], no scope, no footer, and a
    body that is every byte after the blank line, the final line feed
    included. *)
Theorem C3_two_paragraphs :
  returns (Parse NewMachine two_paragraphs)
  = Some (Some (mkCommit "fix" "" "bug" false
                  ("First paragraph." +:+ LF +:+ LF +:+ "Second paragraph." +:+ LF) ∅),
          None).
Proof. vm_compute. reflexivity. Qed.

(** ** Reuse of a machine *)

Ltac same_start :=
  intros [[dt1 s1 q1 e1 ef1 b1 er1 be1 tc1 lg1 key1 cnt1 last1] o1]
         [[dt2 s2 q2 e2 ef2 b2 er2 be2 tc2 lg2 key2 cnt2 last2] o2];
  unfold same, same_result; fields;
  intros (-> & -> & -> & -> & -> & -> & -> & -> & -> & -> & -> & Hlast & ->).

Ltac same_test x :=
  lazymatch x with
  | among _ _ => idtac
  | negb ?y => same_test y
  | _ => splittable x
  end.

Ltac same_split :=
  match goal with
  | H : ?b = true |- context [if ?b then _ else _] => rewrite H
  | H : ?b = false |- context [if ?b then _ else _] => rewrite H
  | H : at_index ?d ?i = _ |- context [at_index ?d ?i] => rewrite H
  | H : slice ?d ?lo ?hi = _ |- context [slice ?d ?lo ?hi] => rewrite H
  | |- context [at_index ?d ?i] => destruct (at_index d i) eqn:?
  | |- context [slice ?d ?lo ?hi] => destruct (slice d lo hi) eqn:?
  | |- context [if ?b then _ else _] =>
      same_test b; destruct b eqn:?; try (exfalso; congruence)
  | |- context [match ?x with _ => _ end] =>
      same_test x; destruct x eqn:?; try (exfalso; congruence)
  end.

Ltac same_sym :=
  repeat (fields; first [eval_lit | same_split | unfold_head]); fields.

Ltac same_fin :=
  repeat match goal with H : among _ _ = _ |- _ => clear H end;
  lazymatch goal with
  | |- True => exact I
  | |- False => first [congruence | lia | idtac]
  | |- _ =>
      unfold same; fields; repeat split;
      first [reflexivity | lia | (intros; f_equal; lia) | idtac]
  end.

Lemma exec_same (t : trans) : ∀ c1 c2, same c1 c2 → same_result (exec t c1) (exec t c2).
Proof. destruct t; same_start; same_sym; same_fin. Qed.

Lemma set_type_same : ∀ c1 c2, same c1 c2 →
  match set_type c1, set_type c2 with
  | Some a, Some b => same a b
  | None, None => True
  | _, _ => False
  end.
Proof. same_start; same_sym; same_fin. Qed.

Lemma blank_line_ahead_same : ∀ c1 c2, same c1 c2 →
  blank_line_ahead c1 = blank_line_ahead c2.
Proof. same_start; same_sym; same_fin. Qed.

Lemma continue_same (k : Z) : ∀ c1 c2, same c1 c2 →
  same_result (Some (continue k c1)) (Some (continue k c2)).
Proof. same_start; same_sym; same_fin. Qed.

Lemma atCase_same (n : Z) (c1 c2 : conf) :
  same c1 c2 → same_result (atCase n c1) (atCase n c2).
Proof.
  intros H. unfold atCase. destruct (among n dead_states).
  { revert c1 c2 H. same_start; same_sym; same_fin. }
  assert (match (if among n type_states then set_type c1 else Some c1),
                (if among n type_states then set_type c2 else Some c2) with
          | Some a, Some b => same a b
          | None, None => True
          | _, _ => False
          end) as Ht.
  { destruct (among n type_states); [by apply set_type_same | done]. }
  destruct (if among n type_states then set_type c1 else Some c1) as [a1|],
           (if among n type_states then set_type c2 else Some c2) as [a2|];
    try done; cbn [mbind option_bind].
  assert (data (m a1) = data (m a2) ∧ p (m a1) = p (m a2)) as [-> ->]
    by (split; apply Ht).
  destruct (at_index (data (m a2)) (p (m a2))) as [b|]; cbn [mbind option_bind]; [|done].
  rewrite (blank_line_ahead_same _ _ Ht).
  destruct (if among n [34; 92] then blank_line_ahead a2 else Some false) as [ahead|];
    cbn [mbind option_bind]; [|done].
  destruct (stCase n (code b) ahead) as [k|t].
  - by apply continue_same.
  - by apply exec_same.
Qed.

Lemma eofActions_same : ∀ c1 c2, same c1 c2 →
  same_result (eofActions c1) (eofActions c2).
Proof. same_start; same_sym; same_fin. Qed.

Lemma set_cs_same (n : Z) : ∀ c1 c2, same c1 c2 → same (set_cs n c1) (set_cs n c2).
Proof. same_start; same_sym; same_fin. Qed.

Lemma check_early_exit_same : ∀ c1 c2, same c1 c2 →
  match check_early_exit c1, check_early_exit c2 with
  | Some a, Some b => same a b
  | None, None => True
  | _, _ => False
  end.
Proof. same_start; same_sym; same_fin. Qed.

Lemma set_p_same (v : Z) : ∀ c1 c2, same c1 c2 → same (set_p v c1) (set_p v c2).
Proof. same_start; same_sym; same_fin. Qed.

Lemma st_same (n : Z) (c1 c2 : conf) :
  same c1 c2 → same_result (st n c1) (st n c2).
Proof.
  intros H. unfold st.
  assert (match (if among n early_exit_states then check_early_exit c1 else Some c1),
                (if among n early_exit_states then check_early_exit c2 else Some c2) with
          | Some a, Some b => same a b
          | None, None => True
          | _, _ => False
          end) as Ht.
  { destruct (among n early_exit_states); [by apply check_early_exit_same | done]. }
  destruct (if among n early_exit_states then check_early_exit c1 else Some c1) as [a1|],
           (if among n early_exit_states then check_early_exit c2 else Some c2) as [a2|];
    try done; cbn [mbind option_bind].
  assert (p (m a1) = p (m a2) ∧ pe (m a1) = pe (m a2)) as [Hp Hpe]
    by (split; apply Ht).
  assert (same (set_p (p (m a1) + 1) a1) (set_p (p (m a1) + 1) a2)) as Hs
    by apply set_p_same, Ht.
  rewrite <- Hp in *.
  assert (p (m (set_p (p (m a1) + 1) a1)) = p (m (set_p (p (m a1) + 1) a2)) ∧
          pe (m (set_p (p (m a1) + 1) a1)) = pe (m (set_p (p (m a1) + 1) a2)))
    as [-> ->] by (split; apply Hs).
  destruct (p (m (set_p (p (m a1) + 1) a2)) =? pe (m (set_p (p (m a1) + 1) a2))).
  - unfold testEof. by apply eofActions_same, set_cs_same.
  - by apply atCase_same.
Qed.

Lemma enter_same (c1 c2 : conf) : same c1 c2 → same_result (enter c1) (enter c2).
Proof.
  intros H. unfold enter.
  assert (p (m c1) = p (m c2) ∧ pe (m c1) = pe (m c2) ∧ cs (m c1) = cs (m c2))
    as (-> & -> & ->) by (repeat split; apply H).
  destruct (p (m c2) =? pe (m c2)); [by apply eofActions_same|].
  destruct ((0 <=? cs (m c2)) && (cs (m c2) <=? 96)); [by apply atCase_same|].
  by apply eofActions_same, set_cs_same.
Qed.

Lemma run_same (k : nat) : ∀ n c1 c2, same c1 c2 →
  match run k n c1, run k n c2 with
  | Done a, Done b => same a b
  | Panic, Panic | OutOfFuel, OutOfFuel => True
  | _, _ => False
  end.
Proof.
  induction k as [|k IH]; intros n c1 c2 H; simpl; [done|].
  pose proof (st_same n _ _ H) as Hs. unfold same_result in Hs.
  destruct (st n c1) as [[a1 [n1|]]|], (st n c2) as [[a2 [n2|]]|]; try done.
  - destruct Hs as [Hs [= ->]]. by apply IH.
  - by destruct Hs.
  - by destruct Hs.
  - by destruct Hs.
Qed.

(** What [Parse] returns depends on the machine it is called on through
    its options only. *)
Lemma Parse_same (x1 x2 : machine) (input : list byte) :
  bestEffort x1 = bestEffort x2 → typeConfig x1 = typeConfig x2 →
  returns (Parse x1 input) = returns (Parse x2 input).
Proof.
  intros Hb Ht.
  assert (same (initial x1 input) (initial x2 input)) as H.
  { unfold same, initial, reset. simpl. rewrite Hb, Ht. repeat split; lia. }
  unfold Parse, execute.
  assert (data (m (initial x1 input)) = data (m (initial x2 input))) as -> by apply H.
  pose proof (enter_same _ _ H) as He. unfold same_result in He.
  destruct (enter (initial x1 input)) as [[a1 [n1|]]|],
           (enter (initial x2 input)) as [[a2 [n2|]]|]; try done;
    try (by destruct He).
  - destruct He as [He [= ->]].
    pose proof (run_same (fuel (length (data (m (initial x2 input))))) n2 _ _ He) as Hr.
    destruct (run _ n2 a1) as [r1| |], (run _ n2 a2) as [r2| |]; try done.
    unfold epilogue, export.
    destruct Hr as (_ & -> & _ & _ & _ & _ & -> & -> & _ & _ & _ & _ & ->).
    destruct (cs (m r2) <? firstFinal); [|done].
    by destruct (bestEffort (m r2) && minimal (output r2)).
  - destruct He as [He _]. unfold epilogue, export.
    destruct He as (_ & -> & _ & _ & _ & _ & -> & -> & _ & _ & _ & _ & ->).
    destruct (cs (m a2) <? firstFinal); [|done].
    by destruct (bestEffort (m a2) && minimal (output a2)).
Qed.

(** C4, as the claim has it, fails: after the assignments at the top of
    [Parse], a reused machine still holds the [lastNewline] of the previous
    call, where a fresh machine holds 0. *)
Lemma C4_lastNewline_is_not_reset :
  lastNewline (reset used_machine (bytes "fix: y")) = 15 ∧
  lastNewline (reset NewMachine (bytes "fix: y")) = 0 ∧
  ¬ (∀ x input, lastNewline (reset x input) = lastNewline (reset NewMachine input)).
Proof.
  split; [vm_compute; reflexivity|]. split; [reflexivity|].
  intros H. specialize (H used_machine (bytes "fix: y")). vm_compute in H. discriminate.
Qed.

(** C4, amended: the top of [Parse] resets every piece of transient state
    except [lastNewline] (the buffer, the cursors [p], [pb], [pe], [eof],
    the state [cs], [err], [currentFooterKey] and [countNewlines]); the
    machine reads [lastNewline] only after counting a newline, which writes
    it, so what [Parse] returns depends on the machine through its options
    alone: a reused machine and a fresh one with the same options return the
    same record and error on every input. *)
Theorem C4_reuse_returns_the_same :
  (∀ x input,
     let r := reset x input in
     data r = input ∧ p r = 0 ∧ pb r = 0 ∧
     pe r = Z.of_nat (length input) ∧ eof r = Z.of_nat (length input) ∧
     err r = None ∧ currentFooterKey r = "" ∧ countNewlines r = 0 ∧
     cs r = cs (reset (WithTypes (typeConfig x) NewMachine) input) ∧
     lastNewline r = lastNewline x) ∧
  (∀ x1 x2 input,
     bestEffort x1 = bestEffort x2 → typeConfig x1 = typeConfig x2 →
     returns (Parse x1 input) = returns (Parse x2 input)).
Proof.
  split; [|exact Parse_same].
  intros x input. simpl. repeat split.
Qed.

Lemma C4_reuse_returns_the_same_witness :
  returns (Parse used_machine (bytes "fix: y"))
  = returns (Parse NewMachine (bytes "fix: y")).
Proof.
  apply (proj2 C4_reuse_returns_the_same used_machine NewMachine (bytes "fix: y"));
    vm_compute; reflexivity.
Defined.

(** ** The rewind protocol *)

Lemma trailer_byte_rewinds_or_carries_on (n b : Z) (ahead : bool) :
  n ∈ trailer_labels →
  stCase n b ahead = goto_tr tr21 ∨ carries_on (stCase n b ahead) = true.
Proof.
  intros Hn. apply list_elem_of_In in Hn. vm_compute in Hn.
  repeat (destruct Hn as [<- | Hn]); [..| destruct Hn];
    cbv beta iota zeta delta [stCase token switch alnum within app];
    repeat match goal with
      | |- context [if ?c then _ else _] => destruct c
      end;
    first [left; reflexivity | right; reflexivity].
Qed.

Lemma trailer_eof_rewinds (n : Z) (c : conf) :
  n ∈ token_labels → p (m c) = eof (m c) →
  testEof n c = rewind (λ c1, (c1, Out)) (set_cs n c).
Proof.
  intros Hn Hp. apply list_elem_of_In in Hn. vm_compute in Hn.
  destruct c as [[dt s q e ef b er be tc lg key cnt last] o]. simpl in Hp. subst q.
  unfold testEof, eofActions, set_cs. fields. rewrite Z.eqb_refl. fields.
  repeat (destruct Hn as [<- | Hn]); [..| destruct Hn]; reflexivity.
Qed.

Lemma rewind_without_footer (halt : conf → conf * flow) (c : conf) :
  size (footers (output c)) = 0%nat →
  ∃ c', rewind halt c = Some (c', Goto enBody) ∧
        pb (m c') = (if 0 <? countNewlines (m c) then lastNewline (m c) + 1 else pb (m c)) ∧
        p (m c') = pb (m c') - 1 ∧
        c' = set_p (pb (m c') - 1) (set_pb (pb (m c')) c).
Proof.
  intros Hf. unfold rewind. rewrite Hf. simpl.
  destruct c as [[dt s q e ef b er be tc lg key cnt last] o].
  eexists. split; [reflexivity|]. simpl. by destruct (0 <? cnt).
Qed.

Lemma rewind_after_footer_at_byte (c : conf) (b : byte) :
  size (footers (output c)) ≠ 0%nat → p (m c) ≠ pe (m c) →
  at_index (data (m c)) (p (m c)) = Some b →
  ∃ c', rewind st0 c = Some (c', Out) ∧ cs (m c') = 0 ∧
        err (m c') = Some (diagnostic "illegal '" b "' character in trailer" (p (m c))).
Proof.
  intros Hf Hp Hb. unfold rewind.
  destruct (Nat.eqb_spec (size (footers (output c))) 0); [done|].
  destruct (Z.eqb_spec (p (m c)) (pe (m c))); [done|]. simpl.
  unfold emitErrorOnCurrentCharacter. rewrite Hb. simpl.
  eexists. split; [reflexivity|]. split; [by destruct (logger (m c))|].
  unfold record_err, emitError. cbn [fst snd].
  rewrite Sprintf_char by (unfold char_templates; in_list).
  by destruct (logger (m c)).
Qed.

Lemma rewind_after_footer_at_eof (c : conf) (b : byte) :
  size (footers (output c)) ≠ 0%nat → p (m c) = pe (m c) →
  at_index (data (m c)) (p (m c) - 1) = Some b →
  ∃ c', rewind (λ c1, (c1, Out)) c = Some (c', Out) ∧ cs (m c') = cs (m c) ∧
        err (m c') = Some (diagnostic "incomplete footer trailer after '" b "' character"
                             (p (m c))).
Proof.
  intros Hf Hp Hb. unfold rewind.
  destruct (Nat.eqb_spec (size (footers (output c))) 0); [done|].
  destruct (Z.eqb_spec (p (m c)) (pe (m c))); [|done]. simpl.
  unfold emitErrorOnPreviousCharacter. rewrite Hb. simpl.
  eexists. split; [reflexivity|].
  unfold record_err, emitError. cbn [fst snd].
  rewrite Sprintf_char by (unfold char_templates; in_list).
  destruct c as [[dt s q pe0 ef pb0 er be tc lg key cnt last] o].
  by destruct lg.
Qed.

(** C2: in the states that recognise a trailer token and its separator, a
    byte either carries the recognition on or runs [rewind], and so does the
    end of the input in the token states.  With no footer emitted, [rewind]
    moves the marker to [lastNewline + 1] when newlines were counted, puts
    the cursor one before the marker and jumps to the body, which reads on
    from the marker.  With a footer emitted it fails instead: [ErrTrailer]
    on the current byte, [ErrTrailerIncomplete] on the last byte at the end
    of the input.  The marker is the one the last [mark] left: when the
    first byte after the blank line cannot begin a token and no newline was
    counted, that is the marker of the description, and the body returned
    begins with the description. *)
Theorem C2_rewind_protocol :
  (∀ n b ahead, n ∈ trailer_labels →
     stCase n b ahead = goto_tr tr21 ∨ carries_on (stCase n b ahead) = true) ∧
  (∀ c, exec tr21 c = rewind st0 c) ∧
  (∀ n c, n ∈ token_labels → p (m c) = eof (m c) →
     testEof n c = rewind (λ c1, (c1, Out)) (set_cs n c)) ∧
  (∀ halt c, size (footers (output c)) = 0%nat →
     ∃ c', rewind halt c = Some (c', Goto enBody) ∧
           pb (m c') = (if 0 <? countNewlines (m c)
                        then lastNewline (m c) + 1 else pb (m c)) ∧
           p (m c') = pb (m c') - 1 ∧
           c' = set_p (pb (m c') - 1) (set_pb (pb (m c')) c)) ∧
  (∀ c b, size (footers (output c)) ≠ 0%nat → p (m c) ≠ pe (m c) →
     at_index (data (m c)) (p (m c)) = Some b →
     ∃ c', rewind st0 c = Some (c', Out) ∧ cs (m c') = 0 ∧
           err (m c') = Some (diagnostic "illegal '" b "' character in trailer" (p (m c)))) ∧
  (∀ c b, size (footers (output c)) ≠ 0%nat → p (m c) = pe (m c) →
     at_index (data (m c)) (p (m c) - 1) = Some b →
     ∃ c', rewind (λ c1, (c1, Out)) c = Some (c', Out) ∧ cs (m c') = cs (m c) ∧
           err (m c') = Some (diagnostic "incomplete footer trailer after '" b
                                "' character" (p (m c)))) ∧
  returns (Parse NewMachine stale_marker)
  = Some (Some (mkCommit "fix" "" "hello" false
                  ("hello" +:+ LF +:+ LF +:+ "!rest") ∅), None).
Proof.
  split; [exact trailer_byte_rewinds_or_carries_on|].
  split; [reflexivity|].
  split; [exact trailer_eof_rewinds|].
  split; [exact rewind_without_footer|].
  split; [exact rewind_after_footer_at_byte|].
  split; [exact rewind_after_footer_at_eof|].
  vm_compute. reflexivity.
Qed.

Lemma C2_rewind_protocol_witness :
  (stCase 87 33 false = goto_tr tr21 ∨ carries_on (stCase 87 33 false) = true) ∧
  ∃ c', rewind st0 (mkConf (mkMachine (bytes "fix: x") 0 5 6 6 3 None false TypesMinimal
                              None "" 1 4) emptyCommit)
        = Some (c', Goto enBody) ∧ pb (m c') = 5 ∧ p (m c') = pb (m c') - 1.
Proof.
  split.
  - apply (proj1 C2_rewind_protocol 87 33 false). unfold trailer_labels. in_list.
  - destruct (proj1 (proj2 (proj2 (proj2 C2_rewind_protocol))) st0
                (mkConf (mkMachine (bytes "fix: x") 0 5 6 6 3 None false TypesMinimal
                           None "" 1 4) emptyCommit) eq_refl)
      as (c' & H1 & H2 & H3 & _).
    exists c'. split; [exact H1|]. split; [exact H2 | exact H3].
Defined.

(** ** Running the machine on an input given byte by byte *)

Lemma Parse_halts (x : machine) (input : list byte) (n : Z) (c1 c : conf) :
  enter (initial x input) = Some (c1, Goto n) → halts n c1 c →
  Parse x input = epilogue c.
Proof. intros He Hh. unfold Parse. by rewrite (execute_halts _ _ _ _ _ He Hh). Qed.

Lemma Parse_out (x : machine) (input : list byte) (c : conf) :
  enter (initial x input) = Some (c, Out) → Parse x input = epilogue c.
Proof. intros He. unfold Parse. by rewrite (execute_out _ _ _ He). Qed.

(** Arithmetic on literals, and lookups the known bytes decide. *)
Ltac eval_arith :=
  match goal with
  | |- context [Z.add ?a ?b] =>
      is_lit a; is_lit b; let v := (eval vm_compute in (Z.add a b)) in change (Z.add a b) with v
  | |- context [Z.sub ?a ?b] =>
      is_lit a; is_lit b; let v := (eval vm_compute in (Z.sub a b)) in change (Z.sub a b) with v
  | |- context [at_index ?d ?i] =>
      is_lit i;
      let v := (eval cbv in (at_index d i)) in
      lazymatch v with
      | Some _ => change (at_index d i) with v
      end
  | H : at_index ?d ?i = Some _ |- context [at_index ?d ?i] => rewrite H
  | |- context [slice ?d ?lo ?hi] =>
      is_lit lo; is_lit hi;
      let v := (eval cbv in (slice d lo hi)) in
      lazymatch v with
      | Some _ => change (slice d lo hi) with v
      end
  end.

Ltac eval_code :=
  match goal with
  | |- context [code ?b] =>
      let v := (eval vm_compute in (code b)) in is_lit v; change (code b) with v
  end.

Ltac known :=
  repeat (fields; cbn [length app];
          first [eval_lit | eval_code | eval_arith | split_head | unfold_head]);
  fields.

(** One [goto], or the last block, of a derivation. *)
Ltac hop := eapply halts_goto; [known; reflexivity|].
Ltac land := eapply halts_out; known; reflexivity.

(** ** Type errors of the minimal dialect *)

Lemma lower_byte_letter (b k : byte) :
  k ∈ bytes "fixeat" →
  Byte.eqb (lower_byte b) k = (code b =? code k) || (code b =? code k - 32).
Proof.
  intros Hk. apply list_elem_of_In in Hk. vm_compute in Hk.
  repeat (destruct Hk as [<- | Hk]); [..| destruct Hk]; destruct b; reflexivity.
Qed.

Ltac letters H :=
  unfold viable, partial, complete in H;
  cbn [app length] in H; rewrite ?length_app, ?Nat.add_1_r in H;
  (let v := (eval vm_compute in minimal_types) in change minimal_types with v in H);
  cbn [existsb matches_ci app length Nat.ltb Nat.leb Nat.eqb] in H;
  rewrite ?lower_byte_letter in H by (vm_compute; in_list);
  change (code "f") with 102 in H; change (code "i") with 105 in H;
  change (code "x") with 120 in H; change (code "e") with 101 in H;
  change (code "a") with 97 in H; change (code "t") with 116 in H.

Ltac cases H :=
  repeat match type of H with
    | (_ || _) = true => apply orb_true_iff in H; destruct H as [H | H]
    | (_ && _) = true =>
        let H' := fresh in apply andb_true_iff in H; destruct H as [H' H]; cases H'
    | false = true => discriminate H
    | (_ =? _) = true => apply Z.eqb_eq in H
    end.

(** [Parse] is followed to its end on an input whose bytes are known:
    first the entry, then one block after the other. *)
Ltac fly := first [land | hop; fly].

Ltac parse :=
  cbn [app];
  first
    [ erewrite Parse_out
        by (unfold initial, reset, emptyCommit, start; known; reflexivity)
    | erewrite Parse_halts;
      [ | unfold initial, reset, emptyCommit, start; known; reflexivity | fly ] ].

Lemma minimal_no_descr (o : conventionalCommit) : descr o = "" → minimal o = false.
Proof. intros H. unfold minimal. rewrite H. apply andb_false_r. Qed.

(** The epilogue on a failed parse whose record has no description. *)
Ltac failed :=
  unfold epilogue, export, firstFinal; fields;
  repeat match goal with
    | |- context [Z.ltb ?a ?b] =>
        is_lit a; is_lit b;
        let v := (eval vm_compute in (Z.ltb a b)) in change (Z.ltb a b) with v
    end;
  rewrite minimal_no_descr by reflexivity;
  rewrite andb_false_r; cbn [returns];
  unfold diagnostic; rewrite ?Sprintf_char by (unfold char_templates; in_list);
  reflexivity.

Ltac open_machine x H :=
  destruct x as [dt0 s0 q0 e0 ef0 pb0 er0 be0 tc0 lg0 key0 cnt0 last0];
  simpl in H; subst tc0; destruct lg0 as [l|].

Lemma type_mismatch (x : machine) (pre : list byte) (b : byte) (rest : list byte) :
  typeConfig x = TypesMinimal →
  partial pre = true → viable (pre ++ [b]) = false →
  returns (Parse x (pre ++ b :: rest))
  = Some (None, Some (diagnostic "illegal '" b "' character in commit message type"
                        (Z.of_nat (length pre)))).
Proof.
  intros Hx Hp Hv.
  destruct pre as [|b0 [|b1 [|b2 [|b3 pre]]]]; letters Hp; letters Hv;
    open_machine x Hx; cases Hp; parse; failed.
Qed.

Lemma type_incomplete (x : machine) (pre : list byte) (b : byte) :
  typeConfig x = TypesMinimal →
  partial (pre ++ [b]) = true →
  returns (Parse x (pre ++ [b]))
  = Some (None, Some (diagnostic "incomplete commit message type after '" b "' character"
                        (Z.of_nat (length pre) + 1))).
Proof.
  intros Hx Hp.
  destruct pre as [|b0 [|b1 [|b2 [|b3 pre]]]]; letters Hp;
    open_machine x Hx; cases Hp; parse; failed.
Qed.

Lemma type_alone (x : machine) (pre : list byte) (b : byte) :
  typeConfig x = TypesMinimal →
  complete (pre ++ [b]) = true →
  returns (Parse x (pre ++ [b]))
  = Some (None, Some (diagnostic "early exit after '" b "' character"
                        (Z.of_nat (length pre)))).
Proof.
  intros Hx Hp.
  destruct pre as [|b0 [|b1 [|b2 [|b3 pre]]]]; letters Hp;
    open_machine x Hx; cases Hp; parse; failed.
Qed.

(** C8: in the minimal dialect, a byte that continues no keyword fails with
    [ErrType] on that byte at its zero-based offset; an input that stops
    within a keyword fails with [ErrTypeIncomplete] on its last byte; an
    input that is exactly a keyword fails with [ErrEarly] on its last
    byte. *)
Theorem C8_type_errors :
  (∀ x pre b rest,
     typeConfig x = TypesMinimal → partial pre = true → viable (pre ++ [b]) = false →
     returns (Parse x (pre ++ b :: rest))
     = Some (None, Some (diagnostic "illegal '" b "' character in commit message type"
                           (Z.of_nat (length pre))))) ∧
  (∀ x pre b,
     typeConfig x = TypesMinimal → partial (pre ++ [b]) = true →
     returns (Parse x (pre ++ [b]))
     = Some (None, Some (diagnostic "incomplete commit message type after '" b
                           "' character" (Z.of_nat (length pre) + 1)))) ∧
  (∀ x pre b,
     typeConfig x = TypesMinimal → complete (pre ++ [b]) = true →
     returns (Parse x (pre ++ [b]))
     = Some (None, Some (diagnostic "early exit after '" b "' character"
                           (Z.of_nat (length pre))))).
Proof.
  split; [exact type_mismatch|]. split; [exact type_incomplete | exact type_alone].
Qed.

Lemma C8_type_errors_witness :
  returns (Parse NewMachine (bytes "fez: x"))
  = Some (None, Some "illegal 'z' character in commit message type: col=02") ∧
  returns (Parse NewMachine (bytes "fe"))
  = Some (None, Some "incomplete commit message type after 'e' character: col=02") ∧
  returns (Parse NewMachine (bytes "feat"))
  = Some (None, Some "early exit after 't' character: col=03").
Proof.
  split; [|split].
  - exact (proj1 C8_type_errors NewMachine (bytes "fe") "z"%byte (bytes ": x")
             eq_refl eq_refl eq_refl).
  - exact (proj1 (proj2 C8_type_errors) NewMachine (bytes "f") "e"%byte eq_refl eq_refl).
  - exact (proj2 (proj2 C8_type_errors) NewMachine (bytes "fea") "t"%byte eq_refl eq_refl).
Defined.

(** ** Bytes ahead of the cursor *)

Lemma at_index_app (pre l : list byte) (i : nat) :
  at_index (pre ++ l) (Z.of_nat (length pre) + Z.of_nat i) = l !! i.
Proof.
  unfold at_index. destruct (Z.leb_spec 0 (Z.of_nat (length pre) + Z.of_nat i)); [|lia].
  replace (Z.to_nat (Z.of_nat (length pre) + Z.of_nat i)) with (length pre + i)%nat by lia.
  by rewrite lookup_app_r, Nat.add_comm, Nat.add_sub by lia.
Qed.

Lemma ahead_next (c : conf) (b : byte) (l : list byte) :
  ahead c (b :: l) →
  at_index (data (m c)) (p (m c) + 1) = Some b ∧
  p (m c) + 1 < pe (m c) ∧
  ∀ c', data (m c') = data (m c) → p (m c') = p (m c) + 1 → pe (m c') = pe (m c) →
        eof (m c') = eof (m c) → ahead c' l.
Proof.
  intros (Hi & Hpe & Heof & Hlen). split; [|split].
  - specialize (Hi 0%nat). by rewrite Z.add_0_r in Hi.
  - simpl in Hpe. lia.
  - intros c' Hd Hp Hpe' Heof'. unfold ahead. rewrite Hd, Hp, Hpe', Heof'.
    split; [|split; [simpl in Hpe; lia | done]].
    intros i. specialize (Hi (S i)). simpl in Hi. rewrite <- Hi. f_equal. lia.
Qed.

Lemma ahead_end (c : conf) : ahead c [] → p (m c) + 1 = pe (m c) ∧ eof (m c) = pe (m c).
Proof. intros (_ & Hpe & Heof & _). simpl in Hpe. lia. Qed.

Lemma ahead_app (c : conf) (l1 l2 : list byte) :
  ahead c (l1 ++ l2) →
  ∀ c', data (m c') = data (m c) → p (m c') = p (m c) + Z.of_nat (length l1) →
        pe (m c') = pe (m c) → eof (m c') = eof (m c) → ahead c' l2.
Proof.
  intros (Hi & Hpe & Heof & Hlen) c' Hd Hp Hpe' Heof'. unfold ahead.
  rewrite Hd, Hp, Hpe', Heof'. rewrite length_app in Hpe.
  split; [|split; [lia | done]].
  intros i. specialize (Hi (length l1 + i)%nat).
  rewrite lookup_app_r, Nat.add_comm, Nat.add_sub in Hi by lia.
  rewrite <- Hi. f_equal. lia.
Qed.

Lemma slice_lookups (d l1 : list byte) (q : Z) :
  ∀ l2, (∀ i : nat, at_index d (q + Z.of_nat i) = (l1 ++ l2) !! i) →
        0 <= q → q + Z.of_nat (length l1) <= Z.of_nat (length d) →
        slice d q (q + Z.of_nat (length l1)) = Some l1.
Proof.
  induction l1 as [|b l1 IH] using rev_ind; intros l2 Hi Hq Hl.
  - simpl. rewrite Z.add_0_r. apply slice_empty. simpl in Hl. lia.
  - rewrite length_app in *. simpl in *.
    replace (q + Z.of_nat (length l1 + 1)) with (q + Z.of_nat (length l1) + 1) by lia.
    apply slice_snoc_at.
    + apply (IH ([b] ++ l2)); [|lia|lia]. intros i. by rewrite Hi, <- app_assoc.
    + rewrite Hi, <- app_assoc. by rewrite lookup_app_r, Nat.sub_diag by lia.
Qed.

Lemma ahead_slice (c : conf) (l1 l2 : list byte) :
  ahead c (l1 ++ l2) → 0 <= p (m c) + 1 →
  slice (data (m c)) (p (m c) + 1) (p (m c) + 1 + Z.of_nat (length l1)) = Some l1.
Proof.
  intros (Hi & Hpe & Heof & Hlen) Hp. apply (slice_lookups _ _ _ l2); [done | done |].
  rewrite length_app in Hpe. lia.
Qed.

(** ** The scope *)

Ltac open_conf c :=
  destruct c as [[dt s0 q e ef pb0 er be tc lg key cnt last0] [ty0 sc de ex bd ft]].

(** The loop of state 11 over the bytes of a scope. *)
Lemma scope_loop (s : list byte) :
  ∀ c l, Forall (λ b, scope_ok b = true) s → ahead c (s ++ l) →
         steps 11 c 11 (set_p (p (m c) + Z.of_nat (length s)) c).
Proof.
  induction s as [|b s IH]; intros c l Hs Ha.
  - open_conf c. unfold set_p. fields. simpl. rewrite Z.add_0_r. apply steps_refl.
  - apply Forall_cons in Hs as [Hb Hs]. simpl in Ha.
    destruct (ahead_next _ _ _ Ha) as (Hat & Hlt & Hnext).
    specialize (IH (set_p (p (m c) + 1) c) l Hs).
    open_conf c. revert IH. unfold set_p. fields. intros IH.
    simpl in Hat, Hlt. unfold scope_ok in Hb.
    eapply steps_goto; [known; reflexivity|].
    replace (q + Z.of_nat (length (b :: s))) with (q + 1 + Z.of_nat (length s))
      by (simpl; lia).
    apply IH. by apply Hnext.
Qed.

(** From the opening parenthesis to the closing one: the bytes between
    them become the scope, none included. *)
Lemma scope_closed (c : conf) (s l : list byte) :
  Forall (λ b, scope_ok b = true) s → ahead c (s ++ bytes ")" ++ l) → 0 <= p (m c) →
  steps 10 c 12
    (upd_output (with_scope (gostring s))
       (set_pb (p (m c) + 1) (set_p (p (m c) + 1 + Z.of_nat (length s)) c))).
Proof.
  intros Hs Ha Hp.
  pose proof (ahead_slice _ _ _ Ha ltac:(lia)) as Hsl.
  destruct s as [|b s].
  - simpl in Ha. destruct (ahead_next _ _ _ Ha) as (Hat & Hlt & _).
    open_conf c. simpl in Hat, Hlt, Hp, Hsl. rewrite Z.add_0_r in Hsl.
    eapply steps_goto; [known; reflexivity|].
    unfold upd_output, set_output, set_pb, set_p, with_scope. fields. simpl.
    rewrite Z.add_0_r. apply steps_refl.
  - apply Forall_cons in Hs as [Hb Hs]. simpl in Ha.
    destruct (ahead_next _ _ _ Ha) as (Hat & Hlt & Hnext).
    pose proof (scope_loop s (set_pb (p (m c) + 1) (set_p (p (m c) + 1) c)) _ Hs
                  ltac:(by apply Hnext)) as Hloop.
    pose proof (ahead_app (set_p (p (m c) + 1) c) s _ ltac:(by apply Hnext)
                  (set_p (p (m c) + 1 + Z.of_nat (length s)) c)
                  eq_refl eq_refl eq_refl eq_refl) as Ha'.
    destruct (ahead_next _ _ _ Ha') as (Hat' & Hlt' & _).
    open_conf c. revert Hloop. unfold set_pb, set_p in *. fields. intros Hloop.
    simpl in Hat, Hlt, Hp, Hsl, Hat', Hlt'. unfold scope_ok in Hb.
    replace (q + 1 + Z.of_nat (S (length s)))
      with (q + 1 + Z.of_nat (length s) + 1) in Hsl by lia.
    eapply steps_goto; [known; reflexivity|].
    eapply steps_trans; [exact Hloop|].
    eapply steps_goto; [known; reflexivity|].
    unfold upd_output, set_output, with_scope. fields.
    replace (q + 1 + Z.of_nat (length (b :: s))) with (q + 1 + Z.of_nat (length s) + 1)
      by (simpl; lia).
    apply steps_refl.
Qed.

Ltac reported :=
  unfold diagnostic; rewrite ?Sprintf_char by (unfold char_templates; in_list);
  reflexivity.

(** A byte the scope cannot hold, other than the closing parenthesis, stops
    the machine with [ErrScope] on that byte. *)
Lemma scope_illegal (c : conf) (s l : list byte) (b : byte) :
  Forall (λ b, scope_ok b = true) s → scope_ok b = false → code b ≠ 41 →
  ahead c (s ++ b :: l) → 0 <= p (m c) →
  ∃ c', halts 10 c c' ∧ cs (m c') = 0 ∧ output c' = output c ∧
        err (m c') = Some (diagnostic "illegal '" b "' character in scope"
                             (p (m c) + 1 + Z.of_nat (length s))).
Proof.
  intros Hs Hb Hb' Ha Hp. unfold scope_ok in Hb.
  destruct s as [|b1 s].
  - simpl in Ha. destruct (ahead_next _ _ _ Ha) as (Hat & Hlt & _).
    open_conf c. simpl in Hat, Hlt, Hp. destruct lg.
    all: eexists; split; [eapply halts_out; known; reflexivity|].
    all: fields; cbn [length]; change (Z.of_nat 0) with 0; rewrite Z.add_0_r;
      repeat split; reported.
  - apply Forall_cons in Hs as [Hb1 Hs]. simpl in Ha.
    destruct (ahead_next _ _ _ Ha) as (Hat & Hlt & Hnext).
    pose proof (scope_loop s (set_pb (p (m c) + 1) (set_p (p (m c) + 1) c)) _ Hs
                  ltac:(by apply Hnext)) as Hloop.
    pose proof (ahead_app (set_p (p (m c) + 1) c) s _ ltac:(by apply Hnext)
                  (set_p (p (m c) + 1 + Z.of_nat (length s)) c)
                  eq_refl eq_refl eq_refl eq_refl) as Ha'.
    destruct (ahead_next _ _ _ Ha') as (Hat' & Hlt' & _).
    open_conf c. revert Hloop. unfold set_pb, set_p in *. fields. intros Hloop.
    simpl in Hat, Hlt, Hp, Hat', Hlt'. unfold scope_ok in Hb1.
    replace (q + 1 + Z.of_nat (length (b1 :: s)))
      with (q + 1 + Z.of_nat (length s) + 1) by (simpl; lia).
    destruct lg.
    all: eexists; split;
      [ eapply halts_goto; [known; reflexivity|];
        eapply steps_halts; [exact Hloop|];
        eapply halts_out; known; reflexivity |].
    all: fields; repeat split; reported.
Qed.

(** The end of the input before the closing parenthesis stops the machine
    with [ErrScopeIncomplete] on the last byte. *)
Lemma scope_unclosed (c : conf) (s : list byte) (b0 b : byte) :
  Forall (λ b, scope_ok b = true) s → ahead c s → 0 <= p (m c) →
  at_index (data (m c)) (p (m c)) = Some b0 → last (b0 :: s) = Some b →
  ∃ c', halts 10 c c' ∧ cs (m c') < firstFinal ∧ output c' = output c ∧
        err (m c') =
          Some (diagnostic
                  "expecting closing parentheses (')') character, got early exit after '"
                  b "' character" (p (m c) + 1 + Z.of_nat (length s))).
Proof.
  intros Hs Ha Hp Hb0 Hb.
  destruct s as [|b1 s].
  - destruct (ahead_end _ Ha) as [Hpe Heof]. injection Hb as <-.
    open_conf c. simpl in Hpe, Heof, Hp, Hb0. subst ef.
    replace q with (q + 1 - 1) in Hb0 by lia. destruct lg.
    all: eexists; split; [eapply halts_out; known; reflexivity|].
    all: fields; cbn [length]; change (Z.of_nat 0) with 0; rewrite Z.add_0_r;
      repeat split; reported.
  - apply Forall_cons in Hs as [Hb1 Hs].
    destruct (ahead_next _ _ _ Ha) as (Hat & Hlt & Hnext).
    pose proof (scope_loop s (set_pb (p (m c) + 1) (set_p (p (m c) + 1) c)) []
                  Hs ltac:(rewrite app_nil_r; by apply Hnext)) as Hloop.
    pose proof (ahead_app (set_p (p (m c) + 1) c) s []
                  ltac:(rewrite app_nil_r; by apply Hnext)
                  (set_p (p (m c) + 1 + Z.of_nat (length s)) c)
                  eq_refl eq_refl eq_refl eq_refl) as Ha'.
    destruct (ahead_end _ Ha') as [Hpe Heof].
    assert (at_index (data (m c)) (p (m c) + 1 + Z.of_nat (length s) + 1 - 1) = Some b)
      as Hlast.
    { destruct Ha as (Hi & _). rewrite Z.add_simpl_r, Hi.
      change (last (b1 :: s) = Some b) in Hb. by rewrite last_lookup in Hb. }
    open_conf c. revert Hloop. unfold set_pb, set_p in *. fields. intros Hloop.
    simpl in Hat, Hlt, Hp, Hpe, Heof, Hlast. unfold scope_ok in Hb1. subst ef.
    replace (q + 1 + Z.of_nat (length (b1 :: s)))
      with (q + 1 + Z.of_nat (length s) + 1) by (simpl; lia).
    destruct lg.
    all: eexists; split;
      [ eapply halts_goto; [known; reflexivity|];
        eapply steps_halts; [exact Hloop|];
        eapply halts_out; known; reflexivity |].
    all: fields; repeat split; first [unfold firstFinal; lia | reported].
Qed.

(** After the scope: the colon, the space and a one-byte description. *)
Lemma colon_and_description (c : conf) :
  ahead c (bytes ": x") → 0 <= p (m c) →
  ∃ c', halts 12 c c' ∧ cs (m c') = 85 ∧ output c' = with_descr "x" (output c).
Proof.
  intros Ha Hp. pose proof Ha as (Hi & Hpe & Heof & _).
  pose proof (Hi 0%nat) as H0. pose proof (Hi 1%nat) as H1. pose proof (Hi 2%nat) as H2.
  open_conf c. simpl in Hp, Hpe, Heof, H0, H1, H2. subst ef.
  change (Z.of_nat 1) with 1 in H1. change (Z.of_nat 2) with 2 in H2.
  change (Z.of_nat 3) with 3 in Hpe. rewrite Z.add_0_r in H0.
  replace (q + 1 + 2) with (q + 1 + 1 + 1) in H2 by lia.
  pose proof (slice_one_at _ _ _ H2) as Hsl.
  eexists. split; [do 3 (eapply halts_goto; [known; reflexivity|]);
                   eapply halts_out; known; reflexivity|].
  split; reflexivity.
Qed.

Lemma slice_prefix (pre l : list byte) :
  slice (pre ++ l) 0 (Z.of_nat (length pre)) = Some pre.
Proof.
  unfold slice. rewrite length_app.
  destruct (Z.leb_spec 0 0); [|lia].
  destruct (Z.leb_spec 0 (Z.of_nat (length pre))); [|lia].
  destruct (Z.leb_spec (Z.of_nat (length pre)) (Z.of_nat (length pre + length l))); [|lia].
  cbn [andb]. change (Z.to_nat 0) with 0%nat. rewrite Z.sub_0_r, Nat2Z.id.
  by rewrite drop_0, take_app_length.
Qed.

Ltac walk :=
  lazymatch goal with
  | |- steps 10 _ 10 _ => apply steps_refl
  | |- _ => eapply steps_goto; [known; reflexivity|]; walk
  end.

(** A keyword of the minimal dialect followed by an opening parenthesis
    leads to state 10, the type recorded as it was written. *)
Lemma opens_scope (x : machine) (ty rest : list byte) :
  typeConfig x = TypesMinimal → complete ty = true →
  ∃ c1 n c, enter (initial x (ty ++ bytes "(" ++ rest)) = Some (c1, Goto n) ∧
            steps n c1 10 c ∧
            ahead c rest ∧ p (m c) = Z.of_nat (length ty) ∧
            at_index (data (m c)) (p (m c)) = Some "("%byte ∧
            output c = with_type (gostring ty) emptyCommit.
Proof.
  intros Hx Hp.
  destruct ty as [|b0 [|b1 [|b2 [|b3 [|b4 ty]]]]]; letters Hp; try discriminate Hp;
    open_machine x Hx; cases Hp; try lia.
  all: change (bytes "(") with ["("%byte]; cbn [app].
  all: match goal with
       | |- context [initial _ (?a :: ?b :: ?c :: "("%byte :: ?r)] =>
           pose proof (slice_prefix [a; b; c] ("("%byte :: r)) as Hty
       | |- context [initial _ (?a :: ?b :: ?c :: ?d :: "("%byte :: ?r)] =>
           pose proof (slice_prefix [a; b; c; d] ("("%byte :: r)) as Hty
       end; cbn [app length] in Hty;
       match type of Hty with
       | context [Z.of_nat ?n] => let v := (eval vm_compute in (Z.of_nat n)) in
                                  change (Z.of_nat n) with v in Hty
       end.
  all: eexists _, _, _;
       split; [unfold initial, reset, emptyCommit, start; known; reflexivity|];
       split; [walk|].
  all: split; [|split; [reflexivity | split; [reflexivity | reflexivity]]].
  all: unfold ahead; fields; split; [|split; [cbn [length]; lia | split; reflexivity]].
  all: intros i.
  1-16: apply (at_index_app [b0; b1; b2; "("%byte] rest i).
  all: apply (at_index_app [b0; b1; b2; b3; "("%byte] rest i).
Qed.

(** What [Parse] returns once the loop is left below the final states with
    no description recorded, and once it is left in a final state. *)
Lemma epilogue_failed (c : conf) (d : string) :
  cs (m c) < firstFinal → descr (output c) = "" → err (m c) = Some d →
  returns (epilogue c) = Some (None, Some d).
Proof.
  intros Hcs Hd He. unfold epilogue.
  destruct (Z.ltb_spec (cs (m c)) firstFinal); [|lia].
  rewrite (minimal_no_descr _ Hd), andb_false_r. simpl. by rewrite He.
Qed.

Lemma epilogue_final (c : conf) :
  firstFinal <= cs (m c) → returns (epilogue c) = Some (Some (output c), None).
Proof.
  intros Hcs. unfold epilogue, export.
  by destruct (Z.ltb_spec (cs (m c)) firstFinal); [lia|].
Qed.

Lemma returned_scope (x : machine) (input : list byte) (x' : machine)
    (r : conventionalCommit) (e : option string) :
  Parse x input = Returned x' (Some r) e → scope_chars (scope r).
Proof.
  intros H. destruct (Parse_Final _ _ _ _ _ H) as (c & (Hsc & _) & _ & _ & Hr).
  by rewrite (Hr r eq_refl).
Qed.

Lemma scope_with_illegal_byte (x : machine) (ty s : list byte) (b : byte)
    (rest : list byte) :
  typeConfig x = TypesMinimal → complete ty = true →
  Forall (λ b, scope_ok b = true) s → scope_ok b = false → code b ≠ 41 →
  returns (Parse x (ty ++ bytes "(" ++ s ++ b :: rest))
  = Some (None, Some (diagnostic "illegal '" b "' character in scope"
                        (Z.of_nat (length ty) + 1 + Z.of_nat (length s)))).
Proof.
  intros Hx Hty Hs Hb Hb'.
  destruct (opens_scope x ty (s ++ b :: rest) Hx Hty)
    as (c1 & n & c & He & Hst & Ha & Hp & Hat & Ho).
  destruct (scope_illegal c s rest b Hs Hb Hb' Ha ltac:(lia))
    as (c' & Hh & Hcs & Hout & Herr).
  rewrite (Parse_halts _ _ _ _ _ He (steps_halts _ _ _ _ _ Hst Hh)).
  apply epilogue_failed; [unfold firstFinal; lia | by rewrite Hout, Ho | by rewrite Herr, Hp].
Qed.

Lemma scope_left_open (x : machine) (ty s : list byte) (b : byte) :
  typeConfig x = TypesMinimal → complete ty = true →
  Forall (λ b, scope_ok b = true) s → last ("("%byte :: s) = Some b →
  returns (Parse x (ty ++ bytes "(" ++ s))
  = Some (None,
          Some (diagnostic
                  "expecting closing parentheses (')') character, got early exit after '"
                  b "' character" (Z.of_nat (length ty) + 1 + Z.of_nat (length s)))).
Proof.
  intros Hx Hty Hs Hb.
  destruct (opens_scope x ty s Hx Hty) as (c1 & n & c & He & Hst & Ha & Hp & Hat & Ho).
  destruct (scope_unclosed c s _ b Hs Ha ltac:(lia) Hat Hb)
    as (c' & Hh & Hcs & Hout & Herr).
  rewrite (Parse_halts _ _ _ _ _ He (steps_halts _ _ _ _ _ Hst Hh)).
  apply epilogue_failed; [done | by rewrite Hout, Ho | by rewrite Herr, Hp].
Qed.

Lemma scope_recorded (x : machine) (ty s : list byte) :
  typeConfig x = TypesMinimal → complete ty = true →
  Forall (λ b, scope_ok b = true) s →
  returns (Parse x (ty ++ bytes "(" ++ s ++ bytes ")" ++ bytes ": x"))
  = Some (Some (mkCommit (gostring ty) (gostring s) "x" false "" ∅), None).
Proof.
  intros Hx Hty Hs.
  destruct (opens_scope x ty (s ++ bytes ")" ++ bytes ": x") Hx Hty)
    as (c1 & n & c & He & Hst & Ha & Hp & Hat & Ho).
  pose proof (scope_closed c s _ Hs Ha ltac:(lia)) as Hcl.
  set (c12 := upd_output _ _) in Hcl.
  assert (ahead c12 (bytes ": x")) as Ha12.
  { rewrite app_assoc in Ha.
    apply (ahead_app c (s ++ bytes ")") _ Ha); try reflexivity.
    subst c12. destruct c as [[] []]. simpl. rewrite length_app. simpl. lia. }
  destruct (colon_and_description c12 Ha12) as (c' & Hh & Hcs & Hout).
  { subst c12. destruct c as [[] []]. simpl in *. lia. }
  rewrite (Parse_halts _ _ _ _ _ He
             (steps_halts _ _ _ _ _ (steps_trans _ _ _ _ _ _ Hst Hcl) Hh)).
  rewrite epilogue_final by (unfold firstFinal; lia).
  rewrite Hout. subst c12. destruct c as [[] []]. simpl in Ho. by rewrite Ho.
Qed.

(** C6, as the claim has it, fails: an empty pair of parentheses after the
    type is accepted, and the record returned has an empty scope. *)
Lemma C6_empty_scope_is_accepted :
  returns (Parse NewMachine (bytes "fix(): x"))
  = Some (Some (mkCommit "fix" "" "x" false "" ∅), None)
  ∧ ¬ (∀ ty s rest r,
         complete ty = true →
         returns (Parse NewMachine (ty ++ bytes "(" ++ s ++ bytes ")" ++ rest))
         = Some (Some r, None) →
         s ≠ []).
Proof.
  split; [vm_compute; reflexivity|].
  intros H. apply (H (bytes "fix") [] (bytes ": x") (mkCommit "fix" "" "x" false "" ∅));
    [reflexivity | vm_compute; reflexivity | reflexivity].
Qed.

(** C6, amended: in the minimal dialect, after a type and an opening
    parenthesis the scope is any number of printable bytes other than the
    parentheses, none included, closed by a closing parenthesis.  A byte the
    scope cannot hold fails with [ErrScope] on that byte, the end of the
    input before the closing parenthesis with [ErrScopeIncomplete] on the
    last byte, and a closed scope is recorded as written.  In every dialect
    the scope of a returned record holds printable bytes only and no
    parenthesis. *)
Theorem C6_scope_recognition :
  (∀ x ty s b rest,
     typeConfig x = TypesMinimal → complete ty = true →
     Forall (λ b, scope_ok b = true) s → scope_ok b = false → code b ≠ 41 →
     returns (Parse x (ty ++ bytes "(" ++ s ++ b :: rest))
     = Some (None, Some (diagnostic "illegal '" b "' character in scope"
                           (Z.of_nat (length ty) + 1 + Z.of_nat (length s))))) ∧
  (∀ x ty s b,
     typeConfig x = TypesMinimal → complete ty = true →
     Forall (λ b, scope_ok b = true) s → last ("("%byte :: s) = Some b →
     returns (Parse x (ty ++ bytes "(" ++ s))
     = Some (None,
             Some (diagnostic
                     "expecting closing parentheses (')') character, got early exit after '"
                     b "' character" (Z.of_nat (length ty) + 1 + Z.of_nat (length s))))) ∧
  (∀ x ty s,
     typeConfig x = TypesMinimal → complete ty = true →
     Forall (λ b, scope_ok b = true) s →
     returns (Parse x (ty ++ bytes "(" ++ s ++ bytes ")" ++ bytes ": x"))
     = Some (Some (mkCommit (gostring ty) (gostring s) "x" false "" ∅), None)) ∧
  (∀ x input x' r e,
     Parse x input = Returned x' (Some r) e →
     Forall (λ b, scope_ok b = true) (bytes (scope r))) ∧
  (∀ b, scope_ok b = true ↔ 32 <= code b <= 126 ∧ code b ≠ 40 ∧ code b ≠ 41).
Proof.
  split; [exact scope_with_illegal_byte|]. split; [exact scope_left_open|].
  split; [exact scope_recorded|]. split; [exact returned_scope|].
  intros b. unfold scope_ok. lia.
Qed.

Lemma C6_scope_recognition_witness :
  returns (Parse NewMachine (bytes "fix(a(b): x"))
  = Some (None, Some "illegal '(' character in scope: col=05") ∧
  returns (Parse NewMachine (bytes "feat(api"))
  = Some (None,
          Some "expecting closing parentheses (')') character, got early exit after 'i' character: col=08") ∧
  returns (Parse NewMachine (bytes "feat(api): x"))
  = Some (Some (mkCommit "feat" "api" "x" false "" ∅), None).
Proof.
  split; [|split].
  - apply (proj1 C6_scope_recognition NewMachine (bytes "fix") (bytes "a") "("%byte
             (bytes "b): x"));
      [reflexivity | reflexivity | repeat constructor | reflexivity | by vm_compute].
  - apply (proj1 (proj2 C6_scope_recognition) NewMachine (bytes "feat") (bytes "api")
             "i"%byte);
      [reflexivity | reflexivity | repeat constructor | reflexivity].
  - apply (proj1 (proj2 (proj2 C6_scope_recognition)) NewMachine (bytes "feat")
             (bytes "api"));
      [reflexivity | reflexivity | repeat constructor].
Defined.

(** ** Runs of transitions that only move the cursor *)

Lemma plain_step (n k : Z) (c : conf) (b : byte) (l : list byte) :
  plain n = true → stCase n (code b) false = goto_st k → k ≠ 0 →
  ahead c (b :: l) →
  st n c = Some (set_p (p (m c) + 1) c, Goto k).
Proof.
  intros Hn Hk Hk0 Ha. destruct (ahead_next _ _ _ Ha) as (Hat & Hlt & _).
  unfold plain in Hn.
  destruct (among n early_exit_states) eqn:H1; [done|].
  destruct (among n type_states) eqn:H2; [done|].
  destruct (among n dead_states) eqn:H3; [done|].
  destruct (among n [34; 92]) eqn:H4; [done|].
  open_conf c. simpl in Hat, Hlt.
  unfold st. rewrite H1. fields. unfold set_p. fields.
  destruct (Z.eqb_spec (q + 1) e); [lia|].
  unfold atCase. rewrite H3, H2, H4. fields. rewrite Hat. fields.
  rewrite Hk. unfold continue. by destruct (Z.eqb_spec k 0).
Qed.

Lemma plain_steps (t : list byte) :
  ∀ n n' c l, plain_run n t = Some n' → ahead c (t ++ l) →
              steps n c n' (set_p (p (m c) + Z.of_nat (length t)) c).
Proof.
  induction t as [|b t IH]; intros n n' c l Hr Ha.
  - injection Hr as <-. open_conf c. unfold set_p. fields.
    cbn [length]. change (Z.of_nat 0) with 0. rewrite Z.add_0_r. apply steps_refl.
  - cbn [plain_run] in Hr.
    destruct (plain n) eqn:Hn; [|done].
    destruct (stCase n (code b) false) as [k|] eqn:Hk; [|done].
    destruct (Z.eqb_spec k 0) as [|Hk0]; [done|].
    cbn [app] in Ha. destruct (ahead_next _ _ _ Ha) as (_ & _ & Hnext).
    eapply steps_goto; [by eapply plain_step|].
    specialize (IH k n' (set_p (p (m c) + 1) c) l Hr).
    replace (p (m c) + Z.of_nat (length (b :: t)))
      with (p (m (set_p (p (m c) + 1) c)) + Z.of_nat (length t))
      by (open_conf c; unfold set_p; fields; cbn [length]; lia).
    replace (set_p (p (m (set_p (p (m c) + 1) c)) + Z.of_nat (length t)) c)
      with (set_p (p (m (set_p (p (m c) + 1) c)) + Z.of_nat (length t))
              (set_p (p (m c) + 1) c))
      by (by open_conf c).
    apply IH. by apply Hnext; open_conf c.
Qed.

(** ** Trailers *)

Ltac tests :=
  repeat match goal with
    | |- context [if ?c then _ else _] => splittable c; destruct c eqn:?
    end.

Lemma word_step (n : Z) (b : byte) :
  n ∈ 16 :: word_states → alnum_byte b = true →
  plain n = true ∧ ∃ k, k ∈ word_states ∧ stCase n (code b) false = goto_st k.
Proof.
  intros Hn Hb. unfold alnum_byte in Hb.
  apply list_elem_of_In in Hn. vm_compute in Hn.
  repeat (destruct Hn as [<- | Hn]); [..| destruct Hn];
    (split; [reflexivity|]);
    cbv beta iota zeta delta [stCase token switch alnum within app];
    tests; try (exfalso; lia);
    eexists; (split; [|reflexivity]); unfold word_states; in_list.
Qed.

Lemma hyphen_step (n : Z) :
  n ∈ word_states → plain n = true ∧ stCase n 45 false = goto_st 16.
Proof.
  intros Hn. apply list_elem_of_In in Hn. vm_compute in Hn.
  repeat (destruct Hn as [<- | Hn]); [..| destruct Hn]; split; reflexivity.
Qed.

(** The rest of a token leads from a word state to a word state. *)
Lemma key_run (k : list byte) :
  ∀ n in_word, key_from in_word k = true →
               (if in_word then n ∈ word_states else n = 16) →
               ∃ n', n' ∈ word_states ∧ plain_run n k = Some n'.
Proof.
  induction k as [|b k IH]; intros n in_word Hk Hn; cbn [key_from] in Hk.
  - subst in_word. by exists n.
  - cbn [plain_run]. destruct (alnum_byte b) eqn:Hb.
    + destruct (word_step n b) as (-> & k1 & Hk1 & ->); [|done|].
      { destruct in_word; [by apply list_elem_of_further | subst n; apply list_elem_of_here]. }
      assert (k1 ≠ 0) as Hk0.
      { intros ->. apply list_elem_of_In in Hk1. vm_compute in Hk1. intuition lia. }
      destruct (Z.eqb_spec k1 0); [done|]. by apply (IH k1 true).
    + apply andb_true_iff in Hk as [Hk Hk']. apply andb_true_iff in Hk as [Hc Hw].
      subst in_word. apply Z.eqb_eq in Hc. rewrite Hc.
      destruct (hyphen_step n Hn) as [-> ->]. cbn [Z.eqb]. by apply (IH 16 false).
Qed.

Lemma value_run (v : list byte) :
  Forall (λ b, printable b = true) v → plain_run 90 v = Some 90.
Proof.
  induction 1 as [|b v Hb _ IH]; [done|].
  cbn [plain_run]. change (plain 90) with true. cbn iota.
  unfold printable in Hb.
  cbv beta iota zeta delta [stCase switch within]. tests; try (exfalso; lia); done.
Qed.

Lemma set_current_footer_key_text (c : conf) (t : list byte) :
  text c = Some t →
  set_current_footer_key c = Some (set_currentFooterKey (footer_key t) c).
Proof. intros H. unfold set_current_footer_key. by rewrite H. Qed.

Lemma set_footer_text (c : conf) (t : list byte) :
  text c = Some t →
  set_footer c
  = Some (upd_output
            (λ o, with_footers
                    (append_footer (currentFooterKey (m c)) (gostring t) (footers o)) o)
            c).
Proof. intros H. unfold set_footer. by rewrite H. Qed.

Ltac footer_rules :=
  match goal with
  | |- context [set_current_footer_key (mkConf ?a ?b)] =>
      erewrite (set_current_footer_key_text (mkConf a b))
        by (unfold text; fields; eassumption)
  end.

Ltac known_trailer :=
  repeat (fields; cbn [length app];
          first [footer_rules | eval_lit | eval_code | eval_arith | split_head
                | unfold_head]);
  fields.

(** From the beginning of a line to the value of a trailer: the token
    becomes the current key. *)
Lemma key_recognised (c : conf) (k sep l : list byte) :
  key_ok k = true → sep ∈ separators → ahead c (k ++ sep ++ l) → 0 <= p (m c) →
  steps 87 c 33
    (set_currentFooterKey (footer_key k)
       (set_pb (p (m c) + 1) (set_p (p (m c) + 1 + Z.of_nat (length k) + 1) c))).
Proof.
  intros Hk Hsep Ha Hp. destruct k as [|b k]; [done|].
  unfold key_ok in Hk. cbn [key_from] in Hk.
  destruct (alnum_byte b) eqn:Hb; [|by rewrite andb_false_r in Hk].
  pose proof (ahead_slice _ _ _ Ha ltac:(lia)) as Hsl.
  cbn [app] in Ha. destruct (ahead_next _ _ _ Ha) as (Hat & Hlt & Hnext).
  set (n0 := if code b =? 66 then 18 else 14).
  destruct (key_run k n0 true Hk) as (n' & Hn' & Hrun).
  { subst n0. unfold word_states. destruct (code b =? 66); in_list. }
  pose proof (plain_steps k n0 n' (set_pb (p (m c) + 1) (set_p (p (m c) + 1) c)) _ Hrun
                ltac:(by apply Hnext)) as Hloop.
  pose proof (ahead_app (set_p (p (m c) + 1) c) k _ ltac:(by apply Hnext)
                (set_p (p (m c) + 1 + Z.of_nat (length k)) c)
                eq_refl eq_refl eq_refl eq_refl) as Ha1.
  assert (∃ y0 y1, sep = [y0; y1] ∧ (code y0 = 58 ∧ code y1 = 32 ∨ code y0 = 32 ∧ code y1 = 35))
    as (y0 & y1 & -> & Hs).
  { apply list_elem_of_In in Hsep. destruct Hsep as [<- | [<- | []]]; eexists _, _;
      (split; [reflexivity|]); [left | right]; split; reflexivity. }
  cbn [app] in Ha1. destruct (ahead_next _ _ _ Ha1) as (Hat1 & Hlt1 & Hnext1).
  pose proof (Hnext1 (set_p (p (m c) + 1 + Z.of_nat (length k) + 1) c)
                eq_refl eq_refl eq_refl eq_refl) as Ha2.
  destruct (ahead_next _ _ _ Ha2) as (Hat2 & Hlt2 & _).
  open_conf c. revert Hloop. unfold set_pb, set_p, set_currentFooterKey in *. fields.
  intros Hloop. cbn [m data p pe] in Hat, Hlt, Hat1, Hlt1, Hat2, Hlt2, Hsl, Hp.
  unfold alnum_byte in Hb.
  replace (q + 1 + Z.of_nat (length (b :: k))) with (q + 1 + Z.of_nat (length k) + 1)
    in * by (cbn [length]; lia).
  eapply steps_trans with (n2 := n0).
  { subst n0. destruct (Z.eqb_spec (code b) 66);
      (eapply steps_goto; [known; reflexivity|]); apply steps_refl. }
  eapply steps_trans; [exact Hloop|]. clear Hloop Hrun.
  apply list_elem_of_In in Hn'. vm_compute in Hn'.
  repeat (destruct Hn' as [<- | Hn']); [..| destruct Hn'];
    (destruct Hs as [[Hs0 Hs1] | [Hs0 Hs1]];
     (eapply steps_goto; [known_trailer; reflexivity|]);
     (eapply steps_goto; [known_trailer; reflexivity|]);
     apply steps_refl).
Qed.

(** The one token with a space: [BREAKING CHANGE], in capitals, followed by
    a colon and a space. *)
Lemma breaking_change_recognised (c : conf) (l : list byte) :
  ahead c (bytes "BREAKING CHANGE" ++ bytes ": " ++ l) → 0 <= p (m c) →
  steps 87 c 33
    (set_currentFooterKey (footer_key (bytes "BREAKING CHANGE"))
       (set_pb (p (m c) + 1)
          (set_p (p (m c) + 1 + Z.of_nat (length (bytes "BREAKING CHANGE")) + 1) c))).
Proof.
  intros Ha Hp.
  pose proof (ahead_slice _ _ _ Ha ltac:(lia)) as Hsl.
  change (bytes "BREAKING CHANGE" ++ bytes ": " ++ l)
    with (bytes "BREAKING" ++ bytes " CHANGE: " ++ l) in Ha.
  pose proof (ahead_slice _ _ _ Ha ltac:(lia)) as Hsl'.
  change (bytes "BREAKING" ++ bytes " CHANGE: " ++ l)
    with ("B"%byte :: bytes "REAKING" ++ " "%byte :: bytes "CHANGE" ++ bytes ": " ++ l) in Ha.
  destruct (ahead_next _ _ _ Ha) as (Hat & Hlt & Hnext).
  pose proof (plain_steps (bytes "REAKING") 18 25
                (set_pb (p (m c) + 1) (set_p (p (m c) + 1) c)) _ eq_refl
                ltac:(by apply Hnext)) as Hloop.
  pose proof (ahead_app (set_p (p (m c) + 1) c) (bytes "REAKING") _ ltac:(by apply Hnext)
                (set_p (p (m c) + 1 + 7) c) eq_refl eq_refl eq_refl eq_refl) as Ha1.
  destruct (ahead_next _ _ _ Ha1) as (Hat1 & Hlt1 & Hnext1).
  pose proof (plain_steps (bytes "CHANGE") 26 32
                (set_currentFooterKey (footer_key (bytes "BREAKING"))
                   (set_pb (p (m c) + 1) (set_p (p (m c) + 1 + 7 + 1) c))) _ eq_refl
                ltac:(by apply Hnext1)) as Hloop'.
  pose proof (ahead_app (set_p (p (m c) + 1 + 7 + 1) c) (bytes "CHANGE") _
                ltac:(by apply Hnext1)
                (set_p (p (m c) + 1 + 7 + 1 + 6) c) eq_refl eq_refl eq_refl eq_refl) as Ha2.
  destruct (ahead_next _ _ _ Ha2) as (Hat2 & Hlt2 & Hnext2).
  pose proof (Hnext2 (set_p (p (m c) + 1 + 7 + 1 + 6 + 1) c)
                eq_refl eq_refl eq_refl eq_refl) as Ha3.
  destruct (ahead_next _ _ _ Ha3) as (Hat3 & Hlt3 & _).
  open_conf c. revert Hloop Hloop'.
  unfold set_pb, set_p, set_currentFooterKey in *. fields. intros Hloop Hloop'.
  cbn [m data p pe] in Hat, Hlt, Hat1, Hlt1, Hat2, Hlt2, Hat3, Hlt3, Hsl, Hsl', Hp.
  change (Z.of_nat (length (bytes "REAKING"))) with 7 in Hloop.
  change (Z.of_nat (length (bytes "CHANGE"))) with 6 in Hloop'.
  change (Z.of_nat (length (bytes "BREAKING CHANGE"))) with 15 in *.
  change (Z.of_nat (length (bytes "BREAKING"))) with 8 in *.
  replace (q + 1 + 8) with (q + 1 + 7 + 1) in * by lia.
  replace (q + 1 + 15) with (q + 1 + 7 + 1 + 6 + 1) in * by lia.
  eapply steps_goto; [known; reflexivity|].
  eapply steps_trans; [exact Hloop|].
  eapply steps_goto; [known_trailer; reflexivity|].
  eapply steps_trans; [exact Hloop'|].
  eapply steps_goto; [known_trailer; reflexivity|].
  eapply steps_goto; [known_trailer; reflexivity|].
  apply steps_refl.
Qed.

(** The value of a trailer, up to and including the line feed that ends
    it, is appended under the current key. *)
Lemma value_recognised (c : conf) (v l : list byte) :
  v ≠ [] → Forall (λ b, printable b = true) v →
  ahead c (v ++ bytes LF ++ l) → 0 <= p (m c) →
  steps 33 c 87
    (upd_output
       (λ o, with_footers
               (append_footer (currentFooterKey (m c)) (gostring v) (footers o)) o)
       (count_nl (set_pb (p (m c) + 1) (set_p (p (m c) + 1 + Z.of_nat (length v)) c)))).
Proof.
  intros Hne Hv Ha Hp. destruct v as [|b v]; [done|]. clear Hne.
  apply Forall_cons in Hv as [Hb Hv].
  pose proof (ahead_slice _ _ _ Ha ltac:(lia)) as Hsl.
  cbn [app] in Ha. destruct (ahead_next _ _ _ Ha) as (Hat & Hlt & Hnext).
  pose proof (plain_steps v 90 90 (set_pb (p (m c) + 1) (set_p (p (m c) + 1) c)) _
                (value_run v Hv) ltac:(by apply Hnext)) as Hloop.
  pose proof (ahead_app (set_p (p (m c) + 1) c) v _ ltac:(by apply Hnext)
                (set_p (p (m c) + 1 + Z.of_nat (length v)) c)
                eq_refl eq_refl eq_refl eq_refl) as Ha1.
  change (bytes LF ++ l) with ("010"%byte :: l) in Ha1.
  destruct (ahead_next _ _ _ Ha1) as (Hat1 & Hlt1 & _).
  open_conf c. revert Hloop.
  unfold set_pb, set_p, count_nl, set_lastNewline, set_countNewlines, upd_output,
    set_output, with_footers in *.
  fields. intros Hloop.
  cbn [m data p pe] in Hat, Hlt, Hat1, Hlt1, Hsl, Hp. unfold printable in Hb.
  replace (q + 1 + Z.of_nat (length (b :: v))) with (q + 1 + Z.of_nat (length v) + 1)
    in * by (cbn [length]; lia).
  eapply steps_goto; [known; reflexivity|].
  eapply steps_trans; [exact Hloop|].
  eapply steps_goto; [known; reflexivity|].
  apply steps_refl.
Qed.

Lemma token_recognised (c : conf) (t : trailer) (l : list byte) :
  trailer_ok t → ahead c (tkey t ++ tsep t ++ l) → 0 <= p (m c) →
  steps 87 c 33
    (set_currentFooterKey (footer_key (tkey t))
       (set_pb (p (m c) + 1)
          (set_p (p (m c) + 1 + Z.of_nat (length (tkey t)) + 1) c))) ∧
  length (tsep t) = 2%nat.
Proof.
  intros ([[Hk Hs] | [Hk Hs]] & _) Ha Hp.
  - split; [by apply (key_recognised c _ (tsep t) l)|].
    apply list_elem_of_In in Hs. by destruct Hs as [<- | [<- | []]].
  - rewrite Hk, Hs in *. split; [by apply (breaking_change_recognised c l) | done].
Qed.

(** One trailer line: from the beginning of the line to the beginning of
    the next, the value is appended under the key of the token. *)
Lemma trailer_recognised (c : conf) (t : trailer) (l : list byte) :
  trailer_ok t → ahead c (render t ++ l) → 0 <= p (m c) →
  ∃ c', steps 87 c 87 c' ∧ ahead c' l ∧ 0 <= p (m c') ∧
        output c' = with_footers (add_footer (footers (output c)) t) (output c).
Proof.
  intros Hok Ha Hp. unfold render, unterminated in Ha. rewrite <- !app_assoc in Ha.
  destruct (token_recognised c t _ Hok Ha Hp) as [Hkey Hsep].
  set (c1 := set_currentFooterKey _ _) in Hkey.
  assert (ahead c1 (tvalue t ++ bytes LF ++ l)) as Ha1.
  { rewrite (app_assoc (tkey t)) in Ha.
    apply (ahead_app c _ _ Ha); clear Hkey; subst c1; open_conf c; try reflexivity. unfold set_currentFooterKey, set_pb, set_p. fields.
    rewrite length_app. lia. }
  destruct Hok as (_ & Hne & Hv).
  pose proof (value_recognised c1 _ _ Hne Hv Ha1) as Hval.
  set (c2 := upd_output _ _) in Hval.
  exists c2. split; [|split; [|split]].
  - eapply steps_trans; [exact Hkey|]. apply Hval. clear Hval Hkey Ha1 Ha. subst c1.
    open_conf c. unfold set_currentFooterKey, set_pb, set_p. fields. cbn [m p] in Hp. lia.
  - rewrite (app_assoc (tvalue t)) in Ha1.
    apply (ahead_app c1 _ _ Ha1); clear Hval Hkey Ha1 Ha; subst c2 c1; open_conf c;
      try reflexivity.
    known. rewrite length_app. change (length (bytes LF)) with 1%nat. lia.
  - clear Hval Hkey Ha1 Ha. subst c2 c1. open_conf c. known. cbn [m p] in Hp. lia.
  - clear Hval Hkey Ha1 Ha. subst c2 c1. open_conf c. known. reflexivity.
Qed.

Lemma trailers_recognised (ts : list trailer) :
  ∀ c l, Forall trailer_ok ts → ahead c (concat (render <$> ts) ++ l) → 0 <= p (m c) →
         ∃ c', steps 87 c 87 c' ∧ ahead c' l ∧ 0 <= p (m c') ∧
               output c' = with_footers (foldl add_footer (footers (output c)) ts)
                             (output c).
Proof.
  induction ts as [|t ts IH]; intros c l Hts Ha Hp.
  - exists c. split; [apply steps_refl|]. split; [done|]. split; [done|].
    destruct c as [? []]. reflexivity.
  - apply Forall_cons in Hts as [Ht Hts]. cbn [fmap list_fmap concat] in Ha.
    rewrite <- app_assoc in Ha.
    destruct (trailer_recognised c t _ Ht Ha Hp) as (c1 & Hs1 & Ha1 & Hp1 & Ho1).
    destruct (IH c1 l Hts Ha1 Hp1) as (c2 & Hs2 & Ha2 & Hp2 & Ho2).
    exists c2. split; [by eapply steps_trans|]. split; [done|]. split; [done|].
    rewrite Ho2, Ho1. destruct c as [? []]. reflexivity.
Qed.

(** The end of the input at the beginning of a line ends the parse in a
    final state. *)
Lemma trailers_end (c : conf) :
  ahead c [] → ∃ c', halts 87 c c' ∧ cs (m c') = 87 ∧ output c' = output c.
Proof.
  intros Ha. destruct (ahead_end _ Ha) as [Hpe Heof].
  open_conf c. cbn [m p pe eof] in Hpe, Heof. subst ef.
  eexists. split; [eapply halts_out; known; reflexivity|]. split; reflexivity.
Qed.

(** The end of the input after the value of a trailer files the value and
    ends the parse in a final state. *)
Lemma value_at_the_end (c : conf) (v : list byte) :
  v ≠ [] → Forall (λ b, printable b = true) v → ahead c v → 0 <= p (m c) →
  ∃ c', halts 33 c c' ∧ cs (m c') = 90 ∧
        output c' = with_footers
                      (append_footer (currentFooterKey (m c)) (gostring v)
                         (footers (output c)))
                      (output c).
Proof.
  intros Hne Hv Ha Hp. destruct v as [|b v]; [done|]. clear Hne.
  apply Forall_cons in Hv as [Hb Hv].
  rewrite <- (app_nil_r (b :: v)) in Ha.
  pose proof (ahead_slice _ _ _ Ha ltac:(lia)) as Hsl.
  cbn [app] in Ha. destruct (ahead_next _ _ _ Ha) as (Hat & Hlt & Hnext).
  pose proof (plain_steps v 90 90 (set_pb (p (m c) + 1) (set_p (p (m c) + 1) c)) _
                (value_run v Hv) ltac:(by apply Hnext)) as Hloop.
  pose proof (ahead_app (set_p (p (m c) + 1) c) v _ ltac:(by apply Hnext)
                (set_p (p (m c) + 1 + Z.of_nat (length v)) c)
                eq_refl eq_refl eq_refl eq_refl) as Ha2.
  destruct (ahead_end _ Ha2) as [Hpe Heof].
  open_conf c. revert Hloop. unfold set_pb, set_p in *. fields. intros Hloop.
  cbn [m data p pe eof] in Hat, Hlt, Hpe, Heof, Hsl, Hp. unfold printable in Hb. subst ef.
  replace (q + 1 + Z.of_nat (length (b :: v))) with (q + 1 + Z.of_nat (length v) + 1)
    in * by (cbn [length]; lia).
  eexists. split.
  - eapply halts_goto; [known; reflexivity|].
    eapply steps_halts; [exact Hloop|].
    eapply halts_out; known; reflexivity.
  - split; reflexivity.
Qed.

Lemma trailer_at_the_end (c : conf) (t : trailer) :
  trailer_ok t → ahead c (unterminated t) → 0 <= p (m c) →
  ∃ c', halts 87 c c' ∧ cs (m c') = 90 ∧
        output c' = with_footers (add_footer (footers (output c)) t) (output c).
Proof.
  intros Hok Ha Hp. unfold unterminated in Ha.
  destruct (token_recognised c t _ Hok Ha Hp) as [Hkey Hsep].
  set (c1 := set_currentFooterKey _ _) in Hkey.
  assert (ahead c1 (tvalue t)) as Ha1.
  { rewrite <- (app_nil_r (tvalue t)). rewrite (app_assoc (tkey t)) in Ha.
    rewrite <- (app_nil_r (tvalue t)) in Ha.
    apply (ahead_app c _ _ Ha); clear Hkey; subst c1; open_conf c; try reflexivity.
    unfold set_currentFooterKey, set_pb, set_p. fields.
    rewrite length_app. lia. }
  destruct Hok as (_ & Hne & Hv).
  destruct (value_at_the_end c1 _ Hne Hv Ha1) as (c' & Hh & Hcs & Hout).
  { clear Hkey Ha1 Ha. subst c1. open_conf c.
    unfold set_currentFooterKey, set_pb, set_p. fields. cbn [m p] in Hp. lia. }
  exists c'. split; [by eapply steps_halts|]. split; [done|].
  rewrite Hout. clear. subst c1. open_conf c. reflexivity.
Qed.

Lemma slice_middle (pre mid post : list byte) :
  slice (pre ++ mid ++ post) (Z.of_nat (length pre))
    (Z.of_nat (length pre) + Z.of_nat (length mid)) = Some mid.
Proof.
  apply (slice_lookups _ _ _ post); [|lia|rewrite !length_app; lia].
  intros i. apply at_index_app.
Qed.

Ltac walk_to n :=
  lazymatch goal with
  | |- steps n _ n _ => apply steps_refl
  | |- _ => eapply steps_goto; [known; reflexivity|]; walk_to n
  end.

(** The header [fix: x] and a blank line lead to the beginning of the
    trailers, in each of the three dialects. *)
Lemma header_then_trailers (x : machine) (rest : list byte) :
  ∃ c1 n c, enter (initial x (bytes "fix: x" ++ bytes LF ++ bytes LF ++ rest))
            = Some (c1, Goto n) ∧
            steps n c1 87 c ∧ ahead c rest ∧ 0 <= p (m c) ∧
            output c = mkCommit "fix" "" "x" false "" ∅.
Proof.
  pose proof (slice_middle [] (bytes "fix") (bytes ": x" ++ bytes LF ++ bytes LF ++ rest))
    as Hty.
  pose proof (slice_middle [] (bytes "f") (bytes "ix: x" ++ bytes LF ++ bytes LF ++ rest))
    as Hty1.
  pose proof (slice_middle [] (bytes "fi") (bytes "x: x" ++ bytes LF ++ bytes LF ++ rest))
    as Hty2.
  pose proof (slice_middle (bytes "fix: ") (bytes "x") (bytes LF ++ bytes LF ++ rest))
    as Hde.
  change (slice _ _ _) with
    (slice (bytes "fix: x" ++ bytes LF ++ bytes LF ++ rest) 0 3) in Hty.
  change (slice _ _ _) with
    (slice (bytes "fix: x" ++ bytes LF ++ bytes LF ++ rest) 0 1) in Hty1.
  change (slice _ _ _) with
    (slice (bytes "fix: x" ++ bytes LF ++ bytes LF ++ rest) 0 2) in Hty2.
  change (slice _ _ _) with
    (slice (bytes "fix: x" ++ bytes LF ++ bytes LF ++ rest) 5 6) in Hde.
  pose proof (at_index_app (bytes "fix: x" ++ bytes LF ++ bytes LF) rest) as Hi.
  change (bytes "fix: x" ++ bytes LF ++ bytes LF ++ rest)
    with ("f"%byte :: "i"%byte :: "x"%byte :: ":"%byte :: " "%byte :: "x"%byte ::
          "010"%byte :: "010"%byte :: rest) in *.
  destruct x as [dt0 s0 q0 e0 ef0 pb0 er0 be0 tc0 lg0 key0 cnt0 last0].
  destruct tc0, lg0.
  all: eexists _, _, _;
       split; [unfold initial, reset, emptyCommit, start, enConventionalTypesMain,
                 enFreeFormTypesMain; known; reflexivity|];
       split; [walk_to 87|].
  all: split; [|split; [fields; lia | reflexivity]].
  all: unfold ahead; fields; split; [|split; [cbn [length]; lia | split; reflexivity]].
  all: exact Hi.
Qed.

Lemma footers_of_snoc (ts : list trailer) (t : trailer) :
  footers_of (ts ++ [t]) = add_footer (footers_of ts) t.
Proof. unfold footers_of. by rewrite foldl_app. Qed.

(** The list held at a key is the list of the values of the trailers with
    that key, in their order; a key no trailer has is absent. *)
Lemma footers_of_lookup (ts : list trailer) (key : string) :
  footers_of ts !! key = match values_of key ts with [] => None | vs => Some vs end.
Proof.
  induction ts as [|t ts IH] using rev_ind; [done|].
  rewrite footers_of_snoc. unfold add_footer, append_footer, values_of.
  rewrite filter_app, fmap_app, filter_cons, filter_nil, lookup_insert.
  fold (values_of key ts).
  destruct (decide (footer_key (tkey t) = key)) as [->|Hne].
  - rewrite IH. cbn [fmap list_fmap]. by destruct (values_of _ ts).
  - rewrite IH. cbn [fmap list_fmap]. by rewrite app_nil_r.
Qed.

Lemma lower_byte_code (b : byte) :
  code (lower_byte b)
  = if (65 <=? code b) && (code b <=? 90) then code b + 32 else code b.
Proof. by destruct b. Qed.

Lemma trailers_parsed (x : machine) (ts : list trailer) :
  Forall trailer_ok ts →
  returns (Parse x (bytes "fix: x" ++ bytes LF ++ bytes LF ++ concat (render <$> ts)))
  = Some (Some (mkCommit "fix" "" "x" false "" (footers_of ts)), None).
Proof.
  intros Hts.
  destruct (header_then_trailers x (concat (render <$> ts)))
    as (c1 & n & c & He & Hst & Ha & Hp & Ho).
  rewrite <- (app_nil_r (concat _)) in Ha.
  destruct (trailers_recognised ts c [] Hts Ha Hp) as (c2 & Hs2 & Ha2 & Hp2 & Ho2).
  destruct (trailers_end c2 Ha2) as (c3 & Hh & Hcs & Ho3).
  rewrite (Parse_halts _ _ _ _ _ He
             (steps_halts _ _ _ _ _ (steps_trans _ _ _ _ _ _ Hst Hs2) Hh)).
  rewrite epilogue_final by (unfold firstFinal; lia).
  by rewrite Ho3, Ho2, Ho.
Qed.

Lemma trailers_parsed_unterminated (x : machine) (ts : list trailer) (t : trailer) :
  Forall trailer_ok ts → trailer_ok t →
  returns (Parse x (bytes "fix: x" ++ bytes LF ++ bytes LF ++
                    concat (render <$> ts) ++ unterminated t))
  = Some (Some (mkCommit "fix" "" "x" false "" (footers_of (ts ++ [t]))), None).
Proof.
  intros Hts Ht.
  destruct (header_then_trailers x (concat (render <$> ts) ++ unterminated t))
    as (c1 & n & c & He & Hst & Ha & Hp & Ho).
  destruct (trailers_recognised ts c _ Hts Ha Hp) as (c2 & Hs2 & Ha2 & Hp2 & Ho2).
  destruct (trailer_at_the_end c2 t Ht Ha2 Hp2) as (c3 & Hh & Hcs & Ho3).
  rewrite (Parse_halts _ _ _ _ _ He
             (steps_halts _ _ _ _ _ (steps_trans _ _ _ _ _ _ Hst Hs2) Hh)).
  rewrite epilogue_final by (unfold firstFinal; lia).
  by rewrite Ho3, Ho2, Ho, footers_of_snoc.
Qed.

(** C7: the key of a trailer is its token in lower case, [breaking change]
    turned into [breaking-change], and the value is appended to the list at
    that key.  After the header [fix: x] and a blank line, a sequence of
    trailers, the last with or without its line feed, parses to the footers
    that hold, at each key, the values of the trailers with that key in the
    order of the input. *)
Theorem C7_footer_keys_and_values :
  (∀ c t, text c = Some t →
     set_current_footer_key c = Some (set_currentFooterKey (footer_key t) c) ∧
     set_footer c
     = Some (upd_output
               (λ o, with_footers
                       (append_footer (currentFooterKey (m c)) (gostring t) (footers o)) o)
               c)) ∧
  (∀ k, footer_key k = if String.eqb (gostring (ToLower k)) "breaking change"
                       then "breaking-change" else gostring (ToLower k)) ∧
  (∀ b, code (lower_byte b)
        = if (65 <=? code b) && (code b <=? 90) then code b + 32 else code b) ∧
  (∀ x ts, Forall trailer_ok ts →
     returns (Parse x (bytes "fix: x" ++ bytes LF ++ bytes LF ++ concat (render <$> ts)))
     = Some (Some (mkCommit "fix" "" "x" false "" (footers_of ts)), None)) ∧
  (∀ x ts t, Forall trailer_ok ts → trailer_ok t →
     returns (Parse x (bytes "fix: x" ++ bytes LF ++ bytes LF ++
                       concat (render <$> ts) ++ unterminated t))
     = Some (Some (mkCommit "fix" "" "x" false "" (footers_of (ts ++ [t]))), None)) ∧
  (∀ ts key,
     footers_of ts !! key = match values_of key ts with [] => None | vs => Some vs end).
Proof.
  split; [|split; [|split; [|split; [|split]]]].
  - intros c t Ht. split; [by apply set_current_footer_key_text | by apply set_footer_text].
  - reflexivity.
  - exact lower_byte_code.
  - exact trailers_parsed.
  - exact trailers_parsed_unterminated.
  - exact footers_of_lookup.
Qed.

Ltac trailer_checked :=
  split;
  [ first [ left; split; [reflexivity | unfold separators; cbn [tsep]; in_list]
          | right; split; reflexivity ]
  | split; [cbn [tvalue]; discriminate | cbn [tvalue]; repeat constructor] ].

Lemma C7_footer_keys_and_values_witness :
  let ts := [mkTrailer (bytes "Refs") (bytes ": ") (bytes "1");
             mkTrailer (bytes "BREAKING CHANGE") (bytes ": ") (bytes "api");
             mkTrailer (bytes "refs") (bytes " #") (bytes "2")] in
  returns (Parse NewMachine
             (bytes ("fix: x" +:+ LF +:+ LF +:+ "Refs: 1" +:+ LF +:+
                     "BREAKING CHANGE: api" +:+ LF +:+ "refs #2" +:+ LF)))
  = Some (Some (mkCommit "fix" "" "x" false "" (footers_of ts)), None) ∧
  footers_of ts !! "refs" = Some ["1"; "2"] ∧
  footers_of ts !! "breaking-change" = Some ["api"] ∧
  footers_of ts !! "breaking change" = None.
Proof.
  intros ts. split.
  - apply (proj1 (proj2 (proj2 (proj2 C7_footer_keys_and_values))) NewMachine ts).
    repeat (apply Forall_cons; split; [trailer_checked|]). by apply Forall_nil.
  - rewrite !(proj2 (proj2 (proj2 (proj2 (proj2 C7_footer_keys_and_values)))) ts).
    repeat split.
Defined.

(** ** The type, in each dialect *)

Lemma matches_ci_lower (ty kw : list byte) :
  matches_ci ty kw = true → length ty = length kw → ToLower ty = kw.
Proof.
  revert kw. induction ty as [|b ty IH]; intros [|k kw] H Hl; try done.
  cbn [matches_ci] in H. apply andb_true_iff in H as [Hb H].
  apply Byte.byte_dec_bl in Hb. cbn [ToLower map]. rewrite Hb. f_equal.
  apply IH; [done | by injection Hl].
Qed.

Lemma keyword_lower (kws : list (list byte)) (ty : list byte) :
  keyword kws ty = true → ToLower ty ∈ kws.
Proof.
  unfold keyword. intros H. apply existsb_exists in H as (kw & Hin & H).
  apply andb_true_iff in H as [Hm Hl]. apply Nat.eqb_eq in Hl.
  rewrite (matches_ci_lower _ _ Hm Hl). by apply list_elem_of_In.
Qed.

(** The keyword states dispatch on a letter whatever its case. *)
Lemma keyword_states_case_blind (n : Z) (b : byte) :
  n ∈ keyword_states →
  stCase n (code b) false = stCase n (code (lower_byte b)) false.
Proof.
  intros Hn. apply list_elem_of_In in Hn. vm_compute in Hn.
  repeat (destruct Hn as [<- | Hn]); [..| destruct Hn]; by destruct b.
Qed.

Lemma keyword_states_closed (n k z : Z) :
  n ∈ keyword_states → stCase n z false = goto_st k →
  k ∈ keyword_states ∨ plain k = false.
Proof.
  intros Hn. apply list_elem_of_In in Hn. vm_compute in Hn.
  repeat (destruct Hn as [<- | Hn]); [..| destruct Hn];
    cbv beta iota zeta delta [stCase letter switch];
    tests; intros H; try discriminate H; injection H as <-;
    first [right; reflexivity | left; unfold keyword_states; cbn [seqZ]; vm_compute; in_list].
Qed.

Lemma plain_run_stuck (n : Z) (t : list byte) :
  plain n = false → plain_run n t = match t with [] => Some n | _ => None end.
Proof. intros H. destruct t; [done|]. cbn [plain_run]. by rewrite H. Qed.

(** A run through the keyword states does not depend on the letter case. *)
Lemma plain_run_lower (t : list byte) :
  ∀ n, n ∈ keyword_states ∨ plain n = false →
       plain_run n t = plain_run n (ToLower t).
Proof.
  induction t as [|b t IH]; intros n Hn; [done|].
  destruct Hn as [Hn | Hn].
  - cbn [plain_run ToLower map]. rewrite (keyword_states_case_blind n b Hn).
    destruct (plain n); [|done].
    destruct (stCase n (code (lower_byte b)) false) as [k|] eqn:Hk; [|done].
    destruct (k =? 0); [done|]. apply IH. by eapply keyword_states_closed.
  - rewrite !plain_run_stuck by done. done.
Qed.

(** The first pass of [Parse] over a non-empty input dispatches its first
    byte from the entry state of the dialect. *)
Lemma enter_first (x : machine) (b : byte) (rest : list byte) :
  let c0 := initial x (b :: rest) in
  enter c0 = match stCase (cs (m c0)) (code b) false with
             | goto_st k => Some (continue k c0)
             | goto_tr t => exec t c0
             end.
Proof.
  destruct x as [dt0 s0 q0 e0 ef0 pb0 er0 be0 tc0 lg0 key0 cnt0 last0].
  destruct tc0; unfold initial, reset, enter, atCase; fields;
    cbn [length]; (destruct (Z.eqb_spec 0 (Z.of_nat (S (length rest)))); [lia|]);
    reflexivity.
Qed.

Lemma initial_ahead (x : machine) (b : byte) (rest : list byte) :
  ahead (mark (initial x (b :: rest))) rest.
Proof.
  unfold ahead, mark, set_pb, initial, reset. fields.
  split; [|split; [cbn [length]; lia | split; reflexivity]].
  intros i. apply (at_index_app [b] rest i).
Qed.

Ltac first_letter :=
  match goal with
  | |- context [stCase ?s (code ?k) false] =>
      let v := (eval vm_compute in (stCase s (code k) false)) in
      change (stCase s (code k) false) with v
  end.

(** The state reached over a keyword, from the state its first letter
    leads to. *)
Lemma keyword_run (tc : TypeConfig) (x : machine) (b : byte) (ty rest : list byte) :
  tc ≠ TypesFreeForm → typeConfig x = tc → type_ok tc (b :: ty) = true →
  ∃ n, enter (initial x (b :: ty ++ rest))
       = Some (mark (initial x (b :: ty ++ rest)), Goto n) ∧
       plain_run n ty = Some (lbl tc 5).
Proof.
  intros Htc Hx Hty. rewrite enter_first. cbv zeta.
  destruct x as [dt0 s0 q0 e0 ef0 pb0 er0 be0 tc0 lg0 key0 cnt0 last0].
  cbn [typeConfig] in Hx. subst tc0. generalize (b :: ty ++ rest). intros input.
  unfold initial, reset. fields.
  destruct tc; [| |done]; cbn [type_ok] in Hty; apply keyword_lower in Hty;
    apply list_elem_of_In in Hty;
    [ (let v := (eval vm_compute in minimal_types) in change minimal_types with v in Hty)
    | (let v := (eval vm_compute in conventional_types) in
       change conventional_types with v in Hty) ];
    cbn [In ToLower map] in Hty;
    repeat (destruct Hty as [Hty | Hty]); try (exfalso; exact Hty);
    injection Hty as Hb Ht;
    match goal with
    | |- context [stCase ?s (code b) false] =>
        rewrite (keyword_states_case_blind s b)
          by (unfold keyword_states; vm_compute; in_list)
    end;
    rewrite <- Hb; first_letter; cbv beta iota delta [exec];
    (eexists; split; [reflexivity|]);
    (rewrite plain_run_lower by (left; unfold keyword_states; vm_compute; in_list));
    unfold ToLower; rewrite <- Ht; vm_compute; reflexivity.
Qed.

(** The loop of state 77 over the bytes of a free-form type. *)
Lemma free_type_loop (t : list byte) :
  ∀ c l, forallb free_byte t = true → ahead c (t ++ l) → pb (m c) = 0 →
         0 <= p (m c) →
         ∃ t1, steps 77 c 77
                 (upd_output (with_type t1) (set_p (p (m c) + Z.of_nat (length t)) c)).
Proof.
  induction t as [|b t IH]; intros c l Ht Ha Hpb Hp.
  - exists (_type (output c)). open_conf c. unfold upd_output, set_output, with_type, set_p.
    fields. cbn [length]. change (Z.of_nat 0) with 0. rewrite Z.add_0_r. apply steps_refl.
  - cbn [forallb] in Ht. apply andb_true_iff in Ht as [Hb Ht]. cbn [app] in Ha.
    destruct (ahead_next _ _ _ Ha) as (Hat & Hlt & Hnext).
    pose proof Ha as (_ & _ & _ & Hlen).
    assert (∃ t0, st 77 c = Some (upd_output (with_type t0) (set_p (p (m c) + 1) c), Goto 77))
      as [t0 Hst].
    { open_conf c. cbn [m data p pe pb] in Hat, Hlt, Hlen, Hpb, Hp. subst pb0.
      unfold free_byte, printable in Hb.
      destruct (slice_Some dt 0 (q + 1)) as [t0 Ht0]; [lia | lia |].
      exists (gostring t0). known. reflexivity. }
    destruct (IH (upd_output (with_type t0) (set_p (p (m c) + 1) c)) l Ht) as [t1 Hloop].
    + apply Hnext; by open_conf c.
    + by open_conf c.
    + open_conf c. cbn [m p] in Hp. unfold upd_output, set_output, set_p. fields. lia.
    + exists t1. eapply steps_goto; [exact Hst|].
      open_conf c. revert Hloop. unfold upd_output, set_output, with_type, set_p. fields.
      replace (q + 1 + Z.of_nat (length t)) with (q + Z.of_nat (length (b :: t)))
        by (cbn [length]; lia).
      done.
Qed.

(** In each dialect, a type is read up to the label that follows it. *)
Lemma type_recognised (x : machine) (ty rest : list byte) :
  type_ok (typeConfig x) ty = true →
  ∃ c1 n c, enter (initial x (ty ++ rest)) = Some (c1, Goto n) ∧
            steps n c1 (lbl (typeConfig x) 5) c ∧ at_type_end x ty rest c.
Proof.
  intros Hty. destruct ty as [|b ty]; [by destruct (typeConfig x)|].
  pose proof (initial_ahead x b (ty ++ rest)) as Ha.
  pose proof (slice_prefix (b :: ty) rest) as Hsl.
  assert (typeConfig x = TypesFreeForm ∨ typeConfig x ≠ TypesFreeForm) as [Hx | Hx]
    by (destruct (typeConfig x); auto).
  - rewrite Hx in *. cbn [type_ok] in Hty. apply andb_true_iff in Hty as [Hb Hty].
    destruct (free_type_loop ty (mark (initial x (b :: ty ++ rest))) rest Hty Ha)
      as [t1 Hloop]; [done | done |].
    eexists _, 77, _. split; [|split; [exact Hloop|]].
    + cbn [app]. rewrite enter_first. cbv zeta.
      destruct x as [dt0 s0 q0 e0 ef0 pb0 er0 be0 tc0 lg0 key0 cnt0 last0].
      cbn [typeConfig] in Hx. subst tc0. unfold initial, reset. fields.
      unfold printable in Hb. cbv beta iota zeta delta [stCase within].
      destruct ((32 <=? code b) && (code b <=? 126)); [reflexivity | done].
    + destruct (ahead_app _ _ _ Ha
                  (upd_output (with_type t1)
                     (set_p (p (m (mark (initial x (b :: ty ++ rest))))
                             + Z.of_nat (length ty))
                        (mark (initial x (b :: ty ++ rest))))))
        as (H1 & H2 & H3 & H4); try reflexivity.
      unfold at_type_end. split; [done|].
      unfold initial, reset, mark, set_pb, set_p, upd_output, set_output. fields.
      cbn [app] in Hsl.
      repeat split; try done; [cbn [length]; lia | by exists t1].
  - destruct (keyword_run (typeConfig x) x b ty rest Hx eq_refl Hty) as (n & He & Hrun).
    pose proof (plain_steps ty n _ (mark (initial x (b :: ty ++ rest))) rest Hrun Ha)
      as Hloop.
    eexists _, n, _. split; [exact He|]. split; [exact Hloop|].
    destruct (ahead_app _ _ _ Ha
                (set_p (p (m (mark (initial x (b :: ty ++ rest)))) + Z.of_nat (length ty))
                   (mark (initial x (b :: ty ++ rest)))))
      as (H1 & H2 & H3 & H4); try reflexivity.
    unfold at_type_end. split; [done|].
    unfold initial, reset, mark, set_pb, set_p. fields. cbn [app] in Hsl.
    repeat split; try done; [cbn [length]; lia | by exists ""].
Qed.

(** ** The header, in each dialect *)

Ltac labels_out :=
  repeat match goal with
    | |- context [lbl ?t ?k] =>
        let v := (eval vm_compute in (lbl t k)) in change (lbl t k) with v
    end.

Ltac next_byte Ha :=
  let Hat := fresh "Hat" in let Hlt := fresh "Hlt" in let Hnext := fresh "Hnext" in
  destruct (ahead_next _ _ _ Ha) as (Hat & Hlt & Hnext).

Ltac header_facts Hnext :=
  unfold in_header; fields;
  (split; [apply Hnext; reflexivity|]);
  repeat split; first [assumption | reflexivity | lia].

(** The byte after the type: an opening parenthesis, an exclamation mark or
    a colon; leaving the type records it. *)
Lemma type_left (dl : TypeConfig) (x : machine) (ty l : list byte) (b : byte) (c : conf) :
  at_type_end x ty (b :: l) c → code b ∈ [40; 33; 58] →
  ∃ c', st (lbl dl 5) c
        = Some (c', Goto (lbl dl (if code b =? 40 then 10
                                  else if code b =? 33 then 6 else 7))) ∧
        in_header x (if code b =? 33 then with_exclamation true (typed ty) else typed ty)
          l c'.
Proof.
  intros (Ha & Hp & Hpb & Hsl & Herr & Hbe & Hlg & Hcnt & t0 & Hout) Hb.
  next_byte Ha. open_conf c.
  cbn [m data p pe pb err bestEffort logger countNewlines output] in *.
  subst pb0 er cnt. replace (Z.of_nat (length ty)) with (q + 1) in Hsl by lia.
  unfold with_type, emptyCommit in Hout. fields. injection Hout as -> -> -> -> -> ->.
  apply list_elem_of_In in Hb. cbn [In] in Hb.
  destruct Hb as [Hb | [Hb | [Hb | []]]]; rewrite <- Hb; cbn [Z.eqb Pos.eqb];
    destruct dl; labels_out;
    (eexists; split; [known; reflexivity|]);
    unfold typed, with_exclamation, with_type, emptyCommit; header_facts Hnext.
Qed.

Lemma scope_run (dl : TypeConfig) (s : list byte) :
  Forall (λ b, scope_ok b = true) s → plain_run (lbl dl 11) s = Some (lbl dl 11).
Proof.
  induction 1 as [|b s Hb _ IH]; [done|].
  unfold scope_ok in Hb. cbn [plain_run].
  destruct dl; labels_out; [change (plain 11) with true | change (plain 46) with true
                           | change (plain 83) with true]; cbn iota;
    cbv beta iota zeta delta [stCase switch scope_byte within];
    tests; try (exfalso; lia); exact IH.
Qed.

(** From the opening parenthesis to the closing one, in each dialect. *)
Lemma scope_read (dl : TypeConfig) (x : machine) (o : conventionalCommit)
    (s l : list byte) (c : conf) :
  Forall (λ b, scope_ok b = true) s → in_header x o (s ++ bytes ")" ++ l) c →
  ∃ c', steps (lbl dl 10) c (lbl dl 12) c' ∧ in_header x (with_scope (gostring s) o) l c'.
Proof.
  intros Hs (Ha & Hp & Herr & Hbe & Hlg & Hcnt & Hout).
  pose proof (ahead_slice _ _ _ Ha ltac:(lia)) as Hsl.
  destruct s as [|b s].
  - cbn [app] in Ha. change (bytes ")" ++ l) with (")"%byte :: l) in Ha. next_byte Ha.
    open_conf c. cbn [m data p pe err bestEffort logger countNewlines output] in *.
    cbn [length] in Hsl. change (Z.of_nat 0) with 0 in Hsl. rewrite Z.add_0_r in Hsl.
    subst o. destruct dl; labels_out;
      (eexists; split; [eapply steps_goto; [known; reflexivity | apply steps_refl]|]);
      unfold with_scope; header_facts Hnext.
  - apply Forall_cons in Hs as [Hb Hs]. cbn [app] in Ha. next_byte Ha.
    pose proof (plain_steps s _ _ (set_pb (p (m c) + 1) (set_p (p (m c) + 1) c)) _
                  (scope_run dl s Hs) ltac:(by apply Hnext)) as Hloop.
    pose proof (ahead_app (set_p (p (m c) + 1) c) s _ ltac:(by apply Hnext)
                  (set_p (p (m c) + 1 + Z.of_nat (length s)) c)
                  eq_refl eq_refl eq_refl eq_refl) as Ha'.
    change (bytes ")" ++ l) with (")"%byte :: l) in Ha'.
    destruct (ahead_next _ _ _ Ha') as (Hat' & Hlt' & Hnext').
    open_conf c. revert Hloop. unfold set_pb, set_p in *. fields. intros Hloop.
    cbn [m data p pe err bestEffort logger countNewlines output] in *.
    unfold scope_ok in Hb.
    replace (q + 1 + Z.of_nat (length (b :: s)))
      with (q + 1 + Z.of_nat (length s) + 1) in Hsl by (cbn [length]; lia).
    subst o. destruct dl; revert Hloop; labels_out; intros Hloop;
      (eexists; split;
       [eapply steps_goto; [known; reflexivity|];
        eapply steps_trans; [exact Hloop|];
        eapply steps_goto; [known; reflexivity | apply steps_refl]|]);
      unfold with_scope; header_facts Hnext'.
Qed.

(** After the scope: an exclamation mark or a colon. *)
Lemma scope_left (dl : TypeConfig) (x : machine) (o : conventionalCommit)
    (l : list byte) (b : byte) (c : conf) :
  in_header x o (b :: l) c → code b ∈ [33; 58] →
  ∃ c', st (lbl dl 12) c = Some (c', Goto (lbl dl (if code b =? 33 then 6 else 7))) ∧
        in_header x (if code b =? 33 then with_exclamation true o else o) l c'.
Proof.
  intros (Ha & Hp & Herr & Hbe & Hlg & Hcnt & Hout) Hb. next_byte Ha. open_conf c.
  cbn [m data p pe err bestEffort logger countNewlines output] in *. subst o.
  apply list_elem_of_In in Hb. cbn [In] in Hb.
  destruct Hb as [Hb | [Hb | []]]; rewrite <- Hb; cbn [Z.eqb Pos.eqb];
    destruct dl; labels_out;
    (eexists; split; [known; reflexivity|]);
    unfold with_exclamation; header_facts Hnext.
Qed.

(** After the exclamation mark: the colon. *)
Lemma bang_left (dl : TypeConfig) (x : machine) (o : conventionalCommit)
    (l : list byte) (c : conf) :
  in_header x o (bytes ":" ++ l) c →
  ∃ c', st (lbl dl 6) c = Some (c', Goto (lbl dl 7)) ∧ in_header x o l c'.
Proof.
  intros (Ha & Hp & Herr & Hbe & Hlg & Hcnt & Hout).
  change (bytes ":" ++ l) with (":"%byte :: l) in Ha. next_byte Ha. open_conf c.
  cbn [m data p pe err bestEffort logger countNewlines output] in *. subst o.
  destruct dl; labels_out;
    (eexists; split; [known; reflexivity|]); header_facts Hnext.
Qed.

(** After the colon: the space. *)
Lemma colon_left (dl : TypeConfig) (x : machine) (o : conventionalCommit)
    (l : list byte) (c : conf) :
  in_header x o (bytes " " ++ l) c →
  ∃ c', st (lbl dl 7) c = Some (c', Goto (lbl dl 8)) ∧ in_header x o l c'.
Proof.
  intros (Ha & Hp & Herr & Hbe & Hlg & Hcnt & Hout).
  change (bytes " " ++ l) with (" "%byte :: l) in Ha. next_byte Ha. open_conf c.
  cbn [m data p pe err bestEffort logger countNewlines output] in *. subst o.
  destruct dl; labels_out;
    (eexists; split; [known; reflexivity|]); header_facts Hnext.
Qed.

Lemma spaces_run (dl : TypeConfig) (n : nat) :
  plain_run (lbl dl 8) (replicate n " "%byte) = Some (lbl dl 8).
Proof.
  induction n as [|n IH]; [done|].
  cbn [replicate plain_run].
  destruct dl; revert IH; labels_out; intros IH; exact IH.
Qed.

Lemma descr_run (dl : TypeConfig) (d : list byte) :
  forallb descr_byte d = true → plain_run (lbl dl 85) d = Some (lbl dl 85).
Proof.
  induction d as [|b d IH]; [done|]. cbn [forallb]. intros H.
  apply andb_true_iff in H as [Hb H]. unfold descr_byte in Hb. cbn [plain_run].
  destruct dl; labels_out; [change (plain 85) with true | change (plain 93) with true
                           | change (plain 95) with true]; cbn iota;
    cbv beta iota zeta delta [stCase switch];
    tests; try (exfalso; lia); revert IH; labels_out; intros IH; by apply IH.
Qed.

(** Further spaces are skipped. *)
Lemma spaces_skipped (dl : TypeConfig) (x : machine) (o : conventionalCommit)
    (n : nat) (l : list byte) (c : conf) :
  in_header x o (replicate n " "%byte ++ l) c →
  ∃ c', steps (lbl dl 8) c (lbl dl 8) c' ∧ in_header x o l c'.
Proof.
  intros (Ha & Hp & Herr & Hbe & Hlg & Hcnt & Hout).
  exists (set_p (p (m c) + Z.of_nat (length (replicate n " "%byte))) c).
  split; [by apply (plain_steps _ _ _ _ l (spaces_run dl n))|].
  unfold in_header.
  split; [apply (ahead_app _ _ _ Ha); by open_conf c|].
  open_conf c. unfold set_p. fields.
  cbn [m data p pe err bestEffort logger countNewlines output] in *.
  repeat split; first [assumption | lia].
Qed.

(** The description: its first byte is marked, the others follow. *)
Lemma descr_read (dl : TypeConfig) (x : machine) (o : conventionalCommit)
    (b : byte) (d l : list byte) (c : conf) :
  descr_first b = true → forallb descr_byte d = true →
  in_header x o (b :: d ++ l) c →
  ∃ c', steps (lbl dl 8) c (lbl dl 85) c' ∧ in_descr x o (b :: d) l c'.
Proof.
  intros Hb Hd (Ha & Hp & Herr & Hbe & Hlg & Hcnt & Hout).
  pose proof (ahead_slice c (b :: d) l Ha ltac:(lia)) as Hsl.
  next_byte Ha.
  pose proof (plain_steps d _ _ (set_pb (p (m c) + 1) (set_p (p (m c) + 1) c)) _
                (descr_run dl d Hd) ltac:(by apply Hnext)) as Hloop.
  pose proof (ahead_app (set_p (p (m c) + 1) c) d _ ltac:(by apply Hnext)
                (set_p (p (m c) + 1 + Z.of_nat (length d)) (set_pb (p (m c) + 1) c))
                ltac:(by open_conf c) ltac:(by open_conf c) ltac:(by open_conf c)
                ltac:(by open_conf c)) as Ha'.
  open_conf c. revert Hloop Ha'. unfold set_pb, set_p in *. fields. intros Hloop Ha'.
  cbn [m data p pe err bestEffort logger countNewlines output] in *.
  unfold descr_first in Hb.
  replace (q + 1 + Z.of_nat (length (b :: d)))
    with (q + 1 + Z.of_nat (length d) + 1) in Hsl by (cbn [length]; lia).
  subst o. destruct dl; revert Hloop; labels_out; intros Hloop;
    (eexists; split;
     [eapply steps_goto; [known; reflexivity|]; exact Hloop|]);
    unfold in_descr, in_header; fields;
    (split; [split; [exact Ha'|]|]);
    repeat split; first [assumption | reflexivity | lia].
Qed.

Lemma forallb_Forall {A} (f : A → bool) (l : list A) :
  forallb f l = true → Forall (λ a, f a = true) l.
Proof. rewrite forallb_forall, Forall_forall. intros H a Ha. apply H. by apply list_elem_of_In. Qed.

(** From the label after the type to the label after the colon. *)
Lemma colon_reached (x : machine) (h : header) (l : list byte) (c : conf) :
  let dl := typeConfig x in
  prefix_ok dl h = true →
  at_type_end x (htype h) (drop (length (htype h)) (before_colon h) ++ bytes ":" ++ l) c →
  ∃ c', steps (lbl dl 5) c (lbl dl 7) c' ∧ in_header x (record_before_colon h) l c'.
Proof.
  intros dl Hok Hc. unfold prefix_ok in Hok. apply andb_true_iff in Hok as [_ Hs].
  unfold before_colon in Hc. rewrite drop_app_length in Hc.
  destruct h as [ty [s|] [|] n d]; cbn [htype hscope hbang] in *;
    unfold record_before_colon; cbn [htype hscope hbang default];
    rewrite <- ?app_assoc in Hc.
  - (* scope and exclamation mark *)
    destruct (type_left dl x ty _ "("%byte c Hc) as (c1 & H1 & I1); [vm_compute; in_list|].
    cbn [Z.eqb Pos.eqb code] in H1, I1. change (code "(" =? 40) with true in H1.
    change (code "(" =? 33) with false in I1. cbv iota in H1, I1.
    destruct (scope_read dl x _ s _ c1 (forallb_Forall _ _ Hs) I1) as (c2 & H2 & I2).
    change (bytes "!" ++ bytes ":" ++ l) with ("!"%byte :: bytes ":" ++ l) in I2.
    destruct (scope_left dl x _ _ "!"%byte c2 I2) as (c3 & H3 & I3); [vm_compute; in_list|].
    change (code "!" =? 33) with true in H3, I3. cbv iota in H3, I3.
    destruct (bang_left dl x _ _ c3 I3) as (c4 & H4 & I4).
    exists c4. split; [|exact I4].
    eapply steps_goto; [exact H1|]. eapply steps_trans; [exact H2|].
    eapply steps_goto; [exact H3|]. eapply steps_goto; [exact H4|]. apply steps_refl.
  - (* scope *)
    rewrite app_nil_l in Hc.
    destruct (type_left dl x ty _ "("%byte c Hc) as (c1 & H1 & I1); [vm_compute; in_list|].
    change (code "(" =? 40) with true in H1.
    change (code "(" =? 33) with false in I1. cbv iota in H1, I1.
    destruct (scope_read dl x _ s _ c1 (forallb_Forall _ _ Hs) I1) as (c2 & H2 & I2).
    change (bytes ":" ++ l) with (":"%byte :: l) in I2.
    destruct (scope_left dl x _ _ ":"%byte c2 I2) as (c3 & H3 & I3); [vm_compute; in_list|].
    change (code ":" =? 33) with false in H3, I3. cbv iota in H3, I3.
    exists c3. split; [|exact I3].
    eapply steps_goto; [exact H1|]. eapply steps_trans; [exact H2|].
    eapply steps_goto; [exact H3|]. apply steps_refl.
  - (* exclamation mark *)
    rewrite app_nil_l in Hc.
    change (bytes "!" ++ bytes ":" ++ l) with ("!"%byte :: bytes ":" ++ l) in Hc.
    destruct (type_left dl x ty _ "!"%byte c Hc) as (c1 & H1 & I1); [vm_compute; in_list|].
    change (code "!" =? 40) with false in H1. change (code "!" =? 33) with true in H1, I1.
    cbv iota in H1, I1.
    destruct (bang_left dl x _ _ c1 I1) as (c2 & H2 & I2).
    exists c2. split; [|exact I2].
    eapply steps_goto; [exact H1|]. eapply steps_goto; [exact H2|]. apply steps_refl.
  - (* neither *)
    rewrite !app_nil_l in Hc. change (bytes ":" ++ l) with (":"%byte :: l) in Hc.
    destruct (type_left dl x ty _ ":"%byte c Hc) as (c1 & H1 & I1); [vm_compute; in_list|].
    change (code ":" =? 40) with false in H1. change (code ":" =? 33) with false in H1, I1.
    cbv iota in H1, I1.
    exists c1. split; [|exact I1]. eapply steps_goto; [exact H1|]. apply steps_refl.
Qed.

(** From the label after the colon to the description, read in full. *)
Lemma descr_reached (x : machine) (h : header) (o : conventionalCommit)
    (l : list byte) (c : conf) :
  let dl := typeConfig x in
  header_ok dl h = true →
  in_header x o (bytes " " ++ replicate (hspaces h) " "%byte ++ hdescr h ++ l) c →
  ∃ c', steps (lbl dl 7) c (lbl dl 85) c' ∧ in_descr x o (hdescr h) l c'.
Proof.
  intros dl Hok I0. unfold header_ok in Hok. apply andb_true_iff in Hok as [_ Hd].
  destruct (hdescr h) as [|b d]; [done|]. apply andb_true_iff in Hd as [Hb Hd].
  destruct (colon_left dl x o _ c I0) as (c1 & H1 & I1).
  destruct (spaces_skipped dl x o _ _ c1 I1) as (c2 & H2 & I2).
  cbn [app] in I2.
  destruct (descr_read dl x o b d l c2 Hb Hd I2) as (c3 & H3 & I3).
  exists c3. split; [|exact I3].
  eapply steps_goto; [exact H1|]. eapply steps_trans; [exact H2 | exact H3].
Qed.

(** The end of the input in the description ends the parse in a final
    state, the description recorded. *)
Lemma descr_at_the_end (dl : TypeConfig) (x : machine) (o : conventionalCommit)
    (d : list byte) (c : conf) :
  in_descr x o d [] c →
  ∃ c', halts (lbl dl 85) c c' ∧ firstFinal <= cs (m c') ∧
        output c' = with_descr (gostring d) o.
Proof.
  intros ((Ha & Hp & Herr & Hbe & Hlg & Hcnt & Hout) & Hpb & Hsl).
  destruct (ahead_end _ Ha) as [Hpe Heof]. open_conf c.
  cbn [m data p pe eof pb err bestEffort logger countNewlines output] in *.
  subst ef o.
  destruct dl; labels_out;
    (eexists; split; [eapply halts_out; known; reflexivity|]);
    (split; [unfold firstFinal; fields; lia | reflexivity]).
Qed.

(** A line feed ends the description, and a second one leads to the
    beginning of the trailers. *)
Lemma descr_then_blank_line (dl : TypeConfig) (x : machine) (o : conventionalCommit)
    (d l : list byte) (c : conf) :
  in_descr x o d (bytes LF ++ bytes LF ++ l) c →
  ∃ c', steps (lbl dl 85) c 87 c' ∧ in_header x (with_descr (gostring d) o) l c'.
Proof.
  intros ((Ha & Hp & Herr & Hbe & Hlg & Hcnt & Hout) & Hpb & Hsl).
  change (bytes LF ++ bytes LF ++ l) with ("010"%byte :: "010"%byte :: l) in Ha.
  next_byte Ha.
  pose proof (Hnext (set_p (p (m c) + 1) c) eq_refl eq_refl eq_refl eq_refl) as Ha1.
  destruct (ahead_next _ _ _ Ha1) as (Hat1 & Hlt1 & Hnext1).
  open_conf c. unfold set_p in *.
  cbn [m data p pe eof pb err bestEffort logger countNewlines output] in *.
  subst o.
  destruct dl; labels_out;
    (eexists; split;
     [eapply steps_goto; [known; reflexivity|];
      eapply steps_goto; [known; reflexivity|]; apply steps_refl|]);
    unfold with_descr; header_facts Hnext1.
Qed.

Lemma render_header_split (h : header) (l : list byte) :
  render_header h ++ l
  = htype h ++ (drop (length (htype h)) (before_colon h) ++ bytes ":"
                ++ bytes " " ++ replicate (hspaces h) " "%byte ++ hdescr h ++ l).
Proof.
  unfold render_header, from_colon, before_colon.
  rewrite drop_app_length. by rewrite <- !app_assoc.
Qed.

(** A header is read up to the end of its description. *)
Lemma header_read (x : machine) (h : header) (l : list byte) :
  header_ok (typeConfig x) h = true →
  ∃ c1 n c, enter (initial x (render_header h ++ l)) = Some (c1, Goto n) ∧
            steps n c1 (lbl (typeConfig x) 85) c ∧
            in_descr x (record_before_colon h) (hdescr h) l c.
Proof.
  intros Hok. pose proof Hok as Hpre. unfold header_ok in Hpre.
  apply andb_true_iff in Hpre as [Hpre _]. pose proof Hpre as Hty.
  unfold prefix_ok in Hty. apply andb_true_iff in Hty as [Hty _].
  rewrite render_header_split.
  destruct (type_recognised x (htype h)
              (drop (length (htype h)) (before_colon h) ++ bytes ":"
               ++ bytes " " ++ replicate (hspaces h) " "%byte ++ hdescr h ++ l) Hty)
    as (c1 & n & c & He & H0 & I0).
  destruct (colon_reached x h _ c Hpre I0) as (c2 & H2 & I2).
  destruct (descr_reached x h _ l c2 Hok I2) as (c3 & H3 & I3).
  exists c1, n, c3. split; [exact He|]. split; [|exact I3].
  eapply steps_trans; [exact H0|]. eapply steps_trans; [exact H2 | exact H3].
Qed.

Lemma record_of_descr (h : header) (f : gmap string (list string)) :
  with_footers f (with_descr (gostring (hdescr h)) (record_before_colon h)) = record_of h f.
Proof. reflexivity. Qed.

(** X1: in each dialect, the bytes of a well-formed header parse to the
    record of that header: the type and the scope as written, the
    exclamation mark as a flag, the description without the spaces before
    it, no body and no footer. *)
Theorem header_round_trip (x : machine) (h : header) :
  header_ok (typeConfig x) h = true →
  returns (Parse x (render_header h)) = Some (Some (record_of h ∅), None).
Proof.
  intros Hok. rewrite <- (app_nil_r (render_header h)).
  destruct (header_read x h [] Hok) as (c1 & n & c & He & H0 & I0).
  destruct (descr_at_the_end (typeConfig x) x _ _ c I0) as (c' & Hh & Hcs & Hout).
  rewrite (Parse_halts _ _ _ _ _ He (steps_halts _ _ _ _ _ H0 Hh)).
  rewrite epilogue_final by done. by rewrite Hout.
Qed.

Lemma header_round_trip_witness :
  returns (Parse (WithTypes TypesConventional NewMachine) (bytes "Refactor(core)!:  drop v1"))
  = Some (Some (mkCommit "Refactor" "core" "drop v1" true "" ∅), None).
Proof.
  exact (header_round_trip (WithTypes TypesConventional NewMachine)
           (mkHeader (bytes "Refactor") (Some (bytes "core")) true 1 (bytes "drop v1"))
           eq_refl).
Defined.

(** X2: in each dialect, a well-formed header, a blank line and a sequence
    of well-formed trailers, the last with or without its line feed, parse
    to the record of the header with the footers of the trailers. *)
Theorem message_round_trip (x : machine) (h : header) (ts : list trailer) :
  header_ok (typeConfig x) h = true → Forall trailer_ok ts →
  returns (Parse x (render_header h ++ bytes LF ++ bytes LF ++ concat (render <$> ts)))
  = Some (Some (record_of h (footers_of ts)), None) ∧
  ∀ t, trailer_ok t →
       returns (Parse x (render_header h ++ bytes LF ++ bytes LF
                         ++ concat (render <$> ts) ++ unterminated t))
       = Some (Some (record_of h (footers_of (ts ++ [t]))), None).
Proof.
  intros Hok Hts. split; [|intros t Ht].
  - destruct (header_read x h (bytes LF ++ bytes LF ++ concat (render <$> ts)) Hok)
      as (c1 & n & c & He & H0 & I0).
    destruct (descr_then_blank_line (typeConfig x) x _ _ _ c I0) as (c2 & H2 & I2).
    destruct I2 as (Ha & Hp & _ & _ & _ & _ & Ho).
    rewrite <- (app_nil_r (concat _)) in Ha.
    destruct (trailers_recognised ts c2 [] Hts Ha Hp) as (c3 & H3 & Ha3 & Hp3 & Ho3).
    destruct (trailers_end c3 Ha3) as (c4 & Hh & Hcs & Ho4).
    rewrite (Parse_halts _ _ _ _ _ He
               (steps_halts _ _ _ _ _
                  (steps_trans _ _ _ _ _ _ H0 (steps_trans _ _ _ _ _ _ H2 H3)) Hh)).
    rewrite epilogue_final by (unfold firstFinal; lia).
    by rewrite Ho4, Ho3, Ho.
  - destruct (header_read x h (bytes LF ++ bytes LF ++ concat (render <$> ts)
                                ++ unterminated t) Hok)
      as (c1 & n & c & He & H0 & I0).
    destruct (descr_then_blank_line (typeConfig x) x _ _ _ c I0) as (c2 & H2 & I2).
    destruct I2 as (Ha & Hp & _ & _ & _ & _ & Ho).
    destruct (trailers_recognised ts c2 _ Hts Ha Hp) as (c3 & H3 & Ha3 & Hp3 & Ho3).
    destruct (trailer_at_the_end c3 t Ht Ha3 Hp3) as (c4 & Hh & Hcs & Ho4).
    rewrite (Parse_halts _ _ _ _ _ He
               (steps_halts _ _ _ _ _
                  (steps_trans _ _ _ _ _ _ H0 (steps_trans _ _ _ _ _ _ H2 H3)) Hh)).
    rewrite epilogue_final by (unfold firstFinal; lia).
    by rewrite Ho4, Ho3, Ho, footers_of_snoc.
Qed.

(** ** Errors in the header *)

Lemma reaches_steps (x : machine) (input : list byte) (n n' : Z) (c c' : conf) :
  reaches x input n c → steps n c n' c' → reaches x input n' c'.
Proof.
  intros Hr Hs. induction Hs as [|n c n1 c1 n2 c2 Hst _ IH]; [done|].
  apply IH. by eapply reaches_goto.
Qed.

Lemma entered_Inv (x : machine) (input : list byte) (n n' : Z) (c1 c : conf) :
  enter (initial x input) = Some (c1, Goto n) → steps n c1 n' c →
  Inv (logger x) input n' c.
Proof.
  intros He Hs. apply reaches_Inv. eapply reaches_steps; [|exact Hs].
  by apply reaches_enter.
Qed.

(** The parts of a header before the colon are read up to the label at
    which the colon is awaited. *)
Lemma prefix_read (x : machine) (h : header) (l : list byte) :
  let dl := typeConfig x in
  prefix_ok dl h = true →
  ∃ c1 n c, enter (initial x (before_colon h ++ l)) = Some (c1, Goto n) ∧
            steps n c1 (lbl dl (colon_label h)) c ∧ at_colon x h l c.
Proof.
  intros dl Hok. pose proof Hok as Hty. unfold prefix_ok in Hty.
  apply andb_true_iff in Hty as [Hty Hs].
  unfold before_colon, at_colon, colon_label, record_before_colon.
  destruct h as [ty [s|] [|] n d]; cbn [htype hscope hbang default] in *;
    rewrite <- ?app_assoc, ?app_nil_l.
  - destruct (type_recognised x ty (bytes "(" ++ s ++ bytes ")" ++ bytes "!" ++ l) Hty)
      as (c1 & n0 & c & He & H0 & I0).
    destruct (type_left dl x ty _ "("%byte c I0) as (c2 & H1 & I1); [vm_compute; in_list|].
    change (code "(" =? 40) with true in H1.
    change (code "(" =? 33) with false in I1. cbv iota in H1, I1.
    destruct (scope_read dl x _ s _ c2 (forallb_Forall _ _ Hs) I1) as (c3 & H2 & I2).
    change (bytes "!" ++ l) with ("!"%byte :: l) in I2.
    destruct (scope_left dl x _ _ "!"%byte c3 I2) as (c4 & H3 & I3); [vm_compute; in_list|].
    change (code "!" =? 33) with true in H3, I3. cbv iota in H3, I3.
    exists c1, n0, c4. split; [exact He|]. split; [|exact I3].
    eapply steps_trans; [exact H0|]. eapply steps_goto; [exact H1|].
    eapply steps_trans; [exact H2|]. eapply steps_goto; [exact H3|]. apply steps_refl.
  - destruct (type_recognised x ty (bytes "(" ++ s ++ bytes ")" ++ l) Hty)
      as (c1 & n0 & c & He & H0 & I0).
    destruct (type_left dl x ty _ "("%byte c I0) as (c2 & H1 & I1); [vm_compute; in_list|].
    change (code "(" =? 40) with true in H1.
    change (code "(" =? 33) with false in I1. cbv iota in H1, I1.
    destruct (scope_read dl x _ s _ c2 (forallb_Forall _ _ Hs) I1) as (c3 & H2 & I2).
    exists c1, n0, c3. split; [exact He|]. split; [|exact I2].
    eapply steps_trans; [exact H0|]. eapply steps_goto; [exact H1|]. exact H2.
  - destruct (type_recognised x ty (bytes "!" ++ l) Hty) as (c1 & n0 & c & He & H0 & I0).
    change (bytes "!" ++ l) with ("!"%byte :: l) in I0.
    destruct (type_left dl x ty _ "!"%byte c I0) as (c2 & H1 & I1); [vm_compute; in_list|].
    change (code "!" =? 40) with false in H1. change (code "!" =? 33) with true in H1, I1.
    cbv iota in H1, I1.
    exists c1, n0, c2. split; [exact He|]. split; [|exact I1].
    eapply steps_trans; [exact H0|]. eapply steps_goto; [exact H1|]. apply steps_refl.
  - destruct (type_recognised x ty l Hty) as (c1 & n0 & c & He & H0 & I0).
    by exists c1, n0, c.
Qed.

Ltac colon_cases h :=
  destruct h as [ty' [s'|] [|] n' d']; unfold colon_label, colon_wanted;
  cbn [hscope hbang orb andb].

(** Where the colon is awaited, a byte the machine does not take there
    stops it with [ErrColon] on that byte. *)
Lemma colon_missing (dl : TypeConfig) (h : header) (c : conf) (b : byte) (l : list byte) :
  ahead c (b :: l) → 0 <= p (m c) → 0 <= pb (m c) <= p (m c) + 1 → err (m c) = None →
  colon_wanted dl h b = true →
  ∃ c', halts (lbl dl (colon_label h)) c c' ∧ cs (m c') = 0 ∧
        descr (output c') = descr (output c) ∧
        bestEffort (m c') = bestEffort (m c) ∧
        err (m c') = Some (diagnostic "expecting colon (':') character, got '" b
                             "' character" (p (m c) + 1)).
Proof.
  intros Ha Hp Hpb Herr Hb. next_byte Ha. pose proof Ha as (_ & _ & _ & Hlen).
  open_conf c. cbn [m data p pe pb err] in *. subst er.
  destruct (slice_Some dt pb0 (q + 1)) as [t Ht]; [lia | lia |].
  revert Hb. colon_cases h; unfold printable; intros Hb;
    destruct dl; labels_out; destruct lg;
    (eexists; split; [eapply halts_out; known; reflexivity|]);
    fields; repeat split; reported.
Qed.

(** What [Parse] returns when the loop is left below the final states
    with an error recorded. *)
Lemma epilogue_error (c : conf) (d : string) :
  cs (m c) < firstFinal → err (m c) = Some d →
  returns (epilogue c)
  = Some (if bestEffort (m c) && minimal (output c) then Some (output c) else None,
          Some d).
Proof.
  intros Hcs He. unfold epilogue, export.
  destruct (Z.ltb_spec (cs (m c)) firstFinal); [|lia].
  rewrite He. by destruct (bestEffort (m c) && minimal (output c)).
Qed.

Lemma at_colon_facts (x : machine) (h : header) (l : list byte) (c : conf) :
  at_colon x h l c →
  ahead c l ∧ descr (output c) = "" ∧ bestEffort (m c) = bestEffort x.
Proof.
  unfold at_colon, at_type_end, in_header, record_before_colon.
  destruct (hscope h), (hbang h).
  1-3: intros (Ha & _ & _ & Hbe & _ & _ & Ho); by rewrite Ho.
  intros (Ha & _ & _ & _ & _ & Hbe & _ & _ & t0 & Ho). by rewrite Ho.
Qed.

Lemma ahead_position (x : machine) (input pre l : list byte) (n : Z) (c : conf) :
  Inv (logger x) input n c → input = pre ++ l → ahead c l →
  p (m c) + 1 = Z.of_nat (length pre) ∧ 0 <= p (m c) ∧
  0 <= pb (m c) <= p (m c) + 1 ∧ err (m c) = None ∧ data (m c) = input.
Proof.
  intros (_ & Hd & Hpe & _ & Hp & Herr & _ & Hpb & _) -> (_ & Hl & _).
  rewrite length_app in Hpe. repeat split; try done; lia.
Qed.

(** X3: in each dialect, where the colon is awaited (after the type, after
    the scope, after the exclamation mark), any byte the machine does not
    take there fails with [ErrColon] naming that byte and its zero-based
    offset. *)
Theorem colon_expected (x : machine) (h : header) (b : byte) (rest : list byte) :
  prefix_ok (typeConfig x) h = true → colon_wanted (typeConfig x) h b = true →
  returns (Parse x (before_colon h ++ b :: rest))
  = Some (None, Some (diagnostic "expecting colon (':') character, got '" b
                        "' character" (Z.of_nat (length (before_colon h))))).
Proof.
  intros Hok Hb.
  destruct (prefix_read x h (b :: rest) Hok) as (c1 & n & c & He & Hs & Hc).
  destruct (at_colon_facts _ _ _ _ Hc) as (Ha & Hd & _).
  destruct (ahead_position x _ (before_colon h) _ _ c (entered_Inv _ _ _ _ _ _ He Hs)
              eq_refl Ha) as (Hpos & Hp & Hpb & Herr & _).
  destruct (colon_missing _ h c b rest Ha Hp Hpb Herr Hb)
    as (c' & Hh & Hcs & Hd' & _ & Herr').
  rewrite (Parse_halts _ _ _ _ _ He (steps_halts _ _ _ _ _ Hs Hh)).
  apply epilogue_failed; [unfold firstFinal; lia | congruence | by rewrite Herr', Hpos].
Qed.

Lemma colon_expected_witness :
  returns (Parse (WithTypes TypesConventional NewMachine) (bytes "docs(api) update"))
  = Some (None, Some "expecting colon (':') character, got ' ' character: col=09").
Proof.
  exact (colon_expected (WithTypes TypesConventional NewMachine)
           (mkHeader (bytes "docs") (Some (bytes "api")) false 0 []) " "%byte
           (bytes "update") eq_refl eq_refl).
Defined.

(** The end of the input where a colon or a space is awaited stops the
    machine with [ErrEarly] on the last byte; the action of the end of the
    input leaves that error alone. *)
Lemma early_exit (dl : TypeConfig) (k : Z) (c : conf) (b0 : byte) :
  k ∈ [5; 6; 7; 12] → ahead c [] → 0 <= p (m c) →
  at_index (data (m c)) (p (m c)) = Some b0 → err (m c) = None →
  ∃ c', halts (lbl dl k) c c' ∧ cs (m c') < firstFinal ∧
        descr (output c') = descr (output c) ∧
        err (m c') = Some (diagnostic "early exit after '" b0 "' character" (p (m c))).
Proof.
  intros Hk Ha Hp Hb0 Herr. destruct (ahead_end _ Ha) as [Hpe Heof].
  open_conf c. cbn [m data p pe eof err] in *. subst er ef.
  apply list_elem_of_In in Hk. cbn [In] in Hk.
  destruct Hk as [<- | [<- | [<- | [<- | []]]]];
    destruct dl; labels_out; destruct lg;
    (eexists; split; [eapply halts_out; known; reflexivity|]);
    fields; repeat split; first [unfold firstFinal; lia | reported].
Qed.

Lemma at_index_last (l : list byte) (b : byte) :
  last l = Some b → at_index l (Z.of_nat (length l) - 1) = Some b.
Proof.
  intros H. rewrite last_lookup in H. unfold at_index.
  destruct l as [|b' l]; [done|]. cbn [length] in *.
  destruct (Z.leb_spec 0 (Z.of_nat (S (length l)) - 1)); [|lia].
  by replace (Z.to_nat (Z.of_nat (S (length l)) - 1)) with (pred (S (length l))) by lia.
Qed.

(** X4: in each dialect, an input that ends where the colon is awaited, or
    right after the colon, fails with [ErrEarly] naming its last byte and
    the zero-based offset of that byte. *)
Theorem input_ends_early (x : machine) (h : header) (input : list byte) (b : byte) :
  prefix_ok (typeConfig x) h = true →
  input = before_colon h ∨ input = before_colon h ++ bytes ":" →
  last input = Some b →
  returns (Parse x input)
  = Some (None, Some (diagnostic "early exit after '" b "' character"
                        (Z.of_nat (length input) - 1))).
Proof.
  intros Hok [-> | ->] Hb.
  - destruct (prefix_read x h [] Hok) as (c1 & n & c & He & Hs & Hc).
    rewrite app_nil_r in He.
    destruct (at_colon_facts _ _ _ _ Hc) as (Ha & Hd & _).
    destruct (ahead_position x _ (before_colon h) [] _ c (entered_Inv _ _ _ _ _ _ He Hs)
                ltac:(by rewrite app_nil_r) Ha) as (Hpos & Hp & Hpb & Herr & Hdata).
    destruct (early_exit (typeConfig x) (colon_label h) c b) as (c' & Hh & Hcs & Hd' & Herr');
      [unfold colon_label; destruct (hbang h), (hscope h); in_list | done | done | | done |].
    { rewrite Hdata. replace (p (m c)) with (Z.of_nat (length (before_colon h)) - 1)
        by lia. by apply at_index_last. }
    rewrite (Parse_halts _ _ _ _ _ He (steps_halts _ _ _ _ _ Hs Hh)).
    apply epilogue_failed; [done | congruence |]. rewrite Herr'. do 3 f_equal. lia.
  - destruct (type_recognised x (htype h)
                (drop (length (htype h)) (before_colon h) ++ bytes ":" ++ []))
      as (c1 & n & c0 & He & H0 & I0).
    { unfold prefix_ok in Hok. by apply andb_true_iff in Hok as [Hok _]. }
    destruct (colon_reached x h [] c0 Hok I0) as (c & Hs & Hc).
    assert (htype h ++ drop (length (htype h)) (before_colon h) ++ bytes ":" ++ []
            = before_colon h ++ bytes ":") as Hin.
    { unfold before_colon. rewrite drop_app_length. by rewrite <- !app_assoc, app_nil_r. }
    rewrite Hin in He.
    pose proof (steps_trans _ _ _ _ _ _ H0 Hs) as Hs'.
    destruct Hc as (Ha & _ & _ & _ & _ & _ & Ho).
    destruct (ahead_position x _ (before_colon h ++ bytes ":") [] _ c
                (entered_Inv _ _ _ _ _ _ He Hs') ltac:(by rewrite app_nil_r) Ha)
      as (Hpos & Hp & Hpb & Herr & Hdata).
    destruct (early_exit (typeConfig x) 7 c b) as (c' & Hh & Hcs & Hd' & Herr');
      [in_list | done | done | | done |].
    { rewrite Hdata. replace (p (m c)) with (Z.of_nat (length (before_colon h ++ bytes ":")) - 1)
        by lia. by apply at_index_last. }
    rewrite (Parse_halts _ _ _ _ _ He (steps_halts _ _ _ _ _ Hs' Hh)).
    apply epilogue_failed; [done | by rewrite Hd', Ho |]. rewrite Herr'. do 3 f_equal. lia.
Qed.

Lemma input_ends_early_witness :
  returns (Parse (WithTypes TypesFreeForm NewMachine) (bytes "wip(ui)!"))
  = Some (None, Some "early exit after '!' character: col=07") ∧
  returns (Parse NewMachine (bytes "feat:"))
  = Some (None, Some "early exit after ':' character: col=04").
Proof.
  split.
  - exact (input_ends_early (WithTypes TypesFreeForm NewMachine)
             (mkHeader (bytes "wip") (Some (bytes "ui")) true 0 []) (bytes "wip(ui)!")
             "!"%byte eq_refl (or_introl eq_refl) eq_refl).
  - exact (input_ends_early NewMachine (mkHeader (bytes "feat") None false 0 [])
             (bytes "feat:") ":"%byte eq_refl (or_intror eq_refl) eq_refl).
Defined.

(** The parts of a header up to its colon are read up to the label after
    the colon. *)
Lemma colon_read (x : machine) (h : header) (l : list byte) :
  prefix_ok (typeConfig x) h = true →
  ∃ c1 n c, enter (initial x (before_colon h ++ bytes ":" ++ l)) = Some (c1, Goto n) ∧
            steps n c1 (lbl (typeConfig x) 7) c ∧
            in_header x (record_before_colon h) l c.
Proof.
  intros Hok.
  destruct (type_recognised x (htype h)
              (drop (length (htype h)) (before_colon h) ++ bytes ":" ++ l))
    as (c1 & n & c0 & He & H0 & I0).
  { unfold prefix_ok in Hok. by apply andb_true_iff in Hok as [Hok _]. }
  destruct (colon_reached x h l c0 Hok I0) as (c & Hs & Hc).
  exists c1, n, c. split; [|split; [by eapply steps_trans | done]].
  rewrite <- He. do 2 f_equal. unfold before_colon.
  rewrite drop_app_length. by rewrite <- !app_assoc.
Qed.

(** After the colon, a byte other than a space stops the machine with
    [ErrDescriptionInit] on that byte. *)
Lemma space_missing (dl : TypeConfig) (c : conf) (b : byte) (l : list byte) :
  ahead c (b :: l) → 0 <= p (m c) → err (m c) = None → code b ≠ 32 →
  ∃ c', halts (lbl dl 7) c c' ∧ cs (m c') = 0 ∧
        descr (output c') = descr (output c) ∧
        err (m c') = Some (diagnostic
                             "expecting at least one white-space (' ') character, got '" b
                             "' character" (p (m c) + 1)).
Proof.
  intros Ha Hp Herr Hb. next_byte Ha.
  open_conf c. cbn [m data p pe err] in *. subst er.
  destruct dl; labels_out; destruct lg;
    (eexists; split; [eapply halts_out; known; reflexivity|]);
    fields; repeat split; reported.
Qed.

(** X5: in each dialect, a byte other than a space right after the colon
    fails with [ErrDescriptionInit] naming that byte and its zero-based
    offset. *)
Theorem space_expected (x : machine) (h : header) (b : byte) (rest : list byte) :
  prefix_ok (typeConfig x) h = true → code b ≠ 32 →
  returns (Parse x (before_colon h ++ bytes ":" ++ b :: rest))
  = Some (None,
          Some (diagnostic "expecting at least one white-space (' ') character, got '" b
                  "' character" (Z.of_nat (length (before_colon h)) + 1))).
Proof.
  intros Hok Hb.
  destruct (colon_read x h (b :: rest) Hok) as (c1 & n & c & He & Hs & Hc).
  pose proof Hc as (Ha & _ & _ & _ & _ & _ & Ho).
  destruct (ahead_position x _ (before_colon h ++ bytes ":") _ _ c
              (entered_Inv _ _ _ _ _ _ He Hs) ltac:(by rewrite <- app_assoc) Ha)
    as (Hpos & Hp & Hpb & Herr & _).
  destruct (space_missing (typeConfig x) c b rest Ha Hp Herr Hb)
    as (c' & Hh & Hcs & Hd' & Herr').
  rewrite (Parse_halts _ _ _ _ _ He (steps_halts _ _ _ _ _ Hs Hh)).
  apply epilogue_failed; [unfold firstFinal; lia | by rewrite Hd', Ho |].
  rewrite Herr', Hpos, length_app. change (length (bytes ":")) with 1%nat.
  do 3 f_equal. lia.
Qed.

Lemma space_expected_witness :
  returns (Parse NewMachine (bytes "fix(parser):typo"))
  = Some (None,
          Some "expecting at least one white-space (' ') character, got 't' character: col=12").
Proof.
  exact (space_expected NewMachine (mkHeader (bytes "fix") (Some (bytes "parser")) false 0 [])
           "t"%byte (bytes "ypo") eq_refl ltac:(by vm_compute)).
Defined.

(** The header up to the space after the colon and the spaces that
    follow is read up to the label at which the description is awaited. *)
Lemma spaces_read (x : machine) (h : header) (l : list byte) :
  prefix_ok (typeConfig x) h = true →
  ∃ c1 n c, enter (initial x (before_colon h ++ bytes ": "
                              ++ replicate (hspaces h) " "%byte ++ l))
            = Some (c1, Goto n) ∧
            steps n c1 (lbl (typeConfig x) 8) c ∧
            in_header x (record_before_colon h) l c.
Proof.
  intros Hok.
  destruct (colon_read x h (bytes " " ++ replicate (hspaces h) " "%byte ++ l) Hok)
    as (c1 & n & c0 & He & H0 & I0).
  destruct (colon_left (typeConfig x) x _ _ c0 I0) as (c2 & H1 & I1).
  destruct (spaces_skipped (typeConfig x) x _ _ _ c2 I1) as (c & H2 & I2).
  exists c1, n, c. split; [exact He|]. split; [|exact I2].
  eapply steps_trans; [exact H0|]. eapply steps_goto; [exact H1 | exact H2].
Qed.

(** Where the description is awaited, the end of the input stops the
    machine with [ErrDescription] on the last byte, and a line feed with
    [ErrNewline]. *)
Lemma descr_missing (dl : TypeConfig) (c : conf) (b0 : byte) :
  ahead c [] → 0 <= p (m c) → at_index (data (m c)) (p (m c)) = Some b0 →
  err (m c) = None →
  ∃ c', halts (lbl dl 8) c c' ∧ cs (m c') < firstFinal ∧
        descr (output c') = descr (output c) ∧
        err (m c') = Some (diagnostic
                             "expecting a description text (without newlines) after '" b0
                             "' character" (p (m c) + 1)).
Proof.
  intros Ha Hp Hb0 Herr. destruct (ahead_end _ Ha) as [Hpe Heof].
  open_conf c. cbn [m data p pe eof err] in *. subst er ef.
  replace q with (q + 1 - 1) in Hb0 by lia.
  destruct dl; labels_out; destruct lg;
    (eexists; split; [eapply halts_out; known; reflexivity|]);
    fields; repeat split; first [unfold firstFinal; lia | reported].
Qed.

Lemma newline_for_descr (dl : TypeConfig) (c : conf) (l : list byte) :
  ahead c (bytes LF ++ l) → 0 <= p (m c) → err (m c) = None →
  ∃ c', halts (lbl dl 8) c c' ∧ cs (m c') = 0 ∧
        descr (output c') = descr (output c) ∧
        err (m c') = Some ("illegal newline" +:+ ": col=" +:+ Fmt.pad2 (p (m c) + 2)).
Proof.
  intros Ha Hp Herr. change (bytes LF ++ l) with ("010"%byte :: l) in Ha. next_byte Ha.
  open_conf c. cbn [m data p pe eof err] in *. subst er.
  destruct dl; labels_out; destruct lg;
    (eexists; split; [eapply halts_out; known; reflexivity|]);
    fields; repeat split;
    rewrite ?Sprintf_plain by (unfold plain_templates; in_list);
    by replace (q + 1 + 1) with (q + 2) by lia.
Qed.

(** X6: in each dialect, an input that ends after the colon and its
    spaces fails with [ErrDescription] naming the last space and the length
    of the input, and a line feed in place of the description fails with
    [ErrNewline] and the offset after that line feed. *)
Theorem description_expected (x : machine) (h : header) :
  prefix_ok (typeConfig x) h = true →
  let pre := before_colon h ++ bytes ": " ++ replicate (hspaces h) " "%byte in
  returns (Parse x pre)
  = Some (None,
          Some (diagnostic "expecting a description text (without newlines) after '"
                  " "%byte "' character" (Z.of_nat (length pre)))) ∧
  ∀ rest, returns (Parse x (pre ++ bytes LF ++ rest))
          = Some (None, Some ("illegal newline" +:+ ": col="
                              +:+ Fmt.pad2 (Z.of_nat (length pre) + 1))).
Proof.
  intros Hok pre.
  assert (pre = (before_colon h ++ bytes ":" ++ replicate (hspaces h) " "%byte)
                ++ [" "%byte]) as Hpre.
  { subst pre. change (bytes ": ") with (bytes ":" ++ [" "%byte]).
    rewrite <- !app_assoc. do 2 f_equal. cbn [app]. apply replicate_cons_app. }
  assert (last pre = Some " "%byte) as Hlast by (rewrite Hpre; apply last_snoc).
  split; [|intros rest].
  - destruct (spaces_read x h [] Hok) as (c1 & n & c & He & Hs & Hc).
    rewrite app_nil_r in He. fold pre in He.
    pose proof Hc as (Ha & _ & _ & _ & _ & _ & Ho).
    destruct (ahead_position x _ pre [] _ c (entered_Inv _ _ _ _ _ _ He Hs)
                ltac:(by rewrite app_nil_r) Ha) as (Hpos & Hp & Hpb & Herr & Hdata).
    destruct (descr_missing (typeConfig x) c " "%byte) as (c' & Hh & Hcs & Hd' & Herr');
      [done | done | | done |].
    { rewrite Hdata. replace (p (m c)) with (Z.of_nat (length pre) - 1) by lia.
      by apply at_index_last. }
    rewrite (Parse_halts _ _ _ _ _ He (steps_halts _ _ _ _ _ Hs Hh)).
    apply epilogue_failed; [done | by rewrite Hd', Ho | by rewrite Herr', Hpos].
  - destruct (spaces_read x h (bytes LF ++ rest) Hok) as (c1 & n & c & He & Hs & Hc).
    assert (before_colon h ++ bytes ": " ++ replicate (hspaces h) " "%byte
            ++ bytes LF ++ rest = pre ++ bytes LF ++ rest) as Hin
      by (subst pre; by rewrite <- !app_assoc).
    rewrite Hin in He.
    pose proof Hc as (Ha & _ & _ & _ & _ & _ & Ho).
    destruct (ahead_position x _ pre _ _ c (entered_Inv _ _ _ _ _ _ He Hs) eq_refl Ha)
      as (Hpos & Hp & Hpb & Herr & Hdata).
    destruct (newline_for_descr (typeConfig x) c rest Ha Hp Herr)
      as (c' & Hh & Hcs & Hd' & Herr').
    rewrite (Parse_halts _ _ _ _ _ He (steps_halts _ _ _ _ _ Hs Hh)).
    apply epilogue_failed; [unfold firstFinal; lia | by rewrite Hd', Ho |].
    rewrite Herr'. by replace (p (m c) + 2) with (Z.of_nat (length pre) + 1) by lia.
Qed.

Lemma description_expected_witness :
  returns (Parse NewMachine (bytes "feat:  "))
  = Some (None,
          Some "expecting a description text (without newlines) after ' ' character: col=07") ∧
  returns (Parse NewMachine (bytes ("feat:  " +:+ LF +:+ "body")))
  = Some (None, Some "illegal newline: col=08").
Proof.
  destruct (description_expected NewMachine (mkHeader (bytes "feat") None false 1 [])
              eq_refl) as [H1 H2].
  split; [exact H1 | exact (H2 (bytes "body"))].
Defined.

Lemma message_round_trip_witness :
  let ts := [mkTrailer (bytes "Reviewed-by") (bytes ": ") (bytes "Ann");
             mkTrailer (bytes "Closes") (bytes " #") (bytes "12")] in
  returns (Parse (WithTypes TypesFreeForm NewMachine)
             (bytes ("wip(ui)!: tidy" +:+ LF +:+ LF +:+ "Reviewed-by: Ann" +:+ LF +:+
                     "Closes #12" +:+ LF)))
  = Some (Some (mkCommit "wip" "ui" "tidy" true "" (footers_of ts)), None).
Proof.
  intros ts.
  apply (proj1 (message_round_trip (WithTypes TypesFreeForm NewMachine)
                  (mkHeader (bytes "wip") (Some (bytes "ui")) true 0 (bytes "tidy")) ts
                  eq_refl
                  ltac:(repeat (apply Forall_cons; split; [trailer_checked|]);
                        by apply Forall_nil))).
Defined.

(** ** The line after the description *)

(** A line feed ends the description and leads to the label at which the
    blank line is awaited. *)
Lemma descr_then_newline (dl : TypeConfig) (x : machine) (o : conventionalCommit)
    (d l : list byte) (c : conf) :
  in_descr x o d (bytes LF ++ l) c →
  ∃ c', steps (lbl dl 85) c (lbl dl 9) c' ∧ in_header x (with_descr (gostring d) o) l c'.
Proof.
  intros ((Ha & Hp & Herr & Hbe & Hlg & Hcnt & Hout) & Hpb & Hsl).
  change (bytes LF ++ l) with ("010"%byte :: l) in Ha.
  next_byte Ha.
  open_conf c.
  cbn [m data p pe eof pb err bestEffort logger countNewlines output] in *.
  subst o.
  destruct dl; labels_out;
    (eexists; split; [eapply steps_goto; [known; reflexivity|]; apply steps_refl|]);
    unfold with_descr; header_facts Hnext.
Qed.

(** There, the end of the input and any byte but a line feed stop the
    machine with [ErrMissingBlankLineAtBeginning]. *)
Lemma blank_line_missing (dl : TypeConfig) (x : machine) (o : conventionalCommit)
    (l : list byte) (c : conf) :
  in_header x o l c → no_line_feed l = true →
  ∃ c', halts (lbl dl 9) c c' ∧ cs (m c') < firstFinal ∧ output c' = o ∧
        bestEffort (m c') = bestEffort x ∧
        err (m c') = Some ("missing a blank line" +:+ ": col=" +:+ Fmt.pad2 (p (m c) + 1)).
Proof.
  intros (Ha & Hp & Herr & Hbe & Hlg & Hcnt & Hout) Hl.
  destruct l as [|b l].
  - destruct (ahead_end _ Ha) as [Hpe Heof]. open_conf c.
    cbn [m data p pe eof pb err bestEffort logger countNewlines output] in *.
    subst er ef o.
    destruct dl; labels_out; destruct lg;
      (eexists; split; [eapply halts_out; known; reflexivity|]);
      fields; repeat split;
      first [unfold firstFinal; lia | assumption
            | by rewrite ?Sprintf_plain by (unfold plain_templates; in_list)].
  - next_byte Ha. cbn [no_line_feed] in Hl. apply negb_true_iff in Hl. open_conf c.
    cbn [m data p pe eof pb err bestEffort logger countNewlines output] in *.
    subst er o.
    destruct dl; labels_out; destruct lg;
      (eexists; split; [eapply halts_out; known; reflexivity|]);
      fields; repeat split;
      first [unfold firstFinal; lia | assumption
            | by rewrite ?Sprintf_plain by (unfold plain_templates; in_list)].
Qed.

Lemma gostring_not_empty (l : list byte) : l ≠ [] → String.eqb (gostring l) "" = false.
Proof. by destruct l. Qed.

Lemma type_ok_not_empty (tc : TypeConfig) (ty : list byte) : type_ok tc ty = true → ty ≠ [].
Proof. intros H ->. by destruct tc. Qed.

(** The record of a well-formed header has the type and the description
    that [minimal()] asks for. *)
Lemma record_of_minimal (tc : TypeConfig) (h : header) (f : gmap string (list string)) :
  header_ok tc h = true → minimal (record_of h f) = true.
Proof.
  intros Hok. unfold header_ok, prefix_ok in Hok.
  apply andb_true_iff in Hok as [Hpre Hd]. apply andb_true_iff in Hpre as [Hty _].
  unfold minimal, record_of. cbn [_type descr].
  rewrite (gostring_not_empty _ (type_ok_not_empty _ _ Hty)).
  rewrite gostring_not_empty; [done|]. by destruct (hdescr h).
Qed.

(** X7: in each dialect, after a well-formed header and one line feed, the
    end of the input and any byte but a second line feed fail with
    [ErrMissingBlankLineAtBeginning] and the offset after the line feed;
    in best-effort mode the record of the header comes with the error. *)
Theorem blank_line_expected (x : machine) (h : header) (rest : list byte) :
  header_ok (typeConfig x) h = true → no_line_feed rest = true →
  returns (Parse x (render_header h ++ bytes LF ++ rest))
  = Some (if bestEffort x then Some (record_of h ∅) else None,
          Some ("missing a blank line" +:+ ": col="
                +:+ Fmt.pad2 (Z.of_nat (length (render_header h)) + 1))).
Proof.
  intros Hok Hrest.
  destruct (header_read x h (bytes LF ++ rest) Hok) as (c1 & n & c & He & H0 & I0).
  destruct (descr_then_newline (typeConfig x) x _ _ _ c I0) as (c2 & H2 & I2).
  destruct (blank_line_missing (typeConfig x) x _ _ c2 I2 Hrest)
    as (c' & Hh & Hcs & Ho & Hbe & Herr).
  pose proof (steps_trans _ _ _ _ _ _ H0 H2) as Hs.
  destruct I2 as (Ha & _).
  destruct (ahead_position x _ (render_header h ++ bytes LF) rest _ c2
              (entered_Inv _ _ _ _ _ _ He Hs) ltac:(by rewrite <- app_assoc) Ha)
    as (Hpos & _).
  rewrite (Parse_halts _ _ _ _ _ He (steps_halts _ _ _ _ _ Hs Hh)).
  rewrite (epilogue_error _ _ Hcs Herr), Hbe, Ho.
  change (with_descr _ _) with (record_of h ∅).
  rewrite (record_of_minimal _ _ _ Hok), andb_true_r.
  rewrite length_app in Hpos. change (length (bytes LF)) with 1%nat in Hpos.
  by replace (p (m c2) + 1) with (Z.of_nat (length (render_header h)) + 1) by lia.
Qed.

Lemma blank_line_expected_witness :
  returns (Parse (WithBestEffort NewMachine) (bytes ("fix(api): typo" +:+ LF +:+ "more")))
  = Some (Some (mkCommit "fix" "api" "typo" false "" ∅), Some "missing a blank line: col=15") ∧
  returns (Parse NewMachine (bytes ("fix(api): typo" +:+ LF)))
  = Some (None, Some "missing a blank line: col=15").
Proof.
  split.
  - exact (blank_line_expected (WithBestEffort NewMachine)
             (mkHeader (bytes "fix") (Some (bytes "api")) false 0 (bytes "typo"))
             (bytes "more") eq_refl eq_refl).
  - exact (blank_line_expected NewMachine
             (mkHeader (bytes "fix") (Some (bytes "api")) false 0 (bytes "typo"))
             [] eq_refl eq_refl).
Defined.

(** ** The options and the record, label by label *)

Lemma slice_gostring (bs t : list byte) (lo hi : Z) :
  slice bs lo hi = Some t → lo < hi → gostring t ≠ "".
Proof.
  unfold slice. destruct ((0 <=? lo) && (lo <=? hi) && (hi <=? Z.of_nat (length bs))) eqn:H;
    [|done].
  intros [= <-] Hlt. assert (Z.to_nat lo < length bs)%nat by lia.
  destruct (drop (Z.to_nat lo) bs) as [|b l] eqn:Hd.
  - apply (f_equal length) in Hd. rewrite length_drop in Hd. cbn [length] in Hd. lia.
  - destruct (Z.to_nat (hi - lo)) eqn:Hn; [lia|]. done.
Qed.

Lemma one_line_gostring (t : list byte) :
  Forall (λ b, descr_byte b = true) t → one_line (gostring t).
Proof.
  intros H. unfold one_line, gostring. by rewrite list_byte_of_string_of_list_byte.
Qed.

Lemma one_line_empty : one_line "".
Proof. constructor. Qed.

Lemma filed_key_empty : filed_key "".
Proof. split; [constructor | done]. Qed.

Lemma filed_key_breaking : filed_key "breaking-change".
Proof. split; [unfold lower_case; cbn; repeat constructor | done]. Qed.

Lemma filed_key_lower (t : list byte) :
  String.eqb (gostring (ToLower t)) "breaking change" = false →
  filed_key (gostring (ToLower t)).
Proof.
  intros H. split; [|by apply String.eqb_neq].
  unfold lower_case, gostring. rewrite list_byte_of_string_of_list_byte.
  unfold ToLower. apply Forall_forall. intros b Hb.
  apply list_elem_of_In, in_map_iff in Hb as (b' & <- & _). by destruct b'.
Qed.

Lemma footers_ok_append (k v : string) (f : gmap string (list string)) :
  filed_key k → footers_ok f → footers_ok (append_footer k v f).
Proof.
  intros Hk Hf. unfold append_footer. apply map_Forall_insert_2; [|done].
  split; [done|]. by destruct (default [] (f !! k)).
Qed.

Ltac descr_goal :=
  first
    [ apply one_line_gostring; first [assumption | constructor]
    | eapply slice_gostring; [eassumption | lia]
    | eexists; split;
      [ apply slice_one_at; eassumption
      | repeat constructor; unfold descr_byte; lia ]
    | eexists; split;
      [ eapply slice_snoc_at; eassumption
      | apply Forall_app; split;
        [ assumption | repeat constructor; unfold descr_byte; lia ] ] ].

Ltac leaf_rec :=
  first
    [ exact I | reflexivity | assumption | lia | descr_goal
    | apply filed_key_breaking | apply filed_key_lower; assumption
    | apply footers_ok_append; assumption
    | (let Hf := fresh in
       intros Hf; first [exfalso; unfold firstFinal in Hf; lia
                        | split; first [assumption | descr_goal]])
    | idtac ].

Ltac fin_rec :=
  lazymatch goal with
  | |- Rec _ _ _ =>
      unfold Rec; fields; repeat eval_lit; fields;
      (split; [|split; [|split; [|split; [|split; [|split]]]]]); leaf_rec
  | |- Left _ _ =>
      unfold Left; fields; (split; [|split; [|split; [|split]]]); leaf_rec
  | |- True => exact I
  | |- False => idtac
  end.

Ltac start_rec :=
  intros [[dt s q e ef b er be tc lg key cnt last] [ty sc de ex bd ft]];
  unfold Inv, Local, Rec, keeps; fields; repeat eval_lit; fields;
  intros (_ & -> & -> & -> & Hp & -> & -> & Hpb & Hc & Hlast & Hsc & Hloc)
         (Hbe & Htc & Hde & Hkey & Hft & Hty & Hds); prep.

Ltac go_rec := start_rec; sym; fin_rec.

Lemma st_keeps (x0 : machine) (L : option (list string)) (input : list byte)
    (n : Z) (c : conf) :
  Inv L input n c → Rec x0 n c → keeps x0 (st n c).
Proof.
  intros H. assert (Hn : In n labels) by (apply among_In, H).
  revert c H. vm_compute in Hn.
  repeat (destruct Hn as [<- | Hn]); [go_rec .. | destruct Hn].
Qed.

Lemma footers_ok_empty : footers_ok ∅.
Proof. apply map_Forall_empty. Qed.

Lemma enter_keeps (x : machine) (input : list byte) :
  keeps x (enter (initial x input)).
Proof.
  pose proof one_line_empty as Hde. pose proof filed_key_empty as Hkey.
  pose proof footers_ok_empty as Hft.
  unfold initial, reset, emptyCommit, enFreeFormTypesMain, enConventionalTypesMain, start.
  destruct x as [dt0 s0 q0 e0 ef0 b0 er0 be0 tc0 lg0 key0 cnt0 last0]; fields.
  unfold keeps. destruct tc0; sym; fin_rec.
Qed.

Lemma run_keeps (x0 : machine) (L : option (list string)) (input : list byte) (k : nat) :
  ∀ n c c', Inv L input n c → Rec x0 n c → run k n c = Done c' → Left x0 c'.
Proof.
  induction k as [|k IH]; intros n c c' HI HR; [done|].
  pose proof (st_preserves L input n c HI) as Hs. unfold step_ok in Hs.
  pose proof (st_keeps x0 L input n c HI HR) as Hk. unfold keeps in Hk.
  cbn [run]. destruct (st n c) as [[c1 [n1|]]|]; [| by intros [= <-] | done].
  destruct Hs as [HI' _]. by apply IH.
Qed.

(** The configuration in which the loop is left, for every call. *)
Lemma execute_Left (x : machine) (input : list byte) (c : conf) :
  execute (initial x input) = Done c → Left x c.
Proof.
  intros He.
  pose proof (enter_ok x input) as HI. pose proof (enter_keeps x input) as HK.
  unfold execute in He. unfold keeps in HK.
  destruct (enter (initial x input)) as [[c1 [n|]]|]; [| by injection He as <- | done].
  destruct HI as [HI _]. by eapply run_keeps.
Qed.

Lemma halts_Left (x : machine) (input : list byte) (n : Z) (c1 c : conf) :
  enter (initial x input) = Some (c1, Goto n) → halts n c1 c → Left x c.
Proof. intros He Hh. eapply execute_Left, execute_halts; eauto. Qed.

Lemma Parse_Left (x : machine) (input : list byte) :
  ∃ c, Parse x input = epilogue c ∧ Left x c.
Proof.
  destruct (Parse_epilogue x input) as (c & He & _ & HP). exists c. split; [done|].
  by eapply execute_Left.
Qed.

(** X8: a call of [Parse] leaves the options of the machine as they were,
    whatever the input and the outcome, so a later call on the same machine
    returns what the machine would have returned before. *)
Theorem Parse_keeps_the_options (x : machine) (input : list byte) :
  ∃ x' msg e,
    Parse x input = Returned x' msg e ∧
    bestEffort x' = bestEffort x ∧ typeConfig x' = typeConfig x ∧
    ∀ next, returns (Parse x' next) = returns (Parse x next).
Proof.
  destruct (Parse_Left x input) as (c & HP & Hbe & Htc & _).
  assert (∃ msg e, epilogue c = Returned (m c) msg e) as (msg & e & He).
  { unfold epilogue. destruct (cs (m c) <? firstFinal); [|eauto].
    destruct (bestEffort (m c) && minimal (output c)); eauto. }
  exists (m c), msg, e. rewrite HP. split; [done|]. split; [done|]. split; [done|].
  intros next. by apply Parse_same.
Qed.

Lemma minimal_true (o : conventionalCommit) :
  minimal o = true → _type o ≠ "" ∧ descr o ≠ "".
Proof.
  unfold minimal. intros H. apply andb_true_iff in H as [H1 H2].
  apply negb_true_iff in H1, H2. split; intros Heq; rewrite Heq in *; done.
Qed.

(** X9: a record that [Parse] returns has a type and a description that
    are not empty, and a description that holds no line feed; it comes with
    an error only from a machine in best-effort mode. *)
Theorem returned_record_is_minimal (x : machine) (input : list byte)
    (r : conventionalCommit) (e : option string) :
  returns (Parse x input) = Some (Some r, e) →
  _type r ≠ "" ∧ descr r ≠ "" ∧ one_line (descr r) ∧
  (bestEffort x = false → e = None).
Proof.
  destruct (Parse_Left x input) as (c & -> & Hbe & _ & Hde & _ & Hfin).
  unfold epilogue, export.
  destruct (Z.ltb_spec (cs (m c)) firstFinal) as [Hcs | Hcs].
  - destruct (bestEffort (m c) && minimal (output c)) eqn:Hm; [|done].
    apply andb_true_iff in Hm as [Hb Hm]. intros [= <- <-].
    destruct (minimal_true _ Hm). repeat split; try done.
    intros Hx. congruence.
  - intros [= <- <-]. destruct (Hfin Hcs). done.
Qed.

Lemma returned_record_is_minimal_witness :
  let r := mkCommit "feat" "ui" "add tabs" true "" ∅ in
  _type r ≠ "" ∧ descr r ≠ "" ∧ one_line (descr r) ∧
  (bestEffort NewMachine = false → (None : option string) = None).
Proof.
  intros r.
  apply (returned_record_is_minimal NewMachine (bytes "feat(ui)!: add tabs") r None).
  vm_compute. reflexivity.
Defined.

(** X17: in the footers of a record that [Parse] returns, every key is in
    lower case and holds one value at least, and no key is the token
    [breaking change] as written, with its space. *)
Theorem returned_footers (x : machine) (input : list byte)
    (r : conventionalCommit) (e : option string) (k : string) (vs : list string) :
  returns (Parse x input) = Some (Some r, e) → footers r !! k = Some vs →
  lower_case k ∧ k ≠ "breaking change" ∧ vs ≠ [].
Proof.
  destruct (Parse_Left x input) as (c & -> & _ & _ & _ & Hft & _).
  intros Hr Hk.
  assert (r = output c) as ->.
  { revert Hr. unfold epilogue, export. destruct (cs (m c) <? firstFinal).
    - destruct (bestEffort (m c) && minimal (output c)); cbn [returns]; intros H;
        [by injection H | discriminate H].
    - cbn [returns]. intros H. by injection H. }
  destruct (Hft k vs Hk) as [[Hl Hb] Hv]. done.
Qed.

Lemma returned_footers_witness :
  lower_case "reviewed-by" ∧ "reviewed-by" ≠ "breaking change" ∧ ["Ann"] ≠ [].
Proof.
  apply (returned_footers NewMachine
           (bytes ("fix: x" +:+ LF +:+ LF +:+ "Reviewed-By: Ann" +:+ LF))
           (mkCommit "fix" "" "x" false "" {["reviewed-by" := ["Ann"]]}) None).
  - vm_compute. reflexivity.
  - reflexivity.
Defined.

(** ** Errors after a footer *)

(** Once a footer is recorded, a line that begins with a byte no token
    begins with stops the machine with [ErrTrailer] on that byte. *)
Lemma line_rejected (c : conf) (b : byte) (l : list byte) :
  ahead c (b :: l) → 0 <= p (m c) → line_start b = false →
  size (footers (output c)) ≠ 0%nat →
  ∃ c', halts 87 c c' ∧ cs (m c') = 0 ∧ output c' = output c ∧
        err (m c') = Some (diagnostic "illegal '" b "' character in trailer" (p (m c) + 1)).
Proof.
  intros Ha Hp Hb Hf. next_byte Ha. unfold line_start, alnum_byte in Hb.
  open_conf c. cbn [m data p pe output footers] in *.
  destruct lg;
    (eexists; split; [eapply halts_out; known; reflexivity|]);
    fields; repeat split; reported.
Qed.

(** And the end of the input within a token, with [ErrTrailerIncomplete]
    on the last byte. *)
Lemma token_unfinished (c : conf) (k : list byte) (b : byte) :
  key_ok k = true → ahead c k → 0 <= p (m c) → last k = Some b →
  size (footers (output c)) ≠ 0%nat →
  ∃ c', halts 87 c c' ∧ cs (m c') < firstFinal ∧ output c' = output c ∧
        err (m c') = Some (diagnostic "incomplete footer trailer after '" b "' character"
                             (p (m c) + 1 + Z.of_nat (length k))).
Proof.
  intros Hk Ha Hp Hb Hf. destruct k as [|b0 k]; [done|].
  unfold key_ok in Hk. cbn [key_from] in Hk.
  destruct (alnum_byte b0) eqn:Hb0; [|by rewrite andb_false_r in Hk].
  assert (at_index (data (m c)) (p (m c) + 1 + Z.of_nat (length k) + 1 - 1) = Some b)
    as Hlast.
  { destruct Ha as (Hi & _). rewrite Z.add_simpl_r, Hi. by rewrite last_lookup in Hb. }
  next_byte Ha.
  set (n0 := if code b0 =? 66 then 18 else 14).
  destruct (key_run k n0 true Hk) as (n' & Hn' & Hrun).
  { subst n0. unfold word_states. destruct (code b0 =? 66); in_list. }
  pose proof (plain_steps k n0 n' (set_pb (p (m c) + 1) (set_p (p (m c) + 1) c)) []
                Hrun ltac:(rewrite app_nil_r; by apply Hnext)) as Hloop.
  pose proof (ahead_app (set_p (p (m c) + 1) c) k []
                ltac:(rewrite app_nil_r; by apply Hnext)
                (set_p (p (m c) + 1 + Z.of_nat (length k)) c)
                eq_refl eq_refl eq_refl eq_refl) as Ha'.
  destruct (ahead_end _ Ha') as [Hpe Heof].
  open_conf c. revert Hloop. unfold set_pb, set_p in *. fields. intros Hloop.
  cbn [m data p pe eof output footers] in Hat, Hlt, Hp, Hpe, Heof, Hlast, Hf.
  unfold alnum_byte in Hb0. subst ef.
  replace (q + 1 + Z.of_nat (length (b0 :: k)))
    with (q + 1 + Z.of_nat (length k) + 1) by (cbn [length]; lia).
  assert (∃ c', halts n' (mkConf (mkMachine dt s0 (q + 1 + Z.of_nat (length k)) e e (q + 1)
                                    er be tc lg key cnt last0)
                            (mkCommit ty0 sc de ex bd ft)) c' ∧
                cs (m c') < firstFinal ∧ output c' = mkCommit ty0 sc de ex bd ft ∧
                err (m c') = Some (diagnostic "incomplete footer trailer after '" b
                                     "' character" (q + 1 + Z.of_nat (length k) + 1)))
    as (c' & Hh & Hcs & Ho & He).
  { clear Hloop Hrun. apply list_elem_of_In in Hn'. vm_compute in Hn'.
    repeat (destruct Hn' as [<- | Hn']); [..| destruct Hn']; destruct lg;
      (eexists; split; [eapply halts_out; known; reflexivity|]);
      fields; repeat split; first [unfold firstFinal; lia | reported]. }
  exists c'. split; [|done].
  eapply steps_halts; [|exact Hh].
  eapply steps_trans with (n2 := n0); [|exact Hloop].
  subst n0. destruct (Z.eqb_spec (code b0) 66);
    (eapply steps_goto; [known; reflexivity|]); apply steps_refl.
Qed.

Lemma footers_of_size (ts : list trailer) : ts ≠ [] → size (footers_of ts) ≠ 0%nat.
Proof.
  destruct ts as [|t ts] using rev_ind; [done|]. intros _.
  rewrite footers_of_snoc. unfold add_footer. apply Nat.eqb_neq, size_append_footer.
Qed.

(** A header, a blank line and trailers are read up to the beginning of
    the next line. *)
Lemma message_read (x : machine) (h : header) (ts : list trailer) (l : list byte) :
  header_ok (typeConfig x) h = true → Forall trailer_ok ts →
  let pre := render_header h ++ bytes LF ++ bytes LF ++ concat (render <$> ts) in
  ∃ c1 n c, enter (initial x (pre ++ l)) = Some (c1, Goto n) ∧ steps n c1 87 c ∧
            ahead c l ∧ p (m c) + 1 = Z.of_nat (length pre) ∧ 0 <= p (m c) ∧
            data (m c) = pre ++ l ∧ output c = record_of h (footers_of ts).
Proof.
  intros Hok Hts pre.
  assert (pre ++ l = render_header h ++ bytes LF ++ bytes LF ++ concat (render <$> ts) ++ l)
    as Hin by (subst pre; by rewrite <- !app_assoc).
  destruct (header_read x h (bytes LF ++ bytes LF ++ concat (render <$> ts) ++ l) Hok)
    as (c1 & n & c & He & H0 & I0).
  destruct (descr_then_blank_line (typeConfig x) x _ _ _ c I0) as (c2 & H2 & I2).
  destruct I2 as (Ha & Hp & _ & _ & _ & _ & Ho).
  destruct (trailers_recognised ts c2 _ Hts Ha Hp) as (c3 & H3 & Ha3 & Hp3 & Ho3).
  rewrite <- Hin in He.
  pose proof (steps_trans _ _ _ _ _ _ H0 (steps_trans _ _ _ _ _ _ H2 H3)) as Hs.
  destruct (ahead_position x _ pre l _ c3 (entered_Inv _ _ _ _ _ _ He Hs) eq_refl Ha3)
    as (Hpos & _ & _ & _ & Hdata).
  exists c1, n, c3.
  split; [exact He|]. split; [exact Hs|]. split; [exact Ha3|]. split; [exact Hpos|].
  split; [exact Hp3|]. split; [exact Hdata|]. by rewrite Ho3, Ho.
Qed.

(** X10: in each dialect, after a header, a blank line and one trailer or
    more, a line that begins with a byte that is neither a letter, a digit
    nor a line feed fails with [ErrTrailer] naming that byte and its
    offset, and an input that ends within a token fails with
    [ErrTrailerIncomplete] naming the last byte and the length of the
    input; in best-effort mode the record with the footers read so far
    comes with the error. *)
Theorem trailer_expected (x : machine) (h : header) (ts : list trailer) :
  header_ok (typeConfig x) h = true → Forall trailer_ok ts → ts ≠ [] →
  let pre := render_header h ++ bytes LF ++ bytes LF ++ concat (render <$> ts) in
  let read := if bestEffort x then Some (record_of h (footers_of ts)) else None in
  (∀ b rest, line_start b = false →
     returns (Parse x (pre ++ b :: rest))
     = Some (read, Some (diagnostic "illegal '" b "' character in trailer"
                           (Z.of_nat (length pre))))) ∧
  (∀ k b, key_ok k = true → last k = Some b →
     returns (Parse x (pre ++ k))
     = Some (read, Some (diagnostic "incomplete footer trailer after '" b "' character"
                           (Z.of_nat (length (pre ++ k)))))).
Proof.
  intros Hok Hts Hne pre read.
  pose proof (footers_of_size ts Hne) as Hsize.
  pose proof (record_of_minimal _ h (footers_of ts) Hok) as Hmin.
  split.
  - intros b rest Hb.
    destruct (message_read x h ts (b :: rest) Hok Hts)
      as (c1 & n & c & He & Hs & Ha & Hpos & Hp & Hdata & Ho).
    fold pre in He, Hpos, Hdata.
    destruct (line_rejected c b rest Ha Hp Hb) as (c' & Hh & Hcs & Ho' & Herr);
      [by rewrite Ho|].
    pose proof (steps_halts _ _ _ _ _ Hs Hh) as Hhalt.
    destruct (halts_Left _ _ _ _ _ He Hhalt) as (Hbe & _).
    rewrite (Parse_halts _ _ _ _ _ He Hhalt).
    assert (cs (m c') < firstFinal) as Hlow by (rewrite Hcs; unfold firstFinal; lia).
    rewrite (epilogue_error _ _ Hlow Herr), Hbe, Ho', Ho, Hmin.
    rewrite andb_true_r, Hpos. done.
  - intros k b Hk Hb.
    destruct (message_read x h ts k Hok Hts)
      as (c1 & n & c & He & Hs & Ha & Hpos & Hp & Hdata & Ho).
    fold pre in He, Hpos, Hdata.
    destruct (token_unfinished c k b Hk Ha Hp Hb) as (c' & Hh & Hcs & Ho' & Herr);
      [by rewrite Ho|].
    pose proof (steps_halts _ _ _ _ _ Hs Hh) as Hhalt.
    destruct (halts_Left _ _ _ _ _ He Hhalt) as (Hbe & _).
    rewrite (Parse_halts _ _ _ _ _ He Hhalt).
    rewrite (epilogue_error _ _ Hcs Herr), Hbe, Ho', Ho, Hmin.
    rewrite andb_true_r, Hpos, length_app, Nat2Z.inj_add. done.
Qed.

Lemma trailer_expected_witness :
  returns (Parse (WithBestEffort NewMachine)
             (bytes ("fix: x" +:+ LF +:+ LF +:+ "Refs: 1" +:+ LF +:+ "(see above)")))
  = Some (Some (mkCommit "fix" "" "x" false ""
                  (footers_of [mkTrailer (bytes "Refs") (bytes ": ") (bytes "1")])),
          Some "illegal '(' character in trailer: col=16") ∧
  returns (Parse NewMachine
             (bytes ("fix: x" +:+ LF +:+ LF +:+ "Refs: 1" +:+ LF +:+ "Signed-off")))
  = Some (None, Some "incomplete footer trailer after 'f' character: col=26").
Proof.
  split.
  - apply (proj1 (trailer_expected (WithBestEffort NewMachine)
                    (mkHeader (bytes "fix") None false 0 (bytes "x"))
                    [mkTrailer (bytes "Refs") (bytes ": ") (bytes "1")] eq_refl
                    ltac:(repeat (apply Forall_cons; split; [trailer_checked|]);
                          by apply Forall_nil)
                    ltac:(done)) "("%byte (bytes "see above)") eq_refl).
  - apply (proj2 (trailer_expected NewMachine
                    (mkHeader (bytes "fix") None false 0 (bytes "x"))
                    [mkTrailer (bytes "Refs") (bytes ": ") (bytes "1")] eq_refl
                    ltac:(repeat (apply Forall_cons; split; [trailer_checked|]);
                          by apply Forall_nil)
                    ltac:(done)) (bytes "Signed-off") "f"%byte eq_refl eq_refl).
Defined.

(** ** The body *)

Lemma blank_line_ahead_ahead (c : conf) (l : list byte) :
  ahead c l → 0 <= p (m c) + 1 → blank_line_ahead c = Some (blank_line l).
Proof.
  intros (Hi & Hpe & _ & _) Hp. unfold blank_line_ahead.
  pose proof (Hi 0%nat) as H0. pose proof (Hi 1%nat) as H1.
  change (Z.of_nat 0) with 0 in H0. change (Z.of_nat 1) with 1 in H1.
  rewrite Z.add_0_r in H0. replace (p (m c) + 1 + 1) with (p (m c) + 2) in H1 by lia.
  destruct l as [|b1 [|b2 l]]; cbn [length] in Hpe.
  - destruct (Z.ltb_spec (p (m c) + 2) (pe (m c))); [lia | done].
  - destruct (Z.ltb_spec (p (m c) + 2) (pe (m c))); [lia | done].
  - destruct (Z.ltb_spec (p (m c) + 2) (pe (m c))); [|lia].
    rewrite H0. cbn [lookup list_lookup mbind option_bind blank_line].
    destruct (code b1 =? 10); [|done]. rewrite H1. done.
Qed.

Ltac body_rule Hnext :=
  match goal with
  | H : blank_line ?l = _ |- context [blank_line ?l] => rewrite H
  | |- context [blank_line_ahead (mkConf ?a ?b)] =>
      rewrite (blank_line_ahead_ahead (mkConf a b) _
                 (Hnext (mkConf a b) eq_refl eq_refl eq_refl eq_refl))
        by (fields; lia)
  end.

Ltac known_body Hnext :=
  repeat (fields; cbn [length app];
          first [body_rule Hnext | eval_lit | eval_code | eval_arith | split_head
                | unfold_head]);
  fields.

Lemma gostring_cons (s : string) (b : byte) (l : list byte) :
  (s +:+ gostring [b]) +:+ gostring l = s +:+ gostring (b :: l).
Proof. by rewrite append_assoc. Qed.

Lemma gostring_app (l1 l2 : list byte) : gostring (l1 ++ l2) = gostring l1 +:+ gostring l2.
Proof.
  induction l1 as [|b l1 IH]; [done|].
  change (gostring ((b :: l1) ++ l2)) with (String (ascii_of_byte b) (gostring (l1 ++ l2))).
  by rewrite IH.
Qed.

(** The loop of state 92 over a text with no blank line: each byte is
    appended to the body, after the line feeds counted before it, up to the
    end of the input. *)
Lemma body_read (t : list byte) :
  ∀ c b0, ahead c t → at_index (data (m c)) (p (m c)) = Some b0 →
          pb (m c) = p (m c) → 0 <= countNewlines (m c) → no_blank_line t = true →
          ∃ c', halts 92 c c' ∧ cs (m c') = 92 ∧
                output c' = with_body
                              (body (output c)
                               +:+ newlines (Z.to_nat (countNewlines (m c)))
                               +:+ gostring (b0 :: t)) (output c).
Proof.
  induction t as [|b1 t IH]; intros c b0 Ha Hb0 Hpb Hcnt Hnb.
  - destruct (ahead_end _ Ha) as [Hpe Heof].
    pose proof (slice_one_at _ _ _ Hb0) as Hsl.
    open_conf c. cbn [m data p pe eof pb countNewlines output body] in *.
    subst ef pb0.
    eexists. split; [eapply halts_out; known; reflexivity|].
    split; [reflexivity|]. unfold with_body. fields. by rewrite append_assoc.
  - cbn [no_blank_line] in Hnb. apply andb_true_iff in Hnb as [_ Hnb].
    pose proof (slice_one_at _ _ _ Hb0) as Hsl.
    pose proof (at_index_range _ _ _ Hb0) as Hr.
    next_byte Ha. pose proof (code_range b1) as Hc.
    assert (blank_line t = false) as Hbl.
    { destruct t as [|b2 t]; [done|]. cbn [no_blank_line] in Hnb.
      apply andb_true_iff in Hnb as [Hnb _]. by apply negb_true_iff in Hnb. }
    open_conf c. cbn [m data p pe eof pb countNewlines output body] in *. subst pb0.
    destruct (IH (mkConf (mkMachine dt s0 (q + 1) e ef (q + 1) er be tc lg key
                            (Z.min cnt 0) last0)
                    (mkCommit ty0 sc de ex
                       ((bd +:+ newlines (Z.to_nat cnt)) +:+ gostring [b0]) ft)) b1)
      as (c' & Hh & Hcs & Ho);
      [by apply Hnext | done | done | cbn [m countNewlines]; lia | done |].
    exists c'. split; [|split; [done|]].
    + eapply halts_goto; [|exact Hh]. clear Hh Ho IH.
      known_body Hnext. reflexivity.
    + rewrite Ho. unfold with_body. fields.
      replace (Z.min cnt 0) with 0 by lia. cbn [Z.to_nat newlines].
      change ("" +:+ gostring (b1 :: t)) with (gostring (b1 :: t)).
      by rewrite !append_assoc.
Qed.

(** From the label of the body, with the cursor one before the marker. *)
Lemma body_parsed (c : conf) (b0 : byte) (t : list byte) :
  ahead c (b0 :: t) → pb (m c) = p (m c) + 1 → 0 <= p (m c) →
  0 <= countNewlines (m c) → no_blank_line (b0 :: t) = true →
  ∃ c', halts 34 c c' ∧ cs (m c') = 92 ∧
        output c' = with_body
                      (body (output c) +:+ newlines (Z.to_nat (countNewlines (m c)))
                       +:+ gostring (b0 :: t)) (output c).
Proof.
  intros Ha Hpb Hp Hcnt Hnb.
  cbn [no_blank_line] in Hnb. apply andb_true_iff in Hnb as [_ Hnb].
  next_byte Ha. pose proof (code_range b0) as Hc.
  assert (blank_line t = false) as Hbl.
  { destruct t as [|b2 t]; [done|]. cbn [no_blank_line] in Hnb.
    apply andb_true_iff in Hnb as [Hnb _]. by apply negb_true_iff in Hnb. }
  destruct (body_read t (set_pb (p (m c) + 1) (set_p (p (m c) + 1) c)) b0)
    as (c' & Hh & Hcs & Ho).
  { apply Hnext; by destruct c as [[] []]. }
  { by destruct c as [[] []]. }
  { by destruct c as [[] []]. }
  { by destruct c as [[] []]. }
  { done. }
  exists c'. split; [|split; [done|]].
  - eapply halts_goto; [|exact Hh]. clear Hh Ho.
    open_conf c. cbn [m data p pe eof pb countNewlines output body] in *.
    subst pb0. known_body Hnext. reflexivity.
  - rewrite Ho. clear. by open_conf c.
Qed.

(** *** The first word of the body *)

Lemma code_inj (b b' : byte) : code b = code b' → b = b'.
Proof.
  unfold code. intros H. apply N2Z.inj in H.
  pose proof (Byte.of_to_N b) as H1. pose proof (Byte.of_to_N b') as H2.
  rewrite H in H1. congruence.
Qed.

(** Past the first word, a token is read in states 14 and 16. *)
Lemma later_words (k : list byte) :
  ∀ n n', n ∈ [14; 16] → plain_run n k = Some n' → n' ∈ [14; 16].
Proof.
  induction k as [|b k IH]; intros n n' Hn Hr.
  - by injection Hr as <-.
  - apply list_elem_of_In in Hn. cbn [In] in Hn.
    destruct Hn as [<- | [<- | []]]; cbn [plain_run] in Hr;
      change (plain _) with true in Hr; cbn iota in Hr; revert Hr;
      cbv beta iota zeta delta [stCase token switch alnum within app];
      tests; intros Hr; try discriminate Hr;
      (eapply IH; [|exact Hr]); in_list.
Qed.

Ltac breaking_letter IH e :=
  let k := fresh "k" in let b := fresh "b" in let H := fresh "H" in
  intros k H; destruct k as [|b k]; [discriminate H|];
  cbn [plain_run] in H; change (plain _) with true in H; cbn iota in H; revert H;
  cbv beta iota zeta delta [stCase token switch alnum within app];
  tests; intros H; try discriminate H;
  first
    [ exfalso;
      match type of H with
      | _ = Some ?n =>
          let Hin := fresh in
          assert (Hin : n ∈ [14; 16]) by (eapply later_words; [|exact H]; in_list);
          apply list_elem_of_In in Hin; cbn [In] in Hin; intuition lia
      end
    | match goal with
      | |- _ = ?r => let v := (eval vm_compute in r) in change r with v
      end;
      f_equal;
      [ apply code_inj;
        (let v := (eval vm_compute in (code e)) in change (code e) with v); lia
      | by apply IH ] ].

Lemma breaking_8 : ∀ k, plain_run 25 k = Some 25 → k = [].
Proof.
  intros [|b k] H; [done|]. exfalso.
  cbn [plain_run] in H; change (plain _) with true in H; cbn iota in H; revert H;
    cbv beta iota zeta delta [stCase token switch alnum within app];
    tests; intros H; try discriminate H;
    match type of H with
    | _ = Some ?n =>
        let Hin := fresh in
        assert (Hin : n ∈ [14; 16]) by (eapply later_words; [|exact H]; in_list);
        apply list_elem_of_In in Hin; cbn [In] in Hin; intuition lia
    end.
Qed.

Lemma breaking_7 : ∀ k, plain_run 24 k = Some 25 → k = bytes "G".
Proof. breaking_letter breaking_8 "G"%byte. Qed.

Lemma breaking_6 : ∀ k, plain_run 23 k = Some 25 → k = bytes "NG".
Proof. breaking_letter breaking_7 "N"%byte. Qed.

Lemma breaking_5 : ∀ k, plain_run 22 k = Some 25 → k = bytes "ING".
Proof. breaking_letter breaking_6 "I"%byte. Qed.

Lemma breaking_4 : ∀ k, plain_run 21 k = Some 25 → k = bytes "KING".
Proof. breaking_letter breaking_5 "K"%byte. Qed.

Lemma breaking_3 : ∀ k, plain_run 20 k = Some 25 → k = bytes "AKING".
Proof. breaking_letter breaking_4 "A"%byte. Qed.

Lemma breaking_2 : ∀ k, plain_run 19 k = Some 25 → k = bytes "EAKING".
Proof. breaking_letter breaking_3 "E"%byte. Qed.

Lemma breaking_1 : ∀ k, plain_run 18 k = Some 25 → k = bytes "REAKING".
Proof. breaking_letter breaking_2 "R"%byte. Qed.

(** State 25 is reached on [BREAKING] alone. *)
Lemma breaking_word (b0 : byte) (k : list byte) :
  plain_run (if code b0 =? 66 then 18 else 14) k = Some 25 →
  gostring (b0 :: k) = "BREAKING".
Proof.
  destruct (Z.eqb_spec (code b0) 66) as [Hb|Hb]; intros H.
  - apply breaking_1 in H as ->. by apply (code_inj b0 "B"%byte) in Hb as ->.
  - exfalso. assert (Hin : 25 ∈ [14; 16]) by (eapply later_words; [|exact H]; in_list).
    apply list_elem_of_In in Hin. cbn [In] in Hin. intuition lia.
Qed.

Lemma ahead_same (c c' : conf) (l : list byte) :
  ahead c l → data (m c') = data (m c) → p (m c') = p (m c) → pe (m c') = pe (m c) →
  eof (m c') = eof (m c) → ahead c' l.
Proof.
  intros Ha Hd Hp Hpe Heof. apply (ahead_app c [] l Ha); try done.
  cbn [length]. change (Z.of_nat 0) with 0. lia.
Qed.

(** With no footer recorded, and the marker where the line feeds counted
    put it, [rewind] goes to the body with the cursor one before the
    marker. *)
Lemma rewind_body (halt : conf → conf * flow) (c : conf) :
  size (footers (output c)) = 0%nat →
  (0 < countNewlines (m c) → lastNewline (m c) + 1 = pb (m c)) →
  rewind halt c = Some (set_p (pb (m c) - 1) c, Goto enBody).
Proof.
  intros Hf Hl. unfold rewind. rewrite Hf. cbn [Nat.eqb].
  destruct (Z.ltb_spec 0 (countNewlines (m c))) as [Hc | Hc]; [|done].
  rewrite (Hl Hc). by destruct c as [[] []].
Qed.

Ltac rewind_rule :=
  match goal with
  | |- context [rewind ?h (mkConf ?a ?b)] =>
      rewrite (rewind_body h (mkConf a b)) by (fields; first [assumption | lia])
  end.

Ltac known_rewind :=
  repeat (fields; cbn [length app];
          first [rewind_rule | footer_rules | eval_lit | eval_code | eval_arith
                | split_head | unfold_head]);
  fields.

(** The first word of a line and what follows it, when that breaks off
    the reading of a trailer before any footer is recorded: the machine
    goes back to the first byte of the line and on to the body. *)
Lemma first_word_rewinds (c : conf) (k after : list byte) :
  key_ok k = true → breaks_off k after = true → ahead c (k ++ after) → 0 <= p (m c) →
  size (footers (output c)) = 0%nat →
  (0 < countNewlines (m c) → lastNewline (m c) = p (m c)) →
  ∃ c', steps 87 c 34 c' ∧ ahead c' (k ++ after) ∧ p (m c') = p (m c) ∧
        pb (m c') = p (m c) + 1 ∧ countNewlines (m c') = countNewlines (m c) ∧
        output c' = output c.
Proof.
  intros Hk Hbr Ha Hp Hf Hlast. destruct k as [|b0 k]; [done|].
  unfold key_ok in Hk. cbn [key_from] in Hk.
  destruct (alnum_byte b0) eqn:Hb0; [|by rewrite andb_false_r in Hk].
  pose proof (ahead_slice _ _ _ Ha ltac:(lia)) as Hsl.
  pose proof Ha as Ha0. cbn [app] in Ha. next_byte Ha.
  set (n0 := if code b0 =? 66 then 18 else 14).
  destruct (key_run k n0 true Hk) as (n' & Hn' & Hrun).
  { subst n0. unfold word_states. destruct (code b0 =? 66); in_list. }
  assert (n' = 25 → gostring (b0 :: k) = "BREAKING") as H25.
  { intros ->. by apply breaking_word. }
  pose proof (plain_steps k n0 n' (set_pb (p (m c) + 1) (set_p (p (m c) + 1) c)) _ Hrun
                ltac:(by apply Hnext)) as Hloop.
  pose proof (ahead_app (set_p (p (m c) + 1) c) k _ ltac:(by apply Hnext)
                (set_p (p (m c) + 1 + Z.of_nat (length k)) c)
                eq_refl eq_refl eq_refl eq_refl) as Ha1.
  assert (∃ c', steps n' (set_p (p (m c) + 1 + Z.of_nat (length k))
                            (set_pb (p (m c) + 1) c)) 34 c' ∧
                data (m c') = data (m c) ∧ p (m c') = p (m c) ∧ pe (m c') = pe (m c) ∧
                eof (m c') = eof (m c) ∧ pb (m c') = p (m c) + 1 ∧
                countNewlines (m c') = countNewlines (m c) ∧ output c' = output c)
    as (c' & Hs & Hd' & Hp' & Hpe' & Heof' & Hpb' & Hcnt' & Ho').
  { clear Hloop Hrun Ha0 Hnext. pose proof Ha1 as (_ & _ & _ & Hlen).
    destruct after as [|b [|b' after]].
    - destruct (ahead_end _ Ha1) as [Hpe Heof]. clear Ha1 H25.
      open_conf c. unfold set_pb, set_p in *.
      cbn [m data p pe eof pb countNewlines lastNewline output footers] in *. subst ef.
      replace (q + 1 + Z.of_nat (length (b0 :: k)))
        with (q + 1 + Z.of_nat (length k) + 1) in * by (cbn [length]; lia).
      apply list_elem_of_In in Hn'. vm_compute in Hn'.
      repeat (destruct Hn' as [<- | Hn']); [..| destruct Hn'];
        (eexists; split;
         [eapply steps_goto; [known_rewind; reflexivity|]; apply steps_refl|]);
        fields; repeat split; lia.
    - destruct (ahead_next _ _ _ Ha1) as (Hat1 & Hlt1 & Hnext1).
      pose proof (Hnext1 (set_p (p (m c) + 1 + Z.of_nat (length k) + 1) c)
                    eq_refl eq_refl eq_refl eq_refl) as Ha2.
      destruct (ahead_end _ Ha2) as [Hpe Heof]. clear Ha1 Ha2 Hnext1.
      cbn [breaks_off] in Hbr. unfold alnum_byte in Hbr.
      open_conf c. unfold set_pb, set_p in *.
      cbn [m data p pe eof pb countNewlines lastNewline output footers] in *. subst ef.
      replace (q + 1 + Z.of_nat (length (b0 :: k)))
        with (q + 1 + Z.of_nat (length k) + 1) in * by (cbn [length]; lia).
      apply list_elem_of_In in Hn'. vm_compute in Hn'.
      repeat (destruct Hn' as [<- | Hn']); [..| destruct Hn'];
        (destruct (Z.eqb_spec (code b) 32);
         [ eexists; split;
           [ eapply steps_goto; [known_trailer; reflexivity|];
             eapply steps_goto; [known_rewind; reflexivity|]; apply steps_refl|]
         | eexists; split;
           [ eapply steps_goto; [known_rewind; reflexivity|]; apply steps_refl|] ]);
        fields; repeat split; lia.
    - destruct (ahead_next _ _ _ Ha1) as (Hat1 & Hlt1 & Hnext1).
      pose proof (Hnext1 (set_p (p (m c) + 1 + Z.of_nat (length k) + 1) c)
                    eq_refl eq_refl eq_refl eq_refl) as Ha2.
      destruct (ahead_next _ _ _ Ha2) as (Hat2 & Hlt2 & _). clear Ha1 Ha2 Hnext1.
      cbn [breaks_off] in Hbr. unfold alnum_byte in Hbr.
      assert (code b = 32 → code b' ≠ 35 ∧ (n' = 25 → code b' ≠ 67)) as Hsp.
      { intros Hb. rewrite Hb in Hbr. cbn [Z.eqb Pos.eqb] in Hbr.
        apply andb_true_iff in Hbr as [H35 H67]. split; [lia|].
        intros Hn. rewrite (H25 Hn) in H67. cbn [String.eqb Ascii.eqb Bool.eqb] in H67.
        cbn [andb] in H67. lia. }
      clear H25.
      open_conf c. unfold set_pb, set_p in *.
      cbn [m data p pe eof pb countNewlines lastNewline output footers] in *.
      replace (q + 1 + Z.of_nat (length (b0 :: k)))
        with (q + 1 + Z.of_nat (length k) + 1) in * by (cbn [length]; lia).
      apply list_elem_of_In in Hn'. vm_compute in Hn'.
      repeat (destruct Hn' as [<- | Hn']); [..| destruct Hn'];
        (destruct (Z.eqb_spec (code b) 32) as [Hb32 | Hb32];
         [ destruct (Hsp Hb32) as [H35 H67]; try specialize (H67 eq_refl);
           eexists; split;
           [ eapply steps_goto; [known_trailer; reflexivity|];
             eapply steps_goto; [known_rewind; reflexivity|]; apply steps_refl|]
         | eexists; split;
           [ eapply steps_goto; [known_rewind; reflexivity|]; apply steps_refl|] ]);
        fields; repeat split; lia. }
  exists c'. split; [|split; [by apply (ahead_same c)|done]].
  eapply steps_trans
    with (n2 := n0) (c2 := set_pb (p (m c) + 1) (set_p (p (m c) + 1) c)).
  { clear Hloop Hs. next_byte Ha0. clear Ha0. subst n0.
    unfold alnum_byte in Hb0. open_conf c.
    cbn [m data p pe eof pb countNewlines lastNewline output footers] in *.
    unfold set_pb, set_p. fields.
    destruct (Z.eqb_spec (code b0) 66);
      (eapply steps_goto; [known; reflexivity|]); apply steps_refl. }
  eapply steps_trans; [exact Hloop|].
  clear Hloop. revert Hs. open_conf c. unfold set_pb, set_p. fields. done.
Qed.

(** X11: in each dialect, after a well-formed header and a blank line, a
    text with no blank line in it that begins with a word which does not
    read as a trailer is returned as the body, byte for byte, a final line
    feed included. *)
Theorem body_round_trip (x : machine) (h : header) (k after : list byte) :
  header_ok (typeConfig x) h = true →
  key_ok k = true → breaks_off k after = true → no_blank_line (k ++ after) = true →
  returns (Parse x (render_header h ++ bytes LF ++ bytes LF ++ k ++ after))
  = Some (Some (with_body (gostring (k ++ after)) (record_of h ∅)), None).
Proof.
  intros Hok Hk Hbr Hnb.
  destruct (header_read x h (bytes LF ++ bytes LF ++ k ++ after) Hok)
    as (c1 & n & c & He & H0 & I0).
  destruct (descr_then_blank_line (typeConfig x) x _ _ _ c I0) as (c2 & H2 & I2).
  destruct I2 as (Ha & Hp & _ & _ & _ & Hcnt & Ho).
  destruct (first_word_rewinds c2 k after Hk Hbr Ha Hp) as
    (c3 & H3 & Ha3 & Hp3 & Hpb3 & Hcnt3 & Ho3); [by rewrite Ho | lia |].
  destruct (k ++ after) as [|b0 t] eqn:Hka.
  { destruct k; [done | discriminate Hka]. }
  destruct (body_parsed c3 b0 t Ha3) as (c4 & Hh & Hcs & Ho4); [lia | lia | lia | done |].
  rewrite (Parse_halts _ _ _ _ _ He
             (steps_halts _ _ _ _ _
                (steps_trans _ _ _ _ _ _ H0 (steps_trans _ _ _ _ _ _ H2 H3)) Hh)).
  rewrite epilogue_final by (rewrite Hcs; unfold firstFinal; lia).
  by rewrite Ho4, Hcnt3, Hcnt, Ho3, Ho.
Qed.

Lemma body_round_trip_witness :
  returns (Parse NewMachine
             (bytes ("fix: typo" +:+ LF +:+ LF +:+ "This fixes the typo." +:+ LF +:+
                     "See the docs." +:+ LF)))
  = Some (Some (mkCommit "fix" "" "typo" false
                  ("This fixes the typo." +:+ LF +:+ "See the docs." +:+ LF) ∅), None).
Proof.
  exact (body_round_trip NewMachine (mkHeader (bytes "fix") None false 0 (bytes "typo"))
           (bytes "This")
           (bytes (" fixes the typo." +:+ LF +:+ "See the docs." +:+ LF))
           eq_refl eq_refl eq_refl eq_refl).
Defined.

(** *** Paragraphs *)

Lemma breaks_off_app (k after l : list byte) :
  breaks_off k after = true → breaks_off k (after ++ bytes LF ++ l) = true.
Proof.
  destruct after as [|b [|b' after]]; cbn [breaks_off app]; [done | | done].
  change (bytes LF ++ l) with ("010"%byte :: l). cbn iota.
  destruct (code b =? 32); [|done]. intros _.
  change (code "010") with 10. cbn [Z.eqb Pos.eqb negb andb]. by rewrite andb_false_r.
Qed.

Lemma no_blank_line_app (l1 l2 : list byte) :
  no_blank_line (l1 ++ l2) = true → no_blank_line l1 = true.
Proof.
  induction l1 as [|b1 l1 IH]; [done|]. cbn [app no_blank_line].
  intros H. apply andb_true_iff in H as [H1 H2]. rewrite (IH H2), andb_true_r.
  destruct l1 as [|b2 l1]; [done|]. exact H1.
Qed.

Lemma blank_line_after (t l : list byte) :
  t ≠ [] → no_blank_line (t ++ bytes LF) = true →
  blank_line (t ++ bytes LF ++ bytes LF ++ l) = false.
Proof.
  intros Ht H. destruct t as [|x [|y t]]; [done | |].
  - cbn [app no_blank_line] in H. apply andb_true_iff in H as [H _].
    by apply negb_true_iff in H.
  - cbn [app no_blank_line] in H. apply andb_true_iff in H as [H _].
    by apply negb_true_iff in H.
Qed.

(** The loop of state 92 up to a blank line: the bytes before it are
    appended to the body, and the trailers are tried next. *)
Lemma body_read_to_blank_line (t : list byte) :
  ∀ c b0 l, t ≠ [] → ahead c (t ++ bytes LF ++ bytes LF ++ l) →
            at_index (data (m c)) (p (m c)) = Some b0 → pb (m c) = p (m c) →
            0 <= countNewlines (m c) → no_blank_line (t ++ bytes LF) = true →
            ∃ c', steps 92 c 87 c' ∧ ahead c' (bytes LF ++ bytes LF ++ l) ∧
                  0 <= p (m c') ∧ countNewlines (m c') = 0 ∧
                  output c' = with_body
                                (body (output c)
                                 +:+ newlines (Z.to_nat (countNewlines (m c)))
                                 +:+ gostring (b0 :: t)) (output c).
Proof.
  induction t as [|b1 t IH]; intros c b0 l Ht Ha Hb0 Hpb Hcnt Hnb; [done|].
  pose proof (slice_one_at _ _ _ Hb0) as Hsl.
  pose proof (at_index_range _ _ _ Hb0) as Hr.
  cbn [app] in Ha. next_byte Ha. pose proof (code_range b1) as Hc.
  pose proof (slice_one_at _ _ _ Hat) as Hsl1.
  destruct t as [|b2 t].
  - clear IH. cbn [app] in Ha, Hnext.
    assert (blank_line (bytes LF ++ bytes LF ++ l) = true) as Hbl by done.
    open_conf c. cbn [m data p pe eof pb countNewlines output body] in *. subst pb0.
    eexists. split; [|split; [|split; [|split]]].
    + eapply steps_goto; [known_body Hnext; reflexivity|]. apply steps_refl.
    + apply Hnext; fields; first [reflexivity | lia].
    + fields. lia.
    + fields. lia.
    + unfold with_body. fields. by rewrite !append_assoc.
  - assert (blank_line ((b2 :: t) ++ bytes LF ++ bytes LF ++ l) = false) as Hbl.
    { apply blank_line_after; [done|]. cbn [app no_blank_line] in Hnb.
      by apply andb_true_iff in Hnb as [_ Hnb]. }
    cbn [app] in Hbl.
    open_conf c. cbn [m data p pe eof pb countNewlines output body] in *. subst pb0.
    destruct (IH (mkConf (mkMachine dt s0 (q + 1) e ef (q + 1) er be tc lg key
                            (Z.min cnt 0) last0)
                    (mkCommit ty0 sc de ex
                       ((bd +:+ newlines (Z.to_nat cnt)) +:+ gostring [b0]) ft)) b1 l)
      as (c' & Hs & Ha' & Hp' & Hcnt' & Ho);
      [ done | by apply Hnext | done | done | cbn [m countNewlines]; lia
      | cbn [app no_blank_line] in Hnb; by apply andb_true_iff in Hnb as [_ Hnb] |].
    exists c'. split; [|split; [done|split; [done|split; [done|]]]].
    + eapply steps_goto; [|exact Hs]. clear Hs Ho IH Ha'.
      known_body Hnext. reflexivity.
    + rewrite Ho. unfold with_body. fields.
      replace (Z.min cnt 0) with 0 by lia. cbn [Z.to_nat newlines].
      change ("" +:+ gostring (b1 :: b2 :: t)) with (gostring (b1 :: b2 :: t)).
      by rewrite !append_assoc.
Qed.

(** From the label of the body to the blank line that ends a paragraph of
    two bytes or more. *)
Lemma body_parsed_to_blank_line (c : conf) (b0 : byte) (t l : list byte) :
  t ≠ [] → ahead c (b0 :: t ++ bytes LF ++ bytes LF ++ l) →
  pb (m c) = p (m c) + 1 → 0 <= p (m c) → 0 <= countNewlines (m c) →
  no_blank_line (b0 :: t ++ bytes LF) = true →
  ∃ c', steps 34 c 87 c' ∧ ahead c' (bytes LF ++ bytes LF ++ l) ∧
        0 <= p (m c') ∧ countNewlines (m c') = 0 ∧
        output c' = with_body
                      (body (output c) +:+ newlines (Z.to_nat (countNewlines (m c)))
                       +:+ gostring (b0 :: t)) (output c).
Proof.
  intros Ht Ha Hpb Hp Hcnt Hnb.
  cbn [no_blank_line] in Hnb. apply andb_true_iff in Hnb as [_ Hnb].
  next_byte Ha. pose proof (code_range b0) as Hc.
  pose proof (blank_line_after t l Ht Hnb) as Hbl.
  destruct (body_read_to_blank_line t (set_pb (p (m c) + 1) (set_p (p (m c) + 1) c)) b0 l)
    as (c' & Hs & Ha' & Hp' & Hcnt' & Ho); [done | ..].
  { apply Hnext; by destruct c as [[] []]. }
  { by destruct c as [[] []]. }
  { by destruct c as [[] []]. }
  { by destruct c as [[] []]. }
  { done. }
  exists c'. split; [|split; [done|split; [done|split; [done|]]]].
  - eapply steps_goto; [|exact Hs]. clear Hs Ho Ha'.
    open_conf c. cbn [m data p pe eof pb countNewlines output body] in *.
    subst pb0. known_body Hnext. reflexivity.
  - rewrite Ho. clear. by open_conf c.
Qed.

(** The two line feeds of a blank line are counted where the trailers are
    tried. *)
Lemma blank_line_counted (c : conf) (l : list byte) :
  ahead c (bytes LF ++ bytes LF ++ l) → 0 <= p (m c) →
  ∃ c', steps 87 c 87 c' ∧ ahead c' l ∧ 0 <= p (m c') ∧
        countNewlines (m c') = countNewlines (m c) + 2 ∧
        lastNewline (m c') = p (m c') ∧ output c' = output c.
Proof.
  intros Ha Hp. change (bytes LF ++ bytes LF ++ l) with ("010"%byte :: "010"%byte :: l) in Ha.
  next_byte Ha.
  pose proof (Hnext (set_p (p (m c) + 1) c) eq_refl eq_refl eq_refl eq_refl) as Ha1.
  destruct (ahead_next _ _ _ Ha1) as (Hat1 & Hlt1 & Hnext1).
  open_conf c. unfold set_p in *.
  cbn [m data p pe eof pb countNewlines lastNewline output] in *.
  eexists. split;
    [ eapply steps_goto; [known; reflexivity|];
      eapply steps_goto; [known; reflexivity|]; apply steps_refl|].
  fields. split; [apply Hnext1; reflexivity|]. repeat split; lia.
Qed.

Lemma paragraph_ok_parts (g : paragraph) :
  paragraph_ok g = true →
  key_ok (pword g) = true ∧ breaks_off (pword g) (prest g) = true ∧
  no_blank_line (ptext g ++ bytes LF) = true ∧ (2 <= length (ptext g))%nat.
Proof.
  unfold paragraph_ok. intros H.
  apply andb_true_iff in H as [H H4]. apply andb_true_iff in H as [H H3].
  apply andb_true_iff in H as [H1 H2]. repeat split; try done. by apply Nat.leb_le.
Qed.

(** One paragraph and the blank line after it, with no footer recorded:
    the paragraph is appended to the body after the line feeds counted
    before it, and the two of the blank line are counted. *)
Lemma paragraph_read (c : conf) (g : paragraph) (l : list byte) :
  paragraph_ok g = true → ahead c (ptext g ++ bytes LF ++ bytes LF ++ l) →
  0 <= p (m c) → size (footers (output c)) = 0%nat → 0 <= countNewlines (m c) →
  (0 < countNewlines (m c) → lastNewline (m c) = p (m c)) →
  ∃ c', steps 87 c 87 c' ∧ ahead c' l ∧ 0 <= p (m c') ∧ countNewlines (m c') = 2 ∧
        lastNewline (m c') = p (m c') ∧
        output c' = with_body
                      (body (output c) +:+ newlines (Z.to_nat (countNewlines (m c)))
                       +:+ gostring (ptext g)) (output c).
Proof.
  intros Hok Ha Hp Hf Hcnt Hlast.
  destruct (paragraph_ok_parts g Hok) as (Hk & Hbr & Hnb & Hlen).
  unfold ptext in Ha. rewrite <- app_assoc in Ha.
  destruct (first_word_rewinds c (pword g) _ Hk (breaks_off_app _ _ _ Hbr) Ha Hp Hf Hlast)
    as (c1 & H1 & Ha1 & Hp1 & Hpb1 & Hcnt1 & Ho1).
  rewrite app_assoc in Ha1. fold (ptext g) in Ha1.
  destruct (ptext g) as [|b0 [|b1 t]] eqn:Ht; [cbn [length] in Hlen; lia ..|].
  cbn [app] in Ha1.
  destruct (body_parsed_to_blank_line c1 b0 (b1 :: t) l) as (c2 & H2 & Ha2 & Hp2 & Hcnt2 & Ho2);
    [done | done | lia | lia | lia | done |].
  destruct (blank_line_counted c2 l Ha2 Hp2) as (c3 & H3 & Ha3 & Hp3 & Hcnt3 & Hl3 & Ho3).
  exists c3. split; [by eapply steps_trans; [|eapply steps_trans]|].
  split; [done|]. split; [done|]. split; [lia|]. split; [done|].
  by rewrite Ho3, Ho2, Hcnt1, Ho1.
Qed.

(** Line feeds where the trailers are tried are counted, and the last
    one is remembered. *)
Lemma feeds_counted (k : nat) :
  ∀ c l, ahead c (feeds k ++ l) → 0 <= p (m c) →
         ∃ c', steps 87 c 87 c' ∧ ahead c' l ∧ 0 <= p (m c') ∧
               countNewlines (m c') = countNewlines (m c) + Z.of_nat k ∧
               (0 < Z.of_nat k → lastNewline (m c') = p (m c')) ∧
               (k = 0%nat → lastNewline (m c') = lastNewline (m c) ∧ p (m c') = p (m c)) ∧
               output c' = output c.
Proof.
  induction k as [|k IH]; intros c l Ha Hp.
  - exists c. split; [apply steps_refl|]. split; [exact Ha|]. split; [done|].
    split; [lia|]. split; [lia|]. split; [done|]. done.
  - cbn [feeds replicate app] in Ha. next_byte Ha.
    destruct (IH (count_nl (set_p (p (m c) + 1) c)) l)
      as (c' & Hs & Ha' & Hp' & Hcnt' & Hl' & H0' & Ho').
    { apply Hnext; by destruct c as [[] []]. }
    { clear IH Ha Hat Hlt Hnext. open_conf c.
      unfold count_nl, set_lastNewline, set_countNewlines, set_p.
      fields. cbn [m p] in Hp. lia. }
    exists c'. split; [|split; [done|split; [done|]]].
    + eapply steps_goto; [|exact Hs]. clear Hs Ha' Hp' Hcnt' Hl' H0' Ho' IH.
      open_conf c. cbn [m data p pe] in *. known. reflexivity.
    + split; [|split; [|split; [done|]]].
      * rewrite Hcnt'. clear. open_conf c. known. lia.
      * intros _. destruct k as [|k]; [|apply Hl'; lia].
        destruct (H0' eq_refl) as [-> ->]. clear. by open_conf c.
      * rewrite Ho'. clear. by open_conf c.
Qed.

Lemma gostring_feeds (k : nat) : gostring (feeds k) = newlines k.
Proof. induction k as [|k IH]; [done|]. cbn [newlines]. by rewrite <- IH. Qed.

Lemma newlines_add (a b : nat) : newlines (a + b) = newlines a +:+ newlines b.
Proof. induction a as [|a IH]; [done|]. cbn [Nat.add newlines]. by rewrite IH. Qed.

Lemma blocks_cons (k : nat) (g : paragraph) (gs : list (nat * paragraph)) :
  blocks ((k, g) :: gs) = feeds k ++ ptext g ++ bytes LF ++ bytes LF ++ blocks gs.
Proof. unfold blocks. cbn [fmap list_fmap concat fst snd]. by rewrite <- !app_assoc. Qed.

(** A paragraph after line feeds and before a blank line. *)
Lemma block_read (c : conf) (k : nat) (g : paragraph) (l : list byte) :
  paragraph_ok g = true → ahead c (feeds k ++ ptext g ++ bytes LF ++ bytes LF ++ l) →
  0 <= p (m c) → size (footers (output c)) = 0%nat → 0 <= countNewlines (m c) →
  (0 < countNewlines (m c) → lastNewline (m c) = p (m c)) →
  ∃ c', steps 87 c 87 c' ∧ ahead c' l ∧ 0 <= p (m c') ∧ countNewlines (m c') = 2 ∧
        lastNewline (m c') = p (m c') ∧
        output c' = with_body
                      (body (output c)
                       +:+ newlines (Z.to_nat (countNewlines (m c)) + k)
                       +:+ gostring (ptext g)) (output c).
Proof.
  intros Hg Ha Hp Hf Hcnt Hlast.
  destruct (feeds_counted k c _ Ha Hp) as (c0 & H0 & Ha0 & Hp0 & Hcnt0 & Hl0 & Hk0 & Ho0).
  destruct (paragraph_read c0 g _ Hg Ha0 Hp0)
    as (c1 & H1 & Ha1 & Hp1 & Hcnt1 & Hl1 & Ho1); [by rewrite Ho0 | lia | |].
  { intros Hpos. destruct k as [|k]; [|apply Hl0; lia].
    destruct (Hk0 eq_refl) as [-> ->]. apply Hlast. lia. }
  exists c1. split; [by eapply steps_trans|].
  split; [done|]. split; [done|]. split; [done|]. split; [done|].
  rewrite Ho1, Hcnt0, Ho0.
  by replace (Z.to_nat (countNewlines (m c) + Z.of_nat k))
    with (Z.to_nat (countNewlines (m c)) + k)%nat by lia.
Qed.

(** Paragraphs, each followed by a blank line: the body grows by each of
    them and by the line feeds between them; the line feeds of the last
    blank line are counted, not yet appended. *)
Lemma paragraphs_read (gs : list (nat * paragraph)) :
  ∀ c l, Forall (λ g, paragraph_ok g.2 = true) gs → ahead c (blocks gs ++ l) →
         0 <= p (m c) → size (footers (output c)) = 0%nat → 0 <= countNewlines (m c) →
         (0 < countNewlines (m c) → lastNewline (m c) = p (m c)) →
         ∃ c' bd', steps 87 c 87 c' ∧ ahead c' l ∧ 0 <= p (m c') ∧
                   0 <= countNewlines (m c') ∧
                   (0 < countNewlines (m c') → lastNewline (m c') = p (m c')) ∧
                   output c' = with_body bd' (output c) ∧
                   bd' +:+ newlines (Z.to_nat (countNewlines (m c')))
                   = body (output c) +:+ newlines (Z.to_nat (countNewlines (m c)))
                     +:+ gostring (blocks gs).
Proof.
  induction gs as [|[k g] gs IH]; intros c l Hgs Ha Hp Hf Hcnt Hlast.
  - exists c, (body (output c)). split; [apply steps_refl|].
    split; [done|]. split; [done|]. split; [done|]. split; [done|].
    split; [by destruct c as [? []]|].
    change (gostring (blocks [])) with "". by rewrite append_empty_r.
  - apply Forall_cons in Hgs as [Hg Hgs]. cbn [snd] in Hg.
    rewrite blocks_cons, <- !app_assoc in Ha.
    destruct (block_read c k g _ Hg Ha Hp Hf Hcnt Hlast)
      as (c1 & H1 & Ha1 & Hp1 & Hcnt1 & Hl1 & Ho1).
    destruct (IH c1 l Hgs Ha1 Hp1) as (c2 & bd2 & H2 & Ha2 & Hp2 & Hcnt2 & Hl2 & Ho2 & Hbd2);
      [by rewrite Ho1; destruct c as [? []] | lia | done |].
    exists c2, bd2. split; [by eapply steps_trans|].
    split; [done|]. split; [done|]. split; [done|]. split; [done|].
    split; [rewrite Ho2, Ho1; by destruct c as [? []]|].
    rewrite Hbd2, Ho1, Hcnt1, blocks_cons, !gostring_app, gostring_feeds.
    unfold with_body. fields.
    change (newlines (Z.to_nat 2)) with (gostring (bytes LF) +:+ gostring (bytes LF)).
    by rewrite newlines_add, !append_assoc.
Qed.

(** Trailer lines with further line feeds after them. *)
Lemma trailer_lines_recognised (ts : list (trailer * nat)) :
  ∀ c l, Forall (λ t, trailer_ok t.1) ts → ahead c (trailer_lines ts ++ l) →
         0 <= p (m c) →
         ∃ c', steps 87 c 87 c' ∧ ahead c' l ∧ 0 <= p (m c') ∧
               output c' = with_footers (foldl add_footer (footers (output c)) ts.*1)
                             (output c).
Proof.
  induction ts as [|[t k] ts IH]; intros c l Hts Ha Hp.
  - exists c. split; [apply steps_refl|]. split; [done|]. split; [done|].
    destruct c as [? []]. reflexivity.
  - apply Forall_cons in Hts as [Ht Hts]. cbn [fst] in Ht.
    unfold trailer_lines in Ha. cbn [fmap list_fmap concat fst snd] in Ha.
    rewrite <- !app_assoc in Ha.
    destruct (trailer_recognised c t _ Ht Ha Hp) as (c1 & H1 & Ha1 & Hp1 & Ho1).
    destruct (feeds_counted k c1 _ Ha1 Hp1) as (c2 & H2 & Ha2 & Hp2 & _ & _ & _ & Ho2).
    destruct (IH c2 l Hts Ha2 Hp2) as (c3 & H3 & Ha3 & Hp3 & Ho3).
    exists c3. split; [by eapply steps_trans; [|eapply steps_trans]|].
    split; [done|]. split; [done|].
    rewrite Ho3, Ho2, Ho1. destruct c as [? []]. reflexivity.
Qed.

(** X12: in each dialect, a well-formed header, a blank line and
    paragraphs separated by a blank line and any number of further line
    feeds parse to the record of the header whose body is made of the
    paragraphs and of every line feed between them, line feeds before the
    first paragraph included; when a blank line and trailer lines follow,
    with any number of line feeds before and after each, the footers are
    those of the trailers and the body is the same; with trailer lines
    alone the body is empty. *)
Theorem message_with_body (x : machine) (h : header) (gs : list (nat * paragraph))
    (k : nat) (g : paragraph) (j : nat) (ts : list (trailer * nat)) :
  header_ok (typeConfig x) h = true →
  Forall (λ g, paragraph_ok g.2 = true) gs → paragraph_ok g = true →
  Forall (λ t, trailer_ok t.1) ts →
  let head := render_header h ++ bytes LF ++ bytes LF in
  let text := blocks gs ++ feeds k ++ ptext g in
  let tail := feeds j ++ trailer_lines ts in
  returns (Parse x (head ++ text))
  = Some (Some (with_body (gostring text) (record_of h ∅)), None) ∧
  returns (Parse x (head ++ text ++ bytes LF ++ bytes LF ++ tail))
  = Some (Some (with_body (gostring text) (record_of h (footers_of ts.*1))), None) ∧
  returns (Parse x (head ++ tail)) = Some (Some (record_of h (footers_of ts.*1)), None).
Proof.
  intros Hok Hgs Hg Hts head text tail.
  destruct (paragraph_ok_parts g Hg) as (Hk & Hbr & Hnb & Hlen).
  split; [|split].
  - destruct (header_read x h (bytes LF ++ bytes LF ++ text) Hok)
      as (c1 & n & c & He & H0 & I0).
    destruct (descr_then_blank_line (typeConfig x) x _ _ _ c I0) as (c2 & H2 & I2).
    destruct I2 as (Ha & Hp & _ & _ & _ & Hcnt & Ho).
    subst text.
    destruct (paragraphs_read gs c2 _ Hgs Ha Hp)
      as (c3 & bd3 & H3 & Ha3 & Hp3 & Hcnt3 & Hl3 & Ho3 & Hbd3);
      [by rewrite Ho | lia | lia |].
    destruct (feeds_counted k c3 _ Ha3 Hp3)
      as (c4 & H4 & Ha4 & Hp4 & Hcnt4 & Hl4 & Hk4 & Ho4).
    destruct (first_word_rewinds c4 (pword g) (prest g) Hk Hbr Ha4 Hp4)
      as (c5 & H5 & Ha5 & Hp5 & Hpb5 & Hcnt5 & Ho5); [by rewrite Ho4, Ho3, Ho | |].
    { intros Hpos. destruct k as [|k]; [|apply Hl4; lia].
      destruct (Hk4 eq_refl) as [-> ->]. apply Hl3. lia. }
    fold (ptext g) in Ha5.
    destruct (ptext g) as [|b0 t] eqn:Ht; [cbn [length] in Hlen; lia|].
    destruct (body_parsed c5 b0 t Ha5) as (c6 & Hh & Hcs & Ho6);
      [lia | lia | lia | by eapply no_blank_line_app |].
    subst head. rewrite <- !app_assoc.
    rewrite (Parse_halts _ _ _ _ _ He
               (steps_halts _ _ _ _ _
                  (steps_trans _ _ _ _ _ _ H0
                     (steps_trans _ _ _ _ _ _ H2
                        (steps_trans _ _ _ _ _ _ H3 (steps_trans _ _ _ _ _ _ H4 H5)))) Hh)).
    rewrite epilogue_final by (rewrite Hcs; unfold firstFinal; lia).
    rewrite Ho6, Hcnt5, Hcnt4, Ho5, Ho4, Ho3, Ho. unfold with_body. fields.
    replace (Z.to_nat (countNewlines (m c3) + Z.of_nat k))
      with (Z.to_nat (countNewlines (m c3)) + k)%nat by lia.
    rewrite newlines_add, <- !append_assoc, Hbd3, Ho, Hcnt.
    by rewrite !gostring_app, gostring_feeds, !append_assoc.
  - destruct (header_read x h (bytes LF ++ bytes LF ++ text ++ bytes LF ++ bytes LF ++ tail)
                Hok) as (c1 & n & c & He & H0 & I0).
    destruct (descr_then_blank_line (typeConfig x) x _ _ _ c I0) as (c2 & H2 & I2).
    destruct I2 as (Ha & Hp & _ & _ & _ & Hcnt & Ho).
    subst text tail. rewrite <- !app_assoc in Ha.
    destruct (paragraphs_read gs c2 _ Hgs Ha Hp)
      as (c3 & bd3 & H3 & Ha3 & Hp3 & Hcnt3 & Hl3 & Ho3 & Hbd3);
      [by rewrite Ho | lia | lia |].
    destruct (block_read c3 k g _ Hg Ha3 Hp3)
      as (c4 & H4 & Ha4 & Hp4 & Hcnt4 & Hl4 & Ho4); [by rewrite Ho3, Ho | done | done |].
    destruct (feeds_counted j c4 _ Ha4 Hp4) as (c5 & H5 & Ha5 & Hp5 & _ & _ & _ & Ho5).
    rewrite <- (app_nil_r (trailer_lines ts)) in Ha5.
    destruct (trailer_lines_recognised ts c5 [] Hts Ha5 Hp5) as (c6 & H6 & Ha6 & Hp6 & Ho6).
    destruct (trailers_end c6 Ha6) as (c7 & Hh & Hcs & Ho7).
    subst head. rewrite <- !app_assoc. rewrite <- !app_assoc in He.
    rewrite (Parse_halts _ _ _ _ _ He
               (steps_halts _ _ _ _ _
                  (steps_trans _ _ _ _ _ _ H0
                     (steps_trans _ _ _ _ _ _ H2
                        (steps_trans _ _ _ _ _ _ H3
                           (steps_trans _ _ _ _ _ _ H4 (steps_trans _ _ _ _ _ _ H5 H6)))))
                  Hh)).
    rewrite epilogue_final by (rewrite Hcs; unfold firstFinal; lia).
    rewrite Ho7, Ho6, Ho5, Ho4, Ho3, Ho. unfold with_body, with_footers. fields.
    rewrite newlines_add, <- !append_assoc, Hbd3, Ho, Hcnt.
    by rewrite !gostring_app, gostring_feeds, !append_assoc.
  - destruct (header_read x h (bytes LF ++ bytes LF ++ tail) Hok)
      as (c1 & n & c & He & H0 & I0).
    destruct (descr_then_blank_line (typeConfig x) x _ _ _ c I0) as (c2 & H2 & I2).
    destruct I2 as (Ha & Hp & _ & _ & _ & Hcnt & Ho).
    subst tail.
    destruct (feeds_counted j c2 _ Ha Hp) as (c5 & H5 & Ha5 & Hp5 & _ & _ & _ & Ho5).
    rewrite <- (app_nil_r (trailer_lines ts)) in Ha5.
    destruct (trailer_lines_recognised ts c5 [] Hts Ha5 Hp5) as (c6 & H6 & Ha6 & Hp6 & Ho6).
    destruct (trailers_end c6 Ha6) as (c7 & Hh & Hcs & Ho7).
    subst head. rewrite <- !app_assoc.
    rewrite (Parse_halts _ _ _ _ _ He
               (steps_halts _ _ _ _ _
                  (steps_trans _ _ _ _ _ _ H0
                     (steps_trans _ _ _ _ _ _ H2 (steps_trans _ _ _ _ _ _ H5 H6))) Hh)).
    rewrite epilogue_final by (rewrite Hcs; unfold firstFinal; lia).
    by rewrite Ho7, Ho6, Ho5, Ho.
Qed.

Lemma message_with_body_witness :
  returns (Parse NewMachine
             (bytes ("fix: typo" +:+ LF +:+ LF +:+ "Correct the spelling." +:+ LF +:+ LF
                     +:+ LF +:+ "It was wrong" +:+ LF +:+ "for years." +:+ LF +:+ LF
                     +:+ "Refs: 12" +:+ LF +:+ LF +:+ "Reviewed-by: Ann" +:+ LF)))
  = Some (Some (mkCommit "fix" "" "typo" false
                  ("Correct the spelling." +:+ LF +:+ LF +:+ LF +:+ "It was wrong" +:+ LF
                   +:+ "for years.")
                  (footers_of [mkTrailer (bytes "Refs") (bytes ": ") (bytes "12");
                               mkTrailer (bytes "Reviewed-by") (bytes ": ") (bytes "Ann")])),
          None).
Proof.
  apply (proj1 (proj2 (message_with_body NewMachine
                  (mkHeader (bytes "fix") None false 0 (bytes "typo"))
                  [(0%nat, mkParagraph (bytes "Correct") (bytes " the spelling."))] 1%nat
                  (mkParagraph (bytes "It") (bytes (" was wrong" +:+ LF +:+ "for years.")))
                  0%nat
                  [(mkTrailer (bytes "Refs") (bytes ": ") (bytes "12"), 1%nat);
                   (mkTrailer (bytes "Reviewed-by") (bytes ": ") (bytes "Ann"), 0%nat)]
                  eq_refl
                  ltac:(repeat (apply Forall_cons; split; [reflexivity|]); by apply Forall_nil)
                  eq_refl
                  ltac:(repeat (apply Forall_cons; split; [trailer_checked|]);
                        by apply Forall_nil)))).
Defined.

(** ** Errors in the scope, in each dialect *)

(** A byte the scope cannot hold, other than the closing parenthesis,
    stops the machine with [ErrScope] on that byte. *)
Lemma scope_rejected (dl : TypeConfig) (c : conf) (s l : list byte) (b : byte) :
  Forall (λ b, scope_ok b = true) s → scope_ok b = false → code b ≠ 41 →
  ahead c (s ++ b :: l) → 0 <= p (m c) →
  ∃ c', halts (lbl dl 10) c c' ∧ cs (m c') = 0 ∧ output c' = output c ∧
        err (m c') = Some (diagnostic "illegal '" b "' character in scope"
                             (p (m c) + 1 + Z.of_nat (length s))).
Proof.
  intros Hs Hb Hb' Ha Hp. unfold scope_ok in Hb.
  destruct s as [|b1 s].
  - cbn [app] in Ha. next_byte Ha.
    open_conf c. cbn [m data p pe output] in *.
    cbn [length]. change (Z.of_nat 0) with 0. rewrite Z.add_0_r.
    destruct dl; labels_out; destruct lg;
      (eexists; split; [eapply halts_out; known; reflexivity|]);
      fields; repeat split; reported.
  - apply Forall_cons in Hs as [Hb1 Hs]. cbn [app] in Ha. next_byte Ha.
    pose proof (plain_steps s _ _ (set_pb (p (m c) + 1) (set_p (p (m c) + 1) c)) _
                  (scope_run dl s Hs) ltac:(by apply Hnext)) as Hloop.
    pose proof (ahead_app (set_p (p (m c) + 1) c) s _ ltac:(by apply Hnext)
                  (set_p (p (m c) + 1 + Z.of_nat (length s)) c)
                  eq_refl eq_refl eq_refl eq_refl) as Ha'.
    destruct (ahead_next _ _ _ Ha') as (Hat' & Hlt' & _).
    open_conf c. revert Hloop. unfold set_pb, set_p in *. fields. intros Hloop.
    cbn [m data p pe output] in *. unfold scope_ok in Hb1.
    replace (q + 1 + Z.of_nat (length (b1 :: s)))
      with (q + 1 + Z.of_nat (length s) + 1) by (cbn [length]; lia).
    destruct dl; revert Hloop; labels_out; intros Hloop; destruct lg;
      (eexists; split;
       [ eapply halts_goto; [known; reflexivity|];
         eapply steps_halts; [exact Hloop|];
         eapply halts_out; known; reflexivity |]);
      fields; repeat split; reported.
Qed.

(** The end of the input before the closing parenthesis stops the machine
    with [ErrScopeIncomplete] on the last byte. *)
Lemma scope_not_closed (dl : TypeConfig) (c : conf) (s : list byte) (b0 b : byte) :
  Forall (λ b, scope_ok b = true) s → ahead c s → 0 <= p (m c) →
  at_index (data (m c)) (p (m c)) = Some b0 → last (b0 :: s) = Some b →
  ∃ c', halts (lbl dl 10) c c' ∧ cs (m c') < firstFinal ∧ output c' = output c ∧
        err (m c') =
          Some (diagnostic
                  "expecting closing parentheses (')') character, got early exit after '"
                  b "' character" (p (m c) + 1 + Z.of_nat (length s))).
Proof.
  intros Hs Ha Hp Hb0 Hb.
  destruct s as [|b1 s].
  - destruct (ahead_end _ Ha) as [Hpe Heof]. injection Hb as <-.
    open_conf c. cbn [m data p pe eof output] in *. subst ef.
    replace q with (q + 1 - 1) in Hb0 by lia.
    cbn [length]. change (Z.of_nat 0) with 0. rewrite Z.add_0_r.
    destruct dl; labels_out; destruct lg;
      (eexists; split; [eapply halts_out; known; reflexivity|]);
      fields; repeat split; first [unfold firstFinal; lia | reported].
  - apply Forall_cons in Hs as [Hb1 Hs]. next_byte Ha.
    pose proof (plain_steps s _ _ (set_pb (p (m c) + 1) (set_p (p (m c) + 1) c)) []
                  (scope_run dl s Hs) ltac:(rewrite app_nil_r; by apply Hnext)) as Hloop.
    pose proof (ahead_app (set_p (p (m c) + 1) c) s []
                  ltac:(rewrite app_nil_r; by apply Hnext)
                  (set_p (p (m c) + 1 + Z.of_nat (length s)) c)
                  eq_refl eq_refl eq_refl eq_refl) as Ha'.
    destruct (ahead_end _ Ha') as [Hpe Heof].
    assert (at_index (data (m c)) (p (m c) + 1 + Z.of_nat (length s) + 1 - 1) = Some b)
      as Hlast.
    { destruct Ha as (Hi & _). rewrite Z.add_simpl_r, Hi.
      change (last (b1 :: s) = Some b) in Hb. by rewrite last_lookup in Hb. }
    open_conf c. revert Hloop. unfold set_pb, set_p in *. fields. intros Hloop.
    cbn [m data p pe eof output] in *. unfold scope_ok in Hb1. subst ef.
    replace (q + 1 + Z.of_nat (length (b1 :: s)))
      with (q + 1 + Z.of_nat (length s) + 1) by (cbn [length]; lia).
    destruct dl; revert Hloop; labels_out; intros Hloop; destruct lg;
      (eexists; split;
       [ eapply halts_goto; [known; reflexivity|];
         eapply steps_halts; [exact Hloop|];
         eapply halts_out; known; reflexivity |]);
      fields; repeat split; first [unfold firstFinal; lia | reported].
Qed.

(** The type and the opening parenthesis are read up to the label of the
    scope. *)
Lemma scope_opened (x : machine) (ty l : list byte) :
  type_ok (typeConfig x) ty = true →
  ∃ c1 n c, enter (initial x (ty ++ bytes "(" ++ l)) = Some (c1, Goto n) ∧
            steps n c1 (lbl (typeConfig x) 10) c ∧ in_header x (typed ty) l c.
Proof.
  intros Hty.
  destruct (type_recognised x ty (bytes "(" ++ l) Hty) as (c1 & n & c & He & H0 & I0).
  destruct (type_left (typeConfig x) x ty _ "("%byte c I0) as (c2 & H1 & I1);
    [vm_compute; in_list|].
  change (code "(" =? 40) with true in H1.
  change (code "(" =? 33) with false in I1. cbv iota in H1, I1.
  exists c1, n, c2. split; [exact He|]. split; [|exact I1].
  eapply steps_trans; [exact H0|]. eapply steps_goto; [exact H1|]. apply steps_refl.
Qed.

(** X13: in each dialect, inside the parentheses that follow the type, a
    byte that is not printable or is an opening parenthesis fails with
    [ErrScope] naming that byte and its offset, and an input that ends
    before the closing parenthesis fails with [ErrScopeIncomplete] naming
    the last byte and the length of the input. *)
Theorem scope_errors (x : machine) (ty s : list byte) :
  type_ok (typeConfig x) ty = true → Forall (λ b, scope_ok b = true) s →
  (∀ b rest, scope_ok b = false → code b ≠ 41 →
     returns (Parse x (ty ++ bytes "(" ++ s ++ b :: rest))
     = Some (None, Some (diagnostic "illegal '" b "' character in scope"
                           (Z.of_nat (length (ty ++ bytes "(" ++ s)))))) ∧
  (∀ b, last (bytes "(" ++ s) = Some b →
     returns (Parse x (ty ++ bytes "(" ++ s))
     = Some (None,
             Some (diagnostic
                     "expecting closing parentheses (')') character, got early exit after '"
                     b "' character" (Z.of_nat (length (ty ++ bytes "(" ++ s)))))).
Proof.
  intros Hty Hs. split.
  - intros b rest Hb Hb'.
    destruct (scope_opened x ty (s ++ b :: rest) Hty) as (c1 & n & c & He & H0 & I0).
    destruct I0 as (Ha & Hp & _ & _ & _ & _ & Ho).
    destruct (ahead_position x _ (ty ++ bytes "(") (s ++ b :: rest) _ c
                (entered_Inv _ _ _ _ _ _ He H0) ltac:(by rewrite <- app_assoc) Ha)
      as (Hpos & _).
    destruct (scope_rejected (typeConfig x) c s rest b Hs Hb Hb' Ha Hp)
      as (c' & Hh & Hcs & Ho' & Herr).
    rewrite (Parse_halts _ _ _ _ _ He (steps_halts _ _ _ _ _ H0 Hh)).
    apply epilogue_failed; [rewrite Hcs; unfold firstFinal; lia | by rewrite Ho', Ho |].
    rewrite Herr.
    replace (Z.of_nat (length (ty ++ bytes "(" ++ s)))
      with (p (m c) + 1 + Z.of_nat (length s)); [done|].
    rewrite Hpos, !length_app. lia.
  - intros b Hb.
    destruct (scope_opened x ty s Hty) as (c1 & n & c & He & H0 & I0).
    destruct I0 as (Ha & Hp & _ & _ & _ & _ & Ho).
    destruct (ahead_position x _ (ty ++ bytes "(") s _ c
                (entered_Inv _ _ _ _ _ _ He H0) ltac:(by rewrite <- app_assoc) Ha)
      as (Hpos & _ & _ & _ & Hdata).
    destruct (scope_not_closed (typeConfig x) c s "("%byte b Hs Ha Hp) as
      (c' & Hh & Hcs & Ho' & Herr); [|done|].
    { rewrite Hdata. replace (p (m c)) with (Z.of_nat (length (ty ++ bytes "(")) - 1) by lia.
      rewrite app_assoc.
      rewrite <- (Z.add_0_r (Z.of_nat (length (ty ++ bytes "(")) - 1)).
      pose proof (at_index_app (ty) (bytes "(" ++ s) 0) as Hi.
      rewrite <- app_assoc. rewrite length_app. change (length (bytes "(")) with 1%nat.
      replace (Z.of_nat (length ty + 1) - 1 + 0) with (Z.of_nat (length ty) + Z.of_nat 0)
        by lia.
      by rewrite Hi. }
    rewrite (Parse_halts _ _ _ _ _ He (steps_halts _ _ _ _ _ H0 Hh)).
    apply epilogue_failed; [done | by rewrite Ho', Ho |].
    rewrite Herr.
    replace (Z.of_nat (length (ty ++ bytes "(" ++ s)))
      with (p (m c) + 1 + Z.of_nat (length s)); [done|].
    rewrite Hpos, !length_app. lia.
Qed.

Lemma scope_errors_witness :
  returns (Parse (WithTypes TypesConventional NewMachine) (bytes "docs(a(b): x"))
  = Some (None, Some "illegal '(' character in scope: col=06") ∧
  returns (Parse (WithTypes TypesFreeForm NewMachine) (bytes "wip(core"))
  = Some (None,
          Some "expecting closing parentheses (')') character, got early exit after 'e' character: col=08").
Proof.
  split.
  - apply (proj1 (scope_errors (WithTypes TypesConventional NewMachine)
                    (bytes "docs") (bytes "a") eq_refl
                    ltac:(repeat (apply Forall_cons; split; [reflexivity|]);
                          by apply Forall_nil))
             "("%byte (bytes "b): x") eq_refl ltac:(by vm_compute)).
  - apply (proj2 (scope_errors (WithTypes TypesFreeForm NewMachine)
                    (bytes "wip") (bytes "core") eq_refl
                    ltac:(repeat (apply Forall_cons; split; [reflexivity|]);
                          by apply Forall_nil))
             "e"%byte eq_refl).
Defined.

(** ** Errors in the type *)

Lemma matches_ci_take (pre kw : list byte) :
  matches_ci pre kw = true → ToLower pre = take (length pre) kw.
Proof.
  revert kw. induction pre as [|b pre IH]; intros [|k kw] H; try done.
  cbn [matches_ci] in H. apply andb_true_iff in H as [Hb H].
  apply Byte.byte_dec_bl in Hb. cbn [ToLower map length take]. rewrite Hb. f_equal.
  by apply IH.
Qed.

Lemma stem_stems (kws : list (list byte)) (pre : list byte) :
  stem kws pre = true → In (ToLower pre) (stems kws).
Proof.
  unfold stem, stems. intros H. apply existsb_exists in H as (kw & Hin & H).
  apply andb_true_iff in H as [Hm Hl]. apply Nat.ltb_lt in Hl.
  apply in_flat_map. exists kw. split; [done|].
  apply in_map_iff. exists (length pre). split; [by rewrite (matches_ci_take _ _ Hm)|].
  apply in_seq. lia.
Qed.

Lemma lower_byte_twice (b : byte) : lower_byte (lower_byte b) = lower_byte b.
Proof. by destruct b. Qed.

Lemma matches_ci_ToLower (pre kw : list byte) :
  matches_ci (ToLower pre) kw = matches_ci pre kw.
Proof.
  revert kw. induction pre as [|b pre IH]; intros [|k kw]; try done.
  cbn [ToLower map matches_ci]. rewrite lower_byte_twice. f_equal. apply IH.
Qed.

Lemma begins_lower (kws : list (list byte)) (pre : list byte) (b : byte) :
  begins kws (pre ++ [b]) = begins kws (ToLower pre ++ [lower_byte b]).
Proof.
  unfold begins. induction kws as [|kw kws IH]; [done|]. cbn [existsb]. rewrite IH.
  f_equal. rewrite <- (matches_ci_ToLower (pre ++ [b])). unfold ToLower.
  by rewrite map_app.
Qed.

Lemma code_byte (b : byte) (z : Z) : code b = z → Byte.of_N (Z.to_N z) = Some b.
Proof. intros <-. unfold code. rewrite N2Z.id. apply Byte.of_to_N. Qed.

(** In a state of the type, a byte that leads to [tr0] stops the machine
    with [ErrType] on that byte. *)
Lemma type_rejected (n : Z) (c : conf) (b : byte) (l : list byte) :
  plain n = true → stCase n (code b) false = goto_tr tr0 → ahead c (b :: l) →
  0 <= p (m c) →
  ∃ c', halts n c c' ∧ cs (m c') = 0 ∧ output c' = output c ∧
        err (m c') = Some (diagnostic "illegal '" b "' character in commit message type"
                             (p (m c) + 1)).
Proof.
  intros Hn Hk Ha Hp. next_byte Ha. unfold plain in Hn.
  destruct (among n early_exit_states) eqn:H1; [done|].
  destruct (among n type_states) eqn:H2; [done|].
  destruct (among n dead_states) eqn:H3; [done|].
  destruct (among n [34; 92]) eqn:H4; [done|].
  open_conf c. cbn [m data p pe output] in *.
  destruct lg;
    (eexists; split;
     [ eapply halts_out; unfold st; rewrite H1; fields; unfold set_p; fields;
       (destruct (Z.eqb_spec (q + 1) e); [lia|]);
       unfold atCase; rewrite H3, H2, H4; fields; rewrite Hat; fields; rewrite Hk;
       known; reflexivity |]);
    fields; repeat split; reported.
Qed.

(** There, the end of the input stops it with [ErrTypeIncomplete] on the
    last byte. *)
Lemma type_unfinished (n : Z) (c : conf) (b0 : byte) :
  among n type_eof_states = true → ahead c [] → 0 <= p (m c) →
  at_index (data (m c)) (p (m c)) = Some b0 →
  ∃ c', halts n c c' ∧ cs (m c') < firstFinal ∧ output c' = output c ∧
        err (m c') = Some (diagnostic "incomplete commit message type after '" b0
                             "' character" (p (m c) + 1)).
Proof.
  intros Hn Ha Hp Hb0. apply among_In in Hn. vm_compute in Hn.
  destruct (ahead_end _ Ha) as [Hpe Heof].
  open_conf c. cbn [m data p pe eof output] in *. subst ef.
  replace q with (q + 1 - 1) in Hb0 by lia.
  repeat (destruct Hn as [<- | Hn]); [..| destruct Hn]; destruct lg;
    (eexists; split; [eapply halts_out; known; reflexivity|]);
    fields; repeat split; first [unfold firstFinal; lia | reported].
Qed.

Ltac rejected b Hv :=
  let lb := fresh "lb" in
  revert Hv; generalize (lower_byte b); intros lb Hv;
  cbv beta iota zeta delta [stCase letter switch]; tests; try reflexivity; exfalso;
  match goal with
  | H : (code lb =? _) = true |- _ =>
      apply Z.eqb_eq, code_byte in H; vm_compute in H; injection H as <-;
      vm_compute in Hv; discriminate Hv
  end.

(** The beginning of a keyword leads to a state of the type in which any
    byte that goes on with no keyword leads to [tr0]. *)
Lemma stem_run (x : machine) (b0 : byte) (pre l : list byte) :
  typeConfig x ≠ TypesFreeForm → stem (keywords (typeConfig x)) (b0 :: pre) = true →
  ∃ n0 n, enter (initial x (b0 :: pre ++ l))
          = Some (mark (initial x (b0 :: pre ++ l)), Goto n0) ∧
          plain_run n0 pre = Some n ∧ among n type_eof_states = true ∧ plain n = true ∧
          ∀ b, begins (keywords (typeConfig x)) ((b0 :: pre) ++ [b]) = false →
               stCase n (code b) false = goto_tr tr0.
Proof.
  intros Htc Hst. rewrite enter_first. cbv zeta.
  destruct x as [dt0 s0 q0 e0 ef0 pb0 er0 be0 tc0 lg0 key0 cnt0 last0].
  cbn [typeConfig] in *. generalize (b0 :: pre ++ l). intros input.
  unfold initial, reset. fields.
  apply stem_stems in Hst.
  destruct tc0; [| |done]; cbn [keywords] in *;
    [ (let v := (eval vm_compute in (stems minimal_types)) in
       change (stems minimal_types) with v in Hst)
    | (let v := (eval vm_compute in (stems conventional_types)) in
       change (stems conventional_types) with v in Hst) ];
    cbn [In ToLower map] in Hst;
    repeat (destruct Hst as [Hst | Hst]); try (exfalso; exact Hst); try discriminate Hst;
    injection Hst as Hb Ht;
    match goal with
    | |- context [stCase ?s (code b0) false] =>
        rewrite (keyword_states_case_blind s b0)
          by (unfold keyword_states; vm_compute; in_list)
    end;
    rewrite <- Hb; first_letter; cbv beta iota delta [exec];
    (eexists _, _; split; [reflexivity|]);
    (split;
     [ (rewrite plain_run_lower by (left; unfold keyword_states; vm_compute; in_list));
       unfold ToLower; rewrite <- Ht; vm_compute; reflexivity |]);
    (split; [reflexivity|]); (split; [reflexivity|]);
    intros b Hv; rewrite (begins_lower _ (b0 :: pre) b) in Hv;
    cbn [ToLower map] in Hv; rewrite <- Hb, <- Ht in Hv;
    (rewrite keyword_states_case_blind by (unfold keyword_states; vm_compute; in_list));
    rejected b Hv.
Qed.

(** A first byte that begins no keyword stops the machine at once. *)
Lemma first_byte_rejected (x : machine) (b : byte) (rest : list byte) :
  typeConfig x ≠ TypesFreeForm → begins (keywords (typeConfig x)) [b] = false →
  returns (Parse x (b :: rest))
  = Some (None, Some (diagnostic "illegal '" b "' character in commit message type" 0)).
Proof.
  intros Htc Hv.
  destruct x as [dt0 s0 q0 e0 ef0 pb0 er0 be0 tc0 lg0 key0 cnt0 last0].
  cbn [typeConfig] in *.
  assert (∀ c0, cs (m c0) = (match tc0 with
                             | TypesFreeForm => enFreeFormTypesMain
                             | TypesConventional => enConventionalTypesMain
                             | TypesMinimal => start
                             end) →
                stCase (cs (m c0)) (code b) false = goto_tr tr0) as Hd.
  { intros c0 ->. rewrite (begins_lower _ [] b) in Hv. cbn [ToLower map app] in Hv.
    destruct tc0; [| |done]; cbn [keywords] in Hv;
      (rewrite keyword_states_case_blind by (unfold keyword_states; vm_compute; in_list));
      unfold start, enConventionalTypesMain; rejected b Hv. }
  pose proof (enter_first (mkMachine dt0 s0 q0 e0 ef0 pb0 er0 be0 tc0 lg0 key0 cnt0 last0)
                b rest) as He.
  cbv zeta in He. rewrite (Hd (initial (mkMachine dt0 s0 q0 e0 ef0 pb0 er0 be0 tc0 lg0 key0 cnt0 last0)
                 (b :: rest)) eq_refl) in He. clear Hd Hv.
  destruct tc0; [| |done]; destruct lg0;
    (erewrite Parse_out;
     [| rewrite He; unfold initial, reset, emptyCommit; fields; known; reflexivity]);
    failed.
Qed.

(** X14: in the two dialects with keywords, a byte that goes on with no
    keyword fails with [ErrType] naming that byte and its zero-based
    offset, and an input that stops within a keyword fails with
    [ErrTypeIncomplete] naming its last byte and the length of the
    input. *)
Theorem keyword_errors (x : machine) (pre : list byte) (b : byte) :
  typeConfig x ≠ TypesFreeForm →
  let kws := keywords (typeConfig x) in
  (∀ rest, stem kws pre = true → begins kws (pre ++ [b]) = false →
     returns (Parse x (pre ++ b :: rest))
     = Some (None, Some (diagnostic "illegal '" b "' character in commit message type"
                           (Z.of_nat (length pre))))) ∧
  (stem kws (pre ++ [b]) = true →
   returns (Parse x (pre ++ [b]))
   = Some (None, Some (diagnostic "incomplete commit message type after '" b
                         "' character" (Z.of_nat (length pre) + 1)))).
Proof.
  intros Htc kws. split.
  - intros rest Hst Hv. destruct pre as [|b0 pre].
    { by apply first_byte_rejected. }
    destruct (stem_run x b0 pre (b :: rest) Htc Hst) as (n0 & n & He & Hrun & _ & Hn & Hd).
    pose proof (initial_ahead x b0 (pre ++ b :: rest)) as Ha.
    pose proof (plain_steps pre n0 n _ _ Hrun Ha) as Hs.
    set (c := set_p _ _) in Hs.
    assert (ahead c (b :: rest)) as Hc.
    { apply (ahead_app _ _ _ Ha); subst c; by destruct x. }
    destruct (type_rejected n c b rest Hn (Hd b Hv) Hc) as (c' & Hh & Hcs & Ho & Herr).
    { subst c. destruct x. unfold set_p, mark, set_pb, initial, reset. fields. lia. }
    cbn [app]. rewrite (Parse_halts _ _ _ _ _ He (steps_halts _ _ _ _ _ Hs Hh)).
    apply epilogue_failed; [rewrite Hcs; unfold firstFinal; lia | |].
    + rewrite Ho. subst c. by destruct x.
    + rewrite Herr. do 3 f_equal. subst c. destruct x.
      unfold set_p, mark, set_pb, initial, reset. fields. cbn [length]. lia.
  - intros Hst. destruct (pre ++ [b]) as [|b0 t] eqn:Hin.
    { by destruct pre. }
    destruct (stem_run x b0 t [] Htc Hst) as (n0 & n & He & Hrun & Hn & _ & _).
    rewrite app_nil_r in He.
    pose proof (initial_ahead x b0 t) as Ha. rewrite <- (app_nil_r t) in Ha at 2.
    pose proof (plain_steps t n0 n _ _ Hrun Ha) as Hs.
    set (c := set_p _ _) in Hs.
    assert (ahead c []) as Hc.
    { apply (ahead_app _ _ _ Ha); subst c; by destruct x. }
    assert (p (m c) = Z.of_nat (length t) ∧ data (m c) = b0 :: t ∧ output c = emptyCommit)
      as (Hp & Hdata & Hout).
    { subst c. destruct x. unfold set_p, mark, set_pb, initial, reset. fields.
      repeat split. }
    assert (length (b0 :: t) = S (length pre)) as Hlen
      by (rewrite <- Hin, length_app; cbn [length]; lia).
    destruct (type_unfinished n c b Hn Hc) as (c' & Hh & Hcs & Ho & Herr); [lia | |].
    { rewrite Hdata, Hp.
      replace (Z.of_nat (length t)) with (Z.of_nat (length (b0 :: t)) - 1)
        by (cbn [length]; lia).
      apply at_index_last. rewrite <- Hin. apply last_snoc. }
    rewrite (Parse_halts _ _ _ _ _ He (steps_halts _ _ _ _ _ Hs Hh)).
    apply epilogue_failed; [done | by rewrite Ho, Hout |].
    rewrite Herr, Hp. do 3 f_equal. cbn [length] in Hlen. lia.
Qed.

Lemma keyword_errors_witness :
  returns (Parse (WithTypes TypesConventional NewMachine) (bytes "refresh: x"))
  = Some (None, Some "illegal 'r' character in commit message type: col=03") ∧
  returns (Parse (WithTypes TypesConventional NewMachine) (bytes "Sty"))
  = Some (None, Some "incomplete commit message type after 'y' character: col=03").
Proof.
  split.
  - exact (proj1 (keyword_errors (WithTypes TypesConventional NewMachine) (bytes "ref")
                    "r"%byte ltac:(done)) (bytes "esh: x") eq_refl eq_refl).
  - exact (proj2 (keyword_errors (WithTypes TypesConventional NewMachine) (bytes "St")
                    "y"%byte ltac:(done)) eq_refl).
Defined.

(** X15: in each dialect the empty input fails with [ErrEmpty] at offset
    0, and in the free-form dialect a first byte that is not printable
    fails with [ErrType] naming that byte at offset 0. *)
Theorem nothing_to_read (x : machine) :
  returns (Parse x []) = Some (None, Some "empty input: col=00") ∧
  (typeConfig x = TypesFreeForm →
   ∀ b rest, printable b = false →
     returns (Parse x (b :: rest))
     = Some (None, Some (diagnostic "illegal '" b "' character in commit message type" 0))).
Proof.
  destruct x as [dt0 s0 q0 e0 ef0 pb0 er0 be0 tc0 lg0 key0 cnt0 last0]. split.
  - destruct tc0, lg0, be0; vm_compute; reflexivity.
  - cbn [typeConfig]. intros -> b rest Hb. unfold printable in Hb.
    destruct lg0;
      (erewrite Parse_out;
       [| unfold initial, reset, emptyCommit, enFreeFormTypesMain; known; reflexivity]);
      failed.
Qed.

Lemma nothing_to_read_witness :
  returns (Parse (WithTypes TypesFreeForm NewMachine) (bytes (LF +:+ "fix: x")))
  = Some (None, Some (diagnostic "illegal '" "010"%byte "' character in commit message type" 0)).
Proof.
  exact (proj2 (nothing_to_read (WithTypes TypesFreeForm NewMachine)) eq_refl
           "010"%byte (bytes "fix: x") eq_refl).
Defined.

(** ** A trailer without its value *)

Lemma epilogue_silent (c : conf) :
  cs (m c) < firstFinal → err (m c) = None →
  returns (epilogue c)
  = Some (if bestEffort (m c) && minimal (output c) then Some (output c) else None, None).
Proof.
  intros Hcs He. unfold epilogue, export.
  destruct (Z.ltb_spec (cs (m c)) firstFinal); [|lia].
  rewrite He. by destruct (bestEffort (m c) && minimal (output c)).
Qed.

(** Where the value of a trailer is read, what cuts it short stops the
    machine below the final states, and no error is recorded. *)
Lemma value_stopped (c : conf) (v rest : list byte) :
  Forall (λ b, printable b = true) v → value_cut v rest = true →
  ahead c (v ++ rest) → 0 <= p (m c) →
  ∃ c', halts 33 c c' ∧ cs (m c') < firstFinal ∧ output c' = output c ∧
        err (m c') = err (m c).
Proof.
  intros Hv Hcut Ha Hp. destruct v as [|b0 v].
  - cbn [app] in Ha. destruct rest as [|b rest].
    + destruct (ahead_end _ Ha) as [Hpe Heof].
      open_conf c. cbn [m data p pe eof output err] in *. subst ef.
      eexists. split; [eapply halts_out; known; reflexivity|].
      fields; repeat split; unfold firstFinal; lia.
    + cbn [value_cut] in Hcut. rewrite andb_true_r in Hcut. apply negb_true_iff in Hcut.
      unfold printable in Hcut. next_byte Ha.
      open_conf c. cbn [m data p pe eof output err] in *.
      eexists. split; [eapply halts_out; known; reflexivity|].
      fields; repeat split; unfold firstFinal; lia.
  - apply Forall_cons in Hv as [Hb0 Hv]. destruct rest as [|b rest]; [done|].
    cbn [value_cut] in Hcut. apply andb_true_iff in Hcut as [Hb Hnl].
    apply negb_true_iff in Hb. unfold printable in Hb, Hb0.
    cbn [app] in Ha. next_byte Ha.
    pose proof (plain_steps v 90 90 (set_pb (p (m c) + 1) (set_p (p (m c) + 1) c)) _
                  (value_run v Hv) ltac:(by apply Hnext)) as Hloop.
    pose proof (ahead_app (set_p (p (m c) + 1) c) v _ ltac:(by apply Hnext)
                  (set_p (p (m c) + 1 + Z.of_nat (length v)) c)
                  eq_refl eq_refl eq_refl eq_refl) as Ha1.
    destruct (ahead_next _ _ _ Ha1) as (Hat1 & Hlt1 & _).
    open_conf c. revert Hloop. unfold set_pb, set_p in *. fields. intros Hloop.
    cbn [m data p pe eof output err] in *.
    eexists. split.
    + eapply halts_goto; [known; reflexivity|].
      eapply steps_halts; [exact Hloop|].
      eapply halts_out; known; reflexivity.
    + fields; repeat split; unfold firstFinal; lia.
Qed.

(** X16: in each dialect, after a header, a blank line and any trailers,
    a trailer whose value is missing at the end of the input, or is cut
    short by a byte that is not printable, makes [Parse] fail without an
    error: it returns no record and no error, and in best-effort mode the
    record with the footers read before, and no error. *)
Theorem trailer_value_missing (x : machine) (h : header) (ts : list trailer)
    (t : trailer) (v rest : list byte) :
  header_ok (typeConfig x) h = true → Forall trailer_ok ts → trailer_ok t →
  Forall (λ b, printable b = true) v → value_cut v rest = true →
  returns (Parse x (render_header h ++ bytes LF ++ bytes LF ++ concat (render <$> ts)
                    ++ tkey t ++ tsep t ++ v ++ rest))
  = Some (if bestEffort x then Some (record_of h (footers_of ts)) else None, None).
Proof.
  intros Hok Hts Ht Hv Hcut.
  destruct (message_read x h ts (tkey t ++ tsep t ++ v ++ rest) Hok Hts)
    as (c1 & n & c & He & Hs & Ha & Hpos & Hp & Hdata & Ho).
  destruct (token_recognised c t _ Ht Ha Hp) as [Hkey Hsep].
  set (c33 := set_currentFooterKey _ _) in Hkey.
  assert (ahead c33 (v ++ rest)) as Ha1.
  { rewrite (app_assoc (tkey t)) in Ha.
    apply (ahead_app c _ _ Ha); clear Hkey; subst c33; open_conf c; try reflexivity.
    unfold set_currentFooterKey, set_pb, set_p. fields. rewrite length_app. lia. }
  assert (0 <= p (m c33) ∧ output c33 = output c) as [Hp1 Ho1].
  { clear Hkey Ha1 Ha. subst c33. open_conf c.
    unfold set_currentFooterKey, set_pb, set_p. fields. cbn [m p] in Hp. split; [lia|done]. }
  pose proof (steps_trans _ _ _ _ _ _ Hs Hkey) as Hs1.
  pose proof (entered_Inv _ _ _ _ _ _ He Hs1) as (_ & _ & _ & _ & _ & Herr & _).
  destruct (value_stopped c33 v rest Hv Hcut Ha1 Hp1) as (c' & Hh & Hcs & Ho' & Herr').
  pose proof (steps_halts _ _ _ _ _ Hs1 Hh) as Hhalt.
  destruct (halts_Left _ _ _ _ _ He Hhalt) as (Hbe & _).
  rewrite <- !app_assoc in He.
  rewrite (Parse_halts _ _ _ _ _ He Hhalt).
  rewrite (epilogue_silent _ Hcs ltac:(by rewrite Herr')), Hbe, Ho', Ho1, Ho.
  by rewrite (record_of_minimal _ h (footers_of ts) Hok), andb_true_r.
Qed.

Lemma trailer_value_missing_witness :
  returns (Parse NewMachine (bytes ("feat: x" +:+ LF +:+ LF +:+ "Refs: 1" +:+ LF +:+ "Closes #")))
  = Some (None, None) ∧
  returns (Parse (WithBestEffort NewMachine)
             (bytes ("feat: x" +:+ LF +:+ LF +:+ "Refs: 1" +:+ LF +:+ "Closes #")))
  = Some (Some (mkCommit "feat" "" "x" false ""
                  (footers_of [mkTrailer (bytes "Refs") (bytes ": ") (bytes "1")])), None).
Proof.
  split.
  - apply (trailer_value_missing NewMachine (mkHeader (bytes "feat") None false 0 (bytes "x"))
             [mkTrailer (bytes "Refs") (bytes ": ") (bytes "1")]
             (mkTrailer (bytes "Closes") (bytes " #") (bytes "2")) [] [] eq_refl
             ltac:(repeat (apply Forall_cons; split; [trailer_checked|]); by apply Forall_nil)
             ltac:(trailer_checked) ltac:(by apply Forall_nil) eq_refl).
  - apply (trailer_value_missing (WithBestEffort NewMachine)
             (mkHeader (bytes "feat") None false 0 (bytes "x"))
             [mkTrailer (bytes "Refs") (bytes ": ") (bytes "1")]
             (mkTrailer (bytes "Closes") (bytes " #") (bytes "2")) [] [] eq_refl
             ltac:(repeat (apply Forall_cons; split; [trailer_checked|]); by apply Forall_nil)
             ltac:(trailer_checked) ltac:(by apply Forall_nil) eq_refl).
Defined.

(** ** The body after a byte that begins no token *)

Lemma slice_length (bs t : list byte) (lo hi : Z) :
  slice bs lo hi = Some t → Z.of_nat (length t) = hi - lo.
Proof.
  unfold slice.
  destruct (Z.leb_spec 0 lo); [|done]. destruct (Z.leb_spec lo hi); [|done].
  destruct (Z.leb_spec hi (Z.of_nat (length bs))); [|done]. cbn [andb].
  intros [= <-]. rewrite length_take, length_drop. lia.
Qed.

Lemma ahead_intro (c : conf) (pre l : list byte) :
  data (m c) = pre ++ l → p (m c) + 1 = Z.of_nat (length pre) →
  pe (m c) = Z.of_nat (length (data (m c))) → eof (m c) = pe (m c) → ahead c l.
Proof.
  intros Hd Hp Hpe Heof. unfold ahead. rewrite Hd in *. rewrite length_app in Hpe.
  split; [|split; [lia|split; [done|by rewrite length_app]]].
  intros i. rewrite Hp. apply at_index_app.
Qed.

Lemma descr_no_blank_line (d : list byte) :
  forallb descr_byte d = true → no_blank_line (d ++ bytes LF) = true.
Proof.
  induction d as [|x d IH]; [done|]. cbn [forallb]. intros H.
  apply andb_true_iff in H as [Hx Hd]. cbn [app no_blank_line]. rewrite (IH Hd), andb_true_r.
  unfold descr_byte in Hx. apply negb_true_iff in Hx. apply negb_true_iff.
  destruct d as [|y d]; cbn [app blank_line]; by rewrite Hx.
Qed.

(** A line feed ends the description and a second one leads to the
    beginning of the trailers; the marker stays where the description
    began. *)
Lemma descr_then_blank_line_marker (dl : TypeConfig) (x : machine)
    (o : conventionalCommit) (d l : list byte) (c : conf) :
  in_descr x o d (bytes LF ++ bytes LF ++ l) c →
  ∃ c', steps (lbl dl 85) c 87 c' ∧ in_header x (with_descr (gostring d) o) l c' ∧
        pb (m c') = pb (m c) ∧ p (m c') = p (m c) + 2.
Proof.
  intros ((Ha & Hp & Herr & Hbe & Hlg & Hcnt & Hout) & Hpb & Hsl).
  change (bytes LF ++ bytes LF ++ l) with ("010"%byte :: "010"%byte :: l) in Ha.
  next_byte Ha.
  pose proof (Hnext (set_p (p (m c) + 1) c) eq_refl eq_refl eq_refl eq_refl) as Ha1.
  destruct (ahead_next _ _ _ Ha1) as (Hat1 & Hlt1 & Hnext1).
  open_conf c. unfold set_p in *.
  cbn [m data p pe eof pb err bestEffort logger countNewlines output] in *.
  subst o.
  destruct dl; labels_out;
    (eexists; split;
     [eapply steps_goto; [known; reflexivity|];
      eapply steps_goto; [known; reflexivity|]; apply steps_refl|]);
    (split; [unfold with_descr; header_facts Hnext1 | fields; split; [reflexivity | lia]]).
Qed.

(** Where the trailers are tried and no footer is recorded, a byte that
    begins neither a token nor an empty line sends the machine to the body,
    the cursor one before the marker. *)
Lemma other_byte_rewinds (c : conf) (b : byte) (l : list byte) :
  ahead c (b :: l) → 0 <= p (m c) → line_start b = false →
  size (footers (output c)) = 0%nat →
  ∃ c', st 87 c = Some (c', Goto 34) ∧ data (m c') = data (m c) ∧
        pe (m c') = pe (m c) ∧ eof (m c') = eof (m c) ∧
        countNewlines (m c') = countNewlines (m c) ∧ output c' = output c ∧
        pb (m c') = (if 0 <? countNewlines (m c) then lastNewline (m c) + 1
                     else pb (m c)) ∧
        p (m c') = pb (m c') - 1.
Proof.
  intros Ha Hp Hb Hf. next_byte Ha. unfold line_start, alnum_byte in Hb.
  open_conf c. cbn [m data p pe eof pb countNewlines lastNewline output footers] in *.
  destruct (Z.ltb_spec 0 cnt);
    (eexists; split; [known; reflexivity|]); fields; repeat split.
Qed.

(** A single byte before a blank line is not appended to the body. *)
Lemma lone_byte_dropped (c : conf) (b0 : byte) (l : list byte) :
  ahead c (b0 :: bytes LF ++ bytes LF ++ l) → pb (m c) = p (m c) + 1 → 0 <= p (m c) →
  ∃ c', st 34 c = Some (c', Goto 87) ∧ ahead c' (bytes LF ++ bytes LF ++ l) ∧
        0 <= p (m c') ∧ countNewlines (m c') = Z.min (countNewlines (m c)) 0 ∧
        output c' = with_body (body (output c)
                               +:+ newlines (Z.to_nat (countNewlines (m c)))) (output c).
Proof.
  intros Ha Hpb Hp. pose proof Ha as (_ & _ & _ & Hlen). next_byte Ha.
  pose proof (code_range b0) as Hc.
  assert (blank_line (bytes LF ++ bytes LF ++ l) = true) as Hbl by done.
  open_conf c. cbn [m data p pe eof pb countNewlines output body] in *. subst pb0.
  eexists. split; [known_body Hnext; reflexivity|].
  split; [apply Hnext; reflexivity|]. fields. split; [lia|]. split; [reflexivity|].
  unfold with_body. fields. by rewrite append_empty_r.
Qed.

(** After a well-formed header and a blank line, a byte that begins
    neither a token nor an empty line takes the machine back to the first
    byte of the description, which it reads as the body. *)
Lemma description_read_again (x : machine) (h : header) (b : byte) (l : list byte) :
  header_ok (typeConfig x) h = true → line_start b = false →
  ∃ c1 n c, enter (initial x (render_header h ++ bytes LF ++ bytes LF ++ b :: l))
            = Some (c1, Goto n) ∧
            steps n c1 34 c ∧
            ahead c (hdescr h ++ bytes LF ++ bytes LF ++ b :: l) ∧
            pb (m c) = p (m c) + 1 ∧ 0 <= p (m c) ∧ countNewlines (m c) = 0 ∧
            output c = with_descr (gostring (hdescr h)) (record_before_colon h).
Proof.
  intros Hok Hb.
  destruct (header_read x h (bytes LF ++ bytes LF ++ b :: l) Hok)
    as (c1 & n & c & He & H0 & I0).
  destruct (descr_then_blank_line_marker (typeConfig x) x _ _ _ c I0)
    as (c2 & H2 & I2 & Hpb2 & Hp2).
  destruct I0 as (_ & _ & Hsl). apply slice_length in Hsl.
  destruct I2 as (Ha & Hp & _ & _ & _ & Hcnt & Ho).
  pose proof (steps_trans _ _ _ _ _ _ H0 H2) as Hs.
  destruct (ahead_position x _ (render_header h ++ bytes LF ++ bytes LF) (b :: l) _ c2
              (entered_Inv _ _ _ _ _ _ He Hs) ltac:(by rewrite <- !app_assoc) Ha)
    as (Hpos & _ & _ & _ & Hd).
  destruct (other_byte_rewinds c2 b l Ha Hp Hb) as
    (c3 & H3 & Hd3 & Hpe3 & Heof3 & Hcnt3 & Ho3 & Hpb3 & Hp3); [by rewrite Ho|].
  rewrite Hcnt in Hpb3. change (0 <? 0) with false in Hpb3. cbn iota in Hpb3.
  destruct Ha as (_ & _ & Heof & Hpe).
  rewrite !length_app in Hpos. unfold render_header, from_colon in Hpos.
  rewrite !length_app in Hpos. change (length (bytes LF)) with 1%nat in Hpos.
  exists c1, n, c3. split; [done|]. split.
  { eapply steps_trans; [exact Hs|]. eapply steps_goto; [exact H3 | apply steps_refl]. }
  split.
  { apply (ahead_intro c3 (before_colon h ++ bytes ": " ++ replicate (hspaces h) " "%byte)).
    - rewrite Hd3, Hd. unfold render_header, from_colon. by rewrite <- !app_assoc.
    - rewrite !length_app. lia.
    - by rewrite Hpe3, Hd3.
    - by rewrite Heof3, Hpe3. }
  split; [lia|]. split.
  { change (length (bytes ": ")) with 2%nat in Hpos. lia. }
  split; [by rewrite Hcnt3 | by rewrite Ho3].
Qed.

(** X18: in each dialect, after a well-formed header and a blank line, a
    text with no blank line in it whose first byte begins neither a trailer
    token nor an empty line is returned as the body together with the
    description and the blank line before it; a description of a single
    byte is left out of that body. *)
Theorem body_takes_description (x : machine) (h : header) (b : byte) (rest : list byte) :
  header_ok (typeConfig x) h = true →
  line_start b = false → no_blank_line (b :: rest) = true →
  returns (Parse x (render_header h ++ bytes LF ++ bytes LF ++ b :: rest))
  = Some (Some (with_body
                  (gostring (read_again (hdescr h) ++ bytes LF ++ bytes LF ++ b :: rest))
                  (record_of h ∅)), None).
Proof.
  intros Hok Hb Hnb.
  destruct (description_read_again x h b rest Hok Hb)
    as (c1 & n & c & He & Hs & Ha & Hpb & Hp & Hcnt & Ho).
  assert (size (footers (output c)) = 0%nat) as Hf by (by rewrite Ho).
  unfold header_ok in Hok. apply andb_true_iff in Hok as [_ Hd].
  destruct (hdescr h) as [|d0 d] eqn:Hdescr; [done|].
  apply andb_true_iff in Hd as [Hd0 Hd].
  assert (∃ c4, steps 34 c 87 c4 ∧ ahead c4 (bytes LF ++ bytes LF ++ b :: rest) ∧
                0 <= p (m c4) ∧ countNewlines (m c4) = 0 ∧
                output c4 = with_body (gostring (read_again (d0 :: d))) (output c))
    as (c4 & H4 & Ha4 & Hp4 & Hcnt4 & Ho4).
  { destruct d as [|d1 d].
    - destruct (lone_byte_dropped c d0 _ Ha Hpb Hp) as (c4 & H4 & Ha4 & Hp4 & Hcnt4 & Ho4).
      exists c4. split; [eapply steps_goto; [exact H4 | apply steps_refl]|].
      split; [done|]. split; [done|]. split; [lia|].
      rewrite Ho4, Hcnt, Ho. reflexivity.
    - destruct (body_parsed_to_blank_line c d0 (d1 :: d) (b :: rest))
        as (c4 & H4 & Ha4 & Hp4 & Hcnt4 & Ho4); try done; [lia|..].
      { apply (descr_no_blank_line (d0 :: d1 :: d)). cbn [forallb].
        unfold descr_first in Hd0. apply andb_true_iff in Hd0 as [Hd0 _].
        unfold descr_byte at 1. by rewrite Hd0. }
      exists c4. split; [done|]. split; [done|]. split; [done|]. split; [done|].
      rewrite Ho4, Hcnt, Ho. reflexivity. }
  destruct (blank_line_counted c4 (b :: rest) Ha4 Hp4)
    as (c5 & H5 & Ha5 & Hp5 & Hcnt5 & Hlast5 & Ho5).
  destruct (other_byte_rewinds c5 b rest Ha5 Hp5 Hb) as
    (c6 & H6 & Hd6 & Hpe6 & Heof6 & Hcnt6 & Ho6 & Hpb6 & Hp6); [by rewrite Ho5, Ho4|].
  rewrite Hcnt5, Hcnt4 in Hpb6. change (0 <? 0 + 2) with true in Hpb6. cbn iota in Hpb6.
  assert (ahead c6 (b :: rest)) as Ha6 by (apply (ahead_same c5); [done|done|lia|done|done]).
  destruct (body_parsed c6 b rest Ha6) as (c7 & Hh & Hcs & Ho7); [lia | lia | lia | done |].
  rewrite (Parse_halts _ _ _ _ _ He
             (steps_halts _ _ _ _ _
                (steps_trans _ _ _ _ _ _ Hs
                   (steps_trans _ _ _ _ _ _ H4
                      (steps_trans _ _ _ _ _ _ H5
                         (steps_goto _ _ _ _ _ _ H6 (steps_refl _ _))))) Hh)).
  rewrite epilogue_final by (rewrite Hcs; unfold firstFinal; lia).
  rewrite Ho7, Hcnt6, Hcnt5, Hcnt4, Ho6, Ho5, Ho4, Ho.
  rewrite !gostring_app. unfold record_of, with_body, with_descr, record_before_colon.
  fields. rewrite Hdescr. by do 2 f_equal.
Qed.

Lemma body_takes_description_witness :
  returns (Parse NewMachine (bytes ("fix: typo" +:+ LF +:+ LF +:+ "(see the docs)")))
  = Some (Some (mkCommit "fix" "" "typo" false
                  ("typo" +:+ LF +:+ LF +:+ "(see the docs)") ∅), None).
Proof.
  exact (body_takes_description NewMachine
           (mkHeader (bytes "fix") None false 0 (bytes "typo"))
           "("%byte (bytes "see the docs)") eq_refl eq_refl eq_refl).
Defined.
